(* ===== verification/_CoqProject ===== *)
-Q . S2P
Prelude.v
Bytes.v
Common.v
HeapPage.v
HeapPageProofs.v
HeapPageSpec.v
HeapPageRefine.v
HeapPageTheorems.v
HeapPageIter.v
LockManager.v
Types.v
TypesProofs.v
PageDebug.v
Aggregate.v
Float.v
Expr.v
ExprProofs.v
TxnManager.v
Storage.v
HeapStore.v
MemStore.v
MemStoreProofs.v
MemStoreTheorems.v
OpIter.v
OpIterProofs.v
OpIterTheorems.v
Graph.v
GraphProofs.v
GraphTheorems.v
Sql.v
Catalog.v
Stats.v
StatsEstimate.v
Mutator.v
MutatorProofs.v
MutatorTheorems.v
OpUpdate.v
QueryTestutil.v
TestUtil.v
TestUtilTheorems.v
Plan.v
Planner.v
PlannerProofs.v
PlanMerge.v
PlanBuilder.v
PlannerTheorems.v
PlanJson.v
PlanJsonProofs.v
PlanJsonCodec.v
PlanJsonTheorems.v
PlanDeps.v
Optimizer.v
OptimizerProofs.v
OptimizerSem.v
OptimizerPush.v
OptimizerProj.v
OptimizerTheorems.v
Translate.v
TranslateProofs.v
TranslateSpec.v
TranslateTheorems.v
Commands.v
Wire.v
WireTheorems.v
Database.v
Conductor.v
Server.v
ServerTheorems.v
Session.v
SessionTheorems.v
Worker.v
QueryEngine.v
Client.v
ClientTheorems.v
EndToEnd.v
CsvCompare.v
StorageTests.v
SqlLogicTest.v
SqlLogicTestTheorems.v
Minigrep.v
