(* ===== verification/Prelude.v ===== *)
(** * CrustyDB: a verification development

    The program is a relational database in Rust (workspace [src/src]): a
    storage layer, a query engine, a catalog and statistics, transactions, and a
    server around them.  This development models the parts that have a body and
    proves what makes them correct.  Each file opens with what it holds; this
    header says how they fit together.

    ** How the code is modelled

    A function that can fail is a Rocq function into [outcome] ([Ok], [Err] for a
    returned [Err], [Panic] for a panic).  Integers are [Z], kept at their width
    by [arith_u]/[arith_i]: an overflow panics or wraps around, by the [Profile]
    (overflow checks on or off), and theorems hold for both.  State is passed
    explicitly; a handler that changes state and then fails returns the changed
    state with the error.  Code of other crates ([serde], [csv], [chrono],
    [rand], the enumeration order of hash maps) is a class parameter, with the
    documented behaviour it is used for as a class of laws; witnesses instantiate
    every such class.

    ** Components, files and sources

    - [Prelude], [Bytes], [Common]: outcomes, machine integers, sorting, sums;
      byte arrays and little-endian integers; identifiers, errors and operators
      ([common/src/ids.rs], [error.rs], [operation.rs]).
    - [HeapPage] (with [Proofs], [Spec], [Refine], [Theorems], [Iter]): the
      slotted page of [storage/heapstore/src/page.rs] and [heap_page.rs], byte
      for byte.  [page_wf] is its invariant; [HeapPageRefine] shows that it
      implements a finite map from slot ids to records with a byte budget.
      [PageDebug] is the readable dump of a page ([page.rs]).
    - [LockManager]: the page lock table and the transaction states of
      [txn_manager/src]; reachable states by rule induction.
    - [Types], [TypesProofs]: fields, data types, schemas and tuples
      ([common/src/datatypes.rs], [lib.rs]), with IEEE arithmetic where the code
      uses [f64].  [Float] bounds the rounding errors of that arithmetic.
    - [Aggregate]: the step of the aggregate operator that has a body
      ([queryexe/src/opiterator/aggregate.rs]).
    - [Expr], [ExprProofs]: expression trees, binding, the bytecode compiler and
      the stack machine ([common/src/ast_expr.rs], [bytecode_expr.rs],
      [queryexe/src/query/planner.rs]) against the tree evaluator of
      [queryexe/src/stats/mod.rs].
    - [Storage]: the storage interface ([common/src/storage_trait.rs]) as the
      class [StorageTrait] of operations and the class [StorageLaws] of promises
      over an abstract view; the query engine is proved against it.  Opening,
      clearing and shutting down a manager are [StorageLifecycle], with
      [LifecycleLaws] for a restart.
    - [TxnManager]: the transaction manager the operators call, as an interface
      ([common/src/traits]) with the mock of [txn_manager/src], and the index
      manager ([index/src]).
    - [HeapStore]: the heap-file storage manager
      ([storage/heapstore/src/storage_manager.rs] and the files beside it); what
      the repository leaves to milestones is a panic of the model too.
    - [MemStore] (with [Proofs], [Theorems]): the in-memory storage manager
      ([storage/memstore/src]); containers are cells of a heap shared by the
      manager and its iterators.  It discharges [StorageLaws].
    - [OpIter] (with [Proofs], [Theorems]): the operators that have a body and
      the executor ([queryexe/src/opiterator], [query/executor.rs]); [OpUpdate]
      is the update operator, over any storage and transaction manager.
    - [Catalog], [Stats], [StatsEstimate]: table ids and metadata
      ([common/src/catalog.rs], [table.rs]); the reservoir sample and the estimates
      made from it ([queryexe/src/stats/mod.rs]).
    - [Mutator] (with [Proofs], [Theorems]): conversion, validation and insertion
      of tuples and the CSV import ([queryexe/src/mutator], [query/executor.rs],
      [common/src/data_reader.rs]).
    - [Graph] (with [Proofs], [Theorems]): plan graphs with their topological
      sort and reachability ([common/src/crusty_graph.rs]).
    - [Plan], [Planner] (with [PlannerProofs], [PlanMerge], [PlannerTheorems]):
      logical and physical plans ([common/src/logical_plan], [physical_plan]) and
      the planner ([queryexe/src/query/planner.rs]).  Plans are read as trees
      ([represents]) with a relational [meaning].  [PlanBuilder] is the builder
      of plans of [optimizer/src/testutil.rs].
    - [PlanJson] (with [Proofs], [Codec], [Theorems]), [PlanDeps]: the JSON forms
      of plans, written once over the class [PlanLike] that both kinds of plan
      instantiate, and the dependency queries of physical plans.
    - [Optimizer] (with [Proofs], [Sem], [Push], [Proj], [Theorems]): predicate
      and projection pushdown ([optimizer/src]) as walks over the plan graph,
      related to rewritings of trees.
    - [Sql], [Translate] (with [Proofs], [Spec], [Theorems]): the syntax trees of
      the [sqlparser] crate, the primary keys of [server/src/sql_parser.rs] and
      the translation of queries into plans
      ([queryexe/src/query/translate_and_validate.rs]); [query_tree] is the
      translation without the plan graph.
    - [Commands], [Wire] (with [WireTheorems]): commands, responses and results
      ([common/src/commands.rs], [query_result.rs]) and the bytes that carry them
      between [cli-crusty/src/lib.rs] and [server/src/server.rs].
    - [Database], [Conductor], [Server] (with [ServerTheorems]): query registrar
      and databases ([server/src/query_registrar.rs], [database_state.rs]), SQL statements on a
      database ([conductor.rs]), databases and connections ([server_state.rs]),
      the command handlers ([handler.rs]) and the sessions of [server.rs] as
      steps.  [Worker] is the worker pool ([worker.rs]), its threads in any
      interleaving.
    - [Session], [SessionTheorems]: a relational specification of SQL scripts and
      the proof that parsing, catalog, translation, planning, execution,
      ingestion, statistics and storage implement it together.
    - [QueryEngine]: the engine without a server of [server/src/server.rs].
    - [Client], [ClientTheorems], [EndToEnd]: the client of
      [cli-crusty/src/lib.rs] against the session thread of [server.rs], byte by
      byte, and the whole path from its text to the tables and back.
    - [CsvCompare], [SqlLogicTest], [SqlLogicTestTheorems]: the comparison of
      results ([utilities/src]) and the test harness
      ([e2e-tests/src/sqllogictest_utils.rs]) that runs files of statements
      against a server.
    - [TestUtil], [TestUtilTheorems], [QueryTestutil]: generators of test data
      and fixtures ([common/src/testutil.rs], [utilities/src/random.rs],
      [storage/heapstore/src/testutil.rs], [queryexe/src/testutil.rs]), with the
      random choices as a parameter.  [StorageTests]: the tests of the storage
      interface ([storage/src/storage_common.rs] and [sm_integration.rs]).
    - [Minigrep]: the stand-alone program [minigrep/src].

    ** What the theorems show

    - The whole system: a client that sends a script of CREATE TABLE, INSERT and
      SELECT statements over the network to a new server gets the answers of the
      relational specification, over any storage manager that keeps
      [StorageLaws], when each request has at most 1024 bytes and is found by one
      read and no other client acts; test files that agree with the specification pass one after
      the other and leave a server that stopped.  The client's exchanges amount to
      calls of the handler, whatever other clients do in between.
    - Refinement: any sequence of page calls (without empty records), of
      in-memory storage calls (until an insertion into a missing container poisons
      the locks; then every call panics) and of registrar calls, each a whole call
      after the other, answers as an abstract map does; a query is translated to a
      plan for exactly its tree, or fails as the tree translation does.  Free
      space is accounted for to the byte, compaction and the page iterator are
      complete.
    - Safety: locks exclude each other in every reachable state; table ids
      identify tables; the reservoir keeps its size and its counts; connections
      lead to databases and last; a server that was told to stop stops; a worker
      pool that is dropped runs every job once and every worker ends, in any
      interleaving; plans read from JSON are acyclic and below their root.
    - Compilation and execution: bytecode computes what the tree evaluator
      computes; a tree of operators ends and returns the tuples of its relational
      expression; a logical plan of scans, selections, projections and products
      is executed to the relation it stands for; the optimizer rules keep the
      value of a plan ([evaluate], where an expression that fails makes the plan
      fail): predicate pushdown under projections of plain columns and joins of
      different names, unless the new plan fails, which it cannot when every
      predicate is a comparison of columns and constants; projection pushdown
      for plans that are [narrowable]; what an [INSERT] or a CSV import stores is what the next scan
      returns; an [UPDATE] replaces the rows its child returns and no others;
      aggregates accumulate; estimates are exact on small tables and
      within one of the scaled share on large ones, rounding included.
    - Round trips: fields through bytes and text, the store through a restart in
      a directory with other files, records through a page, pages through their
      dump (no two pages have the same one), responses through the network in pieces of any
      size, commands through their text, plans through JSON, test files through
      their lines.
    - Algorithms: the topological sort is sound and complete; reachability and
      dependencies are decided; they end.  The comparisons of result files decide
      equality, permutation and inclusion up to hash collisions.
    - Test support: generated tuples are valid for their schema, generated byte
      vectors ascend, comparison without order decides permutation, a written
      plan is the plan the builder builds; a manager that keeps the laws of the
      storage interface passes the tests of that interface.
    - Behaviour that differs from what the code means to do is stated as lemmas
      next to the theorems: predicates that the optimizer loses, or moves below a
      renaming of their columns, two threads that begin one query, a reset during
      the connection to a database, GROUP BY without
      aggregates, requests of more than 1024 bytes, databases that share their
      tables, updates that hit the next record, containers that were removed and
      return after a restart, plans built with the operands of a product swapped,
      a panic on NULL in a NOT NULL column, and others.

    ** Fuel

    Loops whose end depends on data take fuel, and running out of it is reported
    as a panic, so that a theorem that promises a result also promises that the
    fuel was enough: the operator calls (for all large enough fuel), the import
    loop (one unit per record), operator construction (the height of the plan),
    edge lists (the number of edges), the topological sort (the number of nodes),
    the search ([reach_fuel]), dependencies (one more than the number of nodes),
    the optimizer rules (the height of the plan), the loops over a stream (its
    number of bytes, since every round moves one) and over CSV records (one more
    than their number), the lines of a page dump (the number of bytes) and the
    climb to the root of the workspace.  The client, the server and the test harness pass one fuel
    to all of these, and their theorems hold for all large enough fuel.

    ** What is not modelled

    The bodies the repository leaves unimplemented: the aggregate operator but for
    the step above, the join operators, the buffer pool and the loading of stored
    databases (the heap-file storage manager is modelled as the panics it is).
    Sockets; threads inside one command (but for the worker pool and the two races
    above); waiting for a lock; its poisoning by a panic (but for the worker pool
    and the in-memory storage manager); logging, configuration, the history of the
    terminal, timing, the daemon and the other tests. *)

(** ** Shared prelude *)

From Stdlib Require Export ZArith.
From stdpp Require Export base list list_numbers strings gmap sorting.

(** ** Outcomes

    A Rust function returns a value, returns [Err], or panics (an explicit
    [panic!], an [unwrap] of the wrong variant, an index out of range, an
    arithmetic overflow in a build that checks for it). *)

Inductive outcome (E A : Type) : Type :=
| Ok (a : A)
| Err (e : E)
| Panic.

Arguments Ok {E A} a.
Arguments Err {E A} e.
Arguments Panic {E A}.

#[export] Instance outcome_eq_dec `{EqDecision E, EqDecision A} :
  EqDecision (outcome E A).
Proof. solve_decision. Defined.

#[export] Instance outcome_ret E : MRet (outcome E) := fun _ a => Ok a.

#[export] Instance outcome_bind E : MBind (outcome E) :=
  fun _ _ f m =>
    match m with
    | Ok a => f a
    | Err e => Err e
    | Panic => Panic
    end.

(** [Result::unwrap] / [Option::unwrap]: anything but the good variant panics. *)
Definition unwrap {E A} (m : outcome E A) : outcome E A :=
  match m with Ok a => Ok a | _ => Panic end.

Definition unwrap_opt {E A} (o : option A) : outcome E A :=
  match o with Some a => Ok a | None => Panic end.

(** [Option::ok_or]. *)
Definition ok_or {E A} (o : option A) (e : E) : outcome E A :=
  match o with Some a => Ok a | None => Err e end.

Definition is_ok {E A} (m : outcome E A) : bool :=
  match m with Ok _ => true | _ => false end.

(** A [for] loop that carries a state and may leave by [?] or by a panic. *)
Fixpoint foldM {E A S} (f : S -> A -> outcome E S) (s : S) (l : list A) : outcome E S :=
  match l with
  | [] => Ok s
  | a :: l' => s' ← f s a; foldM f s' l'
  end.

(** [Iterator::map] whose closure may fail, collected into a [Vec]. *)
Fixpoint mapM_o {E A B} (f : A -> outcome E B) (l : list A) : outcome E (list B) :=
  match l with
  | [] => Ok []
  | a :: l' => b ← f a; bs ← mapM_o f l'; Ok (b :: bs)
  end.

(** [Iterator::filter_map] whose closure may panic, collected into a [Vec]. *)
Fixpoint filter_mapM {E A B} (f : A -> outcome E (option B)) (l : list A)
  : outcome E (list B) :=
  match l with
  | [] => Ok []
  | a :: l' =>
      o ← f a;
      bs ← filter_mapM f l';
      Ok (match o with Some b => b :: bs | None => bs end)
  end.

(** ** Build profile

    Integer overflow panics in a build with overflow checks (the default debug
    profile) and wraps around otherwise (the release profile of Cargo.toml). *)

Class Profile := overflow_checks : bool.

Open Scope Z_scope.

(** Wrap-around into the unsigned and signed [w]-bit ranges. *)
Definition wrap_u (w z : Z) : Z := z mod 2 ^ w.
Definition wrap_i (w z : Z) : Z := (z + 2 ^ (w - 1)) mod 2 ^ w - 2 ^ (w - 1).

Definition in_u (w z : Z) : Prop := 0 <= z < 2 ^ w.
Definition in_i (w z : Z) : Prop := - 2 ^ (w - 1) <= z < 2 ^ (w - 1).

(** The result of an exact operation [z] stored at an unsigned or signed width. *)
Definition arith_u {E} `{Profile} (w z : Z) : outcome E Z :=
  if (0 <=? z) && (z <? 2 ^ w) then Ok z
  else if overflow_checks then Panic else Ok (wrap_u w z).

Definition arith_i {E} `{Profile} (w z : Z) : outcome E Z :=
  if (- 2 ^ (w - 1) <=? z) && (z <? 2 ^ (w - 1)) then Ok z
  else if overflow_checks then Panic else Ok (wrap_i w z).

(** [usize::saturating_sub]. *)
Definition saturating_sub (a b : Z) : Z := Z.max 0 (a - b).

(** ** Tactics *)

(** Case analysis on the first [match] of the goal or of a hypothesis. *)
Ltac split_match :=
  match goal with
  | |- context [match ?x with _ => _ end] => let H := fresh "Hm" in destruct x eqn:H
  end.

Ltac split_match_in H :=
  match type of H with
  | context [match ?x with _ => _ end] => let H' := fresh "Hm" in destruct x eqn:H'
  end.

(** Run the monad's binds without touching the arithmetic. *)
Ltac mstep := cbn [mbind outcome_bind mret outcome_ret fst snd].

(** Booleans of [Z] comparisons as propositions. *)
Ltac zify_bool :=
  repeat match goal with
  | H : (_ && _) = true |- _ => apply andb_true_iff in H as [??]
  | H : (_ <? _) = true |- _ => apply Z.ltb_lt in H
  | H : (_ <? _) = false |- _ => apply Z.ltb_ge in H
  | H : (_ <=? _) = true |- _ => apply Z.leb_le in H
  | H : (_ <=? _) = false |- _ => apply Z.leb_gt in H
  | H : (_ =? _) = true |- _ => apply Z.eqb_eq in H
  | H : (_ =? _) = false |- _ => apply Z.eqb_neq in H
  end.

Ltac case_Z_bool :=
  match goal with
  | |- context [?a <? ?b] => destruct (Z.ltb_spec a b)
  | |- context [?a <=? ?b] => destruct (Z.leb_spec a b)
  | |- context [?a =? ?b] => destruct (Z.eqb_spec a b)
  end.

(** ** Lemmas on outcomes *)

Create HintDb crusty.

Lemma bind_Ok_inv {E A B} (m : outcome E A) (f : A -> outcome E B) b :
  m ≫= f = Ok b -> exists a, m = Ok a /\ f a = Ok b.
Proof. destruct m; simpl; naive_solver. Qed.

Lemma bind_assoc {E A B C} (m : outcome E A) (f : A -> outcome E B) (g : B -> outcome E C) :
  (m ≫= f) ≫= g = m ≫= (fun a => f a ≫= g).
Proof. by destruct m. Qed.

Lemma foldM_app {E A S} (f : S -> A -> outcome E S) s l1 l2 :
  foldM f s (l1 ++ l2) = (s' ← foldM f s l1; foldM f s' l2).
Proof.
  revert s; induction l1 as [|a l1 IH]; intros s; simpl; [done|].
  destruct (f s a); simpl; auto.
Qed.

Lemma filter_mapM_pure {E A B} (f : A -> outcome E (option B)) (g : A -> option B) l :
  (forall a, a ∈ l -> f a = Ok (g a)) ->
  filter_mapM f l = Ok (omap g l).
Proof.
  induction l as [|a l IH]; intros H; simpl; [done|].
  rewrite (H a) by set_solver. simpl. rewrite IH by set_solver. simpl.
  by destruct (g a).
Qed.

Lemma mapM_o_length {E A B} (f : A -> outcome E B) l l' :
  mapM_o f l = Ok l' -> length l' = length l.
Proof.
  revert l'; induction l as [|a l IH]; intros l' H; simpl in *; [by simplify_eq|].
  apply bind_Ok_inv in H as (b & _ & H). apply bind_Ok_inv in H as (bs & Hbs & H).
  simplify_eq. simpl. f_equal. auto.
Qed.

Lemma mapM_o_pure {E A B} (f : A -> outcome E B) (g : A -> B) l :
  (forall a, a ∈ l -> f a = Ok (g a)) -> mapM_o f l = Ok (g <$> l).
Proof.
  induction l as [|a l IH]; intros H; simpl; [done|].
  rewrite (H a) by set_solver. simpl. by rewrite IH by set_solver.
Qed.

(** ** Lemmas on lists *)

Lemma omap_filter_fmap {A B} (P : A -> Prop) `{forall x, Decision (P x)} (f : A -> B) (l : list A) :
  omap (fun a => if bool_decide (P a) then Some (f a) else None) l = f <$> filter P l.
Proof.
  induction l as [|a l IH]; [done|]. csimpl.
  rewrite filter_cons. case_bool_decide; case_decide; try done; csimpl; by rewrite IH.
Qed.

Lemma list_filter_ext_in {A} (P Q : A -> Prop)
    `{forall x, Decision (P x), forall x, Decision (Q x)} (l : list A) :
  (forall x, x ∈ l -> P x <-> Q x) -> filter P l = filter Q l.
Proof.
  induction l as [|a l IH]; intros HPQ; [done|].
  rewrite !filter_cons, IH by set_solver.
  destruct (decide (P a)), (decide (Q a)); try done; exfalso; set_solver.
Qed.

(** ** Lemmas on machine integers *)

Lemma wrap_u_small w z : in_u w z -> wrap_u w z = z.
Proof. intros H. by apply Z.mod_small. Qed.

Lemma wrap_u_range w z : 0 <= w -> in_u w (wrap_u w z).
Proof. intros H. apply Z.mod_pos_bound. lia. Qed.

Lemma wrap_i_small w z : 1 <= w -> in_i w z -> wrap_i w z = z.
Proof.
  unfold in_i, wrap_i. intros Hw H.
  assert (2 ^ w = 2 * 2 ^ (w - 1)) as E.
  { rewrite <- Z.pow_succ_r by lia. f_equal. lia. }
  rewrite Z.mod_small; lia.
Qed.

Lemma wrap_i_range w z : 1 <= w -> in_i w (wrap_i w z).
Proof.
  unfold in_i, wrap_i. intros Hw.
  assert (2 ^ w = 2 * 2 ^ (w - 1)) as E.
  { rewrite <- Z.pow_succ_r by lia. f_equal. lia. }
  pose proof (Z.mod_pos_bound (z + 2 ^ (w - 1)) (2 ^ w)). lia.
Qed.

Lemma arith_u_ok {E} `{Profile} w z : in_u w z -> arith_u (E := E) w z = Ok z.
Proof.
  unfold in_u, arith_u. intros ?.
  rewrite (proj2 (Z.leb_le _ _)), (proj2 (Z.ltb_lt _ _)) by lia. done.
Qed.

Lemma arith_i_ok {E} `{Profile} w z : in_i w z -> arith_i (E := E) w z = Ok z.
Proof.
  unfold in_i, arith_i. intros ?.
  rewrite (proj2 (Z.leb_le _ _)), (proj2 (Z.ltb_lt _ _)) by lia. done.
Qed.

(** ** A stable sort by an integer key

    [slice::sort_by_key] is a stable sort; the stable sort of a list by a key
    is unique, so insertion sort computes it. *)

Section StableSort.
Context {A : Type} (key : A -> Z).

Fixpoint insert_by_key (x : A) (l : list A) : list A :=
  match l with
  | [] => [x]
  | y :: l' => if key x <=? key y then x :: l else y :: insert_by_key x l'
  end.

Fixpoint sort_by_key (l : list A) : list A :=
  match l with
  | [] => []
  | x :: l' => insert_by_key x (sort_by_key l')
  end.

Definition key_le (x y : A) : Prop := key x <= key y.

Lemma insert_by_key_perm x l : insert_by_key x l ≡ₚ x :: l.
Proof.
  induction l as [|y l IH]; simpl; [done|].
  destruct (key x <=? key y); [done|]. rewrite IH. by constructor.
Qed.

Lemma sort_by_key_perm l : sort_by_key l ≡ₚ l.
Proof. induction l as [|x l IH]; simpl; [done|]. by rewrite insert_by_key_perm, IH. Qed.

Lemma insert_by_key_sorted x l :
  StronglySorted key_le l -> StronglySorted key_le (insert_by_key x l).
Proof.
  induction 1 as [|y l Hl IH Hy]; simpl; [by repeat constructor|].
  case_Z_bool.
  - constructor; [by constructor|]. constructor; [done|].
    eapply Forall_impl; [exact Hy|]. unfold key_le. intros; lia.
  - constructor; [done|]. rewrite insert_by_key_perm.
    constructor; [unfold key_le; lia|done].
Qed.

Lemma sort_by_key_sorted l : StronglySorted key_le (sort_by_key l).
Proof. induction l; simpl; [constructor|]. by apply insert_by_key_sorted. Qed.
End StableSort.

(** ** Sums of integer lists *)

Definition sumZ (l : list Z) : Z := foldr Z.add 0 l.

Lemma sumZ_app l1 l2 : sumZ (l1 ++ l2) = sumZ l1 + sumZ l2.
Proof. induction l1; simpl in *; lia. Qed.

Lemma sumZ_perm l1 l2 : l1 ≡ₚ l2 -> sumZ l1 = sumZ l2.
Proof. induction 1; simpl in *; lia. Qed.

Lemma sumZ_nonneg l : Forall (fun z => 0 <= z) l -> 0 <= sumZ l.
Proof. induction 1; simpl in *; lia. Qed.

(** A sum over a range changes by the change at the one index that changes. *)
Lemma sumZ_update (f g : Z -> Z) (l : list Z) i :
  NoDup l -> i ∈ l -> (forall j, j ∈ l -> j <> i -> f j = g j) ->
  sumZ (f <$> l) = sumZ (g <$> l) + f i - g i.
Proof.
  induction 1 as [|x l Hx Hl IH]; intros Hi Hfg; [set_solver|].
  csimpl. apply elem_of_cons in Hi as [->|Hi].
  - assert (f <$> l = g <$> l) as E.
    { apply list_fmap_ext. intros k y Hy.
      apply Hfg; [|intros ->]; apply list_elem_of_lookup_2 in Hy; set_solver. }
    rewrite E. lia.
  - rewrite IH by set_solver. rewrite (Hfg x) by set_solver. lia.
Qed.

#[export] Hint Resolve wrap_u_range wrap_i_range : crusty.
