(* ===== verification/Bytes.v ===== *)
(** * Byte arrays

    The operations Rust's [[u8]] offers and that [page.rs], [heap_page.rs] and
    [datatypes.rs] use: little-endian encodings of the integer types, range
    indexing, [copy_from_slice], [copy_within], [fill].  Every operation that
    indexes a range panics when the range leaves the array.

    Reasoning is pointwise: [bget d i] is the byte at index [i], and each
    operation has one lemma that gives [bget] of its result. *)

From Stdlib Require Export Strings.Byte.
From S2P Require Import Prelude.

Open Scope Z_scope.

#[export] Instance byte_eq_dec : EqDecision byte := Byte.byte_eq_dec.

(** ** Bytes as integers *)

Definition byte_to_Z (b : byte) : Z := Z.of_N (Byte.to_N b).

Definition byte_of_Z (z : Z) : byte :=
  match Byte.of_N (Z.to_N (z mod 256)) with Some b => b | None => x00 end.

(** [uN::to_le_bytes] and [iN::to_le_bytes] for a width of [n] bytes. *)
Fixpoint to_le_bytes (n : nat) (z : Z) : list byte :=
  match n with
  | O => []
  | S n' => byte_of_Z z :: to_le_bytes n' (z / 256)
  end.

(** [uN::from_le_bytes]. *)
Fixpoint from_le_bytes (bs : list byte) : Z :=
  match bs with
  | [] => 0
  | b :: bs' => byte_to_Z b + 256 * from_le_bytes bs'
  end.

(** [iN::from_le_bytes] for a width of [n] bytes. *)
Definition from_le_bytes_i (n : nat) (bs : list byte) : Z :=
  wrap_i (8 * Z.of_nat n) (from_le_bytes bs).

(** ** Arrays *)

Definition lenZ {A} (l : list A) : Z := Z.of_nat (length l).

Definition bget (d : list byte) (i : Z) : byte := nth (Z.to_nat i) d x00.

(** The [len] bytes from [lo] on. *)
Definition sub (d : list byte) (lo len : Z) : list byte :=
  take (Z.to_nat len) (drop (Z.to_nat lo) d).

(** [d[lo..hi]] *)
Definition slice {E} (d : list byte) (lo hi : Z) : outcome E (list byte) :=
  if (0 <=? lo) && (lo <=? hi) && (hi <=? lenZ d) then Ok (sub d lo (hi - lo)) else Panic.

(** [d[i]] *)
Definition index {E} (d : list byte) (i : Z) : outcome E byte :=
  if (0 <=? i) && (i <? lenZ d) then Ok (bget d i) else Panic.

Definition splice (d : list byte) (lo : Z) (bs : list byte) : list byte :=
  take (Z.to_nat lo) d ++ bs ++ drop (Z.to_nat lo + length bs) d.

(** [d[lo..lo + bs.len()].copy_from_slice(bs)] *)
Definition copy_from_slice {E} (d : list byte) (lo : Z) (bs : list byte)
  : outcome E (list byte) :=
  if (0 <=? lo) && (lo + lenZ bs <=? lenZ d) then Ok (splice d lo bs) else Panic.

(** [d.copy_within(lo..hi, dest)] *)
Definition copy_within {E} (d : list byte) (lo hi dest : Z) : outcome E (list byte) :=
  bs ← slice d lo hi; copy_from_slice d dest bs.

(** [d[lo..hi].fill(b)] *)
Definition fill {E} (d : list byte) (lo hi : Z) (b : byte) : outcome E (list byte) :=
  if (0 <=? lo) && (lo <=? hi) && (hi <=? lenZ d)
  then Ok (splice d lo (replicate (Z.to_nat (hi - lo)) b)) else Panic.

(** [uN::from_le_bytes(d[lo..lo + n].try_into().unwrap())] *)
Definition read_le {E} (n : nat) (d : list byte) (lo : Z) : outcome E Z :=
  bs ← slice d lo (lo + Z.of_nat n); Ok (from_le_bytes bs).

(** The 16-bit little-endian integer at [lo]. *)
Definition u16_at (d : list byte) (lo : Z) : Z :=
  byte_to_Z (bget d lo) + 256 * byte_to_Z (bget d (lo + 1)).

(** ** Encodings round-trip *)

Lemma byte_to_Z_range b : 0 <= byte_to_Z b < 256.
Proof. unfold byte_to_Z. pose proof (Byte.to_N_bounded b). lia. Qed.

Lemma byte_to_of_Z z : byte_to_Z (byte_of_Z z) = z mod 256.
Proof.
  unfold byte_to_Z, byte_of_Z.
  pose proof (Z.mod_pos_bound z 256 ltac:(lia)).
  destruct (Byte.of_N (Z.to_N (z mod 256))) as [b|] eqn:E.
  - apply Byte.to_of_N in E. rewrite E. lia.
  - apply Byte.of_N_None_iff in E. lia.
Qed.

Lemma byte_to_Z_inj b1 b2 : byte_to_Z b1 = byte_to_Z b2 -> b1 = b2.
Proof.
  unfold byte_to_Z. intros H.
  assert (Byte.to_N b1 = Byte.to_N b2) as E by lia.
  pose proof (Byte.of_to_N b1) as E1. rewrite E, Byte.of_to_N in E1. congruence.
Qed.

Lemma byte_of_to_Z b : byte_of_Z (byte_to_Z b) = b.
Proof.
  apply byte_to_Z_inj. rewrite byte_to_of_Z. apply Z.mod_small, byte_to_Z_range.
Qed.

Lemma length_to_le_bytes n z : length (to_le_bytes n z) = n.
Proof. revert z; induction n; intros; simpl; auto. Qed.

Lemma from_le_bytes_range bs : 0 <= from_le_bytes bs < 256 ^ lenZ bs.
Proof.
  unfold lenZ. induction bs as [|b bs IH]; [simpl; lia|].
  pose proof (byte_to_Z_range b). cbn [length from_le_bytes].
  rewrite Nat2Z.inj_succ, Z.pow_succ_r by lia. lia.
Qed.

Lemma from_to_le_bytes n z : from_le_bytes (to_le_bytes n z) = z mod 256 ^ Z.of_nat n.
Proof.
  revert z; induction n as [|n IH]; intros z; [by rewrite Z.mod_1_r|].
  cbn [to_le_bytes from_le_bytes]. rewrite byte_to_of_Z, IH.
  rewrite Nat2Z.inj_succ, Z.pow_succ_r by lia.
  rewrite Z.rem_mul_r by (try apply Z.pow_nonzero; lia). lia.
Qed.

Lemma to_from_le_bytes bs : to_le_bytes (length bs) (from_le_bytes bs) = bs.
Proof.
  induction bs as [|b bs IH]; cbn [to_le_bytes from_le_bytes length]; [done|].
  pose proof (byte_to_Z_range b). f_equal.
  - apply byte_to_Z_inj. rewrite byte_to_of_Z.
    rewrite (Z.mul_comm 256), Z.mod_add, Z.mod_small by lia. done.
  - etrans; [|exact IH]. f_equal.
    rewrite (Z.mul_comm 256), Z.div_add, Z.div_small by lia. lia.
Qed.

Lemma pow256 n : 256 ^ Z.of_nat n = 2 ^ (8 * Z.of_nat n).
Proof. rewrite Z.pow_mul_r by lia. done. Qed.

Lemma from_to_le_bytes_u n z :
  in_u (8 * Z.of_nat n) z -> from_le_bytes (to_le_bytes n z) = z.
Proof. intros H. rewrite from_to_le_bytes, pow256. by apply Z.mod_small. Qed.

Lemma from_to_le_bytes_i n z :
  (0 < n)%nat -> in_i (8 * Z.of_nat n) z -> from_le_bytes_i n (to_le_bytes n z) = z.
Proof.
  intros Hn H. unfold from_le_bytes_i. rewrite from_to_le_bytes, pow256.
  rewrite <- (wrap_i_small (8 * Z.of_nat n) z) at 2 by (done || lia).
  unfold wrap_i. f_equal. rewrite Zplus_mod_idemp_l. done.
Qed.

(** ** Reading and writing arrays *)

Lemma lenZ_nonneg {A} (l : list A) : 0 <= lenZ l.
Proof. unfold lenZ. lia. Qed.

#[export] Hint Resolve lenZ_nonneg byte_to_Z_range : crusty.

Lemma u16_at_range d lo : 0 <= u16_at d lo < 65536.
Proof.
  unfold u16_at.
  pose proof (byte_to_Z_range (bget d lo)). pose proof (byte_to_Z_range (bget d (lo + 1))). lia.
Qed.

Lemma bget_lookup d i : 0 <= i < lenZ d -> d !! Z.to_nat i = Some (bget d i).
Proof.
  intros H. unfold bget, lenZ in *.
  destruct (lookup_lt_is_Some_2 d (Z.to_nat i)) as [x Hx]; [lia|].
  by rewrite (nth_lookup_Some _ _ _ _ Hx).
Qed.

Lemma lookup_bget d i b : 0 <= i -> d !! Z.to_nat i = Some b -> bget d i = b.
Proof. intros _ H. by apply nth_lookup_Some. Qed.

Lemma bget_ext d1 d2 :
  lenZ d1 = lenZ d2 -> (forall i, 0 <= i < lenZ d1 -> bget d1 i = bget d2 i) -> d1 = d2.
Proof.
  intros Hl H. unfold lenZ in *. apply (list_eq_same_length _ _ (length d1)); [lia|done|].
  intros i x y Hi Hx Hy. specialize (H (Z.of_nat i) ltac:(lia)).
  unfold bget in H. rewrite Nat2Z.id in H.
  by rewrite (nth_lookup_Some _ _ _ _ Hx), (nth_lookup_Some _ _ _ _ Hy) in H.
Qed.

Lemma lenZ_sub d lo len :
  0 <= lo -> 0 <= len -> lo + len <= lenZ d -> lenZ (sub d lo len) = len.
Proof. unfold lenZ, sub. intros. rewrite length_take, length_drop. lia. Qed.

Lemma bget_sub d lo len i :
  0 <= lo -> 0 <= i < len -> lo + len <= lenZ d -> bget (sub d lo len) i = bget d (lo + i).
Proof.
  intros Hlo Hi Hl. apply lookup_bget; [lia|].
  unfold sub. rewrite lookup_take_lt by lia. rewrite lookup_drop.
  replace (Z.to_nat lo + Z.to_nat i)%nat with (Z.to_nat (lo + i)) by lia.
  apply bget_lookup. lia.
Qed.

(** Equal stretches of two arrays. *)
Lemma sub_ext d1 d2 lo1 lo2 len :
  0 <= lo1 -> 0 <= lo2 -> 0 <= len -> lo1 + len <= lenZ d1 -> lo2 + len <= lenZ d2 ->
  (forall k, 0 <= k < len -> bget d1 (lo1 + k) = bget d2 (lo2 + k)) ->
  sub d1 lo1 len = sub d2 lo2 len.
Proof.
  intros ????? H. apply bget_ext; rewrite ?lenZ_sub by lia; [done|].
  intros i Hi. rewrite !bget_sub by lia. by apply H.
Qed.

Lemma lenZ_splice d lo bs :
  0 <= lo -> lo + lenZ bs <= lenZ d -> lenZ (splice d lo bs) = lenZ d.
Proof.
  unfold lenZ, splice. intros. rewrite !length_app, length_take, length_drop. lia.
Qed.

Lemma bget_splice d lo bs i :
  0 <= lo -> lo + lenZ bs <= lenZ d -> 0 <= i < lenZ d ->
  bget (splice d lo bs) i =
    if (lo <=? i) && (i <? lo + lenZ bs) then bget bs (i - lo) else bget d i.
Proof.
  intros Hlo Hl Hi. apply lookup_bget; [lia|]. unfold splice, lenZ in *.
  destruct (Z.leb_spec lo i), (Z.ltb_spec i (lo + Z.of_nat (length bs))); simpl.
  - rewrite lookup_app_r by (rewrite length_take; lia). rewrite length_take.
    rewrite lookup_app_l by lia.
    replace (Z.to_nat i - Z.to_nat lo `min` length d)%nat with (Z.to_nat (i - lo)) by lia.
    apply bget_lookup. unfold lenZ. lia.
  - rewrite lookup_app_r by (rewrite length_take; lia). rewrite length_take.
    rewrite lookup_app_r by lia. rewrite lookup_drop.
    replace (Z.to_nat lo + length bs + (Z.to_nat i - Z.to_nat lo `min` length d - length bs))%nat
      with (Z.to_nat i) by lia.
    apply bget_lookup. unfold lenZ. lia.
  - rewrite lookup_app_l by (rewrite length_take; lia).
    rewrite lookup_take_lt by lia. apply bget_lookup. unfold lenZ. lia.
  - lia.
Qed.

Lemma bget_splice_in d lo bs i :
  0 <= lo -> lo + lenZ bs <= lenZ d -> lo <= i < lo + lenZ bs ->
  bget (splice d lo bs) i = bget bs (i - lo).
Proof.
  intros. rewrite bget_splice by (pose proof (lenZ_nonneg bs); lia).
  rewrite (proj2 (Z.leb_le _ _)), (proj2 (Z.ltb_lt _ _)) by lia. done.
Qed.

Lemma bget_out d i : lenZ d <= i -> bget d i = x00.
Proof. unfold bget, lenZ. intros. apply nth_overflow. lia. Qed.

Lemma bget_splice_out d lo bs i :
  0 <= lo -> lo + lenZ bs <= lenZ d -> 0 <= i -> i < lo \/ lo + lenZ bs <= i ->
  bget (splice d lo bs) i = bget d i.
Proof.
  intros. destruct (decide (i < lenZ d)).
  - rewrite bget_splice by lia.
    destruct (Z.leb_spec lo i), (Z.ltb_spec i (lo + lenZ bs)); simpl; lia || done.
  - rewrite !bget_out by (rewrite ?lenZ_splice by lia; lia). done.
Qed.

Lemma slice_ok {E} d lo hi :
  0 <= lo <= hi -> hi <= lenZ d -> slice (E := E) d lo hi = Ok (sub d lo (hi - lo)).
Proof.
  intros. unfold slice. rewrite !(proj2 (Z.leb_le _ _)) by lia. done.
Qed.

Lemma index_ok {E} d i : 0 <= i < lenZ d -> index (E := E) d i = Ok (bget d i).
Proof.
  intros. unfold index. rewrite (proj2 (Z.leb_le _ _)), (proj2 (Z.ltb_lt _ _)) by lia. done.
Qed.

Lemma copy_from_slice_ok {E} d lo bs :
  0 <= lo -> lo + lenZ bs <= lenZ d -> copy_from_slice (E := E) d lo bs = Ok (splice d lo bs).
Proof.
  intros. unfold copy_from_slice. rewrite !(proj2 (Z.leb_le _ _)) by lia. done.
Qed.

Lemma copy_within_ok {E} d lo hi dest :
  0 <= lo <= hi -> hi <= lenZ d -> 0 <= dest -> dest + (hi - lo) <= lenZ d ->
  copy_within (E := E) d lo hi dest = Ok (splice d dest (sub d lo (hi - lo))).
Proof.
  intros. unfold copy_within. rewrite slice_ok by lia. simpl.
  apply copy_from_slice_ok; rewrite ?lenZ_sub; lia.
Qed.

Lemma fill_ok {E} d lo hi b :
  0 <= lo <= hi -> hi <= lenZ d ->
  fill (E := E) d lo hi b = Ok (splice d lo (replicate (Z.to_nat (hi - lo)) b)).
Proof. intros. unfold fill. rewrite !(proj2 (Z.leb_le _ _)) by lia. done. Qed.

Lemma lenZ_replicate (n : Z) (b : byte) : 0 <= n -> lenZ (replicate (Z.to_nat n) b) = n.
Proof. unfold lenZ. rewrite length_replicate. lia. Qed.

Lemma lenZ_to_le_bytes n z : lenZ (to_le_bytes n z) = Z.of_nat n.
Proof. unfold lenZ. by rewrite length_to_le_bytes. Qed.

Lemma from_le_bytes_sub2 d lo :
  0 <= lo -> lo + 2 <= lenZ d -> from_le_bytes (sub d lo 2) = u16_at d lo.
Proof.
  intros Hlo Hl. pose proof (lenZ_sub d lo 2 ltac:(lia) ltac:(lia) ltac:(lia)) as H2.
  pose proof (bget_sub d lo 2 0 ltac:(lia) ltac:(lia) ltac:(lia)) as E0.
  pose proof (bget_sub d lo 2 1 ltac:(lia) ltac:(lia) ltac:(lia)) as E1.
  unfold u16_at. rewrite Z.add_0_r in E0. rewrite <- E0, <- E1.
  destruct (sub d lo 2) as [|a [|b [|c l]]]; unfold lenZ in H2; simpl in H2; try lia.
  unfold bget. simpl. lia.
Qed.

Lemma read_le_2 {E} d lo :
  0 <= lo -> lo + 2 <= lenZ d -> read_le (E := E) 2 d lo = Ok (u16_at d lo).
Proof.
  intros. unfold read_le. rewrite slice_ok by lia. simpl.
  rewrite <- from_le_bytes_sub2 by lia. do 3 f_equal. lia.
Qed.

Lemma u16_at_ext d1 d2 lo1 lo2 :
  bget d1 lo1 = bget d2 lo2 -> bget d1 (lo1 + 1) = bget d2 (lo2 + 1) ->
  u16_at d1 lo1 = u16_at d2 lo2.
Proof. unfold u16_at. by intros -> ->. Qed.

Lemma u16_at_splice_eq d lo z :
  0 <= lo -> lo + 2 <= lenZ d -> u16_at (splice d lo (to_le_bytes 2 z)) lo = z mod 65536.
Proof.
  intros. unfold u16_at.
  rewrite !bget_splice_in by (rewrite ?lenZ_to_le_bytes; lia).
  replace (lo - lo) with 0 by lia. replace (lo + 1 - lo) with 1 by lia.
  unfold bget. simpl. rewrite !byte_to_of_Z.
  change 65536 with (256 * 256). rewrite Z.rem_mul_r by lia. lia.
Qed.

Lemma u16_at_splice_ne d lo bs lo' :
  0 <= lo -> lo + lenZ bs <= lenZ d -> 0 <= lo' -> lo' + 2 <= lo \/ lo + lenZ bs <= lo' ->
  u16_at (splice d lo bs) lo' = u16_at d lo'.
Proof. intros. apply u16_at_ext; apply bget_splice_out; lia. Qed.
