(* ===== verification/Common.v ===== *)
(** * Identifiers, errors and operators shared by every crate

    [src/src/common/src/error.rs], [ids.rs], [operation.rs] and the constants
    of [lib.rs]. *)

From Stdlib Require Import Ascii.
From stdpp Require Export pretty.
From S2P Require Import Prelude.

Open Scope Z_scope.

(** ** Constants of [lib.rs] *)

Definition PAGE_SIZE : Z := 4096.

(** ** Identifiers ([ids.rs]) *)

Abbreviation TidType := Z (only parsing).

(** Lock permissions. *)
Inductive Permissions := ReadOnly | ReadWrite.

#[export] Instance Permissions_eq_dec : EqDecision Permissions.
Proof. solve_decision. Defined.

Record TransactionId := mkTransactionId { tid_id : TidType }.

#[export] Instance TransactionId_eq_dec : EqDecision TransactionId.
Proof. solve_decision. Defined.

#[export] Instance TransactionId_countable : Countable TransactionId :=
  inj_countable' tid_id mkTransactionId (fun '(mkTransactionId _) => eq_refl).

(** [TransactionId::new]: the process-wide [AtomicU64] counter is an explicit
    state; [fetch_add] wraps around. *)
Definition TransactionId_new (counter : Z) : Z * TransactionId :=
  (wrap_u 64 (counter + 1), mkTransactionId counter).

Abbreviation ContainerId := Z (only parsing).
Abbreviation SegmentId := Z (only parsing).
Abbreviation PageId := Z (only parsing).
Abbreviation SlotId := Z (only parsing).
Abbreviation LogicalTimeStamp := Z (only parsing).

Inductive StateType := HashTable | BaseTable | MatView.

(** Where a value lives in a storage manager. *)
Record ValueId := mkValueId {
  container_id : Z;
  segment_id : option Z;
  page_id : option Z;
  slot_id : option Z;
}.

#[export] Instance ValueId_eq_dec : EqDecision ValueId.
Proof. solve_decision. Defined.

Definition ValueId_to_tuple (v : ValueId) : Z * option Z * option Z * option Z :=
  (container_id v, segment_id v, page_id v, slot_id v).

Definition ValueId_of_tuple (t : Z * option Z * option Z * option Z) : ValueId :=
  let '(c, s, p, l) := t in mkValueId c s p l.

#[export] Instance ValueId_countable : Countable ValueId :=
  inj_countable' ValueId_to_tuple ValueId_of_tuple
    (fun '(mkValueId _ _ _ _) => eq_refl).

Definition ValueId_new (c : Z) : ValueId := mkValueId c None None None.
Definition ValueId_new_page (c p : Z) : ValueId := mkValueId c None (Some p) None.
Definition ValueId_new_slot (c p s : Z) : ValueId := mkValueId c None (Some p) (Some s).

(** [impl fmt::Debug for ValueId] *)
Definition ValueId_debug (v : ValueId) : string :=
  let opt (name : string) (o : option Z) : string :=
    match o with Some z => (name +:+ pretty z)%string | None => "" end in
  ("<c_id:" +:+ pretty (container_id v)
    +:+ opt ",seg_id:" (segment_id v)
    +:+ opt ",p_id:" (page_id v)
    +:+ opt ",slot_id:" (slot_id v) +:+ ">")%string.

(** ** Errors ([error.rs]) *)

Inductive CrustyError :=
| IOError (s : string)
| SerializationError (s : string)
| CrustyErr (s : string)
| ValidationError (s : string)
| ExecutionError (s : string)
| TransactionNotActive
| InvalidMutationError (s : string)
| TransactionRollback (t : TransactionId).

#[export] Instance CrustyError_eq_dec : EqDecision CrustyError.
Proof. solve_decision. Defined.

Definition c_err (s : string) : CrustyError := CrustyErr s.

(** [impl fmt::Display for CrustyError]; [{:?}] of a transaction id is its
    derived debug form. *)
Definition CrustyError_display (e : CrustyError) : string :=
  match e with
  | ValidationError s => ("Validation Error: " +:+ s)%string
  | ExecutionError s => ("Execution Error: " +:+ s)%string
  | CrustyErr s => ("Crusty Error: " +:+ s)%string
  | IOError s => s
  | SerializationError s => s
  | TransactionNotActive => "Transaction Not Active Error"
  | InvalidMutationError s => ("InvalidMutationError " +:+ s)%string
  | TransactionRollback t =>
      ("Transaction Rolledback TransactionId { id: " +:+ pretty (tid_id t) +:+ " }")%string
  end.

(** Issues with one ingested record. *)
Inductive ConversionError :=
| FieldConstraintError (i : Z) (s : string)
| PrimaryKeyViolation
| UniqueViolation
| TransactionViolation (t : TransactionId) (s : string)
| ParseError
| UnsupportedType
| NullFieldNotAllowed (i : Z)
| WrongType.

Abbreviation result := (outcome CrustyError).

(** ** Operators ([operation.rs]) *)

Inductive MathOp := MAdd | MSub | MMul | MDiv.
Inductive BooleanOp := BEq | BNeq | BGt | BGte | BLt | BLte | BAnd | BOr.
Inductive AggOp := AAvg | ACount | AMax | AMin | ASum.

#[export] Instance MathOp_eq_dec : EqDecision MathOp.
Proof. solve_decision. Defined.
#[export] Instance BooleanOp_eq_dec : EqDecision BooleanOp.
Proof. solve_decision. Defined.
#[export] Instance AggOp_eq_dec : EqDecision AggOp.
Proof. solve_decision. Defined.

Definition MathOp_display (op : MathOp) : string :=
  match op with MAdd => "+" | MSub => "-" | MMul => "*" | MDiv => "/" end.

Definition BooleanOp_display (op : BooleanOp) : string :=
  match op with
  | BEq => "=" | BNeq => "!=" | BGt => ">" | BGte => ">=" | BLt => "<" | BLte => "<="
  | BAnd => "AND" | BOr => "OR"
  end.

Definition AggOp_display (op : AggOp) : string :=
  match op with
  | AAvg => "AVG" | ACount => "COUNT" | AMax => "MAX" | AMin => "MIN" | ASum => "SUM"
  end.

(** ** Computations that change a state and may fail *)

Definition stm (M A : Type) : Type := M -> M * result A.

#[export] Instance stm_ret M : MRet (stm M) := fun _ a m => (m, Ok a).
#[export] Instance stm_bind M : MBind (stm M) :=
  fun _ _ f x m =>
    let '(m, r) := x m in
    match r with
    | Ok a => f a m
    | Err e => (m, Err e)
    | Panic => (m, Panic)
    end.

Definition lift {M A} (r : result A) : stm M A := fun m => (m, r).
Definition throw {M A} (e : CrustyError) : stm M A := fun m => (m, Err e).

Fixpoint for_each {M A} (f : A -> stm M unit) (l : list A) : stm M unit :=
  match l with
  | [] => mret tt
  | a :: l' => _ ← f a; for_each f l'
  end.

Definition gets {M A} (f : M -> A) : stm M A := fun m => (m, Ok (f m)).

(** Loops that carry a value and may leave by [?] or by a panic. *)
Fixpoint foldS {M A S} (f : S -> A -> stm M S) (st : S) (l : list A) : stm M S :=
  match l with
  | [] => mret st
  | a :: l' => st ← f st a; foldS f st l'
  end.

Fixpoint mapS {M A B} (f : A -> stm M B) (l : list A) : stm M (list B) :=
  match l with
  | [] => mret []
  | a :: l' => b ← f a; bs ← mapS f l'; mret (b :: bs)
  end.

(** ** [{:?}] of strings *)

Definition quote_char : ascii := Ascii.ascii_of_nat 34.
Definition backslash : ascii := Ascii.ascii_of_nat 92.

Definition hex_digit (n : nat) : ascii := Ascii.ascii_of_nat (if (n <? 10)%nat then 48 + n else 87 + n).

(** The escapes of one character; other characters than control characters are
    taken to be printable. *)
Definition escape_char (c : ascii) : string :=
  let n := Ascii.nat_of_ascii c in
  if Ascii.eqb c quote_char || Ascii.eqb c backslash then String backslash (String c EmptyString)
  else if (n =? 0)%nat then String backslash "0"
  else if (n =? 9)%nat then String backslash "t"
  else if (n =? 10)%nat then String backslash "n"
  else if (n =? 13)%nat then String backslash "r"
  else if (n <? 16)%nat then String backslash ("u{" +:+ String (hex_digit n) "}")
  else if (n <? 32)%nat || (n =? 127)%nat
  then String backslash ("u{" +:+ String (hex_digit (n / 16)) (String (hex_digit (n mod 16)) "}"))
  else String c EmptyString.

Fixpoint escape (s : string) : string :=
  match s with
  | EmptyString => EmptyString
  | String c s' => escape_char c +:+ escape s'
  end.

Definition str_debug (s : string) : string :=
  String quote_char (escape s) +:+ String quote_char EmptyString.
