(* ===== verification/HeapPage.v ===== *)
(** * The slotted page

    [src/src/storage/heapstore/src/page.rs] and [heap_page.rs]: a page is an
    array of [PAGE_SIZE] bytes.  Bytes 0-1 hold the page id, 2-3 the number of
    slots, 4-5 [free_start], 6-7 are reserved; then six bytes per slot (record
    offset, record length, [in_use] flag, padding); then the record bodies. *)

From S2P Require Import Prelude Bytes Common.

Open Scope Z_scope.

(** ** [page.rs] *)

Definition INITIAL_NUM_SLOTS : Z := 0.
Definition INITIAL_FREE_START : Z := 8.

Record Page := mkPage { data : list byte }.

Definition Page_new (page_id : PageId) : result Page :=
  let d := replicate (Z.to_nat PAGE_SIZE) x00 in
  d ← copy_from_slice d 0 (to_le_bytes 2 page_id);
  d ← copy_from_slice d 2 (to_le_bytes 2 INITIAL_NUM_SLOTS);
  d ← copy_from_slice d 4 (to_le_bytes 2 INITIAL_FREE_START);
  Ok (mkPage d).

Definition get_page_id (p : Page) : result PageId := read_le 2 (data p) 0.

Definition from_bytes (d : list byte) : Page := mkPage d.
Definition to_bytes (p : Page) : list byte := data p.

(** The loop state of [compare_page]: [res], [in_diff], [diff_start], [diff_vec]. *)
Record diff_state := mkDiff {
  df_res : list (Z * list byte);
  df_in : bool;
  df_start : Z;
  df_vec : list byte;
}.

Definition compare_step (s : diff_state) (x : Z * (byte * byte)) : diff_state :=
  let '(i, (b1, b2)) := x in
  if negb (bool_decide (b1 = b2)) then
    let start := if df_in s then df_start s else i in
    mkDiff (df_res s) true start (df_vec s ++ [b1])
  else if df_in s then
    mkDiff (df_res s ++ [(wrap_u 16 (df_start s), df_vec s)]) false (df_start s) []
  else s.

Definition compare_page (p : Page) (other_page : list byte)
  : result (list (Z * list byte)) :=
  let bytes := to_bytes p in
  if lenZ bytes =? lenZ other_page then
    let pairs := zip (seqZ 0 (lenZ bytes)) (zip bytes other_page) in
    Ok (df_res (foldl compare_step (mkDiff [] false 0 []) pairs))
  else Panic.

(** ** Header fields ([heap_page.rs], private helpers) *)

Definition PAGE_META_NUM_SLOTS_OFFSET : Z := 2.
Definition PAGE_META_FREE_START_OFFSET : Z := 4.
Definition FIXED_PAGE_META_SIZE : Z := 8.
Definition BYTES_PER_SLOT_META : Z := 6.
Definition SLOT_OFFSET_OFFSET : Z := 0.
Definition SLOT_LENGTH_OFFSET : Z := 2.
Definition SLOT_IN_USE_OFFSET : Z := 4.
Definition SLOT_IN_USE_VALID : byte := x01.
Definition SLOT_IN_USE_FREE : byte := x00.

Definition get_num_slots (p : Page) : result Z :=
  read_le 2 (data p) PAGE_META_NUM_SLOTS_OFFSET.

Definition set_num_slots (p : Page) (n : Z) : result Page :=
  d ← copy_from_slice (data p) PAGE_META_NUM_SLOTS_OFFSET (to_le_bytes 2 (wrap_u 16 n));
  Ok (mkPage d).

Definition get_free_start (p : Page) : result Z :=
  num_slots ← get_num_slots p;
  let body_start := FIXED_PAGE_META_SIZE + num_slots * BYTES_PER_SLOT_META in
  stored ← read_le 2 (data p) PAGE_META_FREE_START_OFFSET;
  let raw := if stored <? body_start then body_start else stored in
  Ok (Z.min raw PAGE_SIZE).

Definition set_free_start (p : Page) (pos : Z) : result Page :=
  let pos := Z.min pos PAGE_SIZE in
  d ← copy_from_slice (data p) PAGE_META_FREE_START_OFFSET (to_le_bytes 2 (wrap_u 16 pos));
  Ok (mkPage d).

Definition slot_meta_offset (slot_id : SlotId) : Z :=
  FIXED_PAGE_META_SIZE + slot_id * BYTES_PER_SLOT_META.

Definition get_slot_offset_length (p : Page) (slot_id : SlotId)
  : result (option (Z * Z)) :=
  num_slots ← get_num_slots p;
  if num_slots <=? slot_id then Ok None else
  let base := slot_meta_offset slot_id in
  offset ← read_le 2 (data p) (base + SLOT_OFFSET_OFFSET);
  length ← read_le 2 (data p) (base + SLOT_LENGTH_OFFSET);
  Ok (Some (offset, length)).

Definition get_slot_in_use (p : Page) (slot_id : SlotId) : result (option byte) :=
  num_slots ← get_num_slots p;
  if num_slots <=? slot_id then Ok None else
  b ← index (data p) (slot_meta_offset slot_id + SLOT_IN_USE_OFFSET);
  Ok (Some b).

Definition set_slot_in_use (p : Page) (slot_id : SlotId) (in_use : byte) : result Page :=
  d ← copy_from_slice (data p) (slot_meta_offset slot_id + SLOT_IN_USE_OFFSET) [in_use];
  Ok (mkPage d).

Definition write_slot (p : Page) (slot_id : SlotId) (offset length : Z) (in_use : byte)
  : result Page :=
  let base := slot_meta_offset slot_id in
  d ← copy_from_slice (data p) base (to_le_bytes 2 offset);
  d ← copy_from_slice d (base + 2) (to_le_bytes 2 length);
  d ← copy_from_slice d (base + SLOT_IN_USE_OFFSET) [in_use];
  Ok (mkPage d).

(** [self.get_slot_in_use(sid).map_or(false, |u| u == SLOT_IN_USE_VALID)] *)
Definition slot_is_valid (p : Page) (sid : SlotId) : result bool :=
  u ← get_slot_in_use p sid;
  Ok (match u with Some u => bool_decide (u = SLOT_IN_USE_VALID) | None => false end).

Fixpoint find_free_from (p : Page) (ids : list Z) : result (option SlotId) :=
  match ids with
  | [] => Ok None
  | i :: ids' =>
      u ← get_slot_in_use p (wrap_u 16 i);
      if match u with Some u => bool_decide (u = SLOT_IN_USE_FREE) | None => true end
      then Ok (Some (wrap_u 16 i))
      else find_free_from p ids'
  end.

Definition find_lowest_free_slot_id (p : Page) : result SlotId :=
  num_slots ← get_num_slots p;
  o ← find_free_from p (seqZ 0 num_slots);
  Ok (match o with Some i => i | None => wrap_u 16 num_slots end).

Definition iter_used_slots (p : Page) : result (list (SlotId * Z)) :=
  num_slots ← get_num_slots p;
  filter_mapM (fun i =>
    let sid := wrap_u 16 i in
    v ← slot_is_valid p sid;
    if v : bool then
      ol ← get_slot_offset_length p sid;
      Ok (match ol with Some (_, len) => Some (sid, len) | None => None end)
    else Ok None) (seqZ 0 num_slots).

(** The collected [used] vector of [compact]: live slots as (id, offset, length). *)
Definition collect_used (p : Page) (num_slots : Z) : result (list (SlotId * Z * Z)) :=
  filter_mapM (fun i =>
    let sid := wrap_u 16 i in
    v ← slot_is_valid p sid;
    if v : bool then
      ol ← get_slot_offset_length p sid;
      Ok (match ol with Some (off, len) => Some (sid, off, len) | None => None end)
    else Ok None) (seqZ 0 num_slots).

Definition used_offset (u : SlotId * Z * Z) : Z := u.1.2.
Definition used_length (u : SlotId * Z * Z) : Z := u.2.

(** One turn of the copy loop of [compact]. *)
Definition compact_step (s : Page * Z) (u : SlotId * Z * Z) : result (Page * Z) :=
  let '(p, write_pos) := s in
  let '(slot_id, old_offset, length) := u in
  p ← (if negb (old_offset =? write_pos)
       then d ← copy_within (data p) old_offset (old_offset + length) write_pos; Ok (mkPage d)
       else Ok p);
  p ← write_slot p slot_id (wrap_u 16 write_pos) (wrap_u 16 length) SLOT_IN_USE_VALID;
  Ok (p, write_pos + length).

Definition compact (p : Page) : result Page :=
  num_slots ← get_num_slots p;
  let body_start := FIXED_PAGE_META_SIZE + num_slots * BYTES_PER_SLOT_META in
  used ← collect_used p num_slots;
  let used := sort_by_key used_offset used in
  '(p, write_pos) ← foldM compact_step (p, body_start) used;
  set_free_start p write_pos.

(** One turn of the offset-bumping loop of [shift_body_for_new_slot]. *)
Definition shift_step (p : Page) (slot_id : Z) : result Page :=
  let sid := wrap_u 16 slot_id in
  v ← slot_is_valid p sid;
  if v : bool then
    ol ← get_slot_offset_length p sid;
    match ol with
    | Some (off, len) =>
        write_slot p sid (wrap_u 16 (off + BYTES_PER_SLOT_META)) len SLOT_IN_USE_VALID
    | None => Ok p
    end
  else Ok p.

Definition shift_body_for_new_slot `{Profile} (p : Page) : result Page :=
  num_slots ← get_num_slots p;
  let old_body_start := FIXED_PAGE_META_SIZE + num_slots * BYTES_PER_SLOT_META in
  let new_body_start := old_body_start + BYTES_PER_SLOT_META in
  free_start ← get_free_start p;
  let body_len := saturating_sub free_start old_body_start in
  p ← (if 0 <? body_len then
         room ← arith_u 64 (PAGE_SIZE - new_body_start);
         let shift_len := Z.min body_len room in
         d ← copy_within (data p) old_body_start (old_body_start + shift_len) new_body_start;
         Ok (mkPage d)
       else Ok p);
  d ← fill (data p) old_body_start new_body_start x00;
  p ← foldM shift_step (mkPage d) (seqZ 0 num_slots);
  let new_free := Z.min (free_start + BYTES_PER_SLOT_META) PAGE_SIZE in
  set_free_start p new_free.

(** ** The [HeapPage] trait *)

Definition get_header_size (p : Page) : result Z :=
  n ← get_num_slots p; Ok (FIXED_PAGE_META_SIZE + n * BYTES_PER_SLOT_META).

Definition get_free_space (p : Page) : result Z :=
  header_size ← get_header_size p;
  used ← iter_used_slots p;
  let used_bytes := sumZ (snd <$> used) in
  Ok (saturating_sub (saturating_sub PAGE_SIZE header_size) used_bytes).

Definition add_value `{Profile} (p : Page) (bytes : list byte)
  : result (Page * option SlotId) :=
  let value_len := lenZ bytes in
  if PAGE_SIZE <? value_len then Ok (p, None) else
  slot_id ← find_lowest_free_slot_id p;
  num_slots ← get_num_slots p;
  let need_new_slot := num_slots <=? slot_id in
  let extra_header := if need_new_slot then BYTES_PER_SLOT_META else 0 in
  free_space ← get_free_space p;
  if free_space <? value_len + extra_header then Ok (p, None) else
  free_start ← get_free_start p;
  let contiguous_space := saturating_sub PAGE_SIZE (free_start + extra_header) in
  p ← (if contiguous_space <? value_len then compact p else Ok p);
  p ← (if need_new_slot then
         p ← (if 0 <? num_slots then shift_body_for_new_slot p else Ok p);
         set_num_slots p (num_slots + 1)
       else Ok p);
  insert_offset ← get_free_start p;
  if PAGE_SIZE <? insert_offset + value_len then Ok (p, None) else
  d ← copy_from_slice (data p) insert_offset bytes;
  p ← write_slot (mkPage d) slot_id (wrap_u 16 insert_offset) (wrap_u 16 value_len)
        SLOT_IN_USE_VALID;
  p ← set_free_start p (insert_offset + value_len);
  Ok (p, Some slot_id).

Definition get_value (p : Page) (slot_id : SlotId) : result (option (list byte)) :=
  u ← get_slot_in_use p slot_id;
  match u with
  | None => Ok None
  | Some u =>
      if negb (bool_decide (u = SLOT_IN_USE_VALID)) then Ok None else
      ol ← get_slot_offset_length p slot_id;
      match ol with
      | None => Ok None
      | Some (offset, length) =>
          if PAGE_SIZE <? offset + length then Ok None else
          v ← slice (data p) offset (offset + length);
          Ok (Some v)
      end
  end.

Definition delete_value (p : Page) (slot_id : SlotId) : result (Page * option unit) :=
  num_slots ← get_num_slots p;
  if num_slots <=? slot_id then Ok (p, None) else
  u ← get_slot_in_use p slot_id;
  match u with
  | None => Ok (p, None)
  | Some u =>
      if negb (bool_decide (u = SLOT_IN_USE_VALID)) then Ok (p, None) else
      p ← set_slot_in_use p slot_id SLOT_IN_USE_FREE;
      Ok (p, Some tt)
  end.

(** ** The consuming iterator *)

Record HeapPageIntoIter := mkIter {
  it_page : Page;
  current_slot : SlotId;
  it_num_slots : Z;
}.

Definition into_iter (p : Page) : result HeapPageIntoIter :=
  num_slots ← get_num_slots p; Ok (mkIter p 0 num_slots).

(** [while (self.current_slot as usize) < self.num_slots]: each turn increments
    [current_slot], so the distance to [num_slots] is enough fuel. *)
Fixpoint next_loop `{Profile} (fuel : nat) (it : HeapPageIntoIter)
  : result (option (list byte * SlotId) * HeapPageIntoIter) :=
  if current_slot it <? it_num_slots it then
    match fuel with
    | O => Panic
    | S fuel' =>
        let slot_id := current_slot it in
        c ← arith_u 16 (current_slot it + 1);
        let it := mkIter (it_page it) c (it_num_slots it) in
        v ← get_value (it_page it) slot_id;
        match v with
        | Some value => Ok (Some (value, slot_id), it)
        | None => next_loop fuel' it
        end
    end
  else Ok (None, it).

Definition next `{Profile} (it : HeapPageIntoIter)
  : result (option (list byte * SlotId) * HeapPageIntoIter) :=
  next_loop (Z.to_nat (it_num_slots it - current_slot it)) it.

(** Draining the iterator, as a [for] loop over the page does. *)
Fixpoint collect_loop `{Profile} (fuel : nat) (it : HeapPageIntoIter)
  : result (list (list byte * SlotId)) :=
  '(o, it) ← next it;
  match o with
  | None => Ok []
  | Some x => match fuel with
              | O => Panic
              | S fuel' => xs ← collect_loop fuel' it; Ok (x :: xs)
              end
  end.

Definition collect_page `{Profile} (p : Page) : result (list (list byte * SlotId)) :=
  it ← into_iter p; collect_loop (Z.to_nat (it_num_slots it)) it.
