(* ===== verification/HeapPageProofs.v ===== *)
(** * Correctness of the slotted page: layout invariant and primitives

    [page_wf] is the layout invariant of a page.  This file proves that the
    header primitives, [compact] and [shift_body_for_new_slot] never panic on a
    well-formed page, keep it well-formed, and keep every record. *)

From S2P Require Import Prelude Bytes Common HeapPage.

Open Scope Z_scope.

(** ** The fields of a page, as total functions of its bytes *)

Definition nslots (d : list byte) : Z := u16_at d 2.
Definition fstored (d : list byte) : Z := u16_at d 4.
Definition body (d : list byte) : Z := 8 + 6 * nslots d.
Definition fstart (d : list byte) : Z := Z.min (Z.max (fstored d) (body d)) PAGE_SIZE.
Definition soff (d : list byte) (i : Z) : Z := u16_at d (8 + 6 * i).
Definition slen (d : list byte) (i : Z) : Z := u16_at d (8 + 6 * i + 2).
Definition suse (d : list byte) (i : Z) : byte := bget d (8 + 6 * i + 4).

Definition live (d : list byte) (i : Z) : Prop := 0 <= i < nslots d /\ suse d i = x01.

(** The bytes of the record of slot [i]. *)
Definition record (d : list byte) (i : Z) : list byte := sub d (soff d i) (slen d i).

Definition disjoint_rec (o1 l1 o2 l2 : Z) : Prop := o1 + l1 <= o2 \/ o2 + l2 <= o1.

(** The layout invariant: the slot directory fits, every flag is one of the two
    the code writes, live records lie between the directory and [free_start],
    and live records do not overlap. *)
Record page_wf (p : Page) : Prop := {
  wf_len : lenZ (data p) = PAGE_SIZE;
  wf_body : body (data p) <= PAGE_SIZE;
  wf_flag : forall i, 0 <= i < nslots (data p) ->
            suse (data p) i = x00 \/ suse (data p) i = x01;
  wf_rec : forall i, live (data p) i ->
           body (data p) <= soff (data p) i /\
           soff (data p) i + slen (data p) i <= fstart (data p);
  wf_disj : forall i j, live (data p) i -> live (data p) j -> i <> j ->
            disjoint_rec (soff (data p) i) (slen (data p) i)
                         (soff (data p) j) (slen (data p) j);
}.

(** ** Frames: which bytes determine which field *)

Lemma nslots_frame d d' :
  bget d' 2 = bget d 2 -> bget d' 3 = bget d 3 -> nslots d' = nslots d.
Proof. intros. by apply u16_at_ext. Qed.

Lemma fstored_frame d d' :
  bget d' 4 = bget d 4 -> bget d' 5 = bget d 5 -> fstored d' = fstored d.
Proof. intros. by apply u16_at_ext. Qed.

Definition slot_eq (d d' : list byte) (j : Z) : Prop :=
  soff d' j = soff d j /\ slen d' j = slen d j /\ suse d' j = suse d j.

Lemma slot_frame d d' j :
  (forall x, 8 + 6 * j <= x < 13 + 6 * j -> bget d' x = bget d x) -> slot_eq d d' j.
Proof.
  intros H. unfold slot_eq, soff, slen, suse.
  split_and!; [apply u16_at_ext; apply H; lia.. | apply H; lia].
Qed.

Lemma soff_range d i : 0 <= soff d i < 65536.
Proof. apply u16_at_range. Qed.
Lemma slen_range d i : 0 <= slen d i < 65536.
Proof. apply u16_at_range. Qed.
Lemma nslots_range d : 0 <= nslots d < 65536.
Proof. apply u16_at_range. Qed.
Lemma fstored_range d : 0 <= fstored d < 65536.
Proof. apply u16_at_range. Qed.

(** Bring the ranges of the fields that occur in the goal into the context. *)
Ltac ranges :=
  repeat match goal with
  | |- context [soff ?d ?i] => lazymatch goal with
      | H : 0 <= soff d i < 65536 |- _ => fail | _ => pose proof (soff_range d i) end
  | |- context [slen ?d ?i] => lazymatch goal with
      | H : 0 <= slen d i < 65536 |- _ => fail | _ => pose proof (slen_range d i) end
  | _ : context [soff ?d ?i] |- _ => lazymatch goal with
      | H : 0 <= soff d i < 65536 |- _ => fail | _ => pose proof (soff_range d i) end
  | _ : context [slen ?d ?i] |- _ => lazymatch goal with
      | H : 0 <= slen d i < 65536 |- _ => fail | _ => pose proof (slen_range d i) end
  end.

(** Run binds and read the page record. *)
Ltac pstep := cbn [mbind outcome_bind data fst snd].

(** ** The primitives on an array of [PAGE_SIZE] bytes *)

Section Primitives.
Context (d : list byte) (Hlen : lenZ d = PAGE_SIZE).

Lemma get_num_slots_ok : get_num_slots (mkPage d) = Ok (nslots d).
Proof. apply read_le_2; unfold PAGE_META_NUM_SLOTS_OFFSET, PAGE_SIZE in *; cbn [data]; lia. Qed.

Lemma get_free_start_ok : get_free_start (mkPage d) = Ok (fstart d).
Proof.
  unfold get_free_start. rewrite get_num_slots_ok. pstep.
  rewrite read_le_2 by (unfold PAGE_META_FREE_START_OFFSET, PAGE_SIZE in *; lia). pstep.
  unfold fstart, body, fstored, FIXED_PAGE_META_SIZE, BYTES_PER_SLOT_META,
    PAGE_META_FREE_START_OFFSET.
  do 2 f_equal. case_Z_bool; lia.
Qed.

Lemma get_slot_in_use_ok i :
  0 <= i -> body d <= PAGE_SIZE ->
  get_slot_in_use (mkPage d) i =
    Ok (if nslots d <=? i then None else Some (suse d i)).
Proof.
  intros Hi Hb. unfold get_slot_in_use. rewrite get_num_slots_ok. pstep.
  case_Z_bool; [done|]. rewrite index_ok.
  - pstep. unfold suse, slot_meta_offset, FIXED_PAGE_META_SIZE, BYTES_PER_SLOT_META,
      SLOT_IN_USE_OFFSET. do 3 f_equal. lia.
  - unfold body, slot_meta_offset, FIXED_PAGE_META_SIZE, BYTES_PER_SLOT_META,
      SLOT_IN_USE_OFFSET in *. cbn [data]. lia.
Qed.

Lemma get_slot_offset_length_ok i :
  0 <= i -> body d <= PAGE_SIZE ->
  get_slot_offset_length (mkPage d) i =
    Ok (if nslots d <=? i then None else Some (soff d i, slen d i)).
Proof.
  intros Hi Hb. unfold get_slot_offset_length. rewrite get_num_slots_ok. pstep.
  case_Z_bool; [done|].
  unfold body, slot_meta_offset, FIXED_PAGE_META_SIZE, BYTES_PER_SLOT_META,
    SLOT_OFFSET_OFFSET, SLOT_LENGTH_OFFSET in *.
  rewrite !read_le_2 by lia. pstep. unfold soff, slen.
  do 3 f_equal; f_equal; lia.
Qed.

(** What one slot-entry write changes. *)
Record slot_written (d' : list byte) (i o l : Z) (u : byte) : Prop := {
  sw_len : lenZ d' = PAGE_SIZE;
  sw_frame : forall x, 0 <= x -> x < 8 + 6 * i \/ 13 + 6 * i <= x -> bget d' x = bget d x;
  sw_off : soff d' i = o mod 65536;
  sw_slen : slen d' i = l mod 65536;
  sw_use : suse d' i = u;
}.

Lemma write_slot_ok i o l u :
  0 <= i -> 14 + 6 * i <= PAGE_SIZE ->
  exists d', write_slot (mkPage d) i o l u = Ok (mkPage d') /\ slot_written d' i o l u.
Proof.
  intros Hi Hb. unfold write_slot. cbn [data].
  unfold slot_meta_offset, FIXED_PAGE_META_SIZE, BYTES_PER_SLOT_META, SLOT_IN_USE_OFFSET.
  replace (8 + i * 6) with (8 + 6 * i) by lia.
  rewrite copy_from_slice_ok by (rewrite ?lenZ_to_le_bytes; lia). pstep.
  set (d1 := splice d _ _).
  assert (lenZ d1 = PAGE_SIZE) as H1
    by (unfold d1; rewrite lenZ_splice by (rewrite ?lenZ_to_le_bytes; lia); done).
  rewrite copy_from_slice_ok by (rewrite ?lenZ_to_le_bytes; lia). pstep.
  set (d2 := splice d1 _ _).
  assert (lenZ d2 = PAGE_SIZE) as H2
    by (unfold d2; rewrite lenZ_splice by (rewrite ?lenZ_to_le_bytes; lia); done).
  rewrite copy_from_slice_ok by (unfold lenZ in *; simpl; lia). pstep.
  set (d3 := splice d2 _ _). exists d3. split; [done|].
  assert (lenZ [u] = 1) as Hu by done.
  split.
  - unfold d3. rewrite lenZ_splice by lia. done.
  - intros x Hx Ho. unfold d3, d2, d1.
    rewrite !bget_splice_out by (rewrite ?lenZ_to_le_bytes, ?Hu; fold d1 d2; lia). done.
  - unfold soff, d3, d2. rewrite !u16_at_splice_ne
      by (rewrite ?lenZ_to_le_bytes, ?Hu; fold d2; lia).
    apply u16_at_splice_eq; lia.
  - unfold slen, d3. rewrite u16_at_splice_ne
      by (rewrite ?lenZ_to_le_bytes, ?Hu; lia).
    apply u16_at_splice_eq; lia.
  - unfold suse, d3. rewrite bget_splice_in by lia.
    replace (8 + 6 * i + 4 - (8 + 6 * i + 4)) with 0 by lia. done.
Qed.

Lemma slot_written_other d' i o l u j :
  slot_written d' i o l u -> 0 <= j -> j <> i -> slot_eq d d' j.
Proof. intros H Hj Hn. apply slot_frame. intros x Hx. apply (sw_frame _ _ _ _ _ H); lia. Qed.

(** What writing one of the two header integers changes. *)
Record hdr_written (d' : list byte) (at_ z : Z) : Prop := {
  hw_len : lenZ d' = PAGE_SIZE;
  hw_frame : forall x, 0 <= x -> x < at_ \/ at_ + 2 <= x -> bget d' x = bget d x;
  hw_val : u16_at d' at_ = z;
}.

Lemma hdr_write_ok at_ z :
  0 <= at_ -> at_ + 2 <= PAGE_SIZE -> in_u 16 z ->
  copy_from_slice (E := CrustyError) d at_ (to_le_bytes 2 (wrap_u 16 z)) =
    Ok (splice d at_ (to_le_bytes 2 z)) /\
  hdr_written (splice d at_ (to_le_bytes 2 z)) at_ z.
Proof.
  intros Ha Hb Hz. rewrite wrap_u_small by done.
  rewrite copy_from_slice_ok by (rewrite ?lenZ_to_le_bytes; lia).
  split; [done|]. split.
  - rewrite lenZ_splice by (rewrite ?lenZ_to_le_bytes; lia). done.
  - intros x Hx Ho. apply bget_splice_out; rewrite ?lenZ_to_le_bytes; lia.
  - rewrite u16_at_splice_eq by lia. by apply Z.mod_small.
Qed.

Lemma set_free_start_ok pos :
  0 <= pos ->
  exists d', set_free_start (mkPage d) pos = Ok (mkPage d') /\
             hdr_written d' 4 (Z.min pos PAGE_SIZE).
Proof.
  intros Hp. unfold set_free_start, PAGE_META_FREE_START_OFFSET. simpl data.
  destruct (hdr_write_ok 4 (Z.min pos PAGE_SIZE)) as [-> Hw];
    [lia|unfold PAGE_SIZE; lia|unfold in_u, PAGE_SIZE; lia|].
  pstep. eauto.
Qed.

Lemma set_num_slots_ok n :
  in_u 16 n ->
  exists d', set_num_slots (mkPage d) n = Ok (mkPage d') /\ hdr_written d' 2 n.
Proof.
  intros Hp. unfold set_num_slots, PAGE_META_NUM_SLOTS_OFFSET. simpl data.
  destruct (hdr_write_ok 2 n) as [-> Hw]; [lia|unfold PAGE_SIZE; lia|done|].
  pstep. eauto.
Qed.

Lemma hdr_written_slot d' at_ z j :
  hdr_written d' at_ z -> at_ + 2 <= 8 -> 0 <= j -> slot_eq d d' j.
Proof. intros H ? Hj. apply slot_frame. intros x Hx. apply (hw_frame _ _ _ H); lia. Qed.
End Primitives.

(** ** The live slots *)

Definition live_ids (d : list byte) : list Z :=
  filter (fun i => suse d i = x01) (seqZ 0 (nslots d)).

Definition used_bytes (d : list byte) : Z := sumZ (slen d <$> live_ids d).

Lemma elem_of_live_ids d i : i ∈ live_ids d <-> live d i.
Proof. unfold live_ids, live. rewrite list_elem_of_filter, elem_of_seqZ. intuition lia. Qed.

Lemma NoDup_live_ids d : NoDup (live_ids d).
Proof. apply NoDup_filter, NoDup_seqZ. Qed.

Section Live.
Context (d : list byte) (Hlen : lenZ d = PAGE_SIZE) (Hb : body d <= PAGE_SIZE).

Lemma slot_is_valid_ok i :
  0 <= i < nslots d -> slot_is_valid (mkPage d) (wrap_u 16 i) =
    Ok (bool_decide (suse d i = x01)).
Proof.
  intros Hi. pose proof (nslots_range d).
  unfold slot_is_valid. rewrite wrap_u_small by (unfold in_u; lia).
  rewrite get_slot_in_use_ok by (done || lia). pstep.
  rewrite (proj2 (Z.leb_gt _ _)) by lia. done.
Qed.

Lemma collect_used_ok :
  collect_used (mkPage d) (nslots d) =
    Ok ((fun i => (i, soff d i, slen d i)) <$> live_ids d).
Proof.
  unfold collect_used, live_ids. rewrite <- omap_filter_fmap.
  apply filter_mapM_pure. intros i Hi. apply elem_of_seqZ in Hi.
  pose proof (nslots_range d).
  rewrite slot_is_valid_ok by lia. pstep.
  rewrite wrap_u_small by (unfold in_u; lia).
  case_bool_decide; [|done].
  rewrite get_slot_offset_length_ok by (done || lia). pstep.
  rewrite (proj2 (Z.leb_gt _ _)) by lia. done.
Qed.

Lemma iter_used_slots_ok :
  iter_used_slots (mkPage d) = Ok ((fun i => (i, slen d i)) <$> live_ids d).
Proof.
  unfold iter_used_slots, live_ids. rewrite get_num_slots_ok by done. pstep.
  rewrite <- omap_filter_fmap. apply filter_mapM_pure. intros i Hi.
  apply elem_of_seqZ in Hi. pose proof (nslots_range d).
  rewrite slot_is_valid_ok by lia. pstep.
  rewrite wrap_u_small by (unfold in_u; lia).
  case_bool_decide; [|done].
  rewrite get_slot_offset_length_ok by (done || lia). pstep.
  rewrite (proj2 (Z.leb_gt _ _)) by lia. done.
Qed.

Lemma get_free_space_ok :
  get_free_space (mkPage d) = Ok (Z.max 0 (PAGE_SIZE - body d - used_bytes d)).
Proof.
  unfold get_free_space, get_header_size. rewrite get_num_slots_ok by done. pstep.
  rewrite iter_used_slots_ok. pstep. rewrite <- list_fmap_compose.
  unfold used_bytes, saturating_sub, body, FIXED_PAGE_META_SIZE, BYTES_PER_SLOT_META in *.
  f_equal. change (snd ∘ _) with (slen d).
  rewrite (Z.max_r 0 (PAGE_SIZE - _)) by lia. f_equal. lia.
Qed.
End Live.

(** ** The copy loop of [compact] *)

Definition uid (u : Z * Z * Z) : Z := u.1.1.

(** A record still to be moved: it lies within bounds, and if it is not empty it
    starts at or after the write position. *)
Definition pending (n B wp : Z) (u : Z * Z * Z) : Prop :=
  let '(i, o, l) := u in
  0 <= i < n /\ 0 <= l /\ 0 <= o /\ o + l <= B /\ (0 < l -> wp <= o).

Definition apart (u v : Z * Z * Z) : Prop :=
  disjoint_rec (used_offset u) (used_length u) (used_offset v) (used_length v).

(** A moved record: its slot entry points at a copy of its bytes. *)
Definition moved (d d' : list byte) (lo hi : Z) (u : Z * Z * Z) : Prop :=
  let '(i, o, l) := u in
  lo <= soff d' i /\ soff d' i + l <= hi /\ slen d' i = l /\ suse d' i = x01 /\
  forall k, 0 <= k < l -> bget d' (soff d' i + k) = bget d (o + k).

(** One turn of the loop. *)
Lemma compact_step_ok n B d wp u :
  lenZ d = PAGE_SIZE -> 8 + 6 * n <= wp -> wp <= B -> B <= PAGE_SIZE -> pending n B wp u ->
  exists d', compact_step (mkPage d, wp) u = Ok (mkPage d', wp + used_length u) /\
    lenZ d' = PAGE_SIZE /\
    wp + used_length u <= B /\
    soff d' (uid u) = wp /\ slen d' (uid u) = used_length u /\ suse d' (uid u) = x01 /\
    (forall x, 0 <= x < 8 + 6 * n -> x < 8 + 6 * uid u \/ 13 + 6 * uid u <= x ->
       bget d' x = bget d x) /\
    (forall x, 8 + 6 * n <= x -> x < wp \/ wp + used_length u <= x -> bget d' x = bget d x) /\
    (forall k, 0 <= k < used_length u -> bget d' (wp + k) = bget d (used_offset u + k)).
Proof.
  destruct u as [[i o] l]. unfold uid, used_offset, used_length, pending. cbn [fst snd].
  intros Hlen Hwp HB HP (Hi & Hl & Ho & Hol & Hmv). unfold compact_step. pstep.
  assert (wp + l <= B) as Hend by (destruct (decide (0 < l)); lia).
  assert (exists d1, (if negb (o =? wp)
    then d0 ← copy_within d o (o + l) wp; Ok (mkPage d0) else Ok (mkPage d))
    = Ok (E := CrustyError) (mkPage d1) /\ lenZ d1 = PAGE_SIZE /\
    (forall x, 0 <= x -> x < wp \/ wp + l <= x -> bget d1 x = bget d x) /\
    (forall k, 0 <= k < l -> bget d1 (wp + k) = bget d (o + k)))
    as (d1 & -> & Hl1 & Hf1 & Hc1).
  { destruct (Z.eqb_spec o wp) as [->|Hne]; cbn [negb]; [eauto|].
    rewrite copy_within_ok by lia. pstep. replace (o + l - o) with l by lia.
    pose proof (lenZ_sub d o l ltac:(lia) ltac:(lia) ltac:(lia)) as Hs.
    eexists. split_and!; [done|rewrite lenZ_splice; lia| |].
    - intros x Hx Hx'. apply bget_splice_out; lia.
    - intros k Hk. rewrite bget_splice_in by lia. rewrite bget_sub by lia. f_equal. lia. }
  pstep.
  rewrite !wrap_u_small by (unfold in_u, PAGE_SIZE in *; lia).
  destruct (write_slot_ok d1 Hl1 i wp l SLOT_IN_USE_VALID) as (d2 & -> & W); [lia..|].
  pstep. exists d2. destruct W as [W1 W2 W3 W4 W5].
  unfold PAGE_SIZE in *. rewrite Z.mod_small in W3, W4 by lia.
  split_and!; try done.
  - intros x Hx Hx'. rewrite W2 by lia. apply Hf1; lia.
  - intros x Hx Hx'. rewrite W2 by lia. apply Hf1; lia.
  - intros k Hk. rewrite W2 by lia. by apply Hc1.
Qed.

(** The records behind a moved one still have room. *)
Lemma pending_after n B wp u v :
  pending n B wp u -> pending n B wp v -> apart u v -> used_offset u <= used_offset v ->
  pending n B (wp + used_length u) v.
Proof.
  destruct u as [[iu ou] lu], v as [[iv ov] lv].
  unfold apart, disjoint_rec, pending, used_offset, used_length; cbn [fst snd]. lia.
Qed.

(** A record moved after another one was moved from where it was before that. *)
Lemma moved_after n d d1 d' B wp len total u :
  8 + 6 * n <= wp -> 0 <= len -> pending n B (wp + len) u ->
  (forall x, 8 + 6 * n <= x -> x < wp \/ wp + len <= x -> bget d1 x = bget d x) ->
  moved d1 d' (wp + len) total u -> moved d d' wp total u.
Proof.
  destruct u as [[i o] l]. intros Hwp Hlen (?&?&?&?&?) Fb (M1 & M2 & M3 & M4 & M5).
  split_and!; [lia|lia|done|done|]. intros k Hk. rewrite M5 by lia. apply Fb; lia.
Qed.

Lemma used_length_sum n B wp R : (forall v, v ∈ R -> pending n B wp v) -> 0 <= sumZ (used_length <$> R).
Proof.
  intros Hp. apply sumZ_nonneg, Forall_fmap, Forall_forall. intros v Hv.
  pose proof (Hp v Hv). destruct v as [[??]?]; unfold used_length; simpl in *. lia.
Qed.

Lemma pending_rest n B wp u R :
  uid u ∉ uid <$> R -> Forall (key_le used_offset u) R ->
  (forall v, v ∈ u :: R -> pending n B wp v) ->
  (forall v w, v ∈ u :: R -> w ∈ u :: R -> uid v <> uid w -> apart v w) ->
  forall v, v ∈ R -> pending n B (wp + used_length u) v.
Proof.
  intros Hni Hle Hp Ha v Hv. rewrite Forall_forall in Hle.
  assert (uid u <> uid v) as Hne by (intros E; apply Hni; rewrite E; by apply list_elem_of_fmap_2).
  apply pending_after; [apply Hp..|apply Ha|apply (Hle v Hv)]; try done;
    by (apply list_elem_of_here || apply list_elem_of_further).
Qed.

Lemma compact_loop_ok n B R : forall d wp,
  lenZ d = PAGE_SIZE -> 8 + 6 * n <= wp -> wp <= B -> B <= PAGE_SIZE ->
  NoDup (uid <$> R) -> StronglySorted (key_le used_offset) R ->
  (forall u, u ∈ R -> pending n B wp u) ->
  (forall u v, u ∈ R -> v ∈ R -> uid u <> uid v -> apart u v) ->
  let total := wp + sumZ (used_length <$> R) in
  exists d', foldM compact_step (mkPage d, wp) R = Ok (mkPage d', total) /\
    total <= B /\ lenZ d' = PAGE_SIZE /\
    (forall x, 0 <= x < 8 -> bget d' x = bget d x) /\
    (forall j, 0 <= j < n -> j ∉ uid <$> R -> slot_eq d d' j) /\
    (forall x, 8 + 6 * n <= x < wp -> bget d' x = bget d x) /\
    (forall u, u ∈ R -> moved d d' wp total u) /\
    (forall u v, u ∈ R -> v ∈ R -> uid u <> uid v ->
       disjoint_rec (soff d' (uid u)) (slen d' (uid u)) (soff d' (uid v)) (slen d' (uid v))).
Proof.
  induction R as [|u R IH]; intros d wp Hlen Hwp HB HP Hnd Hss Hp Ha total.
  { exists d. unfold total. cbn. rewrite Z.add_0_r. split_and!; try done; try lia;
      try (by intros; apply slot_frame); set_solver. }
  pose proof (Hp u (list_elem_of_here _ _)) as Hu.
  destruct (compact_step_ok n B d wp u Hlen Hwp HB HP Hu)
    as (d1 & E1 & L1 & Hend & So & Sl & Su & Fh & Fb & Fc).
  apply NoDup_cons in Hnd as [Hni Hnd].
  apply StronglySorted_inv in Hss as [Hss Hle].
  assert (0 <= used_length u /\ 0 <= uid u < n) as [Hul Hui]
    by (destruct u as [[??]?]; unfold uid, used_length; simpl in *; lia).
  pose proof (pending_rest n B wp u R Hni Hle Hp Ha) as Hp'.
  destruct (IH d1 (wp + used_length u)) as (d' & E' & Ht & L' & H8 & Hs & Hfr & Hm & Hd);
    try done; try lia.
  { intros v w Hv Hw. apply Ha; by apply list_elem_of_further. }
  assert (Htot : total = wp + used_length u + sumZ (used_length <$> R)).
  { unfold total. csimpl. unfold sumZ at 1. cbn [foldr]. fold (sumZ (used_length <$> R)). lia. }
  rewrite <- Htot in Ht, E', Hm.
  destruct (Hs (uid u) Hui Hni) as (So' & Sl' & Su').
  pose proof (used_length_sum _ _ _ R Hp') as Hsum.
  assert (Hmu : moved d d' wp total u).
  { destruct u as [[i o] l].
    cbn [uid used_length used_offset fst snd] in So, Sl, Su, So', Sl', Su', Fc, Hul, Hend, Htot, Hfr.
    split_and!; [lia|lia|congruence|congruence|].
    intros k Hk. rewrite So', So, Hfr by lia. by apply Fc. }
  exists d'. split_and!; [|done|done|..].
  - cbn [foldM]. rewrite E1. pstep. done.
  - intros x Hx. rewrite H8 by lia. apply Fh; lia.
  - intros j Hj Hnj. rewrite fmap_cons, not_elem_of_cons in Hnj. destruct Hnj as [Hju Hjr].
    destruct (Hs j Hj Hjr) as (E1' & E2' & E3').
    assert (slot_eq d d1 j) as (F1 & F2 & F3) by (apply slot_frame; intros; apply Fh; lia).
    unfold slot_eq. by rewrite E1', E2', E3'.
  - intros x Hx. rewrite Hfr by lia. apply Fb; lia.
  - intros v Hv. apply elem_of_cons in Hv as [->|Hv]; [done|].
    eapply moved_after; [exact Hwp|exact Hul|by apply Hp'|exact Fb|by apply Hm].
  - assert (Hcross : forall v, v ∈ R -> soff d' (uid u) + slen d' (uid u) <= soff d' (uid v)).
    { intros v Hv. pose proof (Hm v Hv) as Hmv. destruct v as [[i o] l].
      destruct Hmv as (M1 & _). unfold uid at 3. cbn [fst]. rewrite So', Sl', So, Sl. lia. }
    unfold disjoint_rec in *. intros v w Hv Hw Hne.
    apply elem_of_cons in Hv as [->|Hv], Hw as [->|Hw]; [done|left;auto|right;auto|auto].
Qed.

(** ** Rearranging a page without changing what it stores *)

Record keeps (d d' : list byte) : Prop := {
  k_pid : u16_at d' 0 = u16_at d 0;
  k_nslots : nslots d' = nslots d;
  k_use : forall i, 0 <= i < nslots d -> suse d' i = suse d i;
  k_slen : forall i, live d i -> slen d' i = slen d i;
  k_record : forall i, live d i -> record d' i = record d i;
}.

Lemma keeps_live d d' i : keeps d d' -> live d' i <-> live d i.
Proof.
  intros K. unfold live. rewrite (k_nslots _ _ K).
  split; intros [H1 H2]; (split; [done|]); rewrite (k_use _ _ K) in *; done.
Qed.

Lemma keeps_live_ids d d' : keeps d d' -> live_ids d' = live_ids d.
Proof.
  intros K. unfold live_ids. rewrite (k_nslots _ _ K).
  apply list_filter_ext_in. intros i Hi. apply elem_of_seqZ in Hi.
  rewrite (k_use _ _ K) by lia. done.
Qed.

Lemma keeps_used_bytes d d' : keeps d d' -> used_bytes d' = used_bytes d.
Proof.
  intros K. unfold used_bytes. rewrite (keeps_live_ids _ _ K). f_equal.
  apply list_fmap_ext. intros k i Hi. apply (k_slen _ _ K).
  apply elem_of_live_ids, list_elem_of_lookup. eauto.
Qed.

Lemma keeps_trans d1 d2 d3 : keeps d1 d2 -> keeps d2 d3 -> keeps d1 d3.
Proof.
  intros K1 K2. pose proof (k_nslots _ _ K1) as En.
  split.
  - rewrite (k_pid _ _ K2). apply K1.
  - rewrite (k_nslots _ _ K2). apply K1.
  - intros i Hi. rewrite (k_use _ _ K2) by lia. by apply K1.
  - intros i Hi. rewrite (k_slen _ _ K2) by (by apply (keeps_live _ _ _ K1)). by apply K1.
  - intros i Hi. rewrite (k_record _ _ K2) by (by apply (keeps_live _ _ _ K1)). by apply K1.
Qed.

Lemma keeps_refl d : keeps d d.
Proof. by split. Qed.

(** A page whose records were packed right behind the directory. *)
Record packed (d d' : list byte) : Prop := {
  pk_len : lenZ d' = PAGE_SIZE;
  pk_pid : u16_at d' 0 = u16_at d 0;
  pk_nslots : nslots d' = nslots d;
  pk_fstart : fstart d' = body d + used_bytes d;
  pk_use : forall i, 0 <= i < nslots d -> suse d' i = suse d i;
  pk_moved : forall i, live d i ->
    body d <= soff d' i /\ soff d' i + slen d i <= body d + used_bytes d /\
    slen d' i = slen d i /\ record d' i = record d i;
  pk_disj : forall i j, live d i -> live d j -> i <> j ->
    disjoint_rec (soff d' i) (slen d' i) (soff d' j) (slen d' j);
}.

Lemma packed_wf d d' : page_wf (mkPage d) -> packed d d' -> page_wf (mkPage d').
Proof.
  intros [Hlen Hbody Hflag Hrec Hdisj] [L _ En Ef Hu Hm Hd]. cbn [data] in *.
  assert (Hlive : forall i, live d' i -> live d i).
  { intros i [Hi Hx]. rewrite En in Hi. rewrite Hu in Hx by done. by split. }
  split; cbn [data].
  - done.
  - unfold body in *. by rewrite En.
  - intros i Hi. rewrite En in Hi. rewrite Hu by done. by apply Hflag.
  - intros i Hi%Hlive. destruct (Hm i Hi) as (?&?&->&_). rewrite Ef. unfold body in *. rewrite En. lia.
  - intros i j Hi%Hlive Hj%Hlive Hne. by apply Hd.
Qed.

Lemma packed_keeps d d' : packed d d' -> keeps d d'.
Proof. intros [_ Hp En _ Hu Hm _]. split; try done; intros i Hi; by apply Hm. Qed.

(** The records of a well-formed page, sorted by offset, as the loop takes them. *)
Section Sorted.
Context (d : list byte) (Hwf : page_wf (mkPage d)).

Definition sorted_used : list (Z * Z * Z) :=
  sort_by_key used_offset ((fun i => (i, soff d i, slen d i)) <$> live_ids d).

Lemma elem_of_sorted u : u ∈ sorted_used <-> exists i, u = (i, soff d i, slen d i) /\ live d i.
Proof.
  unfold sorted_used. rewrite sort_by_key_perm, list_elem_of_fmap. by setoid_rewrite elem_of_live_ids.
Qed.

Lemma sorted_ids : uid <$> sorted_used ≡ₚ live_ids d.
Proof.
  unfold sorted_used. rewrite sort_by_key_perm, <- list_fmap_compose.
  change (uid ∘ _) with (fun i : Z => i). by rewrite list_fmap_id.
Qed.

Lemma sorted_sum : sumZ (used_length <$> sorted_used) = used_bytes d.
Proof.
  unfold used_bytes, sorted_used. apply sumZ_perm. rewrite sort_by_key_perm.
  by rewrite <- list_fmap_compose.
Qed.

Lemma used_bytes_pos : 0 <= used_bytes d.
Proof. apply sumZ_nonneg, Forall_fmap, Forall_forall. intros i _. apply slen_range. Qed.

(** The loop over them packs the records. *)
Lemma compact_moves :
  exists d1, foldM compact_step (mkPage d, body d) sorted_used =
      Ok (mkPage d1, body d + used_bytes d) /\
    body d + used_bytes d <= fstart d /\ lenZ d1 = PAGE_SIZE /\
    (forall x, 0 <= x < 8 -> bget d1 x = bget d x) /\
    (forall j, 0 <= j < nslots d -> j ∉ uid <$> sorted_used -> slot_eq d d1 j) /\
    (forall i, live d i -> moved d d1 (body d) (body d + used_bytes d) (i, soff d i, slen d i)) /\
    (forall i j, live d i -> live d j -> i <> j ->
       disjoint_rec (soff d1 i) (slen d1 i) (soff d1 j) (slen d1 j)).
Proof.
  pose proof Hwf as [Hlen Hbody Hflag Hrec Hdisj]. cbn [data] in *. pose proof (nslots_range d).
  assert (HB : fstart d <= PAGE_SIZE /\ body d <= fstart d) by (unfold fstart; lia).
  destruct (compact_loop_ok (nslots d) (fstart d) sorted_used d (body d))
    as (d1 & E & Ht & L1 & H8 & Hs & _ & Hm & Hd); try done; try lia.
  { rewrite sorted_ids. apply NoDup_live_ids. }
  { apply sort_by_key_sorted. }
  { intros u (i & -> & Hi)%elem_of_sorted. pose proof (Hrec i Hi) as Hri. destruct Hi as [Hi _].
    pose proof (slen_range d i). pose proof (soff_range d i). unfold pending. split_and!; lia. }
  { intros u v (i & -> & Hi)%elem_of_sorted (j & -> & Hj)%elem_of_sorted Hne. by apply Hdisj. }
  rewrite sorted_sum in *. exists d1. split_and!; try done.
  - intros i Hi. apply Hm, elem_of_sorted. eauto.
  - intros i j Hi Hj Hne.
    apply (Hd (i, soff d i, slen d i) (j, soff d j, slen d j)); [apply elem_of_sorted; eauto..|done].
Qed.

(** What [compact] leaves after it stored the new [free_start]. *)
Lemma compact_packed d1 d2 :
  body d + used_bytes d <= fstart d ->
  (forall x, 0 <= x < 8 -> bget d1 x = bget d x) ->
  (forall j, 0 <= j < nslots d -> j ∉ uid <$> sorted_used -> slot_eq d d1 j) ->
  (forall i, live d i -> moved d d1 (body d) (body d + used_bytes d) (i, soff d i, slen d i)) ->
  (forall i j, live d i -> live d j -> i <> j ->
     disjoint_rec (soff d1 i) (slen d1 i) (soff d1 j) (slen d1 j)) ->
  hdr_written d1 d2 4 (body d + used_bytes d) -> packed d d2.
Proof.
  pose proof Hwf as [Hlen Hbody Hflag Hrec Hdisj]. cbn [data] in *. pose proof (nslots_range d).
  intros Ht H8 Hs Hm Hd W. assert (fstart d <= PAGE_SIZE) as HB by (unfold fstart; lia).
  assert (Hslot : forall j, 0 <= j -> slot_eq d1 d2 j)
    by (intros; eapply hdr_written_slot; [exact W|lia|done]).
  destruct W as [L2 Wf Wv].
  assert (En : nslots d2 = nslots d) by (apply nslots_frame; rewrite Wf, H8 by lia; done).
  split; [done|apply u16_at_ext; rewrite Wf, H8 by lia; done|done| | | |].
  - unfold fstart. change (fstored d2) with (u16_at d2 4). rewrite Wv.
    assert (body d2 = body d) as -> by (unfold body; by rewrite En). pose proof used_bytes_pos.
    unfold fstart in Ht. lia.
  - intros i Hi. destruct (Hslot i) as (_ & _ & ->); [lia|].
    destruct (decide (suse d i = x01)) as [E|E].
    + rewrite E. apply (Hm i). by split.
    + apply Hs; [done|]. rewrite sorted_ids, elem_of_live_ids. by intros [_ ?].
  - intros i Hi. destruct (Hm i Hi) as (M1 & M2 & M3 & M4 & M5).
    destruct (Hslot i) as (S1 & S2 & S3); [unfold live in Hi; lia|].
    rewrite S1, S2. split_and!; try done. unfold record. rewrite S1, S2, M3. pose proof (Hrec i Hi).
    pose proof (slen_range d i). pose proof (soff_range d i). pose proof (soff_range d1 i).
    apply sub_ext; try lia. intros k Hk. rewrite Wf by (unfold body in *; lia). by apply M5.
  - intros i j Hi Hj Hne. destruct (Hslot i) as (-> & -> & _); [unfold live in *; lia|].
    destruct (Hslot j) as (-> & -> & _); [unfold live in *; lia|]. by apply Hd.
Qed.

(** The bytes a well-formed page uses fit between the directory and [free_start],
    and [compact] packs the records right after the directory. *)
Lemma compact_ok :
  exists d', compact (mkPage d) = Ok (mkPage d') /\ page_wf (mkPage d') /\ keeps d d' /\
    fstart d' = body d + used_bytes d /\ body d + used_bytes d <= fstart d.
Proof.
  pose proof Hwf as [Hlen Hbody _ _ _]. cbn [data] in *. pose proof (nslots_range d).
  unfold compact. rewrite get_num_slots_ok by done. pstep. rewrite collect_used_ok by done. pstep.
  fold sorted_used.
  replace (FIXED_PAGE_META_SIZE + nslots d * BYTES_PER_SLOT_META) with (body d)
    by (unfold body, FIXED_PAGE_META_SIZE, BYTES_PER_SLOT_META; lia).
  destruct compact_moves as (d1 & -> & Ht & L1 & H8 & Hs & Hm & Hd). pstep.
  pose proof used_bytes_pos.
  destruct (set_free_start_ok d1 L1 (body d + used_bytes d)) as (d2 & -> & W); [unfold body; lia|].
  rewrite Z.min_l in W by (unfold fstart in Ht; lia).
  pose proof (compact_packed d1 d2 Ht H8 Hs Hm Hd W) as K. exists d2.
  split_and!; [done|by eapply packed_wf|by apply packed_keeps|apply K|done].
Qed.
End Sorted.

(** ** [shift_body_for_new_slot] *)

(** Slot [j] after the bump: a live slot points six bytes further. *)
Definition bumped (d d' : list byte) (j : Z) : Prop :=
  soff d' j = (if bool_decide (suse d j = x01) then soff d j + 6 else soff d j) /\
  slen d' j = slen d j /\ suse d' j = suse d j.

Lemma shift_step_ok d i :
  lenZ d = PAGE_SIZE -> body d <= PAGE_SIZE -> 0 <= i < nslots d ->
  (suse d i = x01 -> soff d i + 6 < 65536) ->
  exists d', shift_step (mkPage d) i = Ok (mkPage d') /\ lenZ d' = PAGE_SIZE /\
    (forall x, 0 <= x -> x < 8 + 6 * i \/ 13 + 6 * i <= x -> bget d' x = bget d x) /\
    bumped d d' i.
Proof.
  intros Hlen Hb Hi Ho. pose proof (nslots_range d). pose proof (slen_range d i).
  pose proof (soff_range d i). unfold shift_step, bumped.
  rewrite slot_is_valid_ok by done. pstep.
  rewrite wrap_u_small by (unfold in_u; lia).
  case_bool_decide as Hu; [specialize (Ho Hu)|by exists d].
  rewrite get_slot_offset_length_ok by (done || lia). pstep.
  rewrite (proj2 (Z.leb_gt _ _)) by lia.
  rewrite wrap_u_small by (unfold in_u, BYTES_PER_SLOT_META; lia).
  destruct (write_slot_ok d Hlen i (soff d i + BYTES_PER_SLOT_META) (slen d i)
    SLOT_IN_USE_VALID) as (d' & -> & [W1 W2 W3 W4 W5]); [unfold body in *; lia..|].
  unfold BYTES_PER_SLOT_META in *. rewrite Z.mod_small in W3, W4 by lia.
  exists d'. split_and!; try done. by rewrite Hu.
Qed.

Lemma shift_loop_ok ids : forall d,
  lenZ d = PAGE_SIZE -> body d <= PAGE_SIZE -> NoDup ids ->
  (forall i, i ∈ ids -> 0 <= i < nslots d /\ (suse d i = x01 -> soff d i + 6 < 65536)) ->
  exists d', foldM shift_step (mkPage d) ids = Ok (mkPage d') /\ lenZ d' = PAGE_SIZE /\
    (forall x, 0 <= x < 8 \/ body d <= x -> bget d' x = bget d x) /\
    (forall j, 0 <= j -> j ∉ ids -> slot_eq d d' j) /\
    (forall j, j ∈ ids -> bumped d d' j).
Proof.
  induction ids as [|i ids IH]; intros d Hlen Hb Hnd Hin.
  { exists d. split_and!; try done; by intros ? ?%not_elem_of_nil. }
  apply NoDup_cons in Hnd as [Hni Hnd].
  destruct (Hin i (list_elem_of_here _ _)) as [Hi Hoff].
  destruct (shift_step_ok d i Hlen Hb Hi Hoff) as (d1 & E1 & L1 & F1 & B1).
  assert (Hs1 : forall j, 0 <= j -> j <> i -> slot_eq d d1 j)
    by (intros; apply slot_frame; intros; apply F1; lia).
  assert (En : nslots d1 = nslots d) by (apply nslots_frame; apply F1; lia).
  assert (Hbody : body d1 = body d) by (unfold body; by rewrite En).
  destruct (IH d1) as (d' & E' & L' & F' & S' & B'); try done; try congruence.
  { intros j Hj. destruct (Hin j (list_elem_of_further _ _ _ Hj)).
    rewrite En. destruct (Hs1 j) as (-> & _ & ->); [lia|by intros ->|done]. }
  exists d'. split_and!; try done.
  - cbn [foldM]. rewrite E1. pstep. done.
  - intros x Hx. rewrite F' by (rewrite ?Hbody; lia). apply F1; unfold body in *; lia.
  - intros j Hj Hnj. rewrite not_elem_of_cons in Hnj. destruct Hnj as [Hne Hnj].
    unfold slot_eq. destruct (S' j Hj Hnj) as (-> & -> & ->). by apply Hs1.
  - intros j Hj. apply elem_of_cons in Hj as [->|Hj].
    + destruct (S' i) as (E1' & E2' & E3'); [lia|done|]. unfold bumped in *.
      by rewrite E1', E2', E3'.
    + pose proof (B' j Hj) as Bj. destruct (Hs1 j) as (E1' & E2' & E3').
      { destruct (Hin j (list_elem_of_further _ _ _ Hj)); lia. }
      { by intros ->. }
      unfold bumped in *. by rewrite E1', E2', E3' in Bj.
Qed.

(** The body copy and the zero fill, before the slot offsets are bumped. *)
Lemma shift_copy_ok `{Profile} d :
  lenZ d = PAGE_SIZE -> body d <= PAGE_SIZE -> fstart d + 6 <= PAGE_SIZE ->
  exists d1, (p ← (if 0 <? saturating_sub (fstart d) (body d) then
       room ← arith_u 64 (PAGE_SIZE - (body d + 6));
       d0 ← copy_within d (body d)
         (body d + Z.min (saturating_sub (fstart d) (body d)) room) (body d + 6);
       Ok (mkPage d0)
     else Ok (mkPage d)); fill (data p) (body d) (body d + 6) x00)
   = Ok (E := CrustyError) d1 /\ lenZ d1 = PAGE_SIZE /\
    (forall x, 0 <= x < body d -> bget d1 x = bget d x) /\
    (forall x, body d <= x < fstart d -> bget d1 (x + 6) = bget d x).
Proof.
  intros Hlen Hbody Hroom. pose proof (nslots_range d).
  assert (body d <= fstart d) as Hbf by (unfold fstart; lia).
  assert (0 <= body d) as Hb0 by (unfold body; lia).
  unfold saturating_sub. rewrite Z.max_r by lia.
  assert (lenZ (replicate (Z.to_nat (body d + 6 - body d)) x00) = 6) as Hr
    by (rewrite lenZ_replicate by lia; lia).
  case_Z_bool.
  - rewrite arith_u_ok by (unfold in_u, PAGE_SIZE in *; lia). pstep.
    rewrite Z.min_l by lia. rewrite copy_within_ok by lia. pstep.
    replace (body d + (fstart d - body d) - body d) with (fstart d - body d) by lia.
    pose proof (lenZ_sub d (body d) (fstart d - body d) ltac:(lia) ltac:(lia) ltac:(lia)) as Hs.
    set (d0 := splice d _ _).
    assert (lenZ d0 = PAGE_SIZE) as HL0 by (unfold d0; rewrite lenZ_splice; lia).
    rewrite fill_ok by lia. eexists. split_and!; [done|rewrite lenZ_splice; lia| |].
    + intros x Hx. rewrite bget_splice_out by lia. apply bget_splice_out; lia.
    + intros x Hx. rewrite bget_splice_out by lia. unfold d0.
      rewrite bget_splice_in by lia. rewrite bget_sub by lia. f_equal. lia.
  - pstep. rewrite fill_ok by lia. eexists.
    split_and!; [done|rewrite lenZ_splice; lia| |lia].
    intros x Hx. apply bget_splice_out; lia.
Qed.

(** Shifting makes room for one more slot entry and keeps every record. *)
(** A page whose body moved up by one slot entry, the offsets with it. *)
Lemma bumped_keeps d d' :
  page_wf (mkPage d) -> fstart d + 6 <= PAGE_SIZE -> lenZ d' = PAGE_SIZE ->
  (forall x, 0 <= x < 4 -> bget d' x = bget d x) ->
  (forall j, 0 <= j < nslots d -> bumped d d' j) ->
  (forall x, body d <= x < fstart d -> bget d' (x + 6) = bget d x) ->
  keeps d d' /\ (forall i, live d i -> soff d' i = soff d i + 6).
Proof.
  intros [Hlen Hbody Hflag Hrec Hdisj] Hroom L' Hhdr Hb Hc. cbn [data] in *. pose proof (nslots_range d).
  assert (Hso : forall i, live d i -> soff d' i = soff d i + 6 /\ slen d' i = slen d i).
  { intros i Hl. destruct (Hb i (proj1 Hl)) as (E1' & -> & _). rewrite E1'.
    by rewrite bool_decide_eq_true_2 by apply Hl. }
  split; [split|by intros; apply Hso].
  - apply u16_at_ext; apply Hhdr; lia.
  - apply nslots_frame; apply Hhdr; lia.
  - intros i Hi. by apply Hb.
  - intros i Hl. by apply Hso.
  - intros i Hl. destruct (Hso i Hl) as [E1' E2']. unfold record. rewrite E1', E2'.
    pose proof (Hrec i Hl). pose proof (slen_range d i). pose proof (soff_range d i).
    apply sub_ext; try lia. intros k Hk.
    replace (soff d i + 6 + k) with (soff d i + k + 6) by lia. apply Hc. lia.
Qed.

Lemma shift_body_ok `{Profile} d :
  page_wf (mkPage d) -> fstart d + 6 <= PAGE_SIZE ->
  exists d', shift_body_for_new_slot (mkPage d) = Ok (mkPage d') /\
    lenZ d' = PAGE_SIZE /\ keeps d d' /\ fstored d' = fstart d + 6 /\
    (forall i, live d i -> soff d' i = soff d i + 6).
Proof.
  intros Hwf Hroom. pose proof Hwf as [Hlen Hbody Hflag Hrec Hdisj]. cbn [data] in *.
  pose proof (nslots_range d).
  unfold shift_body_for_new_slot. rewrite get_num_slots_ok by done. pstep.
  rewrite get_free_start_ok by done. pstep.
  unfold FIXED_PAGE_META_SIZE, BYTES_PER_SLOT_META.
  replace (8 + nslots d * 6) with (body d) by (unfold body; lia).
  destruct (shift_copy_ok d Hlen Hbody Hroom) as (d1 & E1 & L1 & F1 & C1).
  apply bind_Ok_inv in E1 as (p0 & E0 & E1). rewrite E0. pstep. rewrite E1. pstep.
  assert (Hs1 : forall j, 0 <= j < nslots d -> slot_eq d d1 j).
  { intros j Hj. apply slot_frame. intros x Hx. apply F1. unfold body. lia. }
  assert (En1 : nslots d1 = nslots d).
  { apply nslots_frame; apply F1; unfold body; lia. }
  assert (Eb1 : body d1 = body d) by (unfold body; by rewrite En1).
  assert (Hoff : forall i, i ∈ seqZ 0 (nslots d) ->
    0 <= i < nslots d1 /\ (suse d1 i = x01 -> soff d1 i + 6 < 65536)).
  { intros i Hi%elem_of_seqZ. rewrite En1. split; [lia|].
    destruct (Hs1 i) as (-> & _ & ->); [lia|]. intros Hu.
    assert (live d i) as Hl by (split; [lia|done]). pose proof (Hrec i Hl). pose proof (slen_range d i).
    unfold PAGE_SIZE in *. lia. }
  destruct (shift_loop_ok (seqZ 0 (nslots d)) d1 L1 ltac:(congruence) (NoDup_seqZ _ _) Hoff)
    as (d2 & -> & L2 & F2 & _ & B2). pstep.
  destruct (set_free_start_ok d2 L2 (Z.min (fstart d + 6) PAGE_SIZE)) as (d3 & -> & W);
    [unfold fstart, body, PAGE_SIZE in *; lia|].
  rewrite !Z.min_l in W by lia.
  assert (Hb : forall j, 0 <= j < nslots d -> bumped d d3 j).
  { intros j Hj. pose proof (B2 j ltac:(apply elem_of_seqZ; lia)) as Bj.
    destruct (Hs1 j Hj) as (E1' & E2' & E3').
    destruct (hdr_written_slot d2 d3 4 _ j W) as (E1'' & E2'' & E3''); [lia..|].
    unfold bumped in *. rewrite E1', E2', E3' in Bj. by rewrite E1'', E2'', E3''. }
  destruct W as [L3 F3 V3].
  destruct (bumped_keeps d d3 Hwf Hroom L3) as [K So]; [|done| |by exists d3].
  - intros x Hx. rewrite F3, F2 by lia. apply F1. unfold body. lia.
  - intros x Hx. rewrite F3 by (unfold body in *; lia). rewrite F2 by (right; unfold body in *; lia).
    by apply C1.
Qed.
