(* ===== verification/HeapPageSpec.v ===== *)
(** * Correctness of the slotted page: the [HeapPage] operations

    Functional specifications of [get_value], [delete_value], [add_value], the
    free-space accounting and the page iterator, the invariant of every page
    that the operations can build, and the refinement of an abstract map from
    slot ids to records. *)

From S2P Require Import Prelude Bytes Common HeapPage HeapPageProofs.

Open Scope Z_scope.

#[export] Instance live_dec d i : Decision (live d i).
Proof. unfold live. apply _. Defined.

(** ** Reading *)

Lemma get_value_ok d i :
  page_wf (mkPage d) -> 0 <= i ->
  get_value (mkPage d) i = Ok (if decide (live d i) then Some (record d i) else None).
Proof.
  intros [Hlen Hbody Hflag Hrec Hdisj] Hi. cbn [data] in *.
  unfold get_value. rewrite get_slot_in_use_ok by done. pstep.
  unfold live. case_Z_bool.
  { rewrite decide_False by lia. done. }
  case_bool_decide as Hu; cbn [negb].
  - rewrite get_slot_offset_length_ok by done. pstep.
    rewrite (proj2 (Z.leb_gt _ _)) by lia.
    assert (live d i) as Hl by (split; [lia|done]).
    pose proof (Hrec i Hl) as [H1 H2]. pose proof (slen_range d i).
    pose proof (soff_range d i). unfold fstart in *.
    rewrite (proj2 (Z.ltb_ge _ _)) by lia.
    rewrite slice_ok by lia. pstep. rewrite decide_True by done.
    unfold record. do 3 f_equal. lia.
  - rewrite decide_False by (by intros [_ ?]). done.
Qed.

(** ** The lowest free slot *)

Record lowest_free (d : list byte) (sid : Z) : Prop := {
  lf_range : 0 <= sid <= nslots d;
  lf_below : forall i, 0 <= i < sid -> live d i;
  lf_free : ~ live d sid;
}.

Lemma find_free_from_ok d k m :
  page_wf (mkPage d) -> 0 <= k -> 0 <= m -> k + m = nslots d ->
  exists o, find_free_from (mkPage d) (seqZ k m) = Ok o /\
    match o with
    | Some sid => k <= sid < nslots d /\ suse d sid = x00 /\
                  forall i, k <= i < sid -> suse d i = x01
    | None => forall i, k <= i < nslots d -> suse d i = x01
    end.
Proof.
  intros Hwf Hk Hm. pose proof (nslots_range d). revert k Hk.
  pattern m. apply natlike_ind; [| |done]; clear m Hm.
  - intros k Hk E. exists None. split; [done|lia].
  - intros m Hm IH k Hk E.
    rewrite seqZ_cons by lia. cbn [find_free_from].
    rewrite wrap_u_small by (unfold in_u; lia).
    rewrite get_slot_in_use_ok by (apply Hwf || done).
    pstep. rewrite (proj2 (Z.leb_gt _ _)) by lia.
    destruct (wf_flag _ Hwf k) as [Hu|Hu]; [cbn [data]; lia| |]; cbn [data] in Hu; rewrite Hu.
    + exists (Some k). split; [done|]. split_and!; [lia|lia|done|lia].
    + change (bool_decide (x01 = SLOT_IN_USE_FREE)) with false. cbn iota.
      replace (Z.pred (Z.succ m)) with m by lia.
      destruct (IH (Z.succ k)) as (o & -> & Ho); [lia..|]. exists o. split; [done|].
      destruct o as [sid|].
      * destruct Ho as (? & ? & Ho). split_and!; [lia..|done|].
        intros i Hi. destruct (decide (i = k)) as [->|]; [done|apply Ho; lia].
      * intros i Hi. destruct (decide (i = k)) as [->|]; [done|apply Ho; lia].
Qed.

Lemma find_lowest_free_slot_id_ok d :
  page_wf (mkPage d) ->
  exists sid, find_lowest_free_slot_id (mkPage d) = Ok sid /\ lowest_free d sid.
Proof.
  intros Hwf. pose proof (nslots_range d).
  unfold find_lowest_free_slot_id. rewrite get_num_slots_ok by apply Hwf. pstep.
  destruct (find_free_from_ok d 0 (nslots d)) as (o & -> & Ho); [done|lia..|]. pstep.
  rewrite wrap_u_small by (unfold in_u; lia).
  destruct o as [sid|]; eexists; (split; [done|]).
  - destruct Ho as (? & Hu & Hb). split; [lia| |].
    + intros i Hi. split; [lia|apply Hb; lia].
    + intros [_ Hu']. congruence.
  - split; [lia| |].
    + intros i Hi. split; [lia|apply Ho; lia].
    + intros [? _]. lia.
Qed.

(** ** Making room for an insertion into slot [sid] *)

(** The layout invariant for every slot but [sid]. *)
Record wf_except (d : list byte) (sid : Z) : Prop := {
  we_len : lenZ d = PAGE_SIZE;
  we_body : body d <= PAGE_SIZE;
  we_flag : forall i, 0 <= i < nslots d -> i <> sid -> suse d i = x00 \/ suse d i = x01;
  we_rec : forall i, live d i -> i <> sid ->
           body d <= soff d i /\ soff d i + slen d i <= fstart d;
  we_disj : forall i j, live d i -> live d j -> i <> sid -> j <> sid -> i <> j ->
            disjoint_rec (soff d i) (slen d i) (soff d j) (slen d j);
}.

(** Everything but slot [sid] is stored as before. *)
Record keeps_except (d d' : list byte) (sid : Z) : Prop := {
  ke_pid : u16_at d' 0 = u16_at d 0;
  ke_live : forall i, i <> sid -> live d' i <-> live d i;
  ke_slen : forall i, i <> sid -> live d i -> slen d' i = slen d i;
  ke_record : forall i, i <> sid -> live d i -> record d' i = record d i;
}.

Lemma page_wf_except d sid : page_wf (mkPage d) -> wf_except d sid.
Proof. intros []. split; cbn [data] in *; auto. Qed.

Lemma keeps_keeps_except d d' sid : keeps d d' -> keeps_except d d' sid.
Proof. intros K. split; [apply K|intros; by apply keeps_live|intros; by apply K..]. Qed.

Lemma keeps_except_trans d1 d2 d3 sid :
  keeps_except d1 d2 sid -> keeps_except d2 d3 sid -> keeps_except d1 d3 sid.
Proof.
  intros K1 K2. split.
  - rewrite (ke_pid _ _ _ K2). apply K1.
  - intros i Hi. rewrite (ke_live _ _ _ K2), (ke_live _ _ _ K1) by done. done.
  - intros i Hi Hl. rewrite (ke_slen _ _ _ K2) by (done || by apply (ke_live _ _ _ K1)).
    by apply K1.
  - intros i Hi Hl. rewrite (ke_record _ _ _ K2) by (done || by apply (ke_live _ _ _ K1)).
    by apply K1.
Qed.

(** The body moves up for the entry of a new slot, unless there is no slot yet. *)
Lemma make_room_ok `{Profile} d :
  page_wf (mkPage d) -> fstart d + 6 <= PAGE_SIZE ->
  exists d1, (if 0 <? nslots d then shift_body_for_new_slot (mkPage d) else Ok (mkPage d)) = Ok (mkPage d1) /\
    lenZ d1 = PAGE_SIZE /\ keeps d d1 /\
    fstored d1 <= fstart d + 6 /\ (0 < nslots d -> fstored d1 = fstart d + 6) /\
    (forall i, live d i -> soff d1 i = soff d i + 6).
Proof.
  intros Hwf Hroom. pose proof (nslots_range d). pose proof (wf_len _ Hwf). case_Z_bool.
  - destruct (shift_body_ok d) as (d1 & E & L1 & K1 & F1 & So); [done..|].
    exists d1. split_and!; try done. lia.
  - exists d. split_and!; try done; try lia; [unfold fstart in *; lia|]. intros i [? _]. lia.
Qed.

(** Adding a slot entry: the [need_new_slot] branch of [add_value]. *)
Lemma grow_ok `{Profile} d :
  page_wf (mkPage d) -> fstart d + 6 <= PAGE_SIZE ->
  exists d', (p ← (if 0 <? nslots d then shift_body_for_new_slot (mkPage d) else Ok (mkPage d));
              set_num_slots p (nslots d + 1)) = Ok (mkPage d') /\
    nslots d' = nslots d + 1 /\ fstart d' <= fstart d + 6 /\
    wf_except d' (nslots d) /\ keeps_except d d' (nslots d).
Proof.
  intros Hwf Hroom. pose proof (nslots_range d) as Hn. pose proof Hwf as [Hlen Hbody Hflag Hrec Hdisj].
  cbn [data] in *.
  assert (Hfs : body d <= fstart d <= PAGE_SIZE) by (unfold fstart; lia).
  destruct (make_room_ok d Hwf Hroom) as (d1 & -> & L1 & K1 & Fs & Fs' & So).
  pstep. unfold PAGE_SIZE, body in *.
  destruct (set_num_slots_ok d1 L1 (nslots d + 1)) as (d2 & -> & W); [unfold in_u; lia|].
  assert (Hs : forall j, 0 <= j -> slot_eq d1 d2 j)
    by (intros; eapply hdr_written_slot; [exact W|lia|done]).
  destruct W as [L2 F2 V2]. change (u16_at d2 2) with (nslots d2) in V2.
  assert (Efd : fstored d2 = fstored d1) by (apply fstored_frame; apply F2; lia).
  assert (Hlive : forall i, i <> nslots d -> live d2 i <-> live d i).
  { intros i Hi. rewrite <- (keeps_live d d1 i K1). unfold live.
    rewrite V2, (k_nslots _ _ K1).
    destruct (decide (0 <= i)); [destruct (Hs i) as (_ & _ & ->); [done|]|]; intuition lia. }
  assert (Hfld : forall i, live d i -> soff d2 i = soff d i + 6 /\ slen d2 i = slen d i).
  { intros i Hl. destruct (Hs i) as (-> & -> & _); [unfold live in Hl; lia|].
    by rewrite So, (k_slen _ _ K1). }
  exists d2. split_and!; [done|done| | |].
  - unfold fstart, body in *. rewrite V2, Efd. lia.
  - split; [done|unfold body, PAGE_SIZE; lia| | |].
    + intros i Hi Hne. destruct (Hs i) as (_ & _ & ->); [lia|].
      rewrite (k_use _ _ K1) by lia. apply Hflag. lia.
    + intros i Hl Hne. apply Hlive in Hl; [|done]. destruct (Hfld i Hl) as [-> ->].
      pose proof (Hrec i Hl). destruct Hl. unfold fstart, body, PAGE_SIZE in *.
      rewrite V2, Efd. lia.
    + intros i j Hi Hj Hni Hnj Hne. apply Hlive in Hi, Hj; [|done..].
      destruct (Hfld i Hi) as [-> ->], (Hfld j Hj) as [-> ->].
      pose proof (Hdisj i j Hi Hj Hne). unfold disjoint_rec in *. lia.
  - split.
    + rewrite <- (k_pid _ _ K1). apply u16_at_ext; apply F2; lia.
    + done.
    + intros i Hne Hl. by apply Hfld.
    + intros i Hne Hl. rewrite <- (k_record _ _ K1 i Hl). unfold record.
      destruct (Hs i) as (Eo & El & _); [unfold live in Hl; lia|]. rewrite Eo, El.
      rewrite So, (k_slen _ _ K1) by done. pose proof (Hrec i Hl).
      pose proof (slen_range d i). pose proof (soff_range d i). unfold PAGE_SIZE in *.
      apply sub_ext; try lia. intros k Hk. apply F2; lia.
Qed.

(** ** Writing the record into a prepared page *)

Record inserted (d d' : list byte) (sid : Z) (bytes : list byte) : Prop := {
  in_keeps : keeps_except d d' sid;
  in_live : live d' sid;
  in_slen : slen d' sid = lenZ bytes;
  in_record : record d' sid = bytes;
}.

(** The bytes after the three writes of an insertion at [free_start]. *)
Record insert_written (d d' : list byte) (sid : Z) (bytes : list byte) : Prop := {
  iw_len : lenZ d' = PAGE_SIZE;
  iw_low : forall x, 0 <= x < fstart d -> x < 4 \/ 6 <= x ->
           x < 8 + 6 * sid \/ 13 + 6 * sid <= x -> bget d' x = bget d x;
  iw_bytes : forall k, 0 <= k < lenZ bytes -> bget d' (fstart d + k) = bget bytes k;
  iw_fstored : fstored d' = fstart d + lenZ bytes;
  iw_off : soff d' sid = fstart d;
  iw_slen : slen d' sid = lenZ bytes;
  iw_use : suse d' sid = x01;
}.

Lemma insert_writes d sid bytes :
  wf_except d sid -> 0 <= sid < nslots d -> fstart d + lenZ bytes <= PAGE_SIZE ->
  exists d', (d1 ← copy_from_slice d (fstart d) bytes;
    p ← write_slot (mkPage d1) sid (wrap_u 16 (fstart d)) (wrap_u 16 (lenZ bytes))
          SLOT_IN_USE_VALID;
    set_free_start p (fstart d + lenZ bytes)) = Ok (mkPage d') /\ insert_written d d' sid bytes.
Proof.
  intros [Hlen Hbody _ _ _] Hsid Hfit. pose proof (nslots_range d). pose proof (lenZ_nonneg bytes).
  assert (Hfs : body d <= fstart d <= PAGE_SIZE) by (unfold fstart; lia).
  assert (H14 : 14 <= body d) by (unfold body; lia).
  rewrite copy_from_slice_ok by lia. pstep. set (d1 := splice d _ _).
  assert (L1 : lenZ d1 = PAGE_SIZE) by (unfold d1; rewrite lenZ_splice; lia).
  rewrite !wrap_u_small by (unfold in_u, PAGE_SIZE in *; lia).
  destruct (write_slot_ok d1 L1 sid (fstart d) (lenZ bytes) SLOT_IN_USE_VALID)
    as (d2 & -> & W); [unfold body in *; lia..|]. pstep.
  pose proof (sw_len _ _ _ _ _ _ W) as L2.
  destruct (set_free_start_ok d2 L2 (fstart d + lenZ bytes)) as (d3 & -> & V); [lia|].
  rewrite Z.min_l in V by lia. exists d3. split; [done|].
  destruct (hdr_written_slot d2 d3 4 _ sid V) as (E1 & E2 & E3); [lia..|].
  destruct W as [_ W2 W3 W4 W5], V as [L3 V2 V3]. unfold PAGE_SIZE in *.
  rewrite Z.mod_small in W3, W4 by lia. split; try congruence.
  - done.
  - intros x Hx Hh Ho. rewrite V2, W2 by lia. unfold d1. apply bget_splice_out; lia.
  - intros k Hk. rewrite V2, W2 by (unfold body in *; lia). unfold d1.
    rewrite bget_splice_in by lia. f_equal. lia.
  - exact V3.
  - rewrite E3. exact W5.
Qed.

Section Inserted.
Context (d d' : list byte) (sid : Z) (bytes : list byte).
Context (Hwf : wf_except d sid) (Hsid : 0 <= sid < nslots d)
        (Hfit : fstart d + lenZ bytes <= PAGE_SIZE) (Hw : insert_written d d' sid bytes).

Lemma inserted_bounds : 14 <= body d /\ body d <= fstart d <= PAGE_SIZE.
Proof. pose proof (we_body _ _ Hwf). split; [unfold body; lia|unfold fstart; lia]. Qed.

Lemma inserted_nslots : nslots d' = nslots d.
Proof. pose proof inserted_bounds. apply nslots_frame; apply (iw_low _ _ _ _ Hw); lia. Qed.

Lemma inserted_fstart : fstart d' = fstart d + lenZ bytes.
Proof.
  pose proof inserted_bounds. pose proof (lenZ_nonneg bytes). unfold fstart at 1, body.
  rewrite inserted_nslots, (iw_fstored _ _ _ _ Hw). fold (body d). lia.
Qed.

Lemma inserted_others j : 0 <= j < nslots d -> j <> sid -> slot_eq d d' j.
Proof.
  pose proof inserted_bounds. intros Hj Hne. apply slot_frame. intros x Hx.
  apply (iw_low _ _ _ _ Hw); unfold body in *; lia.
Qed.

Lemma inserted_live i : i <> sid -> live d' i <-> live d i.
Proof.
  intros Hne. unfold live. rewrite inserted_nslots.
  split; intros [? Hu]; (split; [done|]); destruct (inserted_others i) as (_ & _ & E); try done; congruence.
Qed.

(** The record of another slot lies below [free_start], the new one above. *)
Lemma inserted_other_rec i : live d' i -> i <> sid ->
  body d <= soff d' i /\ soff d' i + slen d' i <= fstart d.
Proof.
  intros Hl Hne. apply inserted_live in Hl; [|done].
  destruct (inserted_others i) as (-> & -> & _); [apply Hl|done|]. by apply (we_rec _ _ Hwf).
Qed.

Lemma inserted_wf : page_wf (mkPage d').
Proof.
  pose proof inserted_bounds. pose proof (lenZ_nonneg bytes).
  pose proof (iw_off _ _ _ _ Hw) as So. pose proof (iw_slen _ _ _ _ Hw) as Sl.
  split; cbn [data]; rewrite ?inserted_fstart; unfold body; rewrite ?inserted_nslots; fold (body d).
  - apply Hw.
  - apply Hwf.
  - intros i Hi. destruct (decide (i = sid)) as [->|Hne]; [right; apply Hw|].
    destruct (inserted_others i) as (_ & _ & ->); [done..|]. by apply (we_flag _ _ Hwf).
  - intros i Hl. destruct (decide (i = sid)) as [->|Hne]; [lia|].
    pose proof (inserted_other_rec i Hl Hne). lia.
  - unfold disjoint_rec. intros i j Hi Hj Hne.
    destruct (decide (i = sid)) as [->|Hi']; destruct (decide (j = sid)) as [->|Hj']; [done| | |].
    + pose proof (inserted_other_rec j Hj Hj'). lia.
    + pose proof (inserted_other_rec i Hi Hi'). lia.
    + apply inserted_live in Hi, Hj; [|done..].
      destruct (inserted_others i) as (-> & -> & _); [apply Hi|done|].
      destruct (inserted_others j) as (-> & -> & _); [apply Hj|done|]. by apply (we_disj _ _ Hwf).
Qed.

Lemma inserted_effect : inserted d d' sid bytes.
Proof.
  pose proof inserted_bounds. pose proof (lenZ_nonneg bytes).
  split; [split| |apply Hw|].
  - apply u16_at_ext; apply (iw_low _ _ _ _ Hw); lia.
  - apply inserted_live.
  - intros i Hne Hl. by destruct (inserted_others i) as (_ & -> & _); [apply Hl|done|].
  - intros i Hne Hl. unfold record. destruct (inserted_others i) as (-> & -> & _); [apply Hl|done|].
    pose proof (we_rec _ _ Hwf i Hl Hne). pose proof (slen_range d i). pose proof (soff_range d i).
    apply sub_ext; try (rewrite ?(we_len _ _ Hwf), ?(iw_len _ _ _ _ Hw); lia).
    intros k Hk. apply (iw_low _ _ _ _ Hw); unfold body in *; lia.
  - split; [rewrite inserted_nslots; done|apply Hw].
  - unfold record. rewrite (iw_off _ _ _ _ Hw), (iw_slen _ _ _ _ Hw). pose proof (iw_len _ _ _ _ Hw).
    apply bget_ext; rewrite lenZ_sub by lia; [done|]. intros k Hk. rewrite bget_sub by lia.
    by apply (iw_bytes _ _ _ _ Hw).
Qed.
End Inserted.

Lemma insert_ok d sid bytes :
  wf_except d sid -> 0 <= sid < nslots d -> fstart d + lenZ bytes <= PAGE_SIZE ->
  exists d', (d1 ← copy_from_slice d (fstart d) bytes;
    p ← write_slot (mkPage d1) sid (wrap_u 16 (fstart d)) (wrap_u 16 (lenZ bytes))
          SLOT_IN_USE_VALID;
    set_free_start p (fstart d + lenZ bytes)) = Ok (mkPage d') /\
    page_wf (mkPage d') /\ nslots d' = nslots d /\ inserted d d' sid bytes.
Proof.
  intros Hwf Hsid Hfit. destruct (insert_writes d sid bytes Hwf Hsid Hfit) as (d' & E & Hw).
  exists d'. split; [exact E|]. split; [by eapply inserted_wf|].
  split; [by eapply inserted_nslots|by eapply inserted_effect].
Qed.

(** ** [add_value] on a well-formed page *)

Lemma used_bytes_nonneg d : 0 <= used_bytes d.
Proof. apply sumZ_nonneg, Forall_fmap, Forall_forall. intros i _. apply slen_range. Qed.

(** The header and the used bytes of a well-formed page never exceed its size. *)
Lemma page_used_bound d : page_wf (mkPage d) -> body d + used_bytes d <= PAGE_SIZE.
Proof.
  intros Hwf. destruct (compact_ok d Hwf) as (_ & _ & _ & _ & _ & Hle).
  unfold fstart in Hle. lia.
Qed.

(** After the optional compaction the record and the new slot entry fit behind
    [free_start].  The record has to be non-empty: the code tests the space with
    a saturating subtraction, so for an empty record it never compacts, not even
    when there is no room for the slot entry. *)
Lemma make_contiguous_ok d len extra :
  page_wf (mkPage d) -> 0 < len -> 0 <= extra ->
  len + extra <= PAGE_SIZE - body d - used_bytes d ->
  exists d', (if saturating_sub PAGE_SIZE (fstart d + extra) <? len
              then compact (mkPage d) else Ok (mkPage d)) = Ok (mkPage d') /\
    page_wf (mkPage d') /\ keeps d d' /\ fstart d' + extra + len <= PAGE_SIZE.
Proof.
  intros Hwf Hlen Hextra Hfit. unfold saturating_sub. case_Z_bool.
  - destruct (compact_ok d Hwf) as (d' & E & W & K & F & _). exists d'.
    split_and!; try done. lia.
  - exists d. split_and!; try done. unfold fstart in *. lia.
Qed.

Definition extra_header (d : list byte) (sid : Z) : Z :=
  if nslots d <=? sid then BYTES_PER_SLOT_META else 0.

Lemma add_value_full `{Profile} d bytes sid :
  page_wf (mkPage d) -> find_lowest_free_slot_id (mkPage d) = Ok sid ->
  PAGE_SIZE - body d - used_bytes d < lenZ bytes + extra_header d sid ->
  add_value (mkPage d) bytes = Ok (mkPage d, None).
Proof.
  intros Hwf Hsid Hfull. unfold add_value. case_Z_bool; [done|].
  rewrite Hsid. pstep. rewrite get_num_slots_ok by apply Hwf. pstep.
  rewrite get_free_space_ok by apply Hwf. pstep. fold (extra_header d sid).
  pose proof (page_used_bound d Hwf).
  rewrite (proj2 (Z.ltb_lt _ _)) by lia. done.
Qed.

Lemma add_value_fits `{Profile} d bytes sid :
  page_wf (mkPage d) -> find_lowest_free_slot_id (mkPage d) = Ok sid -> lowest_free d sid ->
  0 < lenZ bytes -> lenZ bytes + extra_header d sid <= PAGE_SIZE - body d - used_bytes d ->
  exists d', add_value (mkPage d) bytes = Ok (mkPage d', Some sid) /\
    page_wf (mkPage d') /\ nslots d' = Z.max (nslots d) (sid + 1) /\ inserted d d' sid bytes.
Proof.
  intros Hwf Esid Hsid Hpos Hfit. pose proof (used_bytes_nonneg d). pose proof (nslots_range d).
  assert (0 <= extra_header d sid) by (unfold extra_header, BYTES_PER_SLOT_META; case_Z_bool; lia).
  unfold add_value. rewrite (proj2 (Z.ltb_ge PAGE_SIZE _)) by (unfold body in *; lia).
  rewrite Esid. pstep. rewrite get_num_slots_ok by apply Hwf. pstep.
  rewrite get_free_space_ok by apply Hwf. pstep. fold (extra_header d sid).
  rewrite (proj2 (Z.ltb_ge _ _)) by lia.
  rewrite get_free_start_ok by apply Hwf. pstep.
  destruct (make_contiguous_ok d (lenZ bytes) (extra_header d sid))
    as (d1 & -> & Hwf1 & K1 & Hroom); [done|lia..|]. pstep.
  rewrite <- (k_nslots _ _ K1).
  assert (exists d2, (if nslots d1 <=? sid
      then p ← (if 0 <? nslots d1 then shift_body_for_new_slot (mkPage d1) else Ok (mkPage d1));
           set_num_slots p (nslots d1 + 1) else Ok (mkPage d1)) = Ok (mkPage d2) /\
      nslots d2 = Z.max (nslots d1) (sid + 1) /\ fstart d2 + lenZ bytes <= PAGE_SIZE /\
      wf_except d2 sid /\ keeps_except d1 d2 sid) as (d2 & -> & N2 & R2 & W2 & K2).
  { pose proof (lf_range _ _ Hsid) as Hr. unfold extra_header in Hroom.
    rewrite <- (k_nslots _ _ K1) in Hr, Hroom. destruct (Z.leb_spec (nslots d1) sid).
    - unfold BYTES_PER_SLOT_META in Hroom. assert (sid = nslots d1) as -> by lia.
      destruct (grow_ok d1 Hwf1) as (d2 & -> & E & F & W & K); [lia|].
      exists d2. split_and!; try done; lia.
    - exists d1. split_and!; [done|lia|lia| |].
      + by apply page_wf_except.
      + apply keeps_keeps_except, keeps_refl. }
  pstep. rewrite get_free_start_ok by apply W2. pstep.
  rewrite (proj2 (Z.ltb_ge _ _)) by lia.
  destruct (insert_ok d2 sid bytes) as (d3 & E3 & Hwf3 & N3 & I3); try done.
  { destruct (lf_range _ _ Hsid). lia. }
  apply bind_Ok_inv in E3 as (d' & -> & E3). pstep.
  apply bind_Ok_inv in E3 as (p' & -> & E3). pstep. rewrite E3. pstep.
  exists d3. split_and!; [done|done|congruence|].
  destruct I3 as [K3 Hl3 Hs3 Hr3]. split; try done.
  eapply keeps_except_trans; [|exact K3]. eapply keeps_except_trans; [|exact K2].
  by apply keeps_keeps_except.
Qed.

(** ** [delete_value] *)

(** Freeing a slot entry changes its flag byte only. *)
Lemma free_slot_ok d i : lenZ d = PAGE_SIZE -> 0 <= i -> 14 + 6 * i <= PAGE_SIZE ->
  exists d', set_slot_in_use (mkPage d) i SLOT_IN_USE_FREE = Ok (mkPage d') /\ lenZ d' = PAGE_SIZE /\
    (forall x, 0 <= x -> x <> 8 + 6 * i + 4 -> bget d' x = bget d x) /\ suse d' i = x00.
Proof.
  intros Hlen Hi Hb.
  unfold set_slot_in_use, slot_meta_offset, FIXED_PAGE_META_SIZE, BYTES_PER_SLOT_META,
    SLOT_IN_USE_OFFSET. pstep. replace (8 + i * 6 + 4) with (8 + 6 * i + 4) by lia.
  assert (lenZ [SLOT_IN_USE_FREE] = 1) as H1 by done.
  rewrite copy_from_slice_ok by lia. pstep. eexists. split; [done|]. split_and!.
  - rewrite lenZ_splice; lia.
  - intros x Hx Hne. apply bget_splice_out; lia.
  - unfold suse. rewrite bget_splice_in by lia.
    by replace (8 + 6 * i + 4 - (8 + 6 * i + 4)) with 0 by lia.
Qed.

Lemma delete_value_live d i :
  page_wf (mkPage d) -> live d i ->
  exists d', delete_value (mkPage d) i = Ok (mkPage d', Some tt) /\ page_wf (mkPage d') /\
    nslots d' = nslots d /\ ~ live d' i /\ keeps_except d d' i.
Proof.
  intros Hwf Hl. pose proof Hwf as [Hlen Hbody Hflag Hrec Hdisj]. cbn [data] in *.
  destruct Hl as [Hi Hu]. pose proof (nslots_range d).
  unfold delete_value. rewrite get_num_slots_ok by done. pstep.
  rewrite (proj2 (Z.leb_gt _ _)) by lia.
  rewrite get_slot_in_use_ok by (done || lia). pstep.
  rewrite (proj2 (Z.leb_gt _ _)) by lia. rewrite Hu.
  rewrite bool_decide_eq_true_2 by done. cbn [negb].
  unfold body in *. destruct (free_slot_ok d i Hlen) as (d' & -> & L' & F & U); [lia..|]. pstep.
  exists d'.
  assert (En : nslots d' = nslots d) by (apply nslots_frame; apply F; lia).
  assert (Ef : fstart d' = fstart d).
  { unfold fstart, body. rewrite En.
    by rewrite (fstored_frame d d') by (apply F; lia). }
  assert (Hs : forall j, 0 <= j -> soff d' j = soff d j /\ slen d' j = slen d j).
  { intros j Hj. unfold soff, slen. split; apply u16_at_ext; apply F; lia. }
  assert (Hlive : forall j, live d' j <-> live d j /\ j <> i).
  { intros j. unfold live. rewrite En. destruct (decide (j = i)) as [->|Hne].
    - rewrite U. naive_solver.
    - assert (0 <= j -> suse d' j = suse d j) as Eu by (intros; unfold suse; apply F; lia).
      split; [intros [Hj Hx]|intros [[Hj Hx] _]]; rewrite Eu in * by lia; auto. }
  split_and!; [done| |done| |].
  - split; cbn [data]; unfold body; rewrite ?En, ?Ef; try done.
    + intros j Hj. destruct (decide (j = i)) as [->|Hne]; [by left|].
      unfold suse. rewrite F by lia. by apply Hflag.
    + intros j [Hj _]%Hlive. destruct (Hs j) as [-> ->]; [unfold live in Hj; lia|]. by apply Hrec.
    + intros j k [Hj _]%Hlive [Hk _]%Hlive Hne.
      destruct (Hs j) as [-> ->]; [unfold live in Hj; lia|].
      destruct (Hs k) as [-> ->]; [unfold live in Hk; lia|]. by apply Hdisj.
  - rewrite Hlive. by intros [_ ?].
  - split.
    + apply u16_at_ext; apply F; lia.
    + intros j Hne. rewrite Hlive. naive_solver.
    + intros j Hne Hl. apply Hs. unfold live in Hl. lia.
    + intros j Hne Hl. unfold record. destruct (Hs j) as [-> ->]; [unfold live in Hl; lia|].
      pose proof (Hrec j Hl). pose proof (slen_range d j). unfold fstart, PAGE_SIZE in *.
      apply sub_ext; try lia. intros k Hk. apply F; lia.
Qed.

Lemma delete_value_dead d i :
  page_wf (mkPage d) -> 0 <= i -> ~ live d i ->
  delete_value (mkPage d) i = Ok (mkPage d, None).
Proof.
  intros Hwf Hi Hl. unfold delete_value. rewrite get_num_slots_ok by apply Hwf. pstep.
  case_Z_bool; [done|].
  rewrite get_slot_in_use_ok by (apply Hwf || done). pstep.
  rewrite (proj2 (Z.leb_gt _ _)) by lia.
  rewrite bool_decide_eq_false_2; [done|]. intros Hu. apply Hl. by split.
Qed.
