(* ===== verification/HeapPageRefine.v ===== *)
(** * The slotted page refines a finite map

    The abstract page is the number of slot entries and a finite map from slot
    ids to records.  Every operation of the [HeapPage] trait on a well-formed
    page returns what the abstract operation returns and leaves a well-formed
    page that represents the abstract result; no operation panics.  The
    simulation extends to every sequence of operations from [Page::new]. *)

From S2P Require Import Prelude Bytes Common HeapPage HeapPageProofs HeapPageSpec.

Open Scope Z_scope.

(** ** The abstract page *)

Record apage := mkAPage { a_slots : Z; a_recs : gmap Z (list byte) }.

Definition a_used (m : gmap Z (list byte)) : Z := sumZ ((lenZ ∘ snd) <$> map_to_list m).

Definition a_free (a : apage) : Z := PAGE_SIZE - (8 + 6 * a_slots a) - a_used (a_recs a).

(** The least slot id that holds no record. *)
Definition a_lowest (a : apage) : Z :=
  match list_find (fun i => a_recs a !! i = None) (seqZ 0 (a_slots a)) with
  | Some (_, i) => i
  | None => a_slots a
  end.

Definition a_add (a : apage) (bytes : list byte) : apage * option Z :=
  let sid := a_lowest a in
  let extra := if a_slots a <=? sid then 6 else 0 in
  if a_free a <? lenZ bytes + extra then (a, None)
  else (mkAPage (Z.max (a_slots a) (sid + 1)) (<[sid := bytes]> (a_recs a)), Some sid).

Definition a_delete (a : apage) (i : Z) : apage * option unit :=
  match a_recs a !! i with
  | Some _ => (mkAPage (a_slots a) (delete i (a_recs a)), Some tt)
  | None => (a, None)
  end.

(** ** The abstraction function *)

Definition contents (d : list byte) : gmap Z (list byte) :=
  list_to_map ((fun i => (i, record d i)) <$> live_ids d).

Definition abs (p : Page) : apage := mkAPage (nslots (data p)) (contents (data p)).

Lemma contents_keys d : ((fun i => (i, record d i)) <$> live_ids d).*1 = live_ids d.
Proof.
  rewrite <- list_fmap_compose. change (fst ∘ _) with (fun i : Z => i). apply list_fmap_id.
Qed.

Lemma contents_lookup d i :
  contents d !! i = if decide (live d i) then Some (record d i) else None.
Proof.
  unfold contents. case_decide as Hl.
  - apply elem_of_list_to_map_1; [rewrite contents_keys; apply NoDup_live_ids|].
    apply (list_elem_of_fmap_2 (fun i => (i, record d i))). by apply elem_of_live_ids.
  - apply not_elem_of_list_to_map_1. by rewrite contents_keys, elem_of_live_ids.
Qed.

Lemma record_length d i : page_wf (mkPage d) -> live d i -> lenZ (record d i) = slen d i.
Proof.
  intros [Hlen Hb _ Hrec _] Hl. cbn [data] in *. pose proof (Hrec i Hl).
  pose proof (slen_range d i). pose proof (soff_range d i). unfold fstart in *.
  unfold record. apply lenZ_sub; lia.
Qed.

Lemma a_used_contents d : page_wf (mkPage d) -> a_used (contents d) = used_bytes d.
Proof.
  intros Hwf. unfold a_used, used_bytes, contents.
  rewrite (sumZ_perm _ ((lenZ ∘ snd) <$> ((fun i => (i, record d i)) <$> live_ids d))).
  - rewrite <- list_fmap_compose. f_equal. apply list_fmap_ext. intros k i Hi. simpl.
    apply record_length; [done|]. apply elem_of_live_ids, list_elem_of_lookup. eauto.
  - apply fmap_Permutation, map_to_list_to_map. rewrite contents_keys. apply NoDup_live_ids.
Qed.

Lemma a_free_abs d : page_wf (mkPage d) -> a_free (abs (mkPage d)) = PAGE_SIZE - body d - used_bytes d.
Proof. intros Hwf. unfold a_free, abs. simpl a_slots. simpl a_recs. by rewrite a_used_contents. Qed.

Lemma lowest_free_abs d sid : lowest_free d sid -> a_lowest (abs (mkPage d)) = sid.
Proof.
  intros [Hr Hb Hf]. unfold a_lowest. cbn [abs a_slots a_recs data].
  destruct (list_find _ _) as [[k i]|] eqn:E.
  - apply list_find_Some in E as (Hk & Hi & Hlow).
    rewrite lookup_seqZ in Hk. rewrite contents_lookup in Hi. case_decide as Hl; [done|].
    destruct (decide (i < sid)); [destruct Hl; apply Hb; lia|].
    destruct (decide (sid < i)); [|lia].
    specialize (Hlow (Z.to_nat sid) sid). rewrite lookup_seqZ in Hlow.
    exfalso. apply Hlow; [lia|lia|]. rewrite contents_lookup. by rewrite decide_False.
  - apply list_find_None in E. rewrite Forall_forall in E.
    destruct (decide (sid < nslots d)); [|lia]. exfalso. apply (E sid).
    + apply elem_of_seqZ. lia.
    + rewrite contents_lookup. by rewrite decide_False.
Qed.

Lemma inserted_contents d d' sid bytes :
  inserted d d' sid bytes -> contents d' = <[sid := bytes]> (contents d).
Proof.
  intros [K Hl _ Hr]. apply map_eq. intros i. rewrite lookup_insert, !contents_lookup.
  destruct (decide (sid = i)) as [<-|Hne]; [by rewrite decide_True, Hr|].
  assert (live d' i <-> live d i) as Hiff by (by apply (ke_live _ _ _ K)).
  destruct (decide (live d i)) as [Hl1|Hl1].
  - rewrite decide_True by (by apply Hiff). by rewrite (ke_record _ _ _ K).
  - rewrite decide_False; [done|]. by rewrite Hiff.
Qed.

Lemma deleted_contents d d' i :
  keeps_except d d' i -> ~ live d' i -> contents d' = delete i (contents d).
Proof.
  intros K Hd. apply map_eq. intros j. rewrite lookup_delete, !contents_lookup.
  destruct (decide (i = j)) as [<-|Hne]; [by rewrite decide_False|].
  assert (live d' j <-> live d j) as Hiff by (by apply (ke_live _ _ _ K)).
  destruct (decide (live d j)) as [Hl1|Hl1].
  - rewrite decide_True by (by apply Hiff). by rewrite (ke_record _ _ _ K).
  - rewrite decide_False; [done|]. by rewrite Hiff.
Qed.

(** ** The operations refine the abstract ones *)

Lemma page_id_frame p p' :
  lenZ (data p) = PAGE_SIZE -> lenZ (data p') = PAGE_SIZE ->
  u16_at (data p') 0 = u16_at (data p) 0 -> get_page_id p' = get_page_id p.
Proof.
  intros. unfold get_page_id. rewrite !read_le_2 by (unfold PAGE_SIZE in *; lia). congruence.
Qed.

Lemma add_value_refines_aux `{Profile} p bytes :
  page_wf p -> 0 < lenZ bytes ->
  exists p', add_value p bytes = Ok (p', (a_add (abs p) bytes).2) /\ page_wf p' /\
    abs p' = (a_add (abs p) bytes).1 /\ get_page_id p' = get_page_id p.
Proof.
  destruct p as [d]. intros Hwf Hpos.
  destruct (find_lowest_free_slot_id_ok d Hwf) as (sid & E & Hs).
  unfold a_add. rewrite (lowest_free_abs d sid Hs), a_free_abs by done.
  cbn [abs a_slots a_recs data].
  change (if nslots d <=? sid then 6 else 0) with (extra_header d sid).
  case_Z_bool; cbn [fst snd].
  - exists (mkPage d). split_and!; try done. by eapply add_value_full.
  - destruct (add_value_fits d bytes sid) as (d' & -> & Hwf' & En & I); try done.
    exists (mkPage d'). split_and!; try done.
    + unfold abs. cbn [data]. by rewrite En, (inserted_contents _ _ _ _ I).
    + apply page_id_frame; [apply Hwf|apply Hwf'|]. apply I.
Qed.

Lemma delete_value_refines_aux p i :
  page_wf p -> 0 <= i ->
  exists p', delete_value p i = Ok (p', (a_delete (abs p) i).2) /\ page_wf p' /\
    abs p' = (a_delete (abs p) i).1 /\ get_page_id p' = get_page_id p.
Proof.
  destruct p as [d]. intros Hwf Hi. unfold a_delete. cbn [abs a_recs a_slots data].
  rewrite contents_lookup. case_decide as Hl.
  - destruct (delete_value_live d i Hwf Hl) as (d' & -> & Hwf' & En & Hd & K).
    exists (mkPage d'). split_and!; try done.
    + unfold abs. cbn [data fst]. by rewrite En, (deleted_contents d d' i).
    + apply page_id_frame; [apply Hwf|apply Hwf'|]. apply K.
  - exists (mkPage d). split_and!; try done. by apply delete_value_dead.
Qed.

Lemma get_value_refines_aux p i :
  page_wf p -> 0 <= i -> get_value p i = Ok (a_recs (abs p) !! i).
Proof.
  destruct p as [d]. intros Hwf Hi. rewrite get_value_ok by done.
  cbn [abs a_recs data]. by rewrite contents_lookup.
Qed.

Lemma get_free_space_refines_aux p : page_wf p -> get_free_space p = Ok (a_free (abs p)).
Proof.
  destruct p as [d]. intros Hwf. rewrite get_free_space_ok by apply Hwf.
  rewrite a_free_abs by done. pose proof (page_used_bound d Hwf). f_equal. lia.
Qed.

Lemma Page_new_aux pid :
  in_u 16 pid ->
  exists p, Page_new pid = Ok p /\ page_wf p /\ abs p = mkAPage 0 ∅ /\ get_page_id p = Ok pid.
Proof.
  intros Hpid. unfold Page_new, INITIAL_NUM_SLOTS, INITIAL_FREE_START.
  set (d0 := replicate _ x00).
  assert (L0 : lenZ d0 = PAGE_SIZE) by (apply lenZ_replicate; unfold PAGE_SIZE; lia).
  clearbody d0. unfold in_u in *.
  destruct (hdr_write_ok d0 L0 0 pid) as [E1 [L1 F1 V1]]; [unfold in_u, PAGE_SIZE; lia..|].
  rewrite wrap_u_small in E1 by done. rewrite E1. mstep. set (d1 := splice d0 _ _) in *.
  destruct (hdr_write_ok d1 L1 2 0) as [E2 [L2 F2 V2]]; [unfold in_u, PAGE_SIZE; lia..|].
  rewrite wrap_u_small in E2 by done. rewrite E2. mstep. set (d2 := splice d1 _ _) in *.
  destruct (hdr_write_ok d2 L2 4 8) as [E3 [L3 F3 V3]]; [unfold in_u, PAGE_SIZE; lia..|].
  rewrite wrap_u_small in E3 by done. rewrite E3. mstep. set (d3 := splice d2 _ _) in *.
  assert (En : nslots d3 = 0).
  { rewrite <- V2. apply u16_at_ext; apply F3; lia. }
  assert (Hdead : forall i, ~ live d3 i) by (unfold live; rewrite En; lia).
  exists (mkPage d3). split_and!; [done| | |].
  - split; cbn [data].
    + done.
    + unfold body. rewrite En. unfold PAGE_SIZE. lia.
    + rewrite En. lia.
    + intros i Hl. by destruct (Hdead i).
    + intros i j Hl. by destruct (Hdead i).
  - unfold abs. cbn [data]. rewrite En.
    enough (contents d3 = ∅) as -> by done. apply map_eq. intros i.
    rewrite contents_lookup, lookup_empty. by rewrite decide_False.
  - unfold get_page_id. rewrite read_le_2 by (cbn [data]; unfold PAGE_SIZE in *; lia).
    f_equal. rewrite <- V1. cbn [data]. apply u16_at_ext; rewrite F3, F2 by lia; done.
Qed.

(** ** Sequences of operations *)

Inductive page_op :=
| OpAdd (bytes : list byte)
| OpGet (slot : Z)
| OpDelete (slot : Z)
| OpFree.

Inductive page_out :=
| OutAdd (o : option Z)
| OutGet (o : option (list byte))
| OutDelete (o : option unit)
| OutFree (z : Z).

Definition run_op `{Profile} (p : Page) (op : page_op) : result (Page * page_out) :=
  match op with
  | OpAdd b => '(p, o) ← add_value p b; Ok (p, OutAdd o)
  | OpGet i => v ← get_value p i; Ok (p, OutGet v)
  | OpDelete i => '(p, o) ← delete_value p i; Ok (p, OutDelete o)
  | OpFree => z ← get_free_space p; Ok (p, OutFree z)
  end.

Definition a_run_op (a : apage) (op : page_op) : apage * page_out :=
  match op with
  | OpAdd b => let '(a, o) := a_add a b in (a, OutAdd o)
  | OpGet i => (a, OutGet (a_recs a !! i))
  | OpDelete i => let '(a, o) := a_delete a i in (a, OutDelete o)
  | OpFree => (a, OutFree (a_free a))
  end.

Fixpoint run_ops `{Profile} (p : Page) (ops : list page_op) : result (Page * list page_out) :=
  match ops with
  | [] => Ok (p, [])
  | op :: ops =>
      '(p, o) ← run_op p op;
      '(p, os) ← run_ops p ops;
      Ok (p, o :: os)
  end.

Fixpoint a_run_ops (a : apage) (ops : list page_op) : apage * list page_out :=
  match ops with
  | [] => (a, [])
  | op :: ops =>
      let '(a, o) := a_run_op a op in
      let '(a, os) := a_run_ops a ops in (a, o :: os)
  end.

(** Slot ids are [u16] values; the simulation is for non-empty records. *)
Definition op_ok (op : page_op) : Prop :=
  match op with
  | OpAdd b => b <> []
  | OpGet i | OpDelete i => in_u 16 i
  | OpFree => True
  end.

#[export] Instance op_ok_dec op : Decision (op_ok op).
Proof. destruct op; unfold op_ok, in_u; apply _. Defined.

Lemma run_op_refines `{Profile} p op :
  page_wf p -> op_ok op ->
  exists p', run_op p op = Ok (p', (a_run_op (abs p) op).2) /\ page_wf p' /\
    abs p' = (a_run_op (abs p) op).1 /\ get_page_id p' = get_page_id p.
Proof.
  intros Hwf Hok. destruct op as [b|i|i|]; cbn [run_op a_run_op op_ok] in *.
  - destruct (add_value_refines_aux p b Hwf) as (p' & -> & ?).
    { unfold lenZ. destruct b; [done|simpl; lia]. }
    exists p'. by destruct (a_add (abs p) b).
  - rewrite get_value_refines_aux by (done || unfold in_u in Hok; lia). by exists p.
  - destruct (delete_value_refines_aux p i Hwf) as (p' & -> & ?); [unfold in_u in Hok; lia|].
    exists p'. by destruct (a_delete (abs p) i).
  - rewrite get_free_space_refines_aux by done. by exists p.
Qed.

Lemma run_ops_refines `{Profile} ops : forall p,
  page_wf p -> Forall op_ok ops ->
  exists p', run_ops p ops = Ok (p', (a_run_ops (abs p) ops).2) /\ page_wf p' /\
    abs p' = (a_run_ops (abs p) ops).1 /\ get_page_id p' = get_page_id p.
Proof.
  induction ops as [|op ops IH]; intros p Hwf Hok; cbn [run_ops a_run_ops]; [by exists p|].
  apply Forall_cons in Hok as [Hop Hok].
  destruct (run_op_refines p op Hwf Hop) as (p1 & -> & Hwf1 & E1 & I1). mstep.
  destruct (IH p1 Hwf1 Hok) as (p2 & -> & Hwf2 & E2 & I2). mstep. exists p2.
  rewrite E1 in *. destruct (a_run_op (abs p) op) as [a1 o1]. cbn [fst snd] in *.
  destruct (a_run_ops a1 ops) as [a2 os2]. cbn [fst snd] in *. split_and!; congruence.
Qed.

(** C2: starting from [Page::new], any sequence of insertions of non-empty
    records, lookups, deletions and free-space queries runs without a panic (an
    empty record is not among them: inserting one can make the last record of the
    page unreadable, see [empty_record_loses_record]), returns exactly what the abstract map returns, and ends in a well-formed
    page that represents the abstract state and still has its page id. *)
Theorem page_ops_simulate `{Profile} (pid : Z) (ops : list page_op) :
  in_u 16 pid -> Forall op_ok ops ->
  exists p0 p, Page_new pid = Ok p0 /\
    run_ops p0 ops = Ok (p, (a_run_ops (mkAPage 0 ∅) ops).2) /\
    page_wf p /\ abs p = (a_run_ops (mkAPage 0 ∅) ops).1 /\ get_page_id p = Ok pid.
Proof.
  intros Hpid Hok. destruct (Page_new_aux pid Hpid) as (p0 & E0 & W0 & A0 & I0).
  destruct (run_ops_refines ops p0 W0 Hok) as (p & E & W & A & I).
  exists p0, p. rewrite A0 in *. split_and!; try done. congruence.
Qed.

Lemma page_ops_simulate_witness :
  let ops := [OpAdd [x01; x02]; OpAdd [x03]; OpDelete 0; OpAdd [x04]; OpGet 0; OpFree] in
  exists p0 p, Page_new 7 = Ok p0 /\
    run_ops (H := true) p0 ops =
      Ok (p, [OutAdd (Some 0); OutAdd (Some 1); OutDelete (Some tt); OutAdd (Some 0);
              OutGet (Some [x04]); OutFree 4074]).
Proof.
  intros ops.
  destruct (@page_ops_simulate true 7 ops) as (p0 & p & E0 & E & _).
  - unfold in_u; lia.
  - apply (bool_decide_unpack _); vm_compute; exact I.
  - exists p0, p. split; [exact E0|]. etransitivity; [exact E|]. vm_compute. reflexivity.
Defined.
