(* ===== verification/HeapPageIter.v ===== *)
(** * The slotted page: iteration and page comparison

    The consuming iterator of a page yields the live records in slot order, and
    [compare_page] yields a patch that turns the other page into this one up to
    a trailing run of differences. *)

From S2P Require Import Prelude Bytes Common HeapPage HeapPageProofs HeapPageSpec HeapPageRefine HeapPageTheorems.

Open Scope Z_scope.

(** ** The consuming iterator *)

(** The live slots from [c] on. *)
Definition live_from (d : list byte) (c : Z) : list Z :=
  filter (fun i => suse d i = x01) (seqZ c (nslots d - c)).

Section Iter.
Context `{Profile} (d : list byte) (Hwf : page_wf (mkPage d)).

Local Abbreviation iter c := (mkIter (mkPage d) c (nslots d)).

Lemma page_next_loop_ok fuel c :
  0 <= c <= nslots d -> nslots d - c <= Z.of_nat fuel ->
  next_loop fuel (iter c) =
    match live_from d c with
    | [] => Ok (None, iter (nslots d))
    | i :: _ => Ok (Some (record d i, i), iter (i + 1))
    end /\
  match live_from d c with
  | [] => True
  | i :: l => c <= i < nslots d /\ l = live_from d (i + 1)
  end.
Proof.
  revert c. induction fuel as [|fuel IH]; intros c Hc Hf.
  - assert (c = nslots d) as -> by lia. unfold live_from. rewrite Z.sub_diag.
    cbn [next_loop current_slot it_num_slots]. rewrite Z.ltb_irrefl. done.
  - destruct (decide (c = nslots d)) as [->|Hne].
    { unfold live_from. rewrite Z.sub_diag. cbn [next_loop current_slot it_num_slots].
      rewrite Z.ltb_irrefl. done. }
    pose proof (nslots_range d) as Hn.
    unfold live_from. rewrite seqZ_cons by lia. rewrite filter_cons.
    replace (Z.pred (nslots d - c)) with (nslots d - (c + 1)) by lia.
    rewrite <- Z.add_1_r. fold (live_from d (c + 1)).
    cbn [next_loop current_slot it_num_slots it_page].
    rewrite (proj2 (Z.ltb_lt c (nslots d))) by lia.
    rewrite arith_u_ok by (unfold in_u; lia). mstep.
    rewrite get_value_ok by (done || lia). mstep.
    unfold live. destruct (decide (suse d c = x01)) as [Hu|Hu].
    + rewrite decide_True by (split; [lia|done]). split; [done|]. split; [lia|done].
    + rewrite decide_False by tauto. destruct (IH (c + 1)) as [E1 E2]; [lia..|].
      split; [exact E1|]. destruct (live_from d (c + 1)); [done|]. intuition lia.
Qed.

Lemma collect_loop_ok fuel c :
  0 <= c <= nslots d -> (length (live_from d c) <= fuel)%nat ->
  collect_loop fuel (iter c) = Ok ((fun i => (record d i, i)) <$> live_from d c).
Proof.
  revert c. induction fuel as [|fuel IH]; intros c Hc Hf;
    destruct (page_next_loop_ok (Z.to_nat (nslots d - c)) c) as [E1 E2]; try lia;
    cbn [collect_loop]; unfold next; cbn [it_num_slots current_slot];
    rewrite E1; destruct (live_from d c) as [|i l]; try done;
    cbn [length] in *; try lia.
  destruct E2 as [Hi ->]. mstep. rewrite IH; [done|lia|lia].
Qed.

Lemma collect_page_ok :
  collect_page (mkPage d) = Ok ((fun i => (record d i, i)) <$> live_ids d).
Proof.
  unfold collect_page, into_iter. rewrite get_num_slots_ok by apply Hwf. mstep.
  pose proof (nslots_range d). rewrite collect_loop_ok; [|lia|].
  - unfold live_from, live_ids. by rewrite Z.sub_0_r.
  - unfold live_from. etrans; [apply length_filter|]. rewrite length_seqZ. cbn [it_num_slots]. lia.
Qed.
End Iter.

Lemma Sorted_filter_seqZ (P : Z -> Prop) `{forall i, Decision (P i)} m n :
  StronglySorted Z.lt (filter P (seqZ m n)).
Proof.
  destruct (decide (0 <= n)) as [Hn|Hn]; [|by rewrite seqZ_nil by lia; constructor].
  revert m. pattern n. apply natlike_ind; [constructor| |done].
  intros k Hk IH m. rewrite seqZ_cons by lia. rewrite filter_cons, Z.pred_succ.
  destruct (decide (P m)); [|done]. constructor; [done|].
  apply Forall_forall. intros x. rewrite list_elem_of_filter, elem_of_seqZ. lia.
Qed.

(** C29: iterating over a well-formed page yields every readable record exactly
    once, with its slot id, in ascending order of slot ids, and nothing else. *)
Theorem page_iterator_complete `{Profile} p :
  page_wf p ->
  exists l, collect_page p = Ok l /\ StronglySorted Z.lt l.*2 /\
    forall v i, 0 <= i -> (v, i) ∈ l <-> get_value p i = Ok (Some v).
Proof.
  destruct p as [d]. intros Hwf. eexists. split; [by apply collect_page_ok|]. split.
  - rewrite <- list_fmap_compose. rewrite list_fmap_id. apply Sorted_filter_seqZ.
  - intros v i Hi. rewrite get_value_ok by done. rewrite list_elem_of_fmap. split.
    + intros (j & [= -> ->] & Hj%elem_of_live_ids). by rewrite decide_True.
    + destruct (decide (live d i)) as [Hl|]; [|done]. intros [= <-].
      exists i. by rewrite elem_of_live_ids.
Qed.

Lemma page_iterator_complete_witness :
  exists p l, collect_page (H := true) p = Ok l /\ ([x0a; x0b], 0) ∈ l.
Proof.
  destruct (@demo_page_ok true) as (p & E & W).
  assert (get_value p 0 = Ok (Some [x0a; x0b])) as G.
  { vm_compute in E. injection E as <-. vm_compute. done. }
  destruct (@page_iterator_complete true p W) as (l & El & _ & Hl).
  exists p, l. split; [exact El|]. by apply Hl.
Defined.

(** ** Page comparison *)

(** Replaying a list of differences over a page image. *)
Definition apply_diffs (other : list byte) (ds : list (Z * list byte)) : list byte :=
  foldl (fun o x => splice o x.1 x.2) other ds.

(** [r] has the bytes of [d] below [t] and those of [other] from [t] on. *)
Definition patched (d other r : list byte) (t : Z) : Prop :=
  lenZ r = lenZ other /\
  forall i, 0 <= i < lenZ other -> bget r i = bget (if i <? t then d else other) i.

Section Compare.
Context (d other : list byte) (Hl : lenZ d = lenZ other) (Hsz : lenZ d <= 65536).

(** The loop invariant after [n] bytes. *)
Record diff_inv (n : Z) (s : diff_state) : Prop := {
  di_start : df_in s = true -> 0 <= df_start s < n;
  di_vec : df_vec s = if df_in s then sub d (df_start s) (n - df_start s) else [];
  di_differ : forall i, (if df_in s then df_start s else n) <= i < n -> bget d i <> bget other i;
  di_last : let t := if df_in s then df_start s else n in
            t = 0 \/ bget d (t - 1) = bget other (t - 1);
  di_res : patched d other (apply_diffs other (df_res s)) (if df_in s then df_start s else n);
}.

Lemma patched_extend r t : patched d other r t -> 0 <= t < lenZ d ->
  bget d t = bget other t -> patched d other r (t + 1).
Proof.
  intros [H1 H2] Ht E. split; [done|]. intros i Hi. rewrite H2 by done.
  destruct (Z.ltb_spec i t), (Z.ltb_spec i (t + 1)); try done; [lia|].
  by replace i with t by lia.
Qed.

Lemma patched_splice r t n : patched d other r t -> 0 <= t <= n -> n <= lenZ d ->
  patched d other (splice r t (sub d t (n - t))) n.
Proof.
  intros [H1 H2] Ht Hn. assert (lenZ (sub d t (n - t)) = n - t) as Hs by (apply lenZ_sub; lia).
  split; [rewrite lenZ_splice; lia|]. intros i Hi. rewrite bget_splice by lia. rewrite Hs.
  destruct (Z.leb_spec t i), (Z.ltb_spec i (t + (n - t))); cbn [andb].
  - rewrite bget_sub by lia. rewrite (proj2 (Z.ltb_lt i n)) by lia. f_equal. lia.
  - rewrite H2 by lia. by rewrite (proj2 (Z.ltb_ge i n)), (proj2 (Z.ltb_ge i t)) by lia.
  - rewrite H2 by lia. by rewrite (proj2 (Z.ltb_lt i n)), (proj2 (Z.ltb_lt i t)) by lia.
  - lia.
Qed.

Lemma sub_snoc t n : 0 <= t <= n -> n < lenZ d ->
  sub d t (n + 1 - t) = sub d t (n - t) ++ [bget d n].
Proof.
  intros Ht Hn. unfold sub. replace (Z.to_nat (n + 1 - t)) with (S (Z.to_nat (n - t))) by lia.
  apply take_S_r. rewrite lookup_drop.
  replace (Z.to_nat t + Z.to_nat (n - t))%nat with (Z.to_nat n) by lia. apply bget_lookup. lia.
Qed.

Lemma compare_step_inv n s :
  0 <= n < lenZ d -> diff_inv n s ->
  diff_inv (n + 1) (compare_step s (n, (bget d n, bget other n))).
Proof.
  intros Hn [I1 I2 I3 I4 I5]. unfold compare_step.
  case_bool_decide as E; cbn [negb].
  - destruct s as [res [|] st vec]; cbn [df_in df_res df_start df_vec] in *; subst vec.
    + specialize (I1 eq_refl). split; cbn [df_in df_res df_start df_vec]; try done.
      * intros i Hi. lia.
      * right. by replace (n + 1 - 1) with n by lia.
      * unfold apply_diffs. rewrite foldl_app. cbn [foldl fst snd].
        rewrite wrap_u_small by (unfold in_u; lia). apply patched_extend; [|lia|done].
        by apply patched_splice; [|lia..].
    + split; cbn [df_in df_res df_start df_vec]; try done.
      * intros i Hi. lia.
      * right. by replace (n + 1 - 1) with n by lia.
      * by apply patched_extend.
  - destruct s as [res [|] st vec]; cbn [df_in df_res df_start df_vec] in *; subst vec.
    + specialize (I1 eq_refl). split; cbn [df_in df_res df_start df_vec]; try done; [lia| |].
      * rewrite sub_snoc by lia. done.
      * intros i Hi. destruct (decide (i = n)) as [->|]; [done|]. apply I3. lia.
    + split; cbn [df_in df_res df_start df_vec]; try done; [lia| |].
      * rewrite sub_snoc by lia. by rewrite Z.sub_diag.
      * intros i Hi. assert (i = n) as -> by lia. done.
Qed.

Lemma compare_loop_inv n :
  (n <= length d)%nat ->
  diff_inv (Z.of_nat n) (foldl compare_step (mkDiff [] false 0 [])
     (take n (zip (seqZ 0 (lenZ d)) (zip d other)))).
Proof.
  induction n as [|n IH]; intros Hn.
  - rewrite take_0. split; cbn [foldl df_in df_res df_start df_vec]; try done; [intros i Hi; lia|by left|].
    split; [done|]. intros i Hi. by rewrite (proj2 (Z.ltb_ge i (Z.of_nat 0))) by lia.
  - unfold lenZ in *. erewrite take_S_r.
    + rewrite foldl_app. cbn [foldl]. rewrite Nat2Z.inj_succ, <- Z.add_1_r.
      apply compare_step_inv; [unfold lenZ; lia|]. apply IH. lia.
    + rewrite lookup_zip_with. rewrite lookup_seqZ_lt by lia. cbn.
      rewrite lookup_zip_with.
      pose proof (bget_lookup d (Z.of_nat n)) as E1. pose proof (bget_lookup other (Z.of_nat n)) as E2.
      unfold lenZ in *. rewrite Nat2Z.id in *. rewrite E1, E2 by lia. done.
Qed.
End Compare.

(** Replaying the differences [compare_page] reports over the other page
    yields this page up to the position after the last byte the two share; the
    differing bytes behind that position, a run that reaches the end of the
    page, are not reported. *)
Theorem compare_page_patches p other :
  lenZ (data p) = PAGE_SIZE -> lenZ other = PAGE_SIZE ->
  exists ds t, compare_page p other = Ok ds /\ 0 <= t <= PAGE_SIZE /\
    patched (data p) other (apply_diffs other ds) t /\
    (forall i, t <= i < PAGE_SIZE -> bget (data p) i <> bget other i) /\
    (t = 0 \/ bget (data p) (t - 1) = bget other (t - 1)).
Proof.
  destruct p as [d]. cbn [data]. intros Hd Ho. unfold compare_page, to_bytes. cbn [data].
  rewrite (proj2 (Z.eqb_eq _ _)) by congruence.
  pose proof (compare_loop_inv d other ltac:(congruence) ltac:(unfold PAGE_SIZE in *; lia)
                (length d) ltac:(lia)) as I.
  rewrite take_ge in I by (rewrite length_zip_with, length_seqZ; unfold lenZ; lia).
  destruct I as [I1 _ I3 I4 I5]. fold (lenZ d) in *. revert I1 I3 I4 I5.
  set (s := foldl _ _ _). intros I1 I3 I4 I5. rewrite Hd in *.
  exists (df_res s), (if df_in s then df_start s else PAGE_SIZE).
  split; [done|]. split; [|done]. destruct (df_in s); [|unfold PAGE_SIZE; lia].
  specialize (I1 eq_refl). lia.
Qed.

Lemma compare_page_patches_witness :
  exists ds t, compare_page (from_bytes (replicate 4096 x00)) (replicate 4095 x00 ++ [x01]) = Ok ds /\
    0 <= t <= PAGE_SIZE /\ ds = [].
Proof.
  destruct (compare_page_patches (from_bytes (replicate 4096 x00)) (replicate 4095 x00 ++ [x01]))
    as (ds & t & E & Ht & _); [vm_compute; reflexivity..|].
  exists ds, t. split; [exact E|]. split; [exact Ht|].
  vm_compute in E. by injection E as <-.
Defined.
