(* ===== verification/LockManager.v ===== *)
(** * Page locks and transactions

    [src/src/txn_manager/src/lockmanager.rs]: shared and exclusive locks on
    pages, kept in two maps (page to lock, transaction to pages), and
    [transactions.rs]: the states of a transaction.

    The model keeps both maps and every branch of the operations; a release
    returns the new state beside its [Result], since a failing release inside
    [release_locks] would leave earlier releases done. *)

From S2P Require Import Prelude Common.

(** ** Data ([Lock], [LockManager]) *)

Record Lock := mkLock {
  _vid : ValueId;
  txn : list TransactionId;
  lock_type : Permissions;
}.

Record LockManager := mkLM {
  pid_lock : gmap ValueId Lock;
  txn_locks : gmap TransactionId (list ValueId);
}.

Definition LockManager_new : LockManager := mkLM ∅ ∅.

Definition clear (m : LockManager) : LockManager := mkLM ∅ ∅.

(** [self.txn_locks.get_mut(&tid).unwrap().push(pid)] *)
Definition push_page (m : gmap TransactionId (list ValueId)) (tid : TransactionId)
  (pid : ValueId) : result (gmap TransactionId (list ValueId)) :=
  pages ← unwrap_opt (m !! tid); Ok (<[tid := pages ++ [pid]]> m).

(** [self.txn_locks.entry(tid).or_default()] *)
Definition entry_or_default (m : gmap TransactionId (list ValueId)) (tid : TransactionId)
  : gmap TransactionId (list ValueId) :=
  match m !! tid with Some _ => m | None => <[tid := []]> m end.

(** ** Operations *)

Definition acquire_lock (m : LockManager) (tid : TransactionId) (pid : ValueId)
  (perm : Permissions) : result (LockManager * bool) :=
  let locks := entry_or_default (txn_locks m) tid in
  match pid_lock m !! pid with
  | None =>
      let lock := mkLock pid [tid] perm in
      locks ← push_page locks tid pid;
      Ok (mkLM (<[pid := lock]> (pid_lock m)) locks, true)
  | Some lock =>
      match perm with
      | ReadOnly =>
          match lock_type lock with
          | ReadWrite => Ok (mkLM (pid_lock m) locks, bool_decide (tid ∈ txn lock))
          | ReadOnly =>
              if bool_decide (tid ∈ txn lock) then Ok (mkLM (pid_lock m) locks, true)
              else
                let lock := mkLock (_vid lock) (txn lock ++ [tid]) (lock_type lock) in
                locks ← push_page locks tid pid;
                Ok (mkLM (<[pid := lock]> (pid_lock m)) locks, true)
          end
      | ReadWrite =>
          if bool_decide (length (txn lock) = 1%nat) && bool_decide (tid ∈ txn lock) then
            let lock := match lock_type lock with
                        | ReadOnly => mkLock (_vid lock) (txn lock) ReadWrite
                        | ReadWrite => lock
                        end in
            Ok (mkLM (<[pid := lock]> (pid_lock m)) locks, true)
          else Ok (mkLM (pid_lock m) locks, false)
      end
  end.

Definition page_ids (m : LockManager) (tid : TransactionId) : list ValueId :=
  match txn_locks m !! tid with Some v => v | None => [] end.

Definition err_not_held (tid : TransactionId) (pid : ValueId) : CrustyError :=
  CrustyErr ("TXN  " +:+ pretty (tid_id tid) +:+ " does not hold lock on " +:+ ValueId_debug pid).
Definition err_no_lock (pid : ValueId) : CrustyError :=
  CrustyErr ("No locks on ValueId " +:+ ValueId_debug pid).
Definition err_unknown_txn (tid : TransactionId) : CrustyError :=
  CrustyErr ("Releasing lock from unknown TXN " +:+ pretty (tid_id tid)).
Definition err_unknown_txns (tid : TransactionId) : CrustyError :=
  CrustyErr ("Releasing locks from unknown TXN " +:+ pretty (tid_id tid)).

Definition release_lock (m : LockManager) (tid : TransactionId) (pid : ValueId)
  : LockManager * result unit :=
  match txn_locks m !! tid with
  | None => (m, Err (err_unknown_txn tid))
  | Some pages =>
      match pid_lock m !! pid with
      | None => (m, Err (err_no_lock pid))
      | Some lock =>
          if bool_decide (tid ∈ txn lock) then
            let pl :=
              if bool_decide (length (txn lock) = 1%nat) then delete pid (pid_lock m)
              else <[pid := mkLock (_vid lock) (filter (fun x => x <> tid) (txn lock))
                                   (lock_type lock)]> (pid_lock m) in
            (mkLM pl (<[tid := filter (fun p => p <> pid) pages]> (txn_locks m)), Ok tt)
          else (m, Err (err_not_held tid pid))
      end
  end.

(** The [for] loop of [release_locks], left by [?]. *)
Fixpoint release_all (m : LockManager) (tid : TransactionId) (ps : list ValueId)
  : LockManager * result unit :=
  match ps with
  | [] => (m, Ok tt)
  | p :: ps' =>
      match release_lock m tid p with
      | (m', Ok _) => release_all m' tid ps'
      | (m', e) => (m', e)
      end
  end.

Definition release_locks (m : LockManager) (tid : TransactionId) : LockManager * result unit :=
  let pages_to_release := match txn_locks m !! tid with Some pages => pages | None => [] end in
  match pages_to_release with
  | [] => (m, Err (err_unknown_txns tid))
  | _ :: _ => release_all m tid pages_to_release
  end.

(** ** What the two maps say *)

(** [tid] holds a lock of type [q] on page [pid]. *)
Definition holds (m : LockManager) (tid : TransactionId) (pid : ValueId) (q : Permissions) : Prop :=
  exists l, pid_lock m !! pid = Some l /\ tid ∈ txn l /\ lock_type l = q.

(** [pid] is among the pages recorded for [tid]. *)
Definition listed (m : LockManager) (tid : TransactionId) (pid : ValueId) : Prop :=
  pid ∈ page_ids m tid.

(** The invariant that ties the maps together. *)
Record lm_wf (m : LockManager) : Prop := {
  lw_vid : forall pid l, pid_lock m !! pid = Some l -> _vid l = pid;
  lw_txn : forall pid l, pid_lock m !! pid = Some l -> txn l <> [] /\ NoDup (txn l);
  lw_excl : forall pid l, pid_lock m !! pid = Some l -> lock_type l = ReadWrite ->
            length (txn l) = 1%nat;
  lw_pages : forall tid, NoDup (page_ids m tid);
  lw_agree : forall tid pid, listed m tid pid <-> exists q, holds m tid pid q;
}.

(** No other transaction holds a conflicting lock on the page. *)
Definition grantable (m : LockManager) (tid : TransactionId) (pid : ValueId)
  (perm : Permissions) : Prop :=
  forall tid' q, tid' <> tid -> holds m tid' pid q -> perm = ReadOnly /\ q = ReadOnly.

(** ** Lemmas on the maps *)

Definition pages_of (t : gmap TransactionId (list ValueId)) (tid : TransactionId) : list ValueId :=
  match t !! tid with Some v => v | None => [] end.

Lemma pages_of_insert t tid ps tid' :
  pages_of (<[tid := ps]> t) tid' = if decide (tid' = tid) then ps else pages_of t tid'.
Proof.
  unfold pages_of. destruct (decide (tid' = tid)) as [->|].
  - by rewrite lookup_insert_eq.
  - by rewrite lookup_insert_ne.
Qed.

Lemma pages_of_entry t tid tid' : pages_of (entry_or_default t tid) tid' = pages_of t tid'.
Proof.
  unfold entry_or_default. destruct (t !! tid) eqn:E; [done|].
  rewrite pages_of_insert. case_decide as D; [|done]. subst. unfold pages_of. by rewrite E.
Qed.

Lemma push_page_ok t tid pid :
  exists t', push_page (entry_or_default t tid) tid pid = Ok t' /\
    forall tid', pages_of t' tid' =
      if decide (tid' = tid) then pages_of t tid ++ [pid] else pages_of t tid'.
Proof.
  unfold push_page.
  assert (entry_or_default t tid !! tid = Some (pages_of t tid)) as E.
  { unfold entry_or_default, pages_of. destruct (t !! tid) eqn:E; [done|].
    by rewrite lookup_insert_eq. }
  rewrite E. cbn [unwrap_opt]. mstep. eexists. split; [done|]. intros tid'.
  rewrite pages_of_insert. case_decide; [done|]. apply pages_of_entry.
Qed.

Lemma holds_insert pl t pid l tid' p q :
  holds (mkLM (<[pid := l]> pl) t) tid' p q <->
  if decide (p = pid) then tid' ∈ txn l /\ lock_type l = q else holds (mkLM pl t) tid' p q.
Proof.
  unfold holds. cbn [pid_lock]. destruct (decide (p = pid)) as [->|].
  - rewrite lookup_insert_eq. naive_solver.
  - by rewrite lookup_insert_ne.
Qed.

Lemma holds_delete pl t pid tid' p q :
  holds (mkLM (delete pid pl) t) tid' p q <-> p <> pid /\ holds (mkLM pl t) tid' p q.
Proof.
  unfold holds. cbn [pid_lock]. destruct (decide (p = pid)) as [->|].
  - rewrite lookup_delete_eq. naive_solver.
  - rewrite lookup_delete_ne by done. naive_solver.
Qed.

Lemma holds_at m tid pid q l :
  pid_lock m !! pid = Some l -> holds m tid pid q <-> tid ∈ txn l /\ lock_type l = q.
Proof. intros E. unfold holds. rewrite E. naive_solver. Qed.

(** Changing one page's lock and one transaction's page list together keeps the
    invariant, provided the lock is well-formed and the lists follow it. *)
Lemma lm_wf_update m pl t pid l :
  lm_wf m -> pid_lock m = pl ->
  _vid l = pid -> txn l <> [] -> NoDup (txn l) ->
  (lock_type l = ReadWrite -> length (txn l) = 1%nat) ->
  (forall tid', NoDup (pages_of t tid')) ->
  (forall tid' p, p ∈ pages_of t tid' <->
     if decide (p = pid) then tid' ∈ txn l else p ∈ page_ids m tid') ->
  lm_wf (mkLM (<[pid := l]> pl) t).
Proof.
  intros W <- Hv Hn Hd Hx Hp Hl.
  assert (forall p l', <[pid := l]> (pid_lock m) !! p = Some l' ->
            p = pid /\ l' = l \/ p <> pid /\ pid_lock m !! p = Some l') as Hc.
  { intros p l' E. destruct (decide (p = pid)) as [->|].
    - rewrite lookup_insert_eq in E. injection E as <-. by left.
    - rewrite lookup_insert_ne in E by done. by right. }
  split.
  - intros p l' [[-> ->]|[_ E]]%Hc; [done|]. by apply (lw_vid m W).
  - intros p l' [[-> ->]|[_ E]]%Hc; [done|]. by apply (lw_txn m W p).
  - intros p l' [[-> ->]|[_ E]]%Hc; [done|]. by apply (lw_excl m W p).
  - exact Hp.
  - intros tid' p. unfold listed. change (page_ids _ tid') with (pages_of t tid').
    rewrite Hl. setoid_rewrite holds_insert. destruct (decide (p = pid)).
    + split; [eauto|by intros (? & ? & ?)].
    + apply (lw_agree m W).
Qed.

Lemma lm_wf_entry m tid : lm_wf m -> lm_wf (mkLM (pid_lock m) (entry_or_default (txn_locks m) tid)).
Proof.
  intros W. split; try apply W.
  - intros tid'. change (NoDup (pages_of (entry_or_default (txn_locks m) tid) tid')).
    rewrite pages_of_entry. apply (lw_pages m W).
  - intros tid' p. unfold listed.
    change (p ∈ pages_of (entry_or_default (txn_locks m) tid) tid' <->
            exists q, holds m tid' p q).
    rewrite pages_of_entry. apply (lw_agree m W).
Qed.

(** What holds after a granted request. *)
Definition granted (m m' : LockManager) (tid : TransactionId) (pid : ValueId)
  (perm : Permissions) : Prop :=
  forall t p q, holds m' t p q <->
    if decide (p = pid /\ t = tid)
    then q = ReadWrite <-> perm = ReadWrite \/ holds m tid pid ReadWrite
    else holds m t p q.

Lemma not_listed m tid pid l :
  lm_wf m -> pid_lock m !! pid = Some l -> tid ∉ txn l -> pid ∉ page_ids m tid.
Proof.
  intros W E Hn Hp. apply (lw_agree m W) in Hp as [q (l' & E' & Ht & _)]. congruence.
Qed.

(** A new lock on a free page. *)
Lemma acquire_fresh_ok m tid pid perm :
  lm_wf m -> pid_lock m !! pid = None ->
  exists m', acquire_lock m tid pid perm = Ok (m', true) /\ lm_wf m' /\
    granted m m' tid pid perm.
Proof.
  intros W E. unfold acquire_lock. rewrite E.
  destruct (push_page_ok (txn_locks m) tid pid) as (t' & -> & Ht'). mstep.
  assert (forall t q, ~ holds m t pid q) as Hno by (intros t q (l & El & _); congruence).
  eexists. split; [done|]. split.
  - apply (lm_wf_update m); try done; cbn [txn].
    + apply NoDup_singleton.
    + intros tid'. rewrite Ht'. case_decide; [|apply (lw_pages m W)].
      apply NoDup_app. split; [apply (lw_pages m W)|]. split; [|apply NoDup_singleton].
      intros p Hp ->%list_elem_of_singleton.
      apply (lw_agree m W) in Hp as [q Hq]. by apply (Hno tid q).
    + intros tid' p. rewrite Ht'.
      change (page_ids m tid') with (pages_of (txn_locks m) tid').
      assert (pid ∉ pages_of (txn_locks m) tid') as Hn.
      { intros Hp. apply (lw_agree m W) in Hp as [q Hq]. by apply (Hno tid' q). }
      repeat case_decide; subst; rewrite ?elem_of_app, ?list_elem_of_singleton; naive_solver.
  - intros t p q. rewrite holds_insert. cbn [txn lock_type].
    destruct (decide (p = pid)) as [->|]; [|rewrite decide_False by tauto; done].
    rewrite list_elem_of_singleton. destruct (decide (pid = pid /\ t = tid)) as [[_ ->]|].
    + destruct perm, q; naive_solver.
    + naive_solver.
Qed.

(** A second reader joins a shared lock. *)
Lemma acquire_join_ok m tid pid l :
  lm_wf m -> pid_lock m !! pid = Some l -> lock_type l = ReadOnly -> tid ∉ txn l ->
  exists m', acquire_lock m tid pid ReadOnly = Ok (m', true) /\ lm_wf m' /\
    granted m m' tid pid ReadOnly.
Proof.
  intros W E Hro Hn. unfold acquire_lock. rewrite E, Hro, bool_decide_eq_false_2 by done.
  destruct (push_page_ok (txn_locks m) tid pid) as (t' & -> & Ht'). mstep.
  destruct (lw_txn m W pid l E) as [Hne Hnd].
  pose proof (not_listed m tid pid l W E Hn) as Hnl.
  eexists. split; [done|]. split.
  - apply (lm_wf_update m); try done; cbn [txn _vid lock_type].
    + by apply (lw_vid m W).
    + destruct (txn l); [|done]. done.
    + apply NoDup_app. split; [done|]. split; [|apply NoDup_singleton].
      intros x Hx ->%list_elem_of_singleton. done.
    + intros tid'. rewrite Ht'. case_decide; [|apply (lw_pages m W)].
      apply NoDup_app. split; [apply (lw_pages m W)|]. split; [|apply NoDup_singleton].
      intros p Hp ->%list_elem_of_singleton. done.
    + intros tid' p. rewrite Ht'.
      change (page_ids m tid') with (pages_of (txn_locks m) tid').
      change (page_ids m tid) with (pages_of (txn_locks m) tid) in Hnl.
      assert (pid ∈ pages_of (txn_locks m) tid' <-> tid' ∈ txn l) as Ha.
      { change (listed m tid' pid <-> tid' ∈ txn l). rewrite (lw_agree m W).
        setoid_rewrite (holds_at m tid' pid _ l E). naive_solver. }
      repeat case_decide; subst; rewrite ?elem_of_app, ?list_elem_of_singleton; naive_solver.
  - intros t p q. rewrite holds_insert. cbn [txn lock_type].
    destruct (decide (p = pid)) as [->|]; [|rewrite decide_False by tauto; done].
    rewrite elem_of_app, list_elem_of_singleton.
    destruct (decide (pid = pid /\ t = tid)) as [[_ ->]|];
      rewrite !(holds_at m _ pid _ l E), ?Hro; destruct q; intuition congruence.
Qed.

(** The only holder asks for write access. *)
Lemma acquire_upgrade_ok m tid pid l :
  lm_wf m -> pid_lock m !! pid = Some l -> txn l = [tid] ->
  exists m', acquire_lock m tid pid ReadWrite = Ok (m', true) /\ lm_wf m' /\
    granted m m' tid pid ReadWrite.
Proof.
  intros W E Hl. unfold acquire_lock. rewrite E.
  rewrite !bool_decide_eq_true_2 by (rewrite Hl; (done || by apply list_elem_of_singleton)).
  cbn [andb]. set (l' := match lock_type l with ReadOnly => _ | ReadWrite => _ end).
  assert (txn l' = [tid] /\ _vid l' = pid /\ lock_type l' = ReadWrite) as (H1 & H2 & H3).
  { subst l'. pose proof (lw_vid m W pid l E). destruct (lock_type l) eqn:?; done. }
  clearbody l'. eexists. split; [done|]. split.
  - apply (lm_wf_update m); rewrite ?H1; try done.
    + apply NoDup_singleton.
    + intros tid'. rewrite pages_of_entry. apply (lw_pages m W).
    + intros tid' p. rewrite pages_of_entry. case_decide; [|done]. subst p.
      change (listed m tid' pid <-> tid' ∈ [tid]). rewrite (lw_agree m W).
      setoid_rewrite (holds_at m tid' pid _ l E). rewrite Hl. naive_solver.
  - intros t p q. rewrite holds_insert, H1, H3.
    destruct (decide (p = pid)) as [->|]; [|rewrite decide_False by tauto; done].
    rewrite list_elem_of_singleton.
    destruct (decide (pid = pid /\ t = tid)) as [[_ ->]|];
      rewrite !(holds_at m _ pid _ l E), Hl, ?list_elem_of_singleton;
      destruct q; intuition congruence.
Qed.

Lemma singleton_holder (l : list TransactionId) tid :
  length l = 1%nat -> tid ∈ l -> l = [tid].
Proof. destruct l as [|x [|]]; try done. intros _ ->%list_elem_of_singleton. done. Qed.

(** A request that changes neither the locks nor the page lists. *)
Lemma granted_refl m t' tid pid perm :
  holds m tid pid perm \/ holds m tid pid ReadWrite ->
  granted m (mkLM (pid_lock m) t') tid pid perm.
Proof.
  intros Hh t p q. change (holds (mkLM (pid_lock m) t') t p q) with (holds m t p q).
  case_decide as D; [|done]. destruct D as [-> ->].
  destruct Hh as [(l & E & Hl)|(l & E & Hl)]; rewrite !(holds_at m _ pid _ l E) in *;
    destruct q, perm; intuition congruence.
Qed.

(** A lock that another transaction holds incompatibly refuses the request. *)
Lemma acquire_refused_ok m tid pid perm l tid' :
  lm_wf m -> pid_lock m !! pid = Some l -> tid' <> tid -> tid' ∈ txn l ->
  ~ (perm = ReadOnly /\ lock_type l = ReadOnly) ->
  exists m', acquire_lock m tid pid perm = Ok (m', false) /\ lm_wf m' /\
    (false = true <-> grantable m tid pid perm) /\ pid_lock m' = pid_lock m.
Proof.
  intros W E Hne Hin' Hro. exists (mkLM (pid_lock m) (entry_or_default (txn_locks m) tid)).
  assert (Hno : length (txn l) = 1%nat -> tid ∉ txn l).
  { intros H1 Hin. rewrite (singleton_holder _ _ H1 Hin) in Hin'. by apply list_elem_of_singleton in Hin'. }
  pose proof (lw_excl m W pid l E) as Hx.
  split_and!; [|by apply lm_wf_entry| |done].
  - unfold acquire_lock. rewrite E. destruct perm.
    + destruct (lock_type l); [naive_solver|]. by rewrite bool_decide_eq_false_2 by auto.
    + destruct (decide (length (txn l) = 1%nat)) as [H1|H1].
      * by rewrite (bool_decide_eq_false_2 _ (Hno H1)), andb_false_r.
      * by rewrite (bool_decide_eq_false_2 _ H1).
  - split; [done|]. intros Hg. exfalso. apply Hro, (Hg tid' (lock_type l) Hne). by exists l.
Qed.

Lemma acquire_lock_ok m tid pid perm :
  lm_wf m ->
  exists m' b, acquire_lock m tid pid perm = Ok (m', b) /\ lm_wf m' /\
    (b = true <-> grantable m tid pid perm) /\
    (if b then granted m m' tid pid perm else pid_lock m' = pid_lock m).
Proof.
  intros W. destruct (pid_lock m !! pid) as [l|] eqn:E.
  2:{ destruct (acquire_fresh_ok m tid pid perm W E) as (m' & -> & W' & G).
      exists m', true. split_and!; try done. split; [|done].
      intros _ tid' q _ (l & El & _). congruence. }
  destruct (lw_txn m W pid l E) as [Hne Hnd]. pose proof (lw_excl m W pid l E) as Hx.
  destruct (decide (perm = ReadOnly /\ lock_type l = ReadOnly)) as [[-> Ety]|Hro].
  { assert (Hg : grantable m tid pid ReadOnly).
    { intros tid' q _ [_ Hq]%(holds_at m _ pid _ l E). split; [done|congruence]. }
    destruct (decide (tid ∈ txn l)) as [Hin|Hnin].
    - exists (mkLM (pid_lock m) (entry_or_default (txn_locks m) tid)), true.
      unfold acquire_lock. rewrite E, Ety, bool_decide_eq_true_2 by done.
      split_and!; [done|by apply lm_wf_entry|done|].
      apply granted_refl. rewrite !(holds_at m _ pid _ l E). auto.
    - destruct (acquire_join_ok m tid pid l W E Ety Hnin) as (m' & -> & W' & G). by exists m', true. }
  destruct (decide (Forall (eq tid) (txn l))) as [Hall|(tid' & Hin' & Hd)%not_Forall_Exists%Exists_exists].
  2:{ destruct (acquire_refused_ok m tid pid perm l tid') as (m' & A); [by auto..|]. by exists m', false. }
  2: intros x; apply _.
  assert (H1 : txn l = [tid]).
  { destruct (txn l) as [|a [|b k]]; decompose_Forall_hyps; try done. apply NoDup_cons in Hnd. set_solver. }
  assert (Hg : grantable m tid pid perm).
  { intros tid' q Hd. rewrite (holds_at m _ pid _ l E), H1, list_elem_of_singleton. naive_solver. }
  destruct perm.
  - destruct (lock_type l) eqn:Ety; [naive_solver|].
    exists (mkLM (pid_lock m) (entry_or_default (txn_locks m) tid)), true.
    unfold acquire_lock. rewrite E, Ety, H1, bool_decide_eq_true_2 by set_solver.
    split_and!; [done|by apply lm_wf_entry|done|].
    apply granted_refl. rewrite !(holds_at m _ pid _ l E), H1, Ety. set_solver.
  - destruct (acquire_upgrade_ok m tid pid l W E H1) as (m' & -> & W' & G). by exists m', true.
Qed.

(** ** Releasing *)

(** [tid] no longer holds [pid]; nothing else changes. *)
Definition released (m m' : LockManager) (tid : TransactionId) (P : ValueId -> Prop) : Prop :=
  forall t p q, holds m' t p q <-> holds m t p q /\ ~ (t = tid /\ P p).

Lemma filter_ne_nonempty (l : list TransactionId) tid :
  NoDup l -> tid ∈ l -> length l <> 1%nat -> filter (fun x => x <> tid) l <> [].
Proof.
  intros Hnd Hin Hl Hf. destruct l as [|a [|b k]]; [by apply not_elem_of_nil in Hin|done|].
  apply NoDup_cons in Hnd as [Ha _].
  assert (forall x, x ∈ a :: b :: k -> x = tid) as Hall.
  { intros x Hx. destruct (decide (x = tid)); [done|]. exfalso.
    apply (not_elem_of_nil x). rewrite <- Hf. by apply list_elem_of_filter. }
  apply Ha. rewrite (Hall a), <- (Hall b); set_solver.
Qed.

Lemma lm_wf_delete m t pid :
  lm_wf m -> (forall tid', NoDup (pages_of t tid')) ->
  (forall tid' p, p ∈ pages_of t tid' <-> p <> pid /\ p ∈ page_ids m tid') ->
  lm_wf (mkLM (delete pid (pid_lock m)) t).
Proof.
  intros W Hd Hp. split; cbn [pid_lock].
  - intros p l' [_ E']%lookup_delete_Some. by apply (lw_vid m W).
  - intros p l' [_ E']%lookup_delete_Some. by apply (lw_txn m W p).
  - intros p l' [_ E']%lookup_delete_Some. by apply (lw_excl m W p).
  - exact Hd.
  - intros tid' p. unfold listed. setoid_rewrite holds_delete.
    change (page_ids _ tid') with (pages_of t tid'). rewrite Hp.
    pose proof (lw_agree m W tid' p) as Ha. unfold listed in Ha. rewrite Ha.
    split; [by intros [? [q ?]]; exists q|by intros [q [??]]; eauto].
Qed.

Section Release.
Context (m : LockManager) (tid : TransactionId) (pid : ValueId) (l : Lock).
Context (W : lm_wf m) (E : pid_lock m !! pid = Some l) (Hin : tid ∈ txn l).

Let t' := <[tid := filter (fun p => p <> pid) (page_ids m tid)]> (txn_locks m).

Lemma pages_of_released tid' :
  pages_of t' tid' =
  if decide (tid' = tid) then filter (fun p => p <> pid) (page_ids m tid) else page_ids m tid'.
Proof. apply pages_of_insert. Qed.

Lemma NoDup_released tid' : NoDup (pages_of t' tid').
Proof.
  rewrite pages_of_released. case_decide; [apply NoDup_filter|]; apply (lw_pages m W).
Qed.

Lemma listed_iff tid' : pid ∈ page_ids m tid' <-> tid' ∈ txn l.
Proof.
  change (listed m tid' pid <-> tid' ∈ txn l). rewrite (lw_agree m W).
  setoid_rewrite (holds_at m tid' pid _ l E). split; [by intros [? [? _]]|eauto].
Qed.

Lemma release_last_ok :
  length (txn l) = 1%nat ->
  let m' := mkLM (delete pid (pid_lock m)) t' in
  lm_wf m' /\ released m m' tid (fun p => p = pid).
Proof.
  intros H1 m'. pose proof (singleton_holder _ _ H1 Hin) as Hs. split.
  - apply lm_wf_delete; [done|apply NoDup_released|]. intros t p.
    rewrite pages_of_released. case_decide; subst; rewrite ?list_elem_of_filter; [done|].
    split; [|tauto]. intros Hp. split; [|done]. intros ->.
    apply listed_iff in Hp. rewrite Hs in Hp. by apply list_elem_of_singleton in Hp.
  - intros t p q. unfold m'. rewrite holds_delete.
    change (holds (mkLM (pid_lock m) t') t p q) with (holds m t p q).
    split; [intros [? ?]; split; [done|by intros [_ ?]]|].
    intros [Hh Hnot]. split; [|done]. intros ->. apply Hnot. split; [|done].
    rewrite (holds_at m _ pid _ l E), Hs in Hh. by apply list_elem_of_singleton, Hh.
Qed.

Lemma release_shared_ok :
  length (txn l) <> 1%nat ->
  let l' := mkLock (_vid l) (filter (fun x => x <> tid) (txn l)) (lock_type l) in
  let m' := mkLM (<[pid := l']> (pid_lock m)) t' in
  lm_wf m' /\ released m m' tid (fun p => p = pid).
Proof.
  intros H1 l' m'. destruct (lw_txn m W pid l E) as [Hne Hnd]. split.
  - apply (lm_wf_update m); cbn [l' txn _vid lock_type]; try done.
    + by apply (lw_vid m W).
    + by apply filter_ne_nonempty.
    + by apply NoDup_filter.
    + intros Hrw. by rewrite (lw_excl m W pid l E Hrw) in H1.
    + apply NoDup_released.
    + intros t p. rewrite pages_of_released. pose proof (listed_iff t) as Hl.
      destruct (decide (p = pid)) as [->|]; case_decide; subst;
        rewrite ?list_elem_of_filter, ?Hl; tauto.
  - intros t p q. unfold m'. rewrite holds_insert. cbn [l' txn lock_type].
    change (holds (mkLM (pid_lock m) t') t p q) with (holds m t p q).
    destruct (decide (p = pid)) as [->|]; [|tauto].
    rewrite list_elem_of_filter, (holds_at m _ pid _ l E). tauto.
Qed.
End Release.

Lemma release_lock_held m tid pid q :
  lm_wf m -> holds m tid pid q ->
  exists m', release_lock m tid pid = (m', Ok tt) /\ lm_wf m' /\
    released m m' tid (fun p => p = pid) /\
    page_ids m' tid = filter (fun p => p <> pid) (page_ids m tid).
Proof.
  intros W (l & E & Hin & _). unfold release_lock.
  assert (pid ∈ page_ids m tid) as Hl by by apply (listed_iff m pid l W E).
  assert (txn_locks m !! tid = Some (page_ids m tid)) as ->.
  { unfold page_ids in *. destruct (txn_locks m !! tid); [done|]. by apply not_elem_of_nil in Hl. }
  rewrite E, (bool_decide_eq_true_2 _ Hin). eexists. split; [done|].
  pose proof (pages_of_released m tid pid tid) as Hp. rewrite decide_True in Hp by done.
  case_bool_decide as H1.
  - destruct (release_last_ok m tid pid l W E Hin H1). done.
  - destruct (release_shared_ok m tid pid l W E Hin H1). done.
Qed.

Lemma release_lock_not_held m tid pid :
  lm_wf m -> (forall q, ~ holds m tid pid q) ->
  exists e, release_lock m tid pid = (m, Err e).
Proof.
  intros W Hn. unfold release_lock. destruct (txn_locks m !! tid) as [pages|]; [|eauto].
  destruct (pid_lock m !! pid) as [l|] eqn:E; [|eauto].
  rewrite bool_decide_eq_false_2; [eauto|]. intros Hin. by apply (Hn (lock_type l)); exists l.
Qed.

Lemma release_all_ok ps : forall m tid,
  lm_wf m -> NoDup ps -> (forall p, p ∈ ps -> exists q, holds m tid p q) ->
  exists m', release_all m tid ps = (m', Ok tt) /\ lm_wf m' /\
    released m m' tid (fun p => p ∈ ps).
Proof.
  induction ps as [|p ps IH]; intros m tid W Hnd Hh; cbn [release_all].
  { exists m. split; [done|]. split; [done|]. intros t p q. set_solver. }
  apply NoDup_cons in Hnd as [Hp Hnd].
  destruct (Hh p) as [q Hq]; [set_solver|].
  destruct (release_lock_held m tid p q W Hq) as (m1 & -> & W1 & R1 & _).
  destruct (IH m1 tid W1 Hnd) as (m2 & -> & W2 & R2).
  { intros p' Hp'. destruct (Hh p') as [q' Hq']; [set_solver|]. exists q'.
    apply R1. split; [done|]. intros [_ ->]. done. }
  exists m2. split; [done|]. split; [done|]. intros t p' q'.
  rewrite (R2 t p' q'), (R1 t p' q'), elem_of_cons. tauto.
Qed.

(** ** The lock manager as a state machine *)

Lemma LockManager_new_wf : lm_wf LockManager_new.
Proof.
  split; cbn; try (intros *; rewrite lookup_empty; done).
  - intros tid. unfold page_ids. cbn. rewrite lookup_empty. constructor.
  - intros tid pid. unfold listed, page_ids, holds. cbn. rewrite lookup_empty.
    setoid_rewrite lookup_empty. split; [by intros ?%not_elem_of_nil|by intros (? & ? & ? & ?)].
Qed.

(** One call by a client. *)
Inductive lm_step : LockManager -> LockManager -> Prop :=
| step_acquire m m' tid pid perm b : acquire_lock m tid pid perm = Ok (m', b) -> lm_step m m'
| step_release m m' tid pid r : release_lock m tid pid = (m', r) -> lm_step m m'
| step_release_all m m' tid r : release_locks m tid = (m', r) -> lm_step m m'
| step_clear m : lm_step m (clear m).

Definition lm_reachable (m : LockManager) : Prop := rtc lm_step LockManager_new m.

Definition listed_held m tid : lm_wf m -> forall p, p ∈ page_ids m tid -> exists q, holds m tid p q.
Proof. intros W p Hp. by apply (lw_agree m W). Defined.

Lemma holds_dec m tid pid : {q | holds m tid pid q} + {forall q, ~ holds m tid pid q}.
Proof.
  destruct (pid_lock m !! pid) as [l|] eqn:E.
  - destruct (decide (tid ∈ txn l)).
    + left. exists (lock_type l). by exists l.
    + right. intros q (l' & E' & Ht & _). by replace l' with l in Ht by congruence.
  - right. intros q (l' & E' & ?). congruence.
Qed.

Lemma lm_step_wf m m' : lm_wf m -> lm_step m m' -> lm_wf m'.
Proof.
  intros W S. destruct S as [m m' tid pid perm b E|m m' tid pid r E|m m' tid r E|m].
  - destruct (acquire_lock_ok m tid pid perm W) as (m1 & b1 & E1 & W1 & _). congruence.
  - destruct (holds_dec m tid pid) as [[q Hq]|Hn].
    + destruct (release_lock_held m tid pid q W Hq) as (m1 & E1 & W1 & _). congruence.
    + destruct (release_lock_not_held m tid pid W Hn) as [e E1]. congruence.
  - unfold release_locks in E. change (match _ with Some pages => pages | None => [] end)
      with (page_ids m tid) in E.
    destruct (release_all_ok (page_ids m tid) m tid W (lw_pages m W tid) (listed_held m tid W))
      as (m1 & E1 & W1 & _). destruct (page_ids m tid); [by injection E as <- _|congruence].
  - apply LockManager_new_wf.
Qed.

Lemma lm_reachable_wf m : lm_reachable m -> lm_wf m.
Proof.
  intros R. unfold lm_reachable in R.
  apply (rtc_ind_l (fun x => lm_wf x -> lm_wf m) m) in R; [done|auto|..].
  all: eauto using lm_step_wf, LockManager_new_wf.
Qed.

(** Two transactions and two pages, for the witnesses. *)
Definition t1 : TransactionId := mkTransactionId 1.
Definition t2 : TransactionId := mkTransactionId 2.
Definition pg (n : Z) : ValueId := ValueId_new_page 0 n.

Definition demo_locks : LockManager :=
  mkLM {[ pg 0 := mkLock (pg 0) [t1; t2] ReadOnly; pg 1 := mkLock (pg 1) [t1] ReadWrite ]}
       {[ t1 := [pg 0; pg 1]; t2 := [pg 0] ]}.

Lemma demo_locks_reachable : lm_reachable demo_locks.
Proof.
  eapply rtc_l; [apply (step_acquire _ _ t1 (pg 0) ReadOnly true); vm_compute; reflexivity|].
  eapply rtc_l; [apply (step_acquire _ _ t1 (pg 1) ReadWrite true); vm_compute; reflexivity|].
  eapply rtc_l; [apply (step_acquire _ _ t2 (pg 0) ReadOnly true); vm_compute; reflexivity|].
  apply rtc_refl.
Qed.

(** C3: mutual exclusion.  In every state the lock manager can reach by any
    sequence of acquire, release, release-all and clear calls, two different
    transactions hold locks on the same page only if both locks are shared. *)
Theorem lock_mutual_exclusion m t t' pid q q' :
  lm_reachable m -> holds m t pid q -> holds m t' pid q' -> t <> t' ->
  q = ReadOnly /\ q' = ReadOnly.
Proof.
  intros W%lm_reachable_wf (l & E & Ht & <-) (l' & E' & Ht' & <-) Hne.
  replace l' with l in * by congruence. pose proof (lw_excl m W pid l E) as Hx.
  destruct (lock_type l); [done|]. rewrite (singleton_holder _ t (Hx eq_refl) Ht) in Ht'.
  by apply list_elem_of_singleton in Ht'.
Qed.

Lemma lock_mutual_exclusion_witness :
  holds demo_locks t1 (pg 0) ReadOnly /\ holds demo_locks t2 (pg 0) ReadOnly /\
  (ReadOnly = ReadOnly /\ ReadOnly = ReadOnly).
Proof.
  assert (holds demo_locks t1 (pg 0) ReadOnly) as H1.
  { eexists. split; [vm_compute; reflexivity|]. split; [|done]. by apply list_elem_of_here. }
  assert (holds demo_locks t2 (pg 0) ReadOnly) as H2.
  { eexists. split; [vm_compute; reflexivity|]. split; [|done].
    by apply list_elem_of_further, list_elem_of_here. }
  split; [exact H1|]. split; [exact H2|].
  apply (lock_mutual_exclusion demo_locks t1 t2 (pg 0) _ _ demo_locks_reachable H1 H2). done.
Defined.

(** C22: on any reachable state [acquire_lock] never panics; it answers [true]
    exactly when no other transaction holds a conflicting lock.  A granted
    request adds the lock (a reader that already writes keeps writing, a sole
    reader is upgraded) and changes no other holding; a refused one changes no
    lock. *)
Theorem acquire_lock_decides m tid pid perm :
  lm_reachable m ->
  exists m' b, acquire_lock m tid pid perm = Ok (m', b) /\ lm_reachable m' /\
    (b = true <-> grantable m tid pid perm) /\
    (if b then granted m m' tid pid perm else pid_lock m' = pid_lock m).
Proof.
  intros R. destruct (acquire_lock_ok m tid pid perm (lm_reachable_wf m R)) as (m' & b & E & _ & G).
  exists m', b. split; [done|]. split; [|done]. eapply rtc_r; [done|]. by eapply step_acquire.
Qed.

Lemma acquire_lock_decides_witness :
  exists m', acquire_lock demo_locks t2 (pg 0) ReadWrite = Ok (m', false) /\
    pid_lock m' = pid_lock demo_locks.
Proof.
  destruct (acquire_lock_decides demo_locks t2 (pg 0) ReadWrite demo_locks_reachable)
    as (m' & b & E & _ & _ & G). exists m'.
  assert (b = false) as -> by (vm_compute in E; by injection E).
  split; [exact E|exact G].
Defined.

(** On any reachable state [release_locks] of a transaction that holds a
    lock succeeds and releases exactly that transaction's locks, all of them;
    for a transaction that holds none it reports an error and changes nothing. *)
Theorem release_locks_releases_all m tid :
  lm_reachable m ->
  ((exists pid q, holds m tid pid q) ->
   exists m', release_locks m tid = (m', Ok tt) /\ lm_reachable m' /\
     page_ids m' tid = [] /\
     forall t p q, holds m' t p q <-> holds m t p q /\ t <> tid) /\
  ((forall pid q, ~ holds m tid pid q) ->
   release_locks m tid = (m, Err (err_unknown_txns tid))).
Proof.
  intros R. pose proof (lm_reachable_wf m R) as W.
  destruct (release_all_ok (page_ids m tid) m tid W (lw_pages m W tid) (listed_held m tid W))
    as (m1 & E1 & W1 & R1).
  unfold release_locks.
  change (match txn_locks m !! tid with Some pages => pages | None => [] end) with (page_ids m tid).
  split.
  - intros (pid & q & Hq). assert (pid ∈ page_ids m tid) as Hp by (apply (lw_agree m W); eauto).
    exists m1.
    assert (release_locks m tid = (m1, Ok tt)) as E2.
    { unfold release_locks.
      change (match txn_locks m !! tid with Some pages => pages | None => [] end)
        with (page_ids m tid).
      destruct (page_ids m tid); [by apply not_elem_of_nil in Hp|done]. }
    assert (forall t p q, holds m1 t p q <-> holds m t p q /\ t <> tid) as Hh.
    { intros t p q'. rewrite (R1 t p q'). split; [|tauto]. intros [Hh Hn]. split; [done|].
      intros ->. apply Hn. split; [done|]. apply (lw_agree m W). eauto. }
    split; [exact E2|]. split; [eapply rtc_r; [done|]; by eapply step_release_all|].
    split; [|done]. apply elem_of_nil_inv. intros p Hp'.
    apply (lw_agree m1 W1) in Hp' as [q' Hq']. by apply Hh in Hq' as [_ ?].
  - intros Hn. destruct (page_ids m tid) as [|p ps] eqn:Ep; [done|]. exfalso.
    destruct (listed_held m tid W p) as [q Hq]; [rewrite Ep; by apply list_elem_of_here|].
    by apply (Hn p q).
Qed.

Lemma release_locks_releases_all_witness :
  exists m', release_locks demo_locks t1 = (m', Ok tt) /\ page_ids m' t1 = [].
Proof.
  destruct (proj1 (release_locks_releases_all demo_locks t1 demo_locks_reachable))
    as (m' & E & _ & P & _).
  - exists (pg 1), ReadWrite. eexists. split; [vm_compute; reflexivity|].
    split; [by apply list_elem_of_here|done].
  - exists m'. split; [exact E|exact P].
Defined.

(** ** Transactions ([transactions.rs]) *)

Inductive TxnState := Active | PartiallyCommitted | Committed | Failed | Aborted | Terminated.

#[export] Instance TxnState_eq_dec : EqDecision TxnState.
Proof. solve_decision. Defined.

Record Transaction := mkTxn { txn_tid : TransactionId; state : TxnState }.

(** [Transaction::new] takes the next id of the process-wide counter. *)
Definition Transaction_new (counter : Z) : Z * Transaction :=
  let '(counter, tid) := TransactionId_new counter in (counter, mkTxn tid Active).

Definition tid (t : Transaction) : result TransactionId :=
  if negb (bool_decide (state t = Active)) then Err TransactionNotActive else Ok (txn_tid t).

Definition complete (t : Transaction) : Transaction * result unit :=
  if negb (bool_decide (state t = PartiallyCommitted)) || negb (bool_decide (state t = Failed))
  then (mkTxn (txn_tid t) Terminated, Ok tt)
  else (t, Ok tt).

Definition commit (t : Transaction) : Transaction * result unit :=
  complete (mkTxn (txn_tid t) PartiallyCommitted).

Definition abort (t : Transaction) : Transaction * result unit :=
  complete (mkTxn (txn_tid t) Failed).

(** A transaction ends for good.  From any state [commit], [abort] and
    [complete] succeed and leave the transaction terminated, after which its id
    is refused; in particular [complete] terminates an active transaction, since
    its guard compares the state with two different values by [||]. *)
Theorem transaction_terminates t t' r :
  commit t = (t', r) \/ abort t = (t', r) \/ complete t = (t', r) ->
  r = Ok tt /\ state t' = Terminated /\ txn_tid t' = txn_tid t /\
  tid t' = Err TransactionNotActive.
Proof.
  unfold commit, abort, complete. cbn [state txn_tid].
  intros [E|[E|E]]; [vm_compute in E|vm_compute in E|]; try by injection E as <- <-.
  destruct (state t); vm_compute in E; by injection E as <- <-.
Qed.

Lemma transaction_terminates_witness :
  exists t', complete (mkTxn t1 Active) = (t', Ok tt) /\ tid t' = Err TransactionNotActive.
Proof.
  exists (mkTxn t1 Terminated). split; [reflexivity|].
  apply (transaction_terminates (mkTxn t1 Active) (mkTxn t1 Terminated) (Ok tt)).
  right; right. reflexivity.
Defined.
