(* ===== verification/Types.v ===== *)
(** * Data types, fields, schemas and tuples

    [src/src/common/src/datatypes.rs] and the data of [lib.rs].

    A Rust [String] is a [string] of 8-bit characters, the UTF-8 encoding of the
    text, so that [len], byte order and slicing are those of Rust.  Integers
    keep their width: [i64] arithmetic overflows by the build profile.  [f64]
    is the executable binary64 of [SpecFloat]. *)

From Stdlib Require Export SpecFloat Ascii.
From S2P Require Import Prelude Bytes Common.

Open Scope Z_scope.

(** ** Strings *)

Definition slen_s (s : string) : Z := Z.of_nat (String.length s).

(** [str::split(c)] for a single character. *)
Fixpoint split_on (c : ascii) (s : string) : list string :=
  match s with
  | EmptyString => [EmptyString]
  | String x s' =>
      if Ascii.eqb x c then EmptyString :: split_on c s'
      else match split_on c s' with
           | [] => [String x EmptyString]
           | w :: ws => String x w :: ws
           end
  end.

(** [String::insert] at a byte position of an ASCII string. *)
Fixpoint insert_at (n : nat) (c : ascii) (s : string) : string :=
  match n, s with
  | S n', String x s' => String x (insert_at n' c s')
  | _, _ => String c s
  end.

Fixpoint repeat_char (n : nat) (c : ascii) : string :=
  match n with O => EmptyString | S n' => String c (repeat_char n' c) end.

Definition digit_of_ascii (c : ascii) : option Z :=
  let n := Z.of_N (Ascii.N_of_ascii c) in
  if (48 <=? n) && (n <=? 57) then Some (n - 48) else None.

Fixpoint parse_digits (acc : Z) (s : string) : option Z :=
  match s with
  | EmptyString => Some acc
  | String c s' => match digit_of_ascii c with
                   | Some d => parse_digits (10 * acc + d) s'
                   | None => None
                   end
  end.

Definition check_i64 (z : Z) : option Z :=
  if (- 2 ^ 63 <=? z) && (z <? 2 ^ 63) then Some z else None.

(** [str::parse::<i64>]: an optional sign, at least one digit, and a value that
    fits. *)
Definition parse_i64 (s : string) : option Z :=
  match s with
  | EmptyString => None
  | String "-"%char EmptyString => None
  | String "+"%char EmptyString => None
  | String "-"%char s' => z ← parse_digits 0 s'; check_i64 (- z)
  | String "+"%char s' => z ← parse_digits 0 s'; check_i64 z
  | _ => z ← parse_digits 0 s; check_i64 z
  end.

(** [str::parse::<bool>] *)
Definition parse_bool (s : string) : option bool :=
  if String.eqb s "true" then Some true
  else if String.eqb s "false" then Some false else None.

(** [String::from_utf8]: validation of UTF-8 (no overlong forms, no surrogates,
    nothing above U+10FFFF). *)
Definition in_range (lo hi : Z) (b : byte) : bool :=
  (lo <=? byte_to_Z b) && (byte_to_Z b <=? hi).

Definition is_cont : byte -> bool := in_range 128 191.

Fixpoint utf8_valid (bs : list byte) : bool :=
  match bs with
  | [] => true
  | b0 :: r0 =>
      if byte_to_Z b0 <? 128 then utf8_valid r0 else
      match r0 with
      | [] => false
      | b1 :: r1 =>
          if in_range 194 223 b0 then is_cont b1 && utf8_valid r1 else
          match r1 with
          | [] => false
          | b2 :: r2 =>
              let b := byte_to_Z b0 in
              if (b =? 224) then in_range 160 191 b1 && is_cont b2 && utf8_valid r2
              else if (b =? 237) then in_range 128 159 b1 && is_cont b2 && utf8_valid r2
              else if in_range 225 239 b0 then is_cont b1 && is_cont b2 && utf8_valid r2
              else match r2 with
                   | [] => false
                   | b3 :: r3 =>
                       if (b =? 240) then in_range 144 191 b1 && is_cont b2 && is_cont b3 && utf8_valid r3
                       else if in_range 241 243 b0 then is_cont b1 && is_cont b2 && is_cont b3 && utf8_valid r3
                       else if (b =? 244) then in_range 128 143 b1 && is_cont b2 && is_cont b3 && utf8_valid r3
                       else false
                   end
          end
      end
  end.

(** ** Floating point *)

Definition f64 := spec_float.
Definition f64_of_i64 (z : Z) : f64 := binary_normalize 53 1024 z 0 false.
Definition f64_div : f64 -> f64 -> f64 := SFdiv 53 1024.
Definition f64_mul : f64 -> f64 -> f64 := SFmul 53 1024.

(** The integer [floor (m * 2^e + 1/2)]. *)
Definition round_half_up (m : positive) (e : Z) : Z :=
  if 0 <=? e then Z.pos m * 2 ^ e else (2 * Z.pos m + 2 ^ (- e)) / 2 ^ (1 - e).

(** [f64::round]: to the nearest integer, ties away from zero. *)
Definition f64_round (x : f64) : f64 :=
  match x with
  | S754_finite s m e =>
      let n := round_half_up m e in binary_normalize 53 1024 (if s then - n else n) 0 s
  | _ => x
  end.

(** [x as i64]: truncation, saturating, [NaN] to 0. *)
Definition f64_as_i64 (x : f64) : Z :=
  match x with
  | S754_zero _ | S754_nan => 0
  | S754_infinity s => if s then - 2 ^ 63 else 2 ^ 63 - 1
  | S754_finite s m e =>
      let n := if 0 <=? e then Z.pos m * 2 ^ e else Z.pos m / 2 ^ (- e) in
      Z.max (- 2 ^ 63) (Z.min (2 ^ 63 - 1) (if s then - n else n))
  end.

(** ** Calendar dates

    The [chrono] crate, as the code uses it: parsing with the format
    ["%Y-%m-%d"] into the number of days since 1970-01-01, and printing the date
    a number of days after 1970-01-01 ([None]: the sum panics out of range). *)
Class Chrono := {
  parse_date : string -> option Z;
  format_date : Z -> option string;
}.

(** ** Data types and fields *)

Inductive DataType :=
| TInt | TString | TDecimal (precision scale : Z) | TDate | TBool | TNull.

#[export] Instance DataType_eq_dec : EqDecision DataType.
Proof. solve_decision. Defined.

Inductive Field :=
| FInt (i : Z)
| FString (s : string)
| FDecimal (whole scale : Z)
| FDate (days : Z)
| FBool (b : bool)
| FNull.

#[export] Instance Field_eq_dec : EqDecision Field.
Proof. solve_decision. Defined.

Definition null_string : string := "NULL".
Definition default_decimal_precision : Z := 10.
Definition default_decimal_scale : Z := 4.

Definition f_int (i : Z) : Field := FInt i.
Definition f_str (s : string) : Field := FString s.
Definition f_date `{Chrono} (s : string) : result Field :=
  days ← unwrap_opt (parse_date s); Ok (FDate days).

Definition DataType_display (t : DataType) : string :=
  match t with
  | TInt => "int"
  | TString => "string"
  | TDecimal p s => "decimal(" +:+ pretty p +:+ "," +:+ pretty s +:+ ")"
  | TDate => "date"
  | TBool => "bool"
  | TNull => "null"
  end.

Definition DataType_size (t : DataType) : option Z :=
  match t with
  | TInt => Some 8
  | TString => None
  | TDecimal _ _ => Some 12
  | TDate => Some 8
  | TBool => Some 1
  | TNull => Some 1
  end.

(** ** Operations on fields *)

Definition from_bool (b : bool) : Field := FBool b.

Definition Field_and (a b : Field) : result Field :=
  match a, b with FBool a, FBool b => Ok (FBool (a && b)) | _, _ => Panic end.

Definition Field_or (a b : Field) : result Field :=
  match a, b with FBool a, FBool b => Ok (FBool (a || b)) | _, _ => Panic end.

Definition unwrap_int_field (f : Field) : result Z :=
  match f with FInt i => Ok i | _ => Panic end.
Definition unwrap_string_field (f : Field) : result string :=
  match f with FString s => Ok s | _ => Panic end.
Definition unwrap_bool_field (f : Field) : result bool :=
  match f with FBool b => Ok b | _ => Panic end.

Section Arith.
Context `{Profile}.

(** [i64] addition, subtraction and multiplication, and [10i64.pow(n)]. *)
Definition add64 (a b : Z) : result Z := arith_i 64 (a + b).
Definition sub64 (a b : Z) : result Z := arith_i 64 (a - b).
Definition mul64 (a b : Z) : result Z := arith_i 64 (a * b).
Definition pow10 (n : Z) : result Z := arith_i 64 (10 ^ n).

(** [a * 10i64.pow(n)] *)
Definition scale_up (a n : Z) : result Z := p ← pow10 n; mul64 a p.

Definition Field_add (l r : Field) : result Field :=
  match l, r with
  | FInt a, FInt b => c ← add64 a b; Ok (FInt c)
  | FDecimal a s_l, FDecimal b s_r =>
      let res_scale := if s_r <? s_l then s_l else s_r in
      a' ← scale_up a (res_scale - s_l);
      b' ← scale_up b (res_scale - s_r);
      c ← add64 a' b'; Ok (FDecimal c res_scale)
  | FInt a, FDecimal b s_r => a' ← scale_up a s_r; c ← add64 a' b; Ok (FDecimal c s_r)
  | FDecimal a s_l, FInt b => b' ← scale_up b s_l; c ← add64 a b'; Ok (FDecimal c s_l)
  | _, _ => Panic
  end.

Definition err_int_or_decimal : CrustyError := c_err "Expected int or decimal".
Definition err_div_zero : CrustyError := c_err "Division by zero".

Definition Field_sub (l r : Field) : result Field :=
  match l, r with
  | FInt a, FInt b => c ← sub64 a b; Ok (FInt c)
  | FDecimal a s_l, FDecimal b s_r =>
      let res_scale := if s_r <? s_l then s_l else s_r in
      a' ← scale_up a (res_scale - s_l);
      b' ← scale_up b (res_scale - s_r);
      c ← sub64 a' b'; Ok (FDecimal c res_scale)
  | FInt a, FDecimal b s_r => a' ← scale_up a s_r; c ← sub64 a' b; Ok (FDecimal c s_r)
  | FDecimal a s_l, FInt b => b' ← scale_up b s_l; c ← sub64 a b'; Ok (FDecimal c s_l)
  | _, _ => Err err_int_or_decimal
  end.

Definition Field_mul (l r : Field) : result Field :=
  match l, r with
  | FInt a, FInt b => c ← mul64 a b; Ok (FInt c)
  | FDecimal a s_l, FDecimal b s_r =>
      let larger_scale := Z.max s_l s_r in
      let smaller_scale := Z.min s_l s_r in
      c ← mul64 a b;
      p ← pow10 smaller_scale;
      let num := f64_as_i64 (f64_round (f64_div (f64_of_i64 c) (f64_of_i64 p))) in
      Ok (FDecimal num larger_scale)
  | FInt a, FDecimal b s_r => c ← mul64 a b; Ok (FDecimal c s_r)
  | FDecimal a s_l, FInt b => c ← mul64 a b; Ok (FDecimal c s_l)
  | _, _ => Err err_int_or_decimal
  end.

(** Division of decimals; [s_l], [s_r] are [u32], so [alpha] can overflow. *)
Definition div_decimal (a s_l b s_r : Z) : result Field :=
  if b =? 0 then Err err_div_zero
  else
    let larger_scale := Z.max s_l s_r in
    alpha ← arith_u 32 (larger_scale - s_l + s_r);
    a' ← scale_up a alpha;
    let num := f64_as_i64 (f64_round (f64_div (f64_of_i64 a') (f64_of_i64 b))) in
    Ok (FDecimal num larger_scale).

(** [i64] division truncates towards zero and panics on [i64::MIN / -1] in
    every profile. *)
Definition div64 (a b : Z) : result Z :=
  if (a =? - 2 ^ 63) && (b =? -1) then Panic else Ok (Z.quot a b).

Definition Field_div (l r : Field) : result Field :=
  match l, r with
  | FInt a, FInt b =>
      if b =? 0 then Err err_div_zero else c ← div64 a b; Ok (FInt c)
  | FDecimal a s_l, FDecimal b s_r => div_decimal a s_l b s_r
  | FInt a, FDecimal b s_r => div_decimal a 0 b s_r
  | FDecimal a s_l, FInt b => div_decimal a s_l b 0
  | _, _ => Err err_int_or_decimal
  end.
End Arith.

Definition Field_size (f : Field) : Z :=
  match f with
  | FInt _ => 8
  | FString s => slen_s s
  | FDate _ => 8
  | FDecimal _ _ => 12
  | FBool _ => 1
  | FNull => 1
  end.

(** ** Serialisation *)

Definition bytes_of_string (s : string) : list byte := String.list_byte_of_string s.
Definition string_of_bytes (bs : list byte) : string := String.string_of_list_byte bs.

Definition Field_to_bytes (f : Field) : list byte :=
  match f with
  | FInt x => to_le_bytes 8 x
  | FString s => to_le_bytes 4 (wrap_u 32 (slen_s s)) ++ bytes_of_string s
  | FDate x => to_le_bytes 8 x
  | FDecimal whole scale => to_le_bytes 8 whole ++ to_le_bytes 4 scale
  | FBool b => if b then [x01] else [x00]
  | FNull => [x00]
  end.

(** [<[u8; n]>::try_from(bytes)] *)
Definition try_into_array (n : Z) (bytes : list byte) (msg : string) : result (list byte) :=
  if lenZ bytes =? n then Ok bytes else Err (CrustyErr msg).

Definition Field_from_bytes (bytes : list byte) (dtype : DataType) : result Field :=
  match dtype with
  | TInt =>
      a ← try_into_array 8 bytes "Failed to convert bytes to i64.";
      Ok (FInt (from_le_bytes_i 8 a))
  | TString =>
      b ← slice bytes 0 4;
      a ← try_into_array 4 b "Failed to get string length.";
      let s_len := from_le_bytes a in
      v ← slice bytes 4 (4 + s_len);
      if utf8_valid v then Ok (FString (string_of_bytes v))
      else Err (CrustyErr "Failed to convert bytes to string.")
  | TDate =>
      a ← try_into_array 8 bytes "Failed to convert bytes to u32.";
      Ok (FDate (from_le_bytes_i 8 a))
  | TDecimal _ _ =>
      w ← slice bytes 0 8;
      s ← slice bytes 8 12;
      Ok (FDecimal (from_le_bytes_i 8 w) (from_le_bytes s))
  | TBool =>
      b ← index bytes 0; Ok (FBool (bool_decide (b = x01)))
  | TNull =>
      b ← index bytes 0;
      if bool_decide (b = x00) then Ok FNull else Err (CrustyErr "Invalid null field")
  end.

(** ** Schemas ([lib.rs]) *)

Inductive Constraint :=
| CNone | PrimaryKey | Unique | NotNull | UniqueNotNull
| ForeignKey (c : ContainerId) | NotNullFKey (c : ContainerId).

#[export] Instance Constraint_eq_dec : EqDecision Constraint.
Proof. solve_decision. Defined.

Record Attribute := mkAttribute { name : string; dtype : DataType; constraint : Constraint }.

#[export] Instance Attribute_eq_dec : EqDecision Attribute.
Proof. solve_decision. Defined.

Definition Attribute_new (n : string) (t : DataType) : Attribute := mkAttribute n t CNone.
Definition new_with_constraint (n : string) (t : DataType) (c : Constraint) : Attribute :=
  mkAttribute n t c.
Definition new_pk (n : string) (t : DataType) : Attribute := mkAttribute n t PrimaryKey.

Record TableSchema := mkSchema { attributes : list Attribute }.

#[export] Instance TableSchema_eq_dec : EqDecision TableSchema.
Proof. solve_decision. Defined.

Definition TableSchema_new (l : list Attribute) : TableSchema := mkSchema l.

Definition from_vecs (names : list string) (dtypes : list DataType) : TableSchema :=
  TableSchema_new (zip_with Attribute_new names dtypes).

Definition get_attribute (s : TableSchema) (i : nat) : option Attribute := attributes s !! i.

Fixpoint field_index_from (i : nat) (l : list Attribute) (n : string) : option nat :=
  match l with
  | [] => None
  | a :: l' => if String.eqb (name a) n then Some i else field_index_from (S i) l' n
  end.

Definition get_field_index (s : TableSchema) (n : string) : option nat :=
  field_index_from 0 (attributes s) n.

Definition get_pks (s : TableSchema) : list Attribute :=
  filter (fun a => constraint a = PrimaryKey) (attributes s).

Fixpoint schema_contains_go (l : list Attribute) (n : string) : bool :=
  match l with
  | [] => false
  | a :: l' => if String.eqb (name a) n then true else schema_contains_go l' n
  end.

Definition schema_contains (s : TableSchema) (n : string) : bool :=
  schema_contains_go (attributes s) n.

Definition schema_merge (s other : TableSchema) : TableSchema :=
  TableSchema_new (attributes s ++ attributes other).

Definition schema_size (s : TableSchema) : nat := length (attributes s).

(** The tab as a character. *)
Definition tab : string := String (ascii_of_nat 9) EmptyString.

Definition TableSchema_display (s : TableSchema) : string :=
  foldl (fun res a => res +:+ name a +:+ tab) "" (attributes s).

(** ** Parsing of field values *)

Definition verr (msg : string) : CrustyError := ValidationError msg.

Definition from_str_to_int (field : string) : result Field :=
  match parse_i64 field with
  | Some i => Ok (FInt i)
  | None => Err (verr ("Invalid int field " +:+ field))
  end.

Definition err_decimal (field : string) : CrustyError := verr ("Invalid decimal field " +:+ field).
Definition err_precision (field : string) (p s : Z) : CrustyError :=
  verr ("Invalid decimal field precision " +:+ field +:+ ". Expected " +:+ pretty p
        +:+ " found " +:+ pretty s).
Definition err_scale (field : string) (p s : Z) : CrustyError :=
  verr ("Invalid decimal field scale " +:+ field +:+ ". Expected " +:+ pretty p
        +:+ " found " +:+ pretty s).

(** The digits behind the point, brought to scale [s]. *)
Definition parse_fraction `{Profile} (field part : string) (p s : Z) : result Z :=
  fractional ← ok_or (parse_i64 part) (err_decimal field);
  lim ← pow10 s;
  if (fractional <? 0) || (lim <=? fractional) then Err (err_scale field p s)
  else
    d ← arith_u 32 (s - wrap_u 32 (slen_s part));
    scale_up fractional d.

Definition from_str_to_decimal `{Profile} (field : string) (p s : Z) : result Field :=
  let parts := split_on "." field in
  if (2 <? length parts)%nat then Err (err_decimal field)
  else
    part0 ← unwrap_opt (parts !! 0%nat);
    integer ← ok_or (parse_i64 part0) (err_decimal field);
    mag ← arith_i 64 (Z.abs integer);
    d ← arith_u 32 (p - s);
    lim ← pow10 d;
    if lim <=? mag then Err (err_precision field p s)
    else
      adjusted_fractional ←
        match parts !! 1%nat with
        | Some part1 => parse_fraction field part1 p s
        | None => Ok 0
        end;
      w ← scale_up integer s;
      whole ← (if integer <? 0 then sub64 w adjusted_fractional
               else add64 w adjusted_fractional);
      Ok (FDecimal whole s).

Definition from_str_to_string (field : string) : result Field := Ok (FString field).

Definition from_str_to_date `{Chrono} (field : string) : result Field :=
  match parse_date field with
  | Some days => Ok (FDate days)
  | None => Err (verr ("Invalid date field " +:+ field))
  end.

Definition from_str_to_bool (field : string) : result Field :=
  match parse_bool field with
  | Some b => Ok (FBool b)
  | None => Err (verr ("Invalid bool field " +:+ field))
  end.

Definition from_str_to_null (field : string) : result Field :=
  if String.eqb field null_string then Ok FNull
  else Err (verr ("Invalid null field " +:+ field)).

Definition Field_from_str `{Profile, Chrono} (field : string) (attr : Attribute) : result Field :=
  if String.eqb field null_string then from_str_to_null field
  else
    match dtype attr with
    | TInt => from_str_to_int field
    | TString => from_str_to_string field
    | TDecimal p s => from_str_to_decimal field p s
    | TDate => from_str_to_date field
    | TBool => from_str_to_bool field
    | TNull => from_str_to_null field
    end.

(** ** Printing *)

(** [Display] of a decimal: zeros are padded on the left of the printed [i64],
    then the point is inserted [scale] characters from the end. *)
Definition decimal_display (whole scale : Z) : string :=
  let s := pretty whole in
  let padding := if slen_s s <=? scale then scale + 1 - slen_s s else 0 in
  let padded_s := repeat_char (Z.to_nat padding) "0" +:+ s in
  let decimal_pos := slen_s padded_s - scale in
  insert_at (Z.to_nat decimal_pos) "." padded_s.

Definition Field_display `{Chrono} (f : Field) : result string :=
  match f with
  | FInt i => Ok (pretty i)
  | FString s => Ok s
  | FDate i => unwrap_opt (format_date i)
  | FDecimal whole scale => Ok (decimal_display whole scale)
  | FBool b => Ok (if b then "true" else "false")
  | FNull => Ok null_string
  end.

(** ** Comparison

    The order [#[derive(PartialOrd, Ord)]] gives: variants in the order of their
    declaration, then their contents from left to right. *)
Definition Field_rank (f : Field) : Z :=
  match f with
  | FInt _ => 0 | FString _ => 1 | FDecimal _ _ => 2 | FDate _ => 3 | FBool _ => 4 | FNull => 5
  end.

Definition bool_rank (b : bool) : Z := if b then 1 else 0.

Definition Field_compare (l r : Field) : comparison :=
  match l, r with
  | FInt a, FInt b => Z.compare a b
  | FString a, FString b => String.compare a b
  | FDecimal a s, FDecimal b t =>
      match Z.compare a b with Datatypes.Eq => Z.compare s t | c => c end
  | FDate a, FDate b => Z.compare a b
  | FBool a, FBool b => Z.compare (bool_rank a) (bool_rank b)
  | _, _ => Z.compare (Field_rank l) (Field_rank r)
  end.

Definition is_lt (c : comparison) : bool := match c with Datatypes.Lt => true | _ => false end.
Definition is_gt (c : comparison) : bool := match c with Datatypes.Gt => true | _ => false end.

Definition compare_fields (op : BooleanOp) (left right : Field) : result bool :=
  match op with
  | BEq => Ok (bool_decide (left = right))
  | BNeq => Ok (negb (bool_decide (left = right)))
  | BGt => Ok (is_gt (Field_compare left right))
  | BGte => Ok (negb (is_lt (Field_compare left right)))
  | BLt => Ok (is_lt (Field_compare left right))
  | BLte => Ok (negb (is_gt (Field_compare left right)))
  | BAnd => f ← Field_and left right; unwrap_bool_field f
  | BOr => f ← Field_or left right; unwrap_bool_field f
  end.

(** ** Tuples *)

Record Tuple := mkTuple { t_tid : Z; value_id : option ValueId; field_vals : list Field }.

#[export] Instance Tuple_eq_dec : EqDecision Tuple.
Proof. solve_decision. Defined.

Definition Tuple_new (fs : list Field) : Tuple := mkTuple 0 None fs.
Definition get_field (t : Tuple) (i : nat) : option Field := field_vals t !! i.

(** [self.field_vals[i] = f]: panics out of bounds. *)
Definition set_field (t : Tuple) (i : nat) (f : Field) : result Tuple :=
  if (i <? length (field_vals t))%nat
  then Ok (mkTuple (t_tid t) (value_id t) (<[i := f]> (field_vals t))) else Panic.

Definition tuple_len (t : Tuple) : nat := length (field_vals t).
Definition tuple_merge (t other : Tuple) : Tuple := Tuple_new (field_vals t ++ field_vals other).

Definition tuple_to_csv `{Chrono} (t : Tuple) : result string :=
  l ← mapM_o Field_display (field_vals t); Ok (String.concat "," l).

Definition tuple_display `{Chrono} (t : Tuple) : result string :=
  l ← mapM_o Field_display (field_vals t);
  Ok (foldl (fun res s => res +:+ s +:+ tab) "" l).

(** [serde_cbor] on tuples, as [Tuple::to_bytes] and [Tuple::from_bytes] use it. *)
Class Cbor := {
  cbor_to_vec : Tuple -> option (list byte);
  cbor_from_slice : list byte -> option Tuple;
}.

Definition Tuple_to_bytes `{Cbor} (t : Tuple) : result (list byte) := unwrap_opt (cbor_to_vec t).
Definition Tuple_from_bytes `{Cbor} (bs : list byte) : result Tuple := unwrap_opt (cbor_from_slice bs).

(** What the code relies on: every tuple serialises, and deserialising gives the
    tuple back without its [value_id], which is marked [skip_serializing]. *)
Class CborLaws `{Cbor} : Prop :=
  cbor_roundtrip : forall t, exists bs, cbor_to_vec t = Some bs /\
    cbor_from_slice bs = Some (mkTuple (t_tid t) None (field_vals t)).

(** The result of converting records for ingestion. *)
Record ConvertedResult := mkConverted {
  converted : list Tuple;
  unconverted : list (Z * list ConversionError);
}.
Definition ConvertedResult_new : ConvertedResult := mkConverted [] [].
Definition ConvertedResult_reset (c : ConvertedResult) : ConvertedResult := mkConverted [] [].
