(* ===== verification/TypesProofs.v ===== *)
(** * Fields: serialisation, printing, arithmetic and order

    Round trips of the byte encoding and of the printed forms, exactness of
    decimal addition and subtraction, and the order of fields. *)

From S2P Require Import Prelude Bytes Common Types.

Open Scope Z_scope.

(** ** Digit strings *)

Lemma string_split_at k s :
  (k <= String.length s)%nat -> exists a b, s = a +:+ b /\ String.length a = k.
Proof.
  revert s. induction k as [|k IH]; intros s Hk; [by exists "", s|].
  destruct s as [|c s]; cbn [String.length] in Hk; [lia|].
  destruct (IH s) as (a & b & -> & <-); [lia|]. by exists (String c a), b.
Qed.

Lemma insert_at_app a b c : insert_at (String.length a) c (a +:+ b) = a +:+ String c b.
Proof.
  induction a as [|x a IH]; [by destruct b|].
  change (String x (insert_at (String.length a) c (a +:+ b)) = String x (a +:+ String c b)).
  by rewrite IH.
Qed.

Lemma slen_app a b : slen_s (a +:+ b) = slen_s a + slen_s b.
Proof.
  unfold slen_s. induction a as [|x a IH]; [done|].
  change (String x a +:+ b) with (String x (a +:+ b)). cbn [String.length]. lia.
Qed.

Lemma slen_nonneg s : 0 <= slen_s s.
Proof. unfold slen_s. lia. Qed.

Lemma parse_digits_acc s : forall acc,
  parse_digits acc s = (fun v => acc * 10 ^ slen_s s + v) <$> parse_digits 0 s.
Proof.
  induction s as [|c s IH]; intros acc; [cbn; f_equal; unfold slen_s; cbn; lia|].
  cbn [parse_digits]. destruct (digit_of_ascii c) as [d|]; [|done].
  rewrite (IH (10 * acc + d)), (IH (10 * 0 + d)).
  unfold slen_s. cbn [String.length]. rewrite Nat2Z.inj_succ, Z.pow_succ_r by lia.
  destruct (parse_digits 0 s); cbn; f_equal. lia.
Qed.

Lemma parse_digits_app a b : forall acc,
  parse_digits acc (a +:+ b) = parse_digits acc a ≫= fun v => parse_digits v b.
Proof.
  induction a as [|c a IH]; intros acc; [done|].
  change (String c a +:+ b) with (String c (a +:+ b)). cbn [parse_digits].
  destruct (digit_of_ascii c); [apply IH|done].
Qed.

Lemma digit_range c d : digit_of_ascii c = Some d -> 0 <= d < 10.
Proof. unfold digit_of_ascii. case_match eqn:E; [|done]. zify_bool. intros [= <-]. lia. Qed.

Lemma parse_digits_range s v : parse_digits 0 s = Some v -> 0 <= v < 10 ^ slen_s s.
Proof.
  revert v. induction s as [|c s IH]; intros v; [intros [= <-]; unfold slen_s; cbn; lia|].
  cbn [parse_digits]. destruct (digit_of_ascii c) as [d|] eqn:Ed; [|done].
  apply digit_range in Ed. rewrite parse_digits_acc.
  destruct (parse_digits 0 s) as [w|]; [|done]. intros [= <-].
  specialize (IH w eq_refl). unfold slen_s in *. cbn [String.length].
  rewrite Nat2Z.inj_succ, Z.pow_succ_r by lia. nia.
Qed.

Lemma digit_not_special c d :
  digit_of_ascii c = Some d -> c <> "-"%char /\ c <> "+"%char /\ c <> "."%char.
Proof. intros E. split_and!; intros ->; vm_compute in E; done. Qed.

(** A non-empty string of digits parses as its value. *)
Lemma parse_i64_digits s v :
  s <> "" -> parse_digits 0 s = Some v -> v < 2 ^ 63 -> parse_i64 s = Some v.
Proof.
  intros Hs E Hv. destruct s as [|c s]; [done|]. pose proof (parse_digits_range _ _ E) as Hr.
  assert (exists d, digit_of_ascii c = Some d) as [d Ed].
  { cbn [parse_digits] in E. destruct (digit_of_ascii c); [eauto|done]. }
  destruct (digit_not_special c d Ed) as (H1 & H2 & _).
  assert (parse_i64 (String c s) = (z ← parse_digits 0 (String c s); check_i64 z)) as ->.
  { clear -H1 H2. destruct c as [[] [] [] [] [] [] [] []]; try done; destruct s; done. }
  rewrite E. cbn [mbind option_bind]. unfold check_i64.
  rewrite (proj2 (Z.leb_le _ _)), (proj2 (Z.ltb_lt _ _)) by lia. done.
Qed.

Lemma parse_i64_neg s v :
  s <> "" -> parse_digits 0 s = Some v -> v <= 2 ^ 63 -> parse_i64 (String "-" s) = Some (- v).
Proof.
  intros Hs E Hv. pose proof (parse_digits_range _ _ E) as Hr.
  assert (parse_i64 (String "-" s) = (z ← parse_digits 0 s; check_i64 (- z))) as ->.
  { destruct s; done. }
  rewrite E. cbn [mbind option_bind]. unfold check_i64.
  rewrite (proj2 (Z.leb_le _ _)), (proj2 (Z.ltb_lt _ _)) by lia. done.
Qed.

Lemma parse_digits_zeros k s : parse_digits 0 (repeat_char k "0" +:+ s) = parse_digits 0 s.
Proof. induction k as [|k IH]; [done|]. exact IH. Qed.

Lemma slen_repeat k c : slen_s (repeat_char k c) = Z.of_nat k.
Proof. unfold slen_s. induction k; cbn [repeat_char String.length]; lia. Qed.

(** ** The decimal printer of integers *)

Lemma digit_of_pretty x : (x < 10)%N -> digit_of_ascii (pretty_N_char x) = Some (Z.of_N x).
Proof.
  intros Hx.
  assert (x = 0 \/ x = 1 \/ x = 2 \/ x = 3 \/ x = 4 \/ x = 5 \/ x = 6 \/ x = 7 \/ x = 8 \/ x = 9)%N
    by lia.
  by repeat destruct_or!; subst x.
Qed.

Lemma parse_pretty_go x : forall s,
  parse_digits 0 (pretty_N_go x s) = parse_digits (Z.of_N x) s.
Proof.
  induction (N.lt_wf_0 x) as [x _ IH]; intros s.
  assert (x = 0 \/ 0 < x)%N as [->|Hx] by lia; [by rewrite pretty_N_go_0|].
  rewrite pretty_N_go_step by done. rewrite IH by (by apply N.div_lt).
  cbn [parse_digits]. rewrite digit_of_pretty by (by apply N.mod_lt).
  f_equal. rewrite N2Z.inj_div, N2Z.inj_mod. pose proof (Z.div_mod (Z.of_N x) 10). lia.
Qed.

Lemma parse_pretty_N x : parse_digits 0 (pretty x) = Some (Z.of_N x).
Proof.
  unfold pretty, pretty_N. case_decide as E; [by subst|]. by rewrite parse_pretty_go.
Qed.

Lemma pretty_N_nonempty (x : N) : pretty x <> "".
Proof.
  unfold pretty, pretty_N. case_decide as E; [done|].
  rewrite pretty_N_go_step by lia. intros H.
  assert (forall y s, s <> "" -> pretty_N_go y s <> "") as Hne; [|by eapply Hne, H].
  clear. intros y. induction (N.lt_wf_0 y) as [y _ IH]; intros s Hs.
  assert (y = 0 \/ 0 < y)%N as [->|Hy] by lia; [by rewrite pretty_N_go_0|].
  rewrite pretty_N_go_step by done. apply IH; [by apply N.div_lt|done].
Qed.

Lemma pretty_Z_nonneg z : 0 <= z -> pretty z = pretty (Z.to_N z).
Proof. by destruct z. Qed.

Lemma pretty_Z_neg z : z < 0 -> pretty z = String "-" (pretty (Z.to_N (- z))).
Proof. by destruct z. Qed.

Lemma parse_i64_pretty z : in_i 64 z -> parse_i64 (pretty z) = Some z.
Proof.
  unfold in_i. intros Hz. destruct (decide (0 <= z)).
  - rewrite pretty_Z_nonneg by done. apply parse_i64_digits; [apply pretty_N_nonempty| |lia].
    rewrite parse_pretty_N. f_equal. lia.
  - rewrite pretty_Z_neg by lia. replace z with (- - z) at 2 by lia.
    apply parse_i64_neg; [apply pretty_N_nonempty| |lia]. rewrite parse_pretty_N. f_equal. lia.
Qed.

(** ** Decimals *)

Lemma split_on_digits a v : parse_digits 0 a = Some v -> split_on "." a = [a].
Proof.
  revert v. induction a as [|c a IH]; intros v; [done|]. cbn [parse_digits split_on].
  destruct (digit_of_ascii c) as [d|] eqn:Ed; [|done]. rewrite parse_digits_acc.
  destruct (parse_digits 0 a) as [w|]; [|done]. intros _.
  destruct (digit_not_special c d Ed) as (_ & _ & Hc). apply Ascii.eqb_neq in Hc as ->.
  by rewrite (IH w eq_refl).
Qed.

Lemma split_on_point a b v w :
  parse_digits 0 a = Some v -> parse_digits 0 b = Some w ->
  split_on "." (a +:+ String "." b) = [a; b].
Proof.
  intros Ea Eb. revert v Ea. induction a as [|c a IH]; intros v.
  - intros _. change ("" :: split_on "." b = [""; b]). by rewrite (split_on_digits b w).
  - cbn [parse_digits]. change (String c a +:+ String "." b) with (String c (a +:+ String "." b)).
    destruct (digit_of_ascii c) as [d|] eqn:Ed; [|done]. rewrite parse_digits_acc.
    destruct (parse_digits 0 a) as [u|]; [|done]. intros _. cbn [split_on].
    destruct (digit_not_special c d Ed) as (_ & _ & Hc). apply Ascii.eqb_neq in Hc as ->.
    by rewrite (IH u eq_refl).
Qed.

Lemma split_on_neg s : split_on "." (String "-" s) =
  match split_on "." s with [] => ["-"] | w :: ws => String "-" w :: ws end.
Proof. done. Qed.

(** A digit string longer than [s] splits into the whole and fractional digits. *)
Lemma split_digits d v s :
  parse_digits 0 d = Some v -> 0 < s < slen_s d ->
  exists a b, d = a +:+ b /\ slen_s b = s /\ slen_s a = slen_s d - s /\ a <> "" /\ b <> "" /\
    parse_digits 0 a = Some (v / 10 ^ s) /\ parse_digits 0 b = Some (v mod 10 ^ s).
Proof.
  intros E Hs. destruct (string_split_at (Z.to_nat (slen_s d - s)) d) as (a & b & -> & Hl).
  { unfold slen_s in *. lia. }
  exists a, b. assert (slen_s a = slen_s (a +:+ b) - s) as Ha by (unfold slen_s in *; lia).
  rewrite slen_app in *.
  rewrite parse_digits_app in E. destruct (parse_digits 0 a) as [x|]; [|done].
  cbn [mbind option_bind] in E. rewrite parse_digits_acc in E.
  destruct (parse_digits 0 b) as [y|] eqn:Eb; [|done].
  cbn in E. injection E as <-. apply parse_digits_range in Eb as Hy.
  assert (slen_s b = s) as Hb by lia. rewrite Hb in Hy |- *.
  assert ((x * 10 ^ s + y) / 10 ^ s = x) as -> by (rewrite Z.div_add_l, Z.div_small by lia; lia).
  assert ((x * 10 ^ s + y) mod 10 ^ s = y) as ->
    by (rewrite Z.add_comm, Z.mod_add, Z.mod_small by lia; lia).
  split_and!; try done; try lia; intros ->; unfold slen_s in *; cbn [String.length] in *; lia.
Qed.

Lemma pow10_ok `{Profile} n : 0 <= n <= 18 -> pow10 n = Ok (10 ^ n).
Proof.
  intros Hn. apply arith_i_ok. unfold in_i.
  pose proof (Z.pow_pos_nonneg 10 n ltac:(lia) ltac:(lia)).
  pose proof (Z.pow_le_mono_r 10 n 18 ltac:(lia) ltac:(lia)). lia.
Qed.

Lemma pow10_bounds a b : 0 <= a <= b -> b <= 18 -> 0 < 10 ^ a <= 10 ^ b /\ 10 ^ b <= 10 ^ 18.
Proof.
  intros Ha Hb. pose proof (Z.pow_pos_nonneg 10 a ltac:(lia) ltac:(lia)).
  pose proof (Z.pow_le_mono_r 10 a b ltac:(lia) ltac:(lia)).
  pose proof (Z.pow_le_mono_r 10 b 18 ltac:(lia) ltac:(lia)). lia.
Qed.

Lemma parse_fraction_ok `{Profile} field b s p y :
  0 < s <= 18 -> slen_s b = s -> b <> "" -> parse_digits 0 b = Some y ->
  parse_fraction field b p s = Ok y.
Proof.
  intros Hs Hl Hb E. pose proof (parse_digits_range _ _ E) as Hy. rewrite Hl in Hy.
  destruct (pow10_bounds s s) as [_ Hp]; [lia..|].
  unfold parse_fraction. rewrite (parse_i64_digits b y) by (done || lia). cbn [ok_or]. mstep.
  rewrite pow10_ok by lia. mstep.
  rewrite (proj2 (Z.ltb_ge _ _)), (proj2 (Z.leb_gt _ _)) by lia. cbn [orb].
  rewrite wrap_u_small by (unfold in_u; lia). rewrite Hl, Z.sub_diag.
  rewrite arith_u_ok by (unfold in_u; lia). mstep.
  unfold scale_up, mul64. rewrite pow10_ok by lia. mstep. rewrite arith_i_ok; [f_equal; lia|].
  unfold in_i. lia.
Qed.

(** [from_str_to_decimal] on whole digits, a point and [s] fractional digits. *)
Lemma from_str_to_decimal_ok `{Profile} field part b p s x y :
  0 < s <= p -> p <= 18 -> split_on "." field = [part; b] -> parse_i64 part = Some x ->
  Z.abs x < 10 ^ (p - s) -> slen_s b = s -> b <> "" -> parse_digits 0 b = Some y ->
  from_str_to_decimal field p s =
    Ok (FDecimal (x * 10 ^ s + (if x <? 0 then - y else y)) s).
Proof.
  intros Hs Hp Hf Ex Hx Hl Hb Ey. pose proof (parse_digits_range _ _ Ey) as Hy. rewrite Hl in Hy.
  destruct (pow10_bounds (p - s) p) as [Hq _]; [lia..|].
  assert (10 ^ (p - s) * 10 ^ s = 10 ^ p) as Hm by (rewrite <- Z.pow_add_r by lia; f_equal; lia).
  destruct (pow10_bounds s p) as [Hs1 Hs2]; [lia..|].
  unfold from_str_to_decimal. rewrite Hf. cbn [length Nat.ltb Nat.leb lookup list_lookup unwrap_opt].
  mstep. rewrite Ex. cbn [ok_or]. mstep.
  rewrite arith_i_ok by (unfold in_i; lia). mstep.
  rewrite arith_u_ok by (unfold in_u; lia). mstep.
  rewrite pow10_ok by lia. mstep. rewrite (proj2 (Z.leb_gt _ _)) by lia.
  rewrite (parse_fraction_ok field b s p y) by (done || lia). mstep.
  assert (- 10 ^ 18 < x * 10 ^ s < 10 ^ 18 /\ - 10 ^ 18 < x * 10 ^ s - y /\ x * 10 ^ s + y < 10 ^ 18)
    as Hr by nia.
  unfold scale_up, mul64. rewrite pow10_ok by lia. mstep.
  rewrite arith_i_ok by (unfold in_i; lia). mstep.
  unfold sub64, add64.
  case_Z_bool; (rewrite arith_i_ok by (unfold in_i; lia)); mstep; f_equal.
Qed.

(** The printed form of a decimal that is not a negative fraction. *)
Lemma decimal_display_split w s :
  0 < s -> 0 <= w \/ w <= - 10 ^ s ->
  exists a b, decimal_display w s = (if w <? 0 then "-" else "") +:+ a +:+ String "." b /\
    a <> "" /\ b <> "" /\ slen_s b = s /\
    parse_digits 0 a = Some (Z.abs w / 10 ^ s) /\ parse_digits 0 b = Some (Z.abs w mod 10 ^ s).
Proof.
  intros Hs Hw. unfold decimal_display. pose proof (Z.pow_pos_nonneg 10 s ltac:(lia) ltac:(lia)).
  destruct (Z.ltb_spec w 0).
  - rewrite pretty_Z_neg by lia. set (d := pretty (Z.to_N (- w))).
    assert (parse_digits 0 d = Some (- w)) as Ed by (unfold d; rewrite parse_pretty_N; f_equal; lia).
    pose proof (parse_digits_range _ _ Ed) as Hr.
    assert (s < slen_s d) as Hl.
    { apply Z.nle_gt. intros Hle.
      pose proof (Z.pow_le_mono_r 10 (slen_s d) s ltac:(lia) ltac:(lia)). lia. }
    assert (slen_s (String "-" d) = slen_s d + 1) as Hd by (unfold slen_s; cbn [String.length]; lia).
    rewrite (proj2 (Z.leb_gt _ _)) by lia.
    change (repeat_char (Z.to_nat 0) "0" +:+ String "-" d) with (String "-" d).
    destruct (split_digits d (- w) s Ed) as (a & b & Eq & Hb & Ha & Na & Nb & Ea & Eb); [lia|].
    exists a, b. rewrite Hd.
    replace (Z.to_nat (slen_s d + 1 - s)) with (String.length (String "-" a))
      by (unfold slen_s in *; cbn [String.length]; lia).
    rewrite Eq. change (String "-" (a +:+ b)) with (String "-" a +:+ b).
    rewrite insert_at_app. by replace (Z.abs w) with (- w) by lia.
  - rewrite pretty_Z_nonneg by lia. set (d := pretty (Z.to_N w)).
    assert (parse_digits 0 d = Some w) as Ed by (unfold d; rewrite parse_pretty_N; f_equal; lia).
    set (pad := if slen_s d <=? s then _ else _). set (d' := repeat_char (Z.to_nat pad) "0" +:+ d).
    assert (parse_digits 0 d' = Some w) as Ed' by (unfold d'; by rewrite parse_digits_zeros).
    assert (s < slen_s d') as Hl.
    { unfold d', pad. rewrite slen_app, slen_repeat. case_Z_bool; lia. }
    destruct (split_digits d' w s Ed') as (a & b & Eq & Hb & Ha & Na & Nb & Ea & Eb); [lia|].
    exists a, b. replace (Z.to_nat (slen_s d' - s)) with (String.length a)
      by (unfold slen_s in *; lia).
    rewrite Eq, insert_at_app. by replace (Z.abs w) with w by lia.
Qed.

(** The integer part of a printed decimal, with its sign. *)
Lemma decimal_value w s : 0 < s -> 0 <= w \/ w <= - 10 ^ s ->
  let x := if w <? 0 then - (Z.abs w / 10 ^ s) else Z.abs w / 10 ^ s in
  x * 10 ^ s + (if x <? 0 then - (Z.abs w mod 10 ^ s) else Z.abs w mod 10 ^ s) = w.
Proof.
  intros Hs Hw x. pose proof (Z.pow_pos_nonneg 10 s ltac:(lia) ltac:(lia)).
  pose proof (Z.div_mod (Z.abs w) (10 ^ s) ltac:(lia)).
  pose proof (Z.div_pos (Z.abs w) (10 ^ s) ltac:(lia) ltac:(lia)). subst x.
  destruct (Z.ltb_spec w 0).
  - pose proof (Z.div_str_pos (Z.abs w) (10 ^ s) ltac:(lia)). case_Z_bool; lia.
  - case_Z_bool; lia.
Qed.

(** ** Values of the Rust types *)

(** [f] is a value of the Rust type [Field]: integers in range, text in UTF-8. *)
Definition field_ok (f : Field) : Prop :=
  match f with
  | FInt i | FDate i => in_i 64 i
  | FString s => slen_s s < 2 ^ 32 /\ utf8_valid (bytes_of_string s) = true
  | FDecimal w s => in_i 64 w /\ in_u 32 s
  | FBool _ | FNull => True
  end.

(** The data type a field belongs to, with a given precision for decimals. *)
Definition dtype_of (p : Z) (f : Field) : DataType :=
  match f with
  | FInt _ => TInt | FString _ => TString | FDecimal _ s => TDecimal p s
  | FDate _ => TDate | FBool _ => TBool | FNull => TNull
  end.

Lemma length_bytes_of_string s : lenZ (bytes_of_string s) = slen_s s.
Proof.
  unfold bytes_of_string, lenZ, slen_s. induction s as [|c s IH]; [done|].
  cbn [String.length]. change (String.list_byte_of_string (String c s))
    with (byte_of_ascii c :: String.list_byte_of_string s). cbn [length]. lia.
Qed.

Lemma sub_app_l (a b : list byte) n : lenZ a = n -> sub (a ++ b) 0 n = a.
Proof. intros <-. unfold sub, lenZ. rewrite Nat2Z.id. by rewrite drop_0, take_app_length. Qed.

Lemma sub_app_r (a b : list byte) n m :
  lenZ a = n -> lenZ b = m -> sub (a ++ b) n m = b.
Proof.
  intros <- <-. unfold sub, lenZ. rewrite !Nat2Z.id, drop_app_length. by rewrite take_ge by lia.
Qed.

Lemma lenZ_app {A} (a b : list A) : lenZ (a ++ b) = lenZ a + lenZ b.
Proof. unfold lenZ. rewrite length_app. lia. Qed.

Lemma string_bytes_roundtrip s :
  slen_s s < 2 ^ 32 -> utf8_valid (bytes_of_string s) = true ->
  Field_from_bytes (Field_to_bytes (FString s)) TString = Ok (FString s).
Proof.
  intros Hl Hu. unfold Field_from_bytes, Field_to_bytes.
  rewrite wrap_u_small by (unfold in_u; pose proof (slen_nonneg s); lia).
  set (h := to_le_bytes 4 (slen_s s)). set (b := bytes_of_string s).
  assert (lenZ h = 4) as Hh by apply lenZ_to_le_bytes.
  assert (lenZ b = slen_s s) as Hb by apply length_bytes_of_string.
  pose proof (slen_nonneg s).
  rewrite slice_ok by (rewrite ?lenZ_app; lia). mstep.
  change (4 - 0) with 4. rewrite (sub_app_l h b 4 Hh).
  unfold try_into_array. rewrite Hh, Z.eqb_refl. mstep.
  assert (from_le_bytes h = slen_s s) as -> by (apply from_to_le_bytes_u; unfold in_u; lia).
  rewrite slice_ok by (rewrite ?lenZ_app; lia). mstep.
  rewrite (sub_app_r h b 4) by lia. unfold b. rewrite Hu.
  unfold string_of_bytes, bytes_of_string. by rewrite String.string_of_list_byte_of_string.
Qed.

Lemma decimal_bytes_roundtrip w s p q :
  in_i 64 w -> in_u 32 s ->
  Field_from_bytes (Field_to_bytes (FDecimal w s)) (TDecimal p q) = Ok (FDecimal w s).
Proof.
  intros Hw Hs. unfold Field_from_bytes, Field_to_bytes.
  assert (lenZ (to_le_bytes 8 w) = 8) as H1 by apply lenZ_to_le_bytes.
  assert (lenZ (to_le_bytes 4 s) = 4) as H2 by apply lenZ_to_le_bytes.
  rewrite slice_ok by (rewrite ?lenZ_app; lia). mstep.
  rewrite slice_ok by (rewrite ?lenZ_app; lia). mstep.
  change (8 - 0) with 8. change (12 - 8) with 4.
  rewrite (sub_app_l _ _ 8 H1), (sub_app_r _ _ 8 4 H1 H2).
  by rewrite from_to_le_bytes_i, from_to_le_bytes_u by (done || lia).
Qed.

Lemma try_into_array_8 i msg : try_into_array 8 (to_le_bytes 8 i) msg = Ok (to_le_bytes 8 i).
Proof. unfold try_into_array. by rewrite lenZ_to_le_bytes. Qed.

(** C31: [Field::from_bytes] inverts [Field::to_bytes]: every field value, of
    every data type, strings of fewer than 2^32 bytes among them, is read back from
    its own encoding. *)
Theorem field_bytes_roundtrip p f :
  field_ok f -> Field_from_bytes (Field_to_bytes f) (dtype_of p f) = Ok f.
Proof.
  destruct f as [i|s|w s|i|b|]; cbn [field_ok dtype_of].
  - intros Hi. unfold Field_to_bytes, Field_from_bytes. rewrite try_into_array_8. mstep.
    by rewrite from_to_le_bytes_i by (done || lia).
  - intros [??]. by apply string_bytes_roundtrip.
  - intros [??]. by apply decimal_bytes_roundtrip.
  - intros Hi. unfold Field_to_bytes, Field_from_bytes. rewrite try_into_array_8. mstep.
    by rewrite from_to_le_bytes_i by (done || lia).
  - by destruct b.
  - done.
Qed.

Lemma field_bytes_roundtrip_witness :
  Field_from_bytes (Field_to_bytes (FString "heap")) TString = Ok (FString "heap") /\
  Field_from_bytes (Field_to_bytes (FDecimal (-150) 2)) (TDecimal 5 2) = Ok (FDecimal (-150) 2).
Proof.
  split.
  - apply (field_bytes_roundtrip 0 (FString "heap")). split; vm_compute; reflexivity.
  - apply (field_bytes_roundtrip 5 (FDecimal (-150) 2)). split; vm_compute; split; congruence.
Defined.

(** C32: printing and parsing agree on 64-bit integers, and on decimals with a
    precision of at most 18 digits, a scale of at least one digit and at most the
    precision, and a mantissa within the precision, that do not lie strictly between
    -1 and 0: [from_str] of the printed value is the value. *)
Theorem field_text_roundtrip `{Profile} w p s i :
  in_i 64 i -> 0 < s <= p -> p <= 18 -> Z.abs w < 10 ^ p -> 0 <= w \/ w <= - 10 ^ s ->
  from_str_to_int (pretty i) = Ok (FInt i) /\
  from_str_to_decimal (decimal_display w s) p s = Ok (FDecimal w s).
Proof.
  intros Hi Hs Hp Hw Hr. split; [unfold from_str_to_int; by rewrite parse_i64_pretty|].
  destruct (decimal_display_split w s) as (a & b & E & Na & Nb & Hl & Ea & Eb); [lia|done|].
  pose proof (decimal_value w s ltac:(lia) Hr) as Hv. cbv zeta in Hv.
  destruct (pow10_bounds s p) as [Hp1 Hp2]; [lia..|].
  assert (Z.abs w / 10 ^ s < 10 ^ (p - s)) as Hx.
  { apply Z.div_lt_upper_bound; [lia|]. rewrite <- Z.pow_add_r by lia.
    by replace (s + (p - s)) with p by lia. }
  pose proof (Z.div_pos (Z.abs w) (10 ^ s) ltac:(lia) ltac:(lia)).
  destruct (pow10_bounds (p - s) p) as [Hq1 Hq2]; [lia..|].
  rewrite (from_str_to_decimal_ok _ ((if w <? 0 then "-" else "") +:+ a) b p s
             (if w <? 0 then - (Z.abs w / 10 ^ s) else Z.abs w / 10 ^ s)
             (Z.abs w mod 10 ^ s)); try done; try lia.
  - by rewrite Hv.
  - rewrite E. destruct (w <? 0).
    + change (("-" +:+ a +:+ String "." b)) with (String "-" (a +:+ String "." b)).
      rewrite split_on_neg, (split_on_point a b _ _ Ea Eb). done.
    + apply (split_on_point a b _ _ Ea Eb).
  - destruct (w <? 0).
    + apply parse_i64_neg; [done|done|lia].
    + apply parse_i64_digits; [done|done|lia].
  - destruct (w <? 0); lia.
Qed.

Lemma field_text_roundtrip_witness :
  from_str_to_decimal (H := true) (decimal_display (-150) 2) 5 2 = Ok (FDecimal (-150) 2).
Proof.
  apply (@field_text_roundtrip true (-150) 5 2 0); [unfold in_i; lia|lia|lia|lia|right; lia].
Defined.

(** Negative fractions are neither printed nor parsed correctly: the sign
    is placed behind the padding, so the printed form does not parse, and
    ["-0.5"] loses its sign. *)
Theorem negative_fraction_broken `{Profile} :
  decimal_display (-5) 2 = "0.-5" /\
  from_str_to_decimal (decimal_display (-5) 2) 5 2 = Err (err_scale "0.-5" 5 2) /\
  decimal_display (-50) 2 = "-.50" /\
  from_str_to_decimal "-0.5" 5 2 = Ok (FDecimal 50 2).
Proof. destruct H; vm_compute; done. Qed.

(** Digits behind the point beyond the scale are not always rejected: with
    leading zeros they pass the range test, and the power of ten then has a
    negative exponent, which panics in a checked build. *)
Theorem long_fraction_panics :
  from_str_to_decimal (H := true) "1.00005" 9 4 = Panic.
Proof. vm_compute. reflexivity. Qed.

(** ** Arithmetic on integers and decimals *)

(** A number as mantissa and scale. *)
Definition mantissa (f : Field) : option (Z * Z) :=
  match f with
  | FInt i => Some (i, 0)
  | FDecimal w s => Some (w, s)
  | _ => None
  end.

Lemma scale_up_ok `{Profile} a n :
  0 <= n <= 18 -> in_i 64 (a * 10 ^ n) -> scale_up a n = Ok (a * 10 ^ n).
Proof.
  intros Hn Ha. unfold scale_up, mul64. rewrite pow10_ok by done. mstep. by apply arith_i_ok.
Qed.

(** C33: addition and subtraction of integers and decimals are exact: the
    operands, of scales up to 18, are brought to the larger scale and their mantissas
    are added or subtracted, as long as the aligned mantissas and the result fit in
    64 bits. *)
Theorem field_add_sub_exact `{Profile} l r a sl b sr :
  mantissa l = Some (a, sl) -> mantissa r = Some (b, sr) ->
  0 <= sl <= 18 -> 0 <= sr <= 18 ->
  let s := Z.max sl sr in
  let a' := a * 10 ^ (s - sl) in
  let b' := b * 10 ^ (s - sr) in
  in_i 64 a' -> in_i 64 b' ->
  (in_i 64 (a' + b') -> exists f, Field_add l r = Ok f /\ mantissa f = Some (a' + b', s)) /\
  (in_i 64 (a' - b') -> exists f, Field_sub l r = Ok f /\ mantissa f = Some (a' - b', s)).
Proof.
  intros El Er Hl Hr s a' b' Ha Hb.
  assert ((if sr <? sl then sl else sr) = s) as Es by (unfold s; case_Z_bool; lia).
  pose proof (scale_up_ok a (s - sl) ltac:(lia) Ha) as Ea.
  pose proof (scale_up_ok b (s - sr) ltac:(lia) Hb) as Eb.
  destruct l; try discriminate El; destruct r; try discriminate Er;
    cbn in El, Er; injection El as -> <-; injection Er as -> <-;
    cbn [Field_add Field_sub]; rewrite ?Es; try (replace s with 0 in * by lia);
    try (replace s with scale in * by lia);
    rewrite ?Z.sub_diag, ?Z.sub_0_r, ?Z.mul_1_r in *; rewrite ?Ea, ?Eb; mstep;
    split; intros Hc; unfold add64, sub64; rewrite ?Ea, ?Eb; mstep;
    (match goal with |- context [arith_i 64 ?e] => match type of Hc with in_i 64 ?c =>
       replace e with c; [rewrite arith_i_ok by done; mstep; eauto|]
     end end); subst a' b' s;
    rewrite ?Z.max_id, ?(Z.max_r 0 scale), ?(Z.max_l scale 0) by lia;
    by rewrite ?Z.sub_diag, ?Z.sub_0_r, ?Z.mul_1_r.
Qed.

Lemma field_add_sub_exact_witness :
  (exists f, Field_add (H := true) (FDecimal 125 2) (FInt 3) = Ok f /\
     mantissa f = Some (125 * 10 ^ 0 + 3 * 10 ^ 2, 2)).
Proof.
  destruct (@field_add_sub_exact true (FDecimal 125 2) (FInt 3) 125 2 3 0 eq_refl eq_refl)
    as [A _]; [lia|lia|vm_compute; split; congruence..|].
  apply A. vm_compute; split; congruence.
Defined.


(** ** The order of fields *)

Lemma ascii_compare_N a b : Ascii.compare a b = N.compare (N_of_ascii a) (N_of_ascii b).
Proof. done. Qed.

Lemma string_compare_trans : forall a b c,
  String.compare a b = Datatypes.Lt -> String.compare b c = Datatypes.Lt ->
  String.compare a c = Datatypes.Lt.
Proof.
  induction a as [|x a IH]; intros [|y b] [|z c]; cbn [String.compare]; try done.
  rewrite !ascii_compare_N.
  destruct (N.compare_spec (N_of_ascii x) (N_of_ascii y)) as [Exy|Hxy|Hxy];
    destruct (N.compare_spec (N_of_ascii y) (N_of_ascii z)) as [Eyz|Hyz|Hyz]; try done;
    intros H1 H2.
  - rewrite Exy, Eyz, N.compare_refl. by apply (IH b).
  - rewrite Exy. by apply N.compare_lt_iff in Hyz as ->.
  - rewrite <- Eyz. by apply N.compare_lt_iff in Hxy as ->.
  - assert (N_of_ascii x < N_of_ascii z)%N as Hxz by lia. by apply N.compare_lt_iff in Hxz as ->.
Qed.

Lemma string_compare_opp a b : String.compare b a = CompOpp (String.compare a b).
Proof. apply String.compare_antisym. Qed.

Lemma Field_compare_rank l r :
  Field_rank l <> Field_rank r -> Field_compare l r = Z.compare (Field_rank l) (Field_rank r).
Proof. by destruct l, r. Qed.

Lemma Field_compare_Lt_rank l r :
  Field_compare l r = Datatypes.Lt -> Field_rank l <= Field_rank r.
Proof.
  intros E. destruct (decide (Field_rank l = Field_rank r)); [lia|].
  rewrite Field_compare_rank in E by done. rewrite Z.compare_lt_iff in E. lia.
Qed.

(** The derived order of fields is a total order: comparison answers
    "equal" exactly on equal fields, is antisymmetric, and "less than" is
    transitive, so sorting by fields is well defined. *)
Theorem field_order_total :
  (forall l r, Field_compare l r = Datatypes.Eq <-> l = r) /\
  (forall l r, Field_compare r l = CompOpp (Field_compare l r)) /\
  (forall a b c, Field_compare a b = Datatypes.Lt -> Field_compare b c = Datatypes.Lt ->
     Field_compare a c = Datatypes.Lt).
Proof.
  split_and!.
  - intros l r. split; [|intros <-; destruct l; cbn; rewrite ?Z.compare_refl; try done].
    + destruct l, r; try done; cbn; rewrite ?Z.compare_eq_iff; try congruence.
      * intros Es%String.compare_eq_iff. congruence.
      * destruct (Z.compare_spec whole whole0); try done. rewrite Z.compare_eq_iff. congruence.
      * destruct b, b0; done.
    + pose proof (string_compare_opp s s). by destruct (String.compare s s).
  - intros l r. destruct l, r; try done; cbn; try apply Z.compare_antisym.
    + apply string_compare_opp.
    + rewrite (Z.compare_antisym whole0 whole). destruct (whole0 ?= whole); cbn; try done.
      apply Z.compare_antisym.
  - intros a b c Hab Hbc.
    pose proof (Field_compare_Lt_rank _ _ Hab). pose proof (Field_compare_Lt_rank _ _ Hbc).
    destruct (decide (Field_rank a = Field_rank c)) as [Er|Er].
    2:{ rewrite Field_compare_rank by done. apply Z.compare_lt_iff. lia. }
    destruct a, c; try discriminate Er; destruct b; cbn in *; try lia; try congruence.
    all: rewrite ?Z.compare_lt_iff in *; try lia.
    + by eapply string_compare_trans.
    + destruct (Z.compare_spec whole whole1), (Z.compare_spec whole1 whole0),
        (Z.compare_spec whole whole0); try done; try lia.
      rewrite Z.compare_lt_iff in *. lia.
Qed.

(** Comparing decimals compares mantissas before scales, so it is not the
    order of the numbers they stand for: 1.0 (mantissa 10, scale 1) is greater
    than 2 (mantissa 2, scale 0), and 1.0 differs from 1.00. *)
Theorem decimal_order_not_numeric :
  compare_fields BGt (FDecimal 10 1) (FDecimal 2 0) = Ok true /\
  compare_fields BEq (FDecimal 10 1) (FDecimal 100 2) = Ok false /\
  compare_fields BLt (FInt 7) (FDecimal 1 0) = Ok true.
Proof. vm_compute. done. Qed.
