(* ===== verification/PageDebug.v ===== *)
(** * The dump of a page

    [impl Debug for Page] in [src/src/storage/heapstore/src/page.rs]: lines of
    forty bytes with their position; runs of lines of zeros are replaced by their
    number.  The dump still says everything: pages with the same dump are equal. *)

From S2P Require Import Prelude Bytes Common HeapPage HeapPageProofs Types TypesProofs.

Open Scope Z_scope.

Definition BYTES_PER_LINE : Z := 40.

Definition newline : string := String (Ascii.ascii_of_nat 10) EmptyString.

(** [".  "], ["## "] or [{:02x} ] *)
Definition render_byte (b : byte) : string :=
  if bool_decide (b = x00) then ".  "
  else if bool_decide (b = xff) then "## "
  else
    let n := Z.to_nat (byte_to_Z b) in
    String (hex_digit (n / 16)) (String (hex_digit (n mod 16)) " ").

Definition render_bytes (pv : list byte) : string :=
  foldl (fun buffer b => buffer +:+ render_byte b) "" pv.

(** [[{:4}] ] of the position. *)
Definition render_pos (pos : Z) : string :=
  let s := pretty pos in
  "[" +:+ repeat_char (4 - String.length s) " " +:+ s +:+ "] ".

(** The note on [empty_lines_count] hidden lines, if there are any. *)
Definition hidden (empty_lines_count : Z) : string :=
  if negb (empty_lines_count =? 0)
  then pretty empty_lines_count +:+ " " +:+ "empty lines were hidden" +:+ newline else "".

Definition comp : list byte := replicate (Z.to_nat BYTES_PER_LINE) x00.

Section Debug.
Context `{Profile}.

(** The [while] loop; [buffer] is what was written so far. *)
Fixpoint debug_loop (fuel : nat) (p : list byte) (pos empty_lines_count : Z) (buffer : string)
  : result string :=
  if pos <? lenZ p then
    match fuel with
    | O => Panic
    | S fuel' =>
        let remaining := lenZ p - pos in
        pv ← (if BYTES_PER_LINE <? remaining then slice p pos (pos + BYTES_PER_LINE)
              else slice p pos (pos + remaining));
        if bool_decide (pv = comp) then
          n ← arith_i 32 (empty_lines_count + 1);
          pos' ← arith_u 64 (pos + BYTES_PER_LINE);
          debug_loop fuel' p pos' n buffer
        else
          let buffer := buffer +:+ hidden empty_lines_count +:+ render_pos pos +:+ render_bytes pv +:+ newline in
          pos' ← arith_u 64 (pos + BYTES_PER_LINE);
          debug_loop fuel' p pos' 0 buffer
    end
  else Ok (buffer +:+ hidden empty_lines_count).

Definition Page_debug (p : Page) : result string :=
  pid ← get_page_id p;
  debug_loop (length (to_bytes p)) (to_bytes p) 0 0 ("PID:" +:+ pretty pid +:+ newline).
End Debug.

(** ** The loop as a function of the bytes that are left *)

Fixpoint dump (fuel : nat) (pos n : Z) (d : list byte) : string :=
  match fuel, d with
  | O, _ | _, [] => hidden n
  | S fuel', _ =>
      let pv := take 40 d in
      if bool_decide (pv = comp) then dump fuel' (pos + 40) (n + 1) (drop 40 d)
      else hidden n +:+ render_pos pos +:+ render_bytes pv +:+ newline
             +:+ dump fuel' (pos + 40) 0 (drop 40 d)
  end.

Lemma str_app_assoc (a b c : string) : (a +:+ b) +:+ c = a +:+ (b +:+ c).
Proof. induction a as [|x a IH]; [done|]. exact (f_equal (String x) IH). Qed.

(** The slice of either branch is the next line. *)
Lemma next_line p pos : 0 <= pos < lenZ p ->
  (if BYTES_PER_LINE <? lenZ p - pos then slice (E := CrustyError) p pos (pos + BYTES_PER_LINE)
   else slice p pos (pos + (lenZ p - pos))) = Ok (take 40 (drop (Z.to_nat pos) p)).
Proof.
  intros Hp. unfold BYTES_PER_LINE, slice, sub, lenZ in *.
  destruct (Z.ltb_spec 40 (Z.of_nat (length p) - pos)) as [Hl|Hl].
  - rewrite !(proj2 (Z.leb_le _ _)) by lia. cbn. do 2 f_equal. lia.
  - rewrite !(proj2 (Z.leb_le _ _)) by lia. cbn. f_equal.
    rewrite !take_ge; [done|rewrite length_drop; lia..].
Qed.

Lemma debug_loop_dump `{Profile} p : lenZ p < 2 ^ 31 ->
  forall fuel pos n buffer, 0 <= pos -> 0 <= n <= pos -> lenZ p - pos <= Z.of_nat fuel ->
  debug_loop fuel p pos n buffer = Ok (buffer +:+ dump fuel pos n (drop (Z.to_nat pos) p)).
Proof.
  intros Hs. induction fuel as [|fuel IH]; intros pos n buffer Hp Hn Hf; cbn [debug_loop].
  - destruct (Z.ltb_spec pos (lenZ p)) as [Hlt|Hge]; [lia|]. done.
  - destruct (Z.ltb_spec pos (lenZ p)) as [Hlt|Hge].
    2:{ unfold lenZ in Hge. by rewrite drop_ge by lia. }
    rewrite next_line by lia. mstep.
    destruct (drop (Z.to_nat pos) p) as [|b d] eqn:E.
    { apply (f_equal length) in E. rewrite length_drop in E. unfold lenZ in *. cbn in E. lia. }
    cbn [dump]. rewrite <- E. unfold BYTES_PER_LINE.
    rewrite drop_drop. replace (Z.to_nat pos + 40)%nat with (Z.to_nat (pos + 40)) by lia.
    rewrite (arith_u_ok 64) by (unfold in_u, lenZ in *; lia).
    case_bool_decide.
    + rewrite arith_i_ok by (unfold in_i; lia). mstep. apply IH; lia.
    + mstep. rewrite IH by lia. by rewrite !str_app_assoc.
Qed.

(** ** What can be read off a dump *)

Definition unrender_byte (s : string) : option byte :=
  List.find (fun b => String.eqb (render_byte b) s) (byte_of_Z <$> seqZ 0 256).

Lemma unrender_render b : unrender_byte (render_byte b) = Some b.
Proof. destruct b; vm_compute; reflexivity. Qed.

Lemma render_byte_length b : String.length (render_byte b) = 3%nat.
Proof. by destruct b. Qed.

Lemma str_app_inj (a1 a2 b1 b2 : string) : String.length a1 = String.length a2 ->
  a1 +:+ b1 = a2 +:+ b2 -> a1 = a2 /\ b1 = b2.
Proof.
  revert a2; induction a1 as [|c a1 IH]; intros [|c2 a2] Hl He; try discriminate Hl; [done|].
  injection Hl as Hl. injection He as -> He. by destruct (IH a2 Hl He) as [-> ->].
Qed.

Lemma render_bytes_cons b pv : render_bytes (b :: pv) = render_byte b +:+ render_bytes pv.
Proof.
  unfold render_bytes. assert (forall l s t, foldl (fun buffer b => buffer +:+ render_byte b) (s +:+ t) l =
    s +:+ foldl (fun buffer b => buffer +:+ render_byte b) t l) as Hf.
  { induction l as [|x l IH]; intros s t; cbn [foldl]; [done|]. rewrite <- IH. by rewrite str_app_assoc. }
  cbn [foldl]. rewrite <- Hf. f_equal. change ("" +:+ render_byte b) with (render_byte b).
  induction (render_byte b) as [|c s IH]; [done|]. exact (f_equal (String c) IH).
Qed.

(** Rendered bytes of the same number, whatever follows them. *)
Lemma render_bytes_inj pv1 : forall pv2 r1 r2, length pv1 = length pv2 ->
  render_bytes pv1 +:+ r1 = render_bytes pv2 +:+ r2 -> pv1 = pv2 /\ r1 = r2.
Proof.
  induction pv1 as [|b1 pv1 IH]; intros [|b2 pv2] r1 r2 Hl He; try discriminate Hl; [done|].
  rewrite !render_bytes_cons, !str_app_assoc in He.
  apply str_app_inj in He as [Hb He]; [|by rewrite !render_byte_length].
  injection Hl as Hl. destruct (IH pv2 r1 r2 Hl He) as [-> ->].
  apply (f_equal unrender_byte) in Hb. rewrite !unrender_render in Hb. by injection Hb as ->.
Qed.

(** A number, then a character that is no digit: where the number ends is clear. *)
Lemma digits_sep_inj c s1 : digit_of_ascii c = None ->
  forall s2 r1 r2 a b, parse_digits a s1 <> None -> parse_digits b s2 <> None ->
  s1 +:+ String c r1 = s2 +:+ String c r2 -> s1 = s2.
Proof.
  intros Hc. induction s1 as [|c1 s1 IH]; intros [|c2 s2] r1 r2 a b H1 H2 He; [done|..].
  - injection He as <- _. cbn [parse_digits] in H2. by rewrite Hc in H2.
  - injection He as -> _. cbn [parse_digits] in H1. by rewrite Hc in H1.
  - injection He as -> He. cbn [parse_digits] in H1, H2.
    destruct (digit_of_ascii c2); [|done]. f_equal. by eapply IH.
Qed.

Lemma parse_pretty_Z z : 0 <= z -> parse_digits 0 (pretty z) = Some z.
Proof. intros Hz. rewrite pretty_Z_nonneg, parse_pretty_N by done. f_equal. lia. Qed.

Lemma pretty_sep_inj c z1 z2 r1 r2 : digit_of_ascii c = None -> 0 <= z1 -> 0 <= z2 ->
  pretty z1 +:+ String c r1 = pretty z2 +:+ String c r2 -> z1 = z2.
Proof.
  intros Hc H1 H2 He.
  assert (pretty z1 = pretty z2 :> string) as Hp.
  { eapply (digits_sep_inj c); [done|rewrite parse_pretty_Z by done; done..|exact He]. }
  apply (f_equal (parse_digits 0)) in Hp. rewrite !parse_pretty_Z in Hp by done. by injection Hp.
Qed.

(** A note of hidden lines is told from another and from a position. *)
Lemma hidden_inj n1 n2 r1 r2 : 0 <= n1 -> 0 <= n2 ->
  hidden n1 +:+ String "[" r1 = hidden n2 +:+ String "[" r2 -> n1 = n2.
Proof.
  assert (forall n r r', 0 < n -> pretty n +:+ r <> String "[" r') as Hd.
  { intros n r r' Hn He. pose proof (parse_pretty_Z n ltac:(lia)) as Hp.
    destruct (pretty n) as [|c s] eqn:E; [|by injection He as -> _].
    rewrite pretty_Z_nonneg in E by lia. by apply pretty_N_nonempty in E. }
  intros H1 H2. unfold hidden.
  destruct (Z.eqb_spec n1 0), (Z.eqb_spec n2 0); cbn [negb]; rewrite ?str_app_assoc; intros He.
  - lia.
  - symmetry in He. by apply Hd in He; [|lia].
  - by apply Hd in He; [|lia].
  - by eapply (pretty_sep_inj " ").
Qed.

Lemma mod_drop_line (d : list byte) : (40 <= length d)%nat ->
  Z.of_nat (length (drop 40 d)) mod 40 = Z.of_nat (length d) mod 40.
Proof.
  intros Hl. rewrite length_drop, Nat2Z.inj_sub, <- Zminus_mod_idemp_r by done. cbn. by rewrite Z.sub_0_r.
Qed.

(** What comes first in a dump that ends in an incomplete line. *)
Lemma dump_head fuel : forall pos n d, Z.of_nat (length d) mod 40 <> 0 -> (length d <= 40 * fuel)%nat ->
  exists k r, dump fuel pos n d = hidden k +:+ String "[" r /\ n <= k /\ (take 40 d = comp <-> n < k).
Proof.
  induction fuel as [|fuel IH]; intros pos n d Hm Hf; [destruct d; [done|cbn in Hf; lia]|].
  destruct d as [|b d0]; [done|]. set (d := b :: d0) in *. unfold d at 1. cbn [dump]. fold d.
  case_bool_decide as Hc.
  - assert (40 <= length d)%nat as Hl.
    { apply (f_equal length) in Hc. rewrite length_take in Hc. unfold comp in Hc. rewrite length_replicate in Hc.
      unfold BYTES_PER_LINE in Hc. lia. }
    destruct (IH (pos + 40) (n + 1) (drop 40 d)) as (k & r & -> & Hk & _);
      [by rewrite mod_drop_line|rewrite length_drop; lia|].
    exists k, r. split; [done|]. split; [lia|]. split; [lia|done].
  - exists n. eexists. split; [unfold render_pos; cbn; reflexivity|]. split; [lia|]. split; [done|lia].
Qed.

Lemma dump_inj fuel : forall pos n d1 d2, 0 <= n -> length d1 = length d2 ->
  Z.of_nat (length d1) mod 40 <> 0 -> (length d1 <= 40 * fuel)%nat ->
  dump fuel pos n d1 = dump fuel pos n d2 -> d1 = d2.
Proof.
  induction fuel as [|fuel IH]; intros pos n d1 d2 Hn Hl Hm Hf He; [destruct d1; [done|cbn in Hf; lia]|].
  destruct (dump_head (S fuel) pos n d1) as (k1 & r1 & E1 & Hk1 & Hc1); [done..|].
  destruct (dump_head (S fuel) pos n d2) as (k2 & r2 & E2 & Hk2 & Hc2); [congruence..|].
  assert (k1 = k2) as <- by (rewrite E1, E2 in He; eapply hidden_inj; [lia..|exact He]).
  assert (take 40 d1 = comp <-> take 40 d2 = comp) as Hc by (rewrite Hc1, Hc2; done).
  clear E1 E2 Hc1 Hc2. destruct d1 as [|b1 d1']; [done|]. destruct d2 as [|b2 d2']; [done|].
  set (d1 := b1 :: d1') in *. set (d2 := b2 :: d2') in *. unfold d1 at 1, d2 at 1 in He.
  cbn [dump] in He. fold d1 d2 in He. rewrite (bool_decide_ext _ _ Hc) in He.
  assert (forall m, 0 <= m -> dump fuel (pos + 40) m (drop 40 d1) = dump fuel (pos + 40) m (drop 40 d2) ->
    drop 40 d1 = drop 40 d2) as Hrest.
  { intros m Hm0 Hd. destruct (decide (40 <= length d1)%nat) as [Hlong|Hshort].
    - eapply IH; [exact Hm0|rewrite !length_drop; lia|by rewrite mod_drop_line|rewrite length_drop; lia|exact Hd].
    - by rewrite !drop_ge by lia. }
  rewrite <- (take_drop 40 d1), <- (take_drop 40 d2). case_bool_decide as Hz.
  - rewrite Hz, (proj2 Hc Hz). f_equal. eapply Hrest, He. lia.
  - apply str_app_inj in He as [_ He]; [|done]. apply str_app_inj in He as [_ He]; [|done].
    apply render_bytes_inj in He as [-> He]; [|rewrite !length_take; lia].
    apply str_app_inj in He as [_ He]; [|done]. f_equal. eapply Hrest, He. lia.
Qed.

(** The dump of a whole page. *)
Lemma page_debug_dump `{Profile} p : lenZ (data p) = PAGE_SIZE ->
  Page_debug p = Ok ("PID:" +:+ pretty (u16_at (data p) 0) +:+ newline +:+ dump (length (data p)) 0 0 (data p)).
Proof.
  intros Hp. unfold Page_debug, to_bytes, get_page_id. rewrite read_le_2 by (unfold PAGE_SIZE in *; lia). mstep.
  rewrite debug_loop_dump by (unfold PAGE_SIZE, lenZ in *; lia). f_equal. by rewrite !str_app_assoc.
Qed.

(** C30: the debug output of a page always exists, and two pages with the same
    output have the same bytes: the hidden lines lose nothing. *)
Theorem page_debug_injective `{Profile} (p q : Page) : lenZ (data p) = PAGE_SIZE -> lenZ (data q) = PAGE_SIZE ->
  is_ok (Page_debug p) = true /\ (Page_debug p = Page_debug q <-> p = q).
Proof.
  intros Hp Hq. split; [by rewrite page_debug_dump|]. split; [|by intros ->].
  rewrite !page_debug_dump by done. intros [= He].
  assert (u16_at (data p) 0 = u16_at (data q) 0) as Hid.
  { eapply (pretty_sep_inj (Ascii.ascii_of_nat 10)); [done|apply u16_at_range..|exact He]. }
  rewrite Hid in He. do 3 (apply str_app_inj in He as [_ He]; [|done]).
  destruct p as [d1], q as [d2]. cbn [data] in *. f_equal. unfold lenZ, PAGE_SIZE in *.
  replace (length d2) with (length d1) in He by lia.
  apply (dump_inj (length d1) 0 0); [done|lia| |lia|exact He]. by rewrite Hp.
Qed.

(** 4096 bytes are 102 lines and 16 bytes; these are compared with a whole line of
    zeros, so the last line is printed even if it is empty. *)
Lemma last_line_not_hidden `{Profile} : Page_debug (mkPage (replicate 4096 x00)) = Ok
    ("PID:0" +:+ newline +:+ "102 empty lines were hidden" +:+ newline +:+
     "[4080] .  .  .  .  .  .  .  .  .  .  .  .  .  .  .  .  " +:+ newline).
Proof. destruct H; vm_compute; reflexivity. Qed.

Definition debug_page_a : Page := mkPage (replicate 100 x00 ++ [x07; xff] ++ replicate 3994 x00).
Definition debug_page_b : Page := mkPage (replicate 4096 x00).

Lemma page_debug_injective_witness :
  Page_debug (H := true) debug_page_a <> Page_debug (H := true) debug_page_b /\
  is_ok (Page_debug (H := true) debug_page_a) = true.
Proof.
  destruct (page_debug_injective (H := true) debug_page_a debug_page_b) as [Hok [Hinj _]]; [vm_compute; reflexivity..|].
  split; [|exact Hok]. intros He. apply Hinj, (f_equal (fun p => bget (data p) 100)) in He. vm_compute in He. discriminate He.
Defined.
