(* ===== verification/Aggregate.v ===== *)
(** * Aggregation

    The step of [src/src/queryexe/src/opiterator/aggregate.rs] that has a body:
    merging a value into the accumulator of an aggregate. *)

From S2P Require Import Prelude Common Types TypesProofs.

Open Scope Z_scope.

(** [std::cmp::max] and [min]: on equal values the second and the first. *)
Definition field_max (a b : Field) : Field := if is_gt (Field_compare a b) then a else b.
Definition field_min (a b : Field) : Field := if is_gt (Field_compare a b) then b else a.

(** An average is summed here and divided by the count later. *)
Definition merge_fields `{Profile} (op : AggOp) (field_val acc : Field) : result Field :=
  match op with
  | ACount => Field_add acc (FInt 1)
  | AMax => Ok (field_max acc field_val)
  | AMin => Ok (field_min acc field_val)
  | ASum => Field_add acc field_val
  | AAvg => Field_add acc field_val
  end.

(** The values of a group, one after the other. *)
Definition merge_all `{Profile} (op : AggOp) (acc : Field) (vals : list Field) : result Field :=
  foldM (fun acc field_val => merge_fields op field_val acc) acc vals.

Definition field_le (a b : Field) : Prop := Field_compare a b <> Datatypes.Gt.

Lemma field_le_refl a : field_le a a.
Proof. unfold field_le. destruct field_order_total as (He & _). by rewrite (proj2 (He a a) eq_refl). Qed.

Lemma field_le_trans a b c : field_le a b -> field_le b c -> field_le a c.
Proof.
  unfold field_le. destruct field_order_total as (He & _ & Ht). intros Hab Hbc.
  destruct (Field_compare a b) eqn:Eab; [apply He in Eab as ->; done| |done].
  destruct (Field_compare b c) eqn:Ebc; [apply He in Ebc as <-; by rewrite Eab| |done]. by rewrite (Ht a b c).
Qed.

Lemma field_gt a b : is_gt (Field_compare a b) = true -> field_le b a.
Proof.
  unfold field_le. destruct field_order_total as (_ & Ho & _). rewrite (Ho a b). by destruct (Field_compare a b).
Qed.

Lemma field_not_gt a b : is_gt (Field_compare a b) = false -> field_le a b.
Proof. unfold field_le. by destruct (Field_compare a b). Qed.

Lemma merge_max `{Profile} vals : forall acc, exists m, merge_all AMax acc vals = Ok m /\ m ∈ acc :: vals /\
  forall v, v ∈ acc :: vals -> field_le v m.
Proof.
  induction vals as [|v vals IH]; intros acc; unfold merge_all; cbn [foldM merge_fields]; mstep.
  - exists acc. split; [done|]. split; [apply list_elem_of_here|]. intros v ->%list_elem_of_singleton. apply field_le_refl.
  - destruct (IH (field_max acc v)) as (m & E & Hin & Hm). exists m. split; [exact E|].
    pose proof (Hm _ (list_elem_of_here _ _)) as Hx. unfold field_max in *.
    destruct (is_gt (Field_compare acc v)) eqn:Eg; (split; [set_solver|]); intros u Hu;
      [apply field_gt in Eg|apply field_not_gt in Eg]; apply elem_of_cons in Hu as [->|[->|Hu]%elem_of_cons];
      try done; try (by eapply field_le_trans); apply Hm; by apply list_elem_of_further.
Qed.

Lemma merge_min `{Profile} vals : forall acc, exists m, merge_all AMin acc vals = Ok m /\ m ∈ acc :: vals /\
  forall v, v ∈ acc :: vals -> field_le m v.
Proof.
  induction vals as [|v vals IH]; intros acc; unfold merge_all; cbn [foldM merge_fields]; mstep.
  - exists acc. split; [done|]. split; [apply list_elem_of_here|]. intros v ->%list_elem_of_singleton. apply field_le_refl.
  - destruct (IH (field_min acc v)) as (m & E & Hin & Hm). exists m. split; [exact E|].
    pose proof (Hm _ (list_elem_of_here _ _)) as Hx. unfold field_min in *.
    destruct (is_gt (Field_compare acc v)) eqn:Eg; (split; [set_solver|]); intros u Hu;
      [apply field_gt in Eg|apply field_not_gt in Eg]; apply elem_of_cons in Hu as [->|[->|Hu]%elem_of_cons];
      try done; try (by eapply field_le_trans); apply Hm; by apply list_elem_of_further.
Qed.

Lemma merge_count `{Profile} vals : forall n, 0 <= n -> n + Z.of_nat (length vals) < 2 ^ 63 ->
  merge_all ACount (FInt n) vals = Ok (FInt (n + Z.of_nat (length vals))).
Proof.
  induction vals as [|v vals IH]; intros n Hn Hb; unfold merge_all; cbn [foldM merge_fields]; mstep.
  - cbn. by rewrite Z.add_0_r.
  - cbn [length] in Hb. cbn [Field_add]. unfold add64. rewrite arith_i_ok by (unfold in_i; lia). mstep.
    unfold merge_all in IH. rewrite IH by lia. cbn [length]. do 2 f_equal. lia.
Qed.

(** Every partial sum can be held in 64 bits. *)
Fixpoint sums_fit (acc : Z) (zs : list Z) : Prop :=
  match zs with [] => True | z :: zs => in_i 64 (acc + z) /\ sums_fit (acc + z) zs end.

Lemma merge_sum `{Profile} op zs : op = ASum \/ op = AAvg -> forall acc, sums_fit acc zs ->
  merge_all op (FInt acc) (FInt <$> zs) = Ok (FInt (acc + sumZ zs)).
Proof.
  intros Ho. induction zs as [|z zs IH]; intros acc Hf; unfold merge_all; cbn [foldM fmap list_fmap]; mstep.
  - cbn. by rewrite Z.add_0_r.
  - destruct Hf as [Hz Hf]. assert (merge_fields op (FInt z) (FInt acc) = Ok (FInt (acc + z))) as ->.
    { destruct Ho as [-> | ->]; cbn; unfold add64; by rewrite arith_i_ok. }
    mstep. unfold merge_all in IH. rewrite IH by done. cbn [sumZ foldr]. by rewrite Z.add_assoc.
Qed.

(** C40: merging values one after the other into an accumulator computes the
    aggregate: MAX and MIN return a
    greatest and a least of the values in the derived order, whatever their types;
    COUNT the number of values, below 2^63; SUM, and AVG before its division, the
    sum of integers as long as no partial sum overflows. *)
Theorem merge_fields_aggregates `{Profile} acc vals n zs z0 :
  (exists m, merge_all AMax acc vals = Ok m /\ m ∈ acc :: vals /\ forall v, v ∈ acc :: vals -> field_le v m) /\
  (exists m, merge_all AMin acc vals = Ok m /\ m ∈ acc :: vals /\ forall v, v ∈ acc :: vals -> field_le m v) /\
  (0 <= n -> n + Z.of_nat (length vals) < 2 ^ 63 ->
   merge_all ACount (FInt n) vals = Ok (FInt (n + Z.of_nat (length vals)))) /\
  (sums_fit z0 zs -> merge_all ASum (FInt z0) (FInt <$> zs) = Ok (FInt (z0 + sumZ zs)) /\
                     merge_all AAvg (FInt z0) (FInt <$> zs) = Ok (FInt (z0 + sumZ zs))).
Proof.
  split; [apply merge_max|]. split; [apply merge_min|]. split; [apply merge_count|].
  intros Hs. split; apply merge_sum; auto.
Qed.

Lemma merge_fields_aggregates_witness :
  merge_all (H := true) ACount (FInt 0) [FInt 5; FNull] = Ok (FInt 2) /\
  merge_all (H := true) ASum (FInt 0) [FInt 5; FInt (-2)] = Ok (FInt 3).
Proof.
  destruct (merge_fields_aggregates (H := true) FNull [FInt 5; FNull] 0 [5; -2] 0) as (_ & _ & Hc & Hs).
  split; [apply Hc; [lia|vm_compute; reflexivity]|]. apply Hs. split; [vm_compute; split; congruence|].
  split; [vm_compute; split; congruence|exact I].
Defined.

(** COUNT counts NULL like any other value; a NULL makes SUM panic. *)
Lemma sum_of_null_panics `{Profile} op n : op = ASum \/ op = AAvg -> merge_all op (FInt n) [FNull] = Panic.
Proof. by intros [-> | ->]. Qed.
