(* ===== verification/Float.v ===== *)
(** * Rounding of floating-point operations

    The relative error of conversions, quotients and products of [f64] in the
    normal range, from the definition of the operations on mantissas and
    exponents. *)

From Stdlib Require Import QArith Qpower Lqa SpecFloat.
From S2P Require Import Prelude Types.

Open Scope Z_scope.

(** ** Digits *)

Lemma digits2_bounds p : 2 ^ (Z.pos (digits2_pos p) - 1) <= Z.pos p < 2 ^ Z.pos (digits2_pos p).
Proof.
  induction p as [p IH|p IH|]; cbn [digits2_pos]; [..|cbn; lia];
    rewrite Pos2Z.inj_succ; replace (Z.succ (Z.pos (digits2_pos p)) - 1) with (Z.succ (Z.pos (digits2_pos p) - 1)) by lia;
    rewrite !Z.pow_succ_r by lia; lia.
Qed.

Lemma digits_bounds m : 0 < m -> 2 ^ (Zdigits2 m - 1) <= m < 2 ^ Zdigits2 m.
Proof. destruct m as [|p|p]; [lia| |lia]. intros _. apply digits2_bounds. Qed.

Lemma digits_positive m : 0 < m -> 0 < Zdigits2 m.
Proof. by destruct m. Qed.

Lemma digits_unique m d : 2 ^ (d - 1) <= m < 2 ^ d -> 0 < d -> Zdigits2 m = d.
Proof.
  intros Hm Hd. assert (0 < m) as H0 by (pose proof (Z.pow_pos_nonneg 2 (d - 1)); lia).
  pose proof (digits_bounds m H0) as B.
  assert (0 < Zdigits2 m) by (destruct m; cbn; lia).
  destruct (Z.lt_trichotomy (Zdigits2 m) d) as [L|[E|L]]; [|done|].
  - assert (2 ^ Zdigits2 m <= 2 ^ (d - 1)) by (apply Z.pow_le_mono_r; lia). lia.
  - assert (2 ^ d <= 2 ^ (Zdigits2 m - 1)) by (apply Z.pow_le_mono_r; lia). lia.
Qed.

(** ** Where the exact value is *)

Open Scope Q_scope.

(** The exact value [x] lies in the interval of a mantissa with its rounding bit
    and its sticky bit, [u] being the weight of the last bit of the mantissa. *)
Definition located (x u : Q) (mrs : shr_record) : Prop :=
  let a := inject_Z (shr_m mrs) * u in
  match shr_r mrs, shr_s mrs with
  | false, false => x == a
  | false, true => a < x /\ x < a + u * (1 # 2)
  | true, false => x == a + u * (1 # 2)
  | true, true => a + u * (1 # 2) < x /\ x < a + u
  end.

Lemma inject_double p : inject_Z (Z.pos p~0) == 2 * inject_Z (Z.pos p).
Proof. rewrite Pos2Z.inj_xO, inject_Z_mult. reflexivity. Qed.

Lemma inject_double_one p : inject_Z (Z.pos p~1) == 2 * inject_Z (Z.pos p) + 1.
Proof. rewrite Pos2Z.inj_xI, inject_Z_plus, inject_Z_mult. reflexivity. Qed.

Lemma shr_1_located x u mrs : 0 < u -> (0 <= shr_m mrs)%Z -> located x u mrs ->
  located x (u * 2) (shr_1 mrs) /\ (0 <= shr_m (shr_1 mrs))%Z.
Proof.
  destruct mrs as [m r s]. unfold located. cbn [shr_m shr_r shr_s]. intros Hu Hm L.
  assert (forall p, inject_Z (Z.pos p~0) * u == 2 * (inject_Z (Z.pos p) * u)) as E0
    by (intros p; rewrite inject_double; ring).
  assert (forall p, inject_Z (Z.pos p~1) * u == 2 * (inject_Z (Z.pos p) * u) + u) as E1
    by (intros p; rewrite inject_double_one; ring).
  assert (forall q, q * (u * 2) == 2 * (q * u)) as E2 by (intros q; ring).
  destruct m as [|[p|p|]|p]; [| | | |lia]; (split; [|cbn; lia]); cbn [shr_1 shr_m shr_r shr_s];
    try (specialize (E0 p); specialize (E1 p); specialize (E2 (inject_Z (Z.pos p)))); try specialize (E2 0);
    change (inject_Z 0) with 0 in *; change (inject_Z 1) with 1 in *;
    destruct r, s; cbn [orb] in *; try split; lra.
Qed.

Lemma pow2_double (p : positive) : inject_Z (2 ^ Z.pos p) * inject_Z (2 ^ Z.pos p) == inject_Z (2 ^ Z.pos p~0).
Proof. rewrite <- inject_Z_mult, <- Z.pow_add_r by lia. by replace (Z.pos p + Z.pos p)%Z with (Z.pos p~0) by lia. Qed.

Lemma pow2_Q_pos n : (0 <= n)%Z -> 0 < inject_Z (2 ^ n).
Proof. intros Hn. change 0 with (inject_Z 0). rewrite <- Zlt_Qlt. by apply Z.pow_pos_nonneg. Qed.

Lemma located_ext x u u' mrs : u == u' -> located x u mrs -> located x u' mrs.
Proof. intros E. unfold located. destruct mrs as [m [] []]; cbn [shr_m shr_r shr_s]; by rewrite E. Qed.

Lemma shr_located x p : forall u mrs, 0 < u -> (0 <= shr_m mrs)%Z -> located x u mrs ->
  located x (u * inject_Z (2 ^ Z.pos p)) (iter_pos shr_1 p mrs) /\ (0 <= shr_m (iter_pos shr_1 p mrs))%Z.
Proof.
  induction p as [p IH|p IH|]; intros u mrs Hu Hm L; cbn [iter_pos].
  - destruct (shr_1_located x u mrs Hu Hm L) as [L1 M1].
    pose proof (pow2_Q_pos (Z.pos p) ltac:(lia)) as Hp.
    destruct (IH (u * 2) _ ltac:(lra) M1 L1) as [L2 M2].
    destruct (IH (u * 2 * inject_Z (2 ^ Z.pos p)) _ ltac:(apply Qmult_lt_0_compat; lra) M2 L2) as [L3 M3].
    split; [|done]. eapply located_ext; [|exact L3].
    rewrite <- Qmult_assoc, pow2_double. rewrite <- Qmult_assoc. f_equiv.
    rewrite (Pos2Z.inj_xI p), Z.add_1_r, Z.pow_succ_r, inject_Z_mult by lia. reflexivity.
  - pose proof (pow2_Q_pos (Z.pos p) ltac:(lia)) as Hp.
    destruct (IH u _ Hu Hm L) as [L2 M2].
    destruct (IH (u * inject_Z (2 ^ Z.pos p)) _ ltac:(apply Qmult_lt_0_compat; lra) M2 L2) as [L3 M3].
    split; [|done]. eapply located_ext; [|exact L3]. by rewrite <- Qmult_assoc, pow2_double.
  - apply shr_1_located; assumption.
Qed.

(** ** Weights *)

(** The weight of a unit at an exponent, and the relative error of one rounding. *)
Definition pw (e : Z) : Q := (2 # 1) ^ e.
Definition eps : Q := 1 # 9007199254740992.

Lemma pw_pos e : 0 < pw e.
Proof. apply Qpower_0_lt. reflexivity. Qed.

Lemma pw_shift e n : (0 <= n)%Z -> pw (e + n) == pw e * inject_Z (2 ^ n).
Proof.
  intros Hn. unfold pw. rewrite Qpower_plus by discriminate. f_equiv.
  rewrite Zpower_Qpower by done. reflexivity.
Qed.

Lemma pw_0 : pw 0 == 1.
Proof. reflexivity. Qed.

Lemma shr_1_div mrs : (0 <= shr_m mrs)%Z -> shr_m (shr_1 mrs) = (shr_m mrs / 2)%Z.
Proof.
  rewrite <- Z.div2_div. destruct mrs as [[|[p|p|]|p] r s]; cbn [shr_m]; [done..|lia].
Qed.

Lemma shr_div p : forall mrs, (0 <= shr_m mrs)%Z ->
  shr_m (iter_pos shr_1 p mrs) = (shr_m mrs / 2 ^ Z.pos p)%Z.
Proof.
  assert (forall n mrs, (0 <= n)%Z -> (0 <= shr_m mrs)%Z -> (0 <= shr_m mrs / 2 ^ n)%Z) as Hd.
  { intros n mrs Hn Hm. apply Z.div_pos; [done|]. by apply Z.pow_pos_nonneg. }
  induction p as [p IH|p IH|]; intros mrs Hm; cbn [iter_pos].
  - pose proof (shr_1_div mrs Hm) as E1. assert (0 <= shr_m (shr_1 mrs))%Z as H1 by (rewrite E1; apply (Hd 1%Z); lia).
    rewrite IH by (rewrite IH by done; apply Hd; [lia|done]). rewrite IH, E1 by done.
    rewrite !Z.div_div by lia. f_equal. rewrite <- Z.pow_add_r, <- Z.pow_succ_r by lia. f_equal. lia.
  - rewrite IH by (rewrite IH by done; apply Hd; [lia|done]). rewrite IH by done.
    rewrite Z.div_div by lia. rewrite <- Z.pow_add_r by lia. do 2 f_equal. lia.
  - rewrite shr_1_div by done. reflexivity.
Qed.

(** ** One rounding *)

Abbreviation round64 := (binary_round_aux 53 1024 false).

Lemma fexp_normal e : (-1021 <= e)%Z -> fexp 53 1024 e = (e - 53)%Z.
Proof. intros He. unfold fexp, emin. lia. Qed.

(** A mantissa of at most 53 bits needs no shift. *)
Lemma shr_fexp_id m e l : (0 < m)%Z -> (Zdigits2 m <= 53)%Z -> (-1021 <= Zdigits2 m + e)%Z ->
  shr_fexp 53 1024 m e l = (shr_record_of_loc m l, e).
Proof.
  intros Hm Hd He. unfold shr_fexp. rewrite fexp_normal by lia.
  destruct (Zdigits2 m + e - 53 - e)%Z eqn:E; [done|lia|done].
Qed.

Lemma shr_m_of_loc m l : shr_m (shr_record_of_loc m l) = m.
Proof. by destruct l as [|[]]. Qed.

Lemma loc_of_record m l : loc_of_shr_record (shr_record_of_loc m l) = l.
Proof. by destruct l as [|[]]. Qed.

(** The nearest mantissa, ties to even. *)
Lemma nearest_error x u mrs : 0 < u -> (0 <= shr_m mrs)%Z -> located x u mrs ->
  let m1 := round_nearest_even (shr_m mrs) (loc_of_shr_record mrs) in
  (shr_m mrs <= m1 <= shr_m mrs + 1)%Z /\
  - (u * (1 # 2)) <= inject_Z m1 * u - x /\ inject_Z m1 * u - x <= u * (1 # 2).
Proof.
  intros Hu Hm L. assert (inject_Z (shr_m mrs + 1) * u == inject_Z (shr_m mrs) * u + u) as E
    by (rewrite inject_Z_plus; ring).
  destruct mrs as [m [] []]; unfold located in L; cbn [shr_m shr_r shr_s loc_of_shr_record round_nearest_even] in *;
    try (destruct (Z.even m)); (split; [lia|]); split; lra.
Qed.

(** [y] is [x] up to one rounding. *)
Definition near (x y : Q) : Prop := - (x * eps) <= y - x /\ y - x <= x * eps.

Lemma near_refl x : 0 <= x -> near x x.
Proof. intros Hx. unfold near, eps. split; lra. Qed.

(** The rounding of a mantissa of exactly 53 bits. *)
Lemma round_53 x mrs e : (2 ^ 52 <= shr_m mrs < 2 ^ 53)%Z -> (-1074 <= e <= 947)%Z -> located x (pw e) mrs ->
  exists m e', 
    (let '(mrs'', e'') := shr_fexp 53 1024 (round_nearest_even (shr_m mrs) (loc_of_shr_record mrs)) e loc_Exact in
     match shr_m mrs'' with
     | Z0 => S754_zero false
     | Zpos m => if Z.leb e'' (Z.sub 1024 53) then S754_finite false m e'' else S754_infinity false
     | _ => S754_nan
     end) = S754_finite false m e' /\ (e <= e' <= e + 1)%Z /\ near x (inject_Z (Z.pos m) * pw e') /\
    Zdigits2 (Z.pos m) = 53%Z.
Proof.
  intros Hm He L. pose proof (pw_pos e) as Hu.
  destruct (nearest_error x (pw e) mrs Hu ltac:(lia) L) as (B & E1 & E2).
  set (m1 := round_nearest_even _ _) in *.
  assert (inject_Z (2 ^ 52) * pw e <= x) as Hx.
  { assert (inject_Z (2 ^ 52) <= inject_Z (shr_m mrs)) as Hle by (rewrite <- Zle_Qle; lia).
    apply (Qmult_le_compat_r _ _ (pw e)) in Hle; [|lra].
    revert L. unfold located. destruct (shr_r mrs), (shr_s mrs); lra. }
  assert (near x (inject_Z m1 * pw e)) as N.
  { unfold near, eps. change (inject_Z (2 ^ 52)) with (4503599627370496 # 1) in Hx. split; lra. }
  destruct (Z.eq_dec m1 (2 ^ 53)%Z) as [E|Hne].
  - rewrite E. replace (shr_fexp 53 1024 (2 ^ 53)%Z e loc_Exact) with (shr_1 (Build_shr_record (2 ^ 53)%Z false false), (e + 1)%Z).
    + cbn [shr_1]. change (2 ^ 53)%Z with (Z.pos 9007199254740992). cbn [shr_1 shr_m].
      rewrite (proj2 (Z.leb_le (e + 1) (1024 - 53))) by lia.
      eexists _, _. split; [reflexivity|]. split; [lia|]. split; [|reflexivity].
      rewrite E in N. revert N. unfold near. rewrite pw_shift by lia.
      change (inject_Z (2 ^ 53)) with (9007199254740992 # 1).
      change (inject_Z (Z.pos 4503599627370496)) with (4503599627370496 # 1).
      change (inject_Z (2 ^ 1)) with (2 # 1). lra.
    + unfold shr_fexp. change (Zdigits2 (2 ^ 53)%Z) with 54%Z. rewrite fexp_normal by lia.
      replace (54 + e - 53 - e)%Z with 1%Z by lia. reflexivity.
  - assert (Zdigits2 m1 = 53%Z) as D by (apply digits_unique; cbn; lia).
    rewrite shr_fexp_id by lia. rewrite shr_m_of_loc. destruct m1 as [|p|p] eqn:Ep; [lia| |lia].
    rewrite (proj2 (Z.leb_le e (1024 - 53))) by lia. eexists _, _. split; [reflexivity|]. split; [lia|done].
Qed.

Lemma round_aux_near x mx ex lx : (0 < mx)%Z -> located x (pw ex) (shr_record_of_loc mx lx) ->
  lx = loc_Exact \/ (53 <= Zdigits2 mx)%Z -> (-1021 <= Zdigits2 mx + ex <= 1000)%Z -> (ex <= 900)%Z ->
  exists m e, round64 mx ex lx = S754_finite false m e /\ near x (inject_Z (Z.pos m) * pw e) /\
    (Zdigits2 (Z.pos m) <= 53)%Z /\ (ex <= e <= ex + Z.max 0 (Zdigits2 mx - 53) + 1)%Z.
Proof.
  intros Hm L Hl Hd Hex. unfold binary_round_aux. pose proof (digits_bounds mx Hm) as B.
  destruct (Z.lt_trichotomy (Zdigits2 mx) 53) as [Hs|[He|Hg]].
  - destruct Hl as [->|Hl]; [|lia]. rewrite shr_fexp_id by lia. rewrite loc_of_record, shr_m_of_loc.
    cbn [round_nearest_even]. rewrite shr_fexp_id by lia. rewrite shr_m_of_loc.
    destruct mx as [|p|p]; [lia| |lia]. rewrite (proj2 (Z.leb_le ex (1024 - 53))) by lia.
    eexists _, _. split; [reflexivity|]. split; [|split; lia]. unfold located in L. cbn [shr_record_of_loc shr_m shr_r shr_s] in L.
    assert (0 < inject_Z (Z.pos p) * pw ex) by (apply Qmult_lt_0_compat; [reflexivity|apply pw_pos]).
    unfold near, eps. split; lra.
  - rewrite shr_fexp_id by lia. rewrite He in B.
    destruct (round_53 x (shr_record_of_loc mx lx) ex) as (m & e & E & Hee & N & D);
      [rewrite shr_m_of_loc; cbn in B |- *; lia|lia|done|].
    exists m, e. split; [exact E|]. split; [done|]. split; lia.
  - unfold shr_fexp at 1. rewrite fexp_normal by lia.
    replace (Zdigits2 mx + ex - 53 - ex)%Z with (Zdigits2 mx - 53)%Z by lia.
    destruct (Zdigits2 mx - 53)%Z as [|p|p] eqn:Ep; [lia| |lia]. cbn [shr].
    destruct (shr_located x p (pw ex) (shr_record_of_loc mx lx) (pw_pos ex) ltac:(rewrite shr_m_of_loc; lia) L) as [L1 _].
    assert (Z.pos p = Zdigits2 mx - 53)%Z as Hp by lia.
    destruct (round_53 x (iter_pos shr_1 p (shr_record_of_loc mx lx)) (ex + Z.pos p)) as (m & e & E & Hee & N & D).
    + rewrite shr_div, shr_m_of_loc by (rewrite shr_m_of_loc; lia).
      replace (Zdigits2 mx) with (53 + Z.pos p)%Z in B by lia.
      replace (53 + Z.pos p - 1)%Z with (52 + Z.pos p)%Z in B by lia. rewrite !Z.pow_add_r in B by lia.
      assert (0 < 2 ^ Z.pos p)%Z by (apply Z.pow_pos_nonneg; lia).
      split; [apply Z.div_le_lower_bound|apply Z.div_lt_upper_bound]; lia.
    + lia.
    + eapply located_ext; [|exact L1]. by rewrite pw_shift by lia.
    + exists m, e. split; [exact E|]. split; [done|]. split; lia.
Qed.

(** ** Operations *)

(** The float is positive and has the value [v]; its exponent is in the bounds. *)
Definition float_at (x : f64) (v : Q) (lo hi : Z) : Prop :=
  exists m e, x = S754_finite false m e /\ v == inject_Z (Z.pos m) * pw e /\
    (Zdigits2 (Z.pos m) <= 53)%Z /\ (lo <= e <= hi)%Z.

Lemma digits_pos_pos p : (0 < Zdigits2 (Z.pos p))%Z.
Proof. reflexivity. Qed.

Lemma float_at_pos x v lo hi : float_at x v lo hi -> 0 < v.
Proof. intros (m & e & _ & -> & _). apply Qmult_lt_0_compat; [reflexivity|apply pw_pos]. Qed.

Lemma digits_shiftl m n : (0 < m)%Z -> (0 <= n)%Z -> Zdigits2 (m * 2 ^ n) = (Zdigits2 m + n)%Z.
Proof.
  intros Hm Hn. pose proof (digits_bounds m Hm) as B. pose proof (digits_positive m Hm).
  apply digits_unique; [|lia]. replace (Zdigits2 m + n - 1)%Z with (Zdigits2 m - 1 + n)%Z by lia.
  rewrite !Z.pow_add_r by lia. assert (0 < 2 ^ n)%Z by (by apply Z.pow_pos_nonneg). nia.
Qed.

Lemma iter_xO p d : Z.pos (Pos.iter xO p d) = (Z.pos p * 2 ^ Z.pos d)%Z.
Proof.
  induction d as [|d IH] using Pos.peano_ind; [cbn; lia|].
  rewrite Pos.iter_succ, Pos2Z.inj_xO, IH, Pos2Z.inj_succ, Z.pow_succ_r by lia. lia.
Qed.

(** An integer of at most 53 bits is converted exactly. *)
Lemma f64_of_int_exact n : (0 < n < 2 ^ 53)%Z -> float_at (f64_of_i64 n) (inject_Z n) (-52) 0.
Proof.
  intros Hn. destruct n as [|p|p]; [lia| |lia]. unfold f64_of_i64. cbn [binary_normalize]. unfold binary_round.
  pose proof (digits_bounds (Z.pos p) ltac:(lia)) as B. cbn [Zdigits2] in B.
  set (d := Z.pos (digits2_pos p)) in *. assert (0 < d)%Z by done.
  assert (d <= 53)%Z as Hd.
  { destruct (Z.le_gt_cases d 53); [done|]. assert (2 ^ 53 <= 2 ^ (d - 1))%Z by (apply Z.pow_le_mono_r; lia). lia. }
  rewrite fexp_normal by lia. unfold shl_align.
  assert (exists mz ez, match (d + 0 - 53 - 0)%Z with Z.neg d0 => (Pos.iter xO p d0, (d + 0 - 53)%Z) | _ => (p, 0%Z) end
            = (mz, ez) /\ Z.pos mz = (Z.pos p * 2 ^ (53 - d))%Z /\ ez = (d - 53)%Z) as (mz & ez & -> & Em & ->).
  { destruct (d + 0 - 53 - 0)%Z as [|k|k] eqn:Ek; [|lia|].
    - exists p, 0%Z. replace (53 - d)%Z with 0%Z by lia. split_and!; [done|lia|lia].
    - eexists _, _. split; [reflexivity|]. rewrite iter_xO. split; [|lia]. do 2 f_equal. lia. }
  assert (Zdigits2 (Z.pos mz) = 53%Z) as Dz.
  { rewrite Em, digits_shiftl by lia. change (Zdigits2 (Z.pos p)) with d. lia. }
  unfold binary_round_aux. rewrite shr_fexp_id by lia. rewrite loc_of_record, shr_m_of_loc. cbn [round_nearest_even].
  rewrite shr_fexp_id by lia. rewrite shr_m_of_loc, (proj2 (Z.leb_le _ (1024 - 53))) by lia.
  eexists mz, _. split; [reflexivity|]. split; [|lia].
  rewrite Em, inject_Z_mult. rewrite <- Qmult_assoc, (Qmult_comm (inject_Z (2 ^ _))), <- pw_shift by lia.
  replace (d - 53 + (53 - d))%Z with 0%Z by lia. rewrite pw_0. ring.
Qed.

Lemma digits_mul a b : (0 < a)%Z -> (0 < b)%Z ->
  (Zdigits2 a + Zdigits2 b - 1 <= Zdigits2 (a * b) <= Zdigits2 a + Zdigits2 b)%Z.
Proof.
  intros Ha Hb. pose proof (digits_bounds a Ha) as A. pose proof (digits_bounds b Hb) as B.
  pose proof (digits_positive a Ha). pose proof (digits_positive b Hb). assert (0 < a * b)%Z as Hab by lia.
  pose proof (digits_bounds (a * b) Hab) as C. pose proof (digits_positive (a * b) Hab).
  assert (2 ^ (Zdigits2 a - 1 + (Zdigits2 b - 1)) <= a * b)%Z as L by (rewrite Z.pow_add_r by lia; nia).
  assert (a * b < 2 ^ (Zdigits2 a + Zdigits2 b))%Z as U by (rewrite Z.pow_add_r by lia; nia).
  assert (2 ^ (Zdigits2 a - 1 + (Zdigits2 b - 1)) < 2 ^ Zdigits2 (a * b))%Z as L' by (eapply Z.le_lt_trans; [exact L|apply C]).
  assert (2 ^ (Zdigits2 (a * b) - 1) < 2 ^ (Zdigits2 a + Zdigits2 b))%Z as U' by (eapply Z.le_lt_trans; [apply C|exact U]).
  apply Z.pow_lt_mono_r_iff in L', U'; lia.
Qed.

Lemma f64_mul_near x y v w lo hi lo' hi' :
  float_at x v lo hi -> float_at y w lo' hi' -> (-300 <= lo)%Z -> (hi <= 300)%Z -> (-300 <= lo')%Z -> (hi' <= 300)%Z ->
  exists r, float_at (f64_mul x y) r (lo + lo') (hi + hi' + 54) /\ near (v * w) r.
Proof.
  intros (m & e & -> & Hv & Dm & He) (m' & e' & -> & Hw & Dm' & He') ????.
  unfold f64_mul. cbn [SFmul xorb].
  pose proof (digits_mul (Z.pos m) (Z.pos m') ltac:(lia) ltac:(lia)) as D.
  rewrite <- Pos2Z.inj_mul in D. pose proof (digits_pos_pos m). pose proof (digits_pos_pos m').
  destruct (round_aux_near (v * w) (Z.pos (m * m')) (e + e') loc_Exact) as (r & er & E & N & Dr & Her);
    [lia| |by left|lia|lia|].
  - unfold located. cbn [shr_record_of_loc shr_m shr_r shr_s]. rewrite Hv, Hw, Pos2Z.inj_mul, inject_Z_mult.
    unfold pw. rewrite Qpower_plus by discriminate. ring.
  - exists (inject_Z (Z.pos r) * pw er). split; [|done]. exists r, er. split; [exact E|]. split; [reflexivity|].
    split; [done|]. lia.
Qed.

(** The remainder of an integer division locates the quotient. *)
Section Location.
Context (x u : Q) (q r b : Z) (Hu : 0 < u) (Hr : (0 <= r < b)%Z).
Context (E : x * inject_Z b == inject_Z (q * b + r) * u).

Lemma scaled_lt (m n : Z) : (m < n)%Z -> inject_Z m * u < inject_Z n * u.
Proof. intros Hmn. apply Qmult_lt_r; [done|]. by rewrite <- Zlt_Qlt. Qed.

Lemma quotient_product : x * inject_Z b == inject_Z q * u * inject_Z b + inject_Z r * u.
Proof. rewrite E, inject_Z_plus, inject_Z_mult. ring. Qed.

Lemma divisor_pos : 0 < inject_Z b.
Proof. change 0 with (inject_Z 0). rewrite <- Zlt_Qlt. lia. Qed.

Lemma above a : a * inject_Z b < x * inject_Z b -> a < x.
Proof. apply Qmult_lt_r, divisor_pos. Qed.

Lemma under a : x * inject_Z b < a * inject_Z b -> x < a.
Proof. apply Qmult_lt_r, divisor_pos. Qed.

Lemma double_scaled : inject_Z (2 * r) * u == 2 * (inject_Z r * u).
Proof. rewrite inject_Z_mult. change (inject_Z 2) with 2. ring. Qed.

Lemma location_lt : (0 < r)%Z -> (2 * r < b)%Z -> located x u (shr_record_of_loc q (loc_Inexact Lt)).
Proof.
  intros H0 H1. apply scaled_lt in H0, H1. rewrite double_scaled in H1. change (inject_Z 0 * u) with (0 * u) in H0.
  pose proof quotient_product as P. unfold located. cbn. split; [apply above|apply under]; lra.
Qed.

Lemma location_gt : (b < 2 * r)%Z -> located x u (shr_record_of_loc q (loc_Inexact Gt)).
Proof.
  intros H1. assert (r < b)%Z as H2 by lia. apply scaled_lt in H1, H2. rewrite double_scaled in H1.
  pose proof quotient_product as P. unfold located. cbn. split; [apply above|apply under]; lra.
Qed.

Lemma location_eq : (2 * r = b)%Z -> located x u (shr_record_of_loc q (loc_Inexact Eq)).
Proof.
  intros H1. assert (2 * (inject_Z r * u) == inject_Z b * u) as H2 by (rewrite <- double_scaled, H1; reflexivity).
  pose proof quotient_product as P. pose proof divisor_pos. unfold located. cbn.
  apply (Qmult_inj_r _ _ (inject_Z b)); lra.
Qed.

Lemma location_exact : (r = 0)%Z -> located x u (shr_record_of_loc q loc_Exact).
Proof.
  intros H1. pose proof quotient_product as P. rewrite H1 in P. change (inject_Z 0) with 0 in P.
  pose proof divisor_pos. unfold located. cbn. apply (Qmult_inj_r _ _ (inject_Z b)); lra.
Qed.

Lemma new_location_ok : located x u (shr_record_of_loc q (new_location b r)).
Proof.
  unfold new_location, new_location_even, new_location_odd.
  destruct (Z.even b) eqn:Ev; destruct (Z.eqb_spec r 0) as [Hz|Hz]; try by apply location_exact.
  - destruct (Z.compare_spec (2 * r) b); [by apply location_eq|apply location_lt; lia|by apply location_gt].
  - assert (2 * r <> b)%Z by (intros <-; by rewrite Z.even_mul in Ev).
    destruct (Z.compare_spec (2 * r + 1) b); [apply location_lt; lia..|apply location_gt; lia].
Qed.
End Location.

(** The scaled quotient has 53 or 54 bits. *)
Lemma quotient_digits a b d q r : (2 ^ (52 + d) <= a < 2 ^ (53 + d))%Z -> (2 ^ (d - 1) <= b < 2 ^ d)%Z -> (0 < d)%Z ->
  a = (b * q + r)%Z -> (0 <= r < b)%Z -> (0 < q /\ 53 <= Zdigits2 q <= 54)%Z.
Proof.
  intros Ha Hb Hd Eq Hr. rewrite !Z.pow_add_r in Ha by lia.
  assert (2 ^ d = 2 * 2 ^ (d - 1))%Z as E2 by (rewrite <- Z.pow_succ_r by lia; f_equal; lia).
  assert (0 < 2 ^ (d - 1))%Z by (apply Z.pow_pos_nonneg; lia).
  assert (2 ^ 52 <= q < 2 ^ 54)%Z as Hq by nia. split; [lia|].
  pose proof (digits_positive q ltac:(lia)) as Hp. pose proof (digits_bounds q ltac:(lia)) as B.
  assert (2 ^ 52 < 2 ^ Zdigits2 q)%Z as L by lia. assert (2 ^ (Zdigits2 q - 1) < 2 ^ 54)%Z as U by lia.
  apply Z.pow_lt_mono_r_iff in L, U; lia.
Qed.

Lemma f64_div_near x y v w lo hi lo' hi' :
  float_at x v lo hi -> float_at y w lo' hi' -> (-300 <= lo)%Z -> (hi <= 300)%Z -> (-300 <= lo')%Z -> (hi' <= 300)%Z ->
  exists r, float_at (f64_div x y) r (lo - hi' - 105) (hi - lo' + 10) /\ near (v / w) r.
Proof.
  intros (m & e & -> & Hv & Dm & He) (m' & e' & -> & Hw & Dm' & He') ????.
  unfold f64_div. cbn [SFdiv xorb]. unfold SFdiv_core_binary.
  pose proof (digits_pos_pos m) as D0. pose proof (digits_pos_pos m') as D0'.
  pose proof (digits_bounds (Z.pos m) ltac:(lia)) as B. pose proof (digits_bounds (Z.pos m') ltac:(lia)) as B'.
  set (d := Zdigits2 (Z.pos m)) in *. set (d' := Zdigits2 (Z.pos m')) in *.
  rewrite fexp_normal by lia.
  replace (Z.min (d + e - (d' + e') - 53) (e - e')) with (d + e - (d' + e') - 53)%Z by lia.
  set (ez := (d + e - (d' + e') - 53)%Z). replace (e - e' - ez)%Z with (53 - d + d')%Z by lia.
  destruct (53 - d + d')%Z as [|s|s] eqn:Es; [lia| |lia].
  rewrite Z.shiftl_mul_pow2 by lia.
  pose proof (Z_div_mod (Z.pos m * 2 ^ Z.pos s) (Z.pos m') ltac:(lia)) as DM.
  destruct (Z.div_eucl (Z.pos m * 2 ^ Z.pos s) (Z.pos m')) as [q r]. destruct DM as [Eq Hr].
  assert (Z.pos s + d = 53 + d')%Z as Esd by lia.
  destruct (quotient_digits (Z.pos m * 2 ^ Z.pos s) (Z.pos m') d' q r) as [Hq Dq]; [|done..|].
  { replace (52 + d')%Z with (d - 1 + Z.pos s)%Z by lia. replace (53 + d')%Z with (d + Z.pos s)%Z by lia.
    rewrite !Z.pow_add_r by lia. assert (0 < 2 ^ Z.pos s)%Z by (apply Z.pow_pos_nonneg; lia). nia. }
  destruct (round_aux_near (v / w) q ez (new_location (Z.pos m') r)) as (k & ek & E & N & Dk & Hek);
    [done| |right; lia|lia|lia|].
  - apply new_location_ok; [apply pw_pos|done|]. pose proof (pw_pos e') as P'.
    assert (~ pw e' == 0) by lra. assert (~ inject_Z (Z.pos m') == 0) by discriminate.
    replace (q * Z.pos m' + r)%Z with (Z.pos m * 2 ^ Z.pos s)%Z by lia.
    rewrite Hv, Hw, inject_Z_mult.
    assert (pw e == pw e' * (inject_Z (2 ^ Z.pos s) * pw ez)) as Ep.
    { rewrite (Qmult_comm (inject_Z _)), <- pw_shift by lia. unfold pw. rewrite <- Qpower_plus by discriminate.
      replace (e' + (ez + Z.pos s))%Z with e by lia. reflexivity. }
    rewrite Ep. field. split; assumption.
  - exists (inject_Z (Z.pos k) * pw ek). split; [|done]. exists k, ek. split; [exact E|]. split; [reflexivity|].
    split; [done|lia].
Qed.

(** ** Rounding to an integer *)

(** [x as usize]: truncation, saturating, [NaN] to 0. *)
Definition f64_as_u64 (x : f64) : Z :=
  match x with
  | S754_zero _ | S754_nan => 0%Z
  | S754_infinity s => if s then 0%Z else (2 ^ 64 - 1)%Z
  | S754_finite s m e =>
      let n := if (0 <=? e)%Z then (Z.pos m * 2 ^ e)%Z else (Z.pos m / 2 ^ (- e))%Z in
      if s then 0%Z else Z.min (2 ^ 64 - 1) n
  end.

Lemma f64_as_int_exact n : (0 <= n < 2 ^ 53)%Z -> f64_as_u64 (f64_of_i64 n) = n.
Proof.
  intros Hn. destruct (Z.eq_dec n 0%Z) as [->|Hn0]; [reflexivity|].
  destruct (f64_of_int_exact n ltac:(lia)) as (m & e & -> & Ev & _ & He). unfold f64_as_u64.
  assert (Z.pos m = n * 2 ^ (- e))%Z as Em.
  { apply inject_Z_injective. rewrite inject_Z_mult, Ev. rewrite <- Qmult_assoc, <- pw_shift by lia.
    replace (e + - e)%Z with 0%Z by lia. rewrite pw_0. ring. }
  rewrite Em. destruct (Z.leb_spec 0 e) as [H0|H0].
  - replace e with 0%Z by lia. cbn. lia.
  - rewrite Z.div_mul by (pose proof (Z.pow_pos_nonneg 2 (- e)); lia). lia.
Qed.

Lemma round_half_up_floor m e : let n := round_half_up m e in
  inject_Z n <= inject_Z (Z.pos m) * pw e + (1 # 2) /\ inject_Z (Z.pos m) * pw e + (1 # 2) < inject_Z (n + 1).
Proof.
  cbv zeta. unfold round_half_up. destruct (Z.leb_spec 0 e) as [H0|H0].
  - rewrite inject_Z_plus, inject_Z_mult. change (inject_Z 1) with 1.
    assert (pw e == inject_Z (2 ^ e)) as -> by (unfold pw; by rewrite Zpower_Qpower). split; lra.
  - assert (0 < 2 ^ (1 - e))%Z as Hp by (apply Z.pow_pos_nonneg; lia).
    pose proof (Z.div_mod (2 * Z.pos m + 2 ^ (- e)) (2 ^ (1 - e)) ltac:(lia)) as DM.
    pose proof (Z.mod_pos_bound (2 * Z.pos m + 2 ^ (- e)) (2 ^ (1 - e)) Hp) as MB.
    set (n := ((2 * Z.pos m + 2 ^ (- e)) / 2 ^ (1 - e))%Z) in *.
    assert (pw e * inject_Z (2 ^ (- e)) == 1) as P1 by (rewrite <- pw_shift by lia; replace (e + - e)%Z with 0%Z by lia; apply pw_0).
    assert (2 ^ (1 - e) = 2 * 2 ^ (- e))%Z as E2 by (rewrite <- Z.pow_succ_r by lia; f_equal; lia).
    rewrite E2 in DM, MB. set (k := (2 ^ (- e))%Z) in *. pose proof (pw_pos e) as Hu.
    assert (2 * k * n <= 2 * Z.pos m + k)%Z as A1 by lia. assert (2 * Z.pos m + k < 2 * k * (n + 1))%Z as A2 by lia.
    rewrite Zle_Qle in A1. rewrite Zlt_Qlt in A2.
    rewrite !inject_Z_plus, !inject_Z_mult in A1, A2. rewrite inject_Z_plus in A2 |- *.
    change (inject_Z 2) with 2 in *. change (inject_Z 1) with 1 in *.
    set (M := inject_Z (Z.pos m)) in *. set (N := inject_Z n) in *. set (K := inject_Z k) in *.
    apply (Qmult_le_compat_r _ _ (pw e)) in A1; [|lra]. apply (Qmult_lt_r _ _ (pw e) Hu) in A2.
    assert (K * pw e == 1) as P2 by (rewrite Qmult_comm; exact P1).
    assert (2 * K * N * pw e == 2 * N) as P3 by (rewrite <- (Qmult_1_r (2 * N)), <- P2; ring).
    assert (2 * K * (N + 1) * pw e == 2 * N + 2) as P4
      by (transitivity (2 * (N + 1) * (K * pw e)); [ring|rewrite P2; ring]).
    split; lra.
Qed.

(** Rounding a float to an integer and converting it. *)
Lemma round_as_int x v lo hi : float_at x v lo hi -> v < inject_Z (2 ^ 52) ->
  exists n, f64_as_u64 (f64_round x) = n /\ (0 <= n)%Z /\
    inject_Z n <= v + (1 # 2) /\ v + (1 # 2) < inject_Z (n + 1).
Proof.
  intros F Hv. pose proof (float_at_pos x v lo hi F) as Hp. destruct F as (m & e & -> & Ev & _).
  destruct (round_half_up_floor m e) as [A B]. rewrite <- Ev in A, B.
  cbn [f64_round]. set (n := round_half_up m e) in *. exists n.
  assert (0 <= n)%Z as Hn.
  { enough (-1 < n)%Z by lia. rewrite Zlt_Qlt. rewrite inject_Z_plus in B. change (inject_Z 1) with 1 in B.
    change (inject_Z (-1)) with (-1). lra. }
  assert (n < 2 ^ 53)%Z as Hlt.
  { rewrite Zlt_Qlt. change (inject_Z (2 ^ 52)) with (4503599627370496 # 1) in Hv.
    change (inject_Z (2 ^ 53)) with (9007199254740992 # 1). lra. }
  split; [|done]. change (binary_normalize 53 1024 n 0 false) with (f64_of_i64 n).
  by apply f64_as_int_exact.
Qed.

(** ** A scaled count

    [(k as f64 / n as f64 * total as f64).round() as usize] *)
Definition scaled_count (k n total : Z) : Z :=
  f64_as_u64 (f64_round (f64_mul (f64_div (f64_of_i64 k) (f64_of_i64 n)) (f64_of_i64 total))).

Lemma inject_pos z : (0 < z)%Z -> 0 < inject_Z z.
Proof. intros Hz. change 0 with (inject_Z 0). by rewrite <- Zlt_Qlt. Qed.

(** Two roundings move a value below [2^50] by less than a half. *)
Lemma two_roundings a t r1 r2 : 0 < a -> 0 < t -> a * t <= inject_Z (2 ^ 50) ->
  near a r1 -> near (r1 * t) r2 -> a * t - (3 # 8) <= r2 /\ r2 <= a * t + (3 # 8).
Proof.
  unfold near, eps. change (inject_Z (2 ^ 50)) with (1125899906842624 # 1). intros Ha Ht Hb [L1 U1] [L2 U2].
  apply (Qmult_le_compat_r _ _ t) in L1, U1; [|lra..].
  assert (0 < a * t) by (by apply Qmult_lt_0_compat). split; lra.
Qed.

(** The estimate is the exact proportion up to less than one. *)
Lemma scaled_count_near k n total : (0 <= k <= n)%Z -> (0 < n < 2 ^ 50)%Z -> (0 < total < 2 ^ 50)%Z ->
  let c := scaled_count k n total in
  (0 <= c)%Z /\ (n * (c - 1) < k * total < n * (c + 1))%Z.
Proof.
  intros Hk Hn Ht. cbv zeta. unfold scaled_count. destruct (Z.eq_dec k 0%Z) as [->|Hk0].
  { destruct (f64_of_int_exact n ltac:(lia)) as (m & e & -> & _).
    destruct (f64_of_int_exact total ltac:(lia)) as (m' & e' & -> & _). cbn. lia. }
  destruct (f64_div_near _ _ _ _ _ _ _ _ (f64_of_int_exact k ltac:(lia)) (f64_of_int_exact n ltac:(lia)))
    as (r1 & F1 & N1); [lia..|].
  destruct (f64_mul_near _ _ _ _ _ _ _ _ F1 (f64_of_int_exact total ltac:(lia))) as (r2 & F2 & N2); [lia..|].
  pose proof (inject_pos n ltac:(lia)) as Pn. pose proof (inject_pos k ltac:(lia)) as Pk.
  pose proof (inject_pos total ltac:(lia)) as Pt.
  assert (0 < inject_Z k / inject_Z n) as Pq by (apply Qlt_shift_div_l; lra).
  assert (inject_Z k / inject_Z n * inject_Z n == inject_Z k) as Eq by (field; lra).
  assert (inject_Z k / inject_Z n <= 1) as Q1
    by (apply Qle_shift_div_r; [done|]; rewrite Qmult_1_l, <- Zle_Qle; lia).
  set (a := inject_Z k / inject_Z n) in *. set (t := inject_Z total) in *.
  assert (t <= inject_Z (2 ^ 50)) as Ht50 by (unfold t; rewrite <- Zle_Qle; lia).
  assert (a * t <= t) as Hat by (apply (Qmult_le_compat_r a 1 t) in Q1; lra).
  destruct (two_roundings a t r1 r2 Pq Pt ltac:(lra) N1 N2) as [L U].
  change (inject_Z (2 ^ 50)) with (1125899906842624 # 1) in Ht50.
  destruct (round_as_int _ _ _ _ F2) as (c & -> & Hc & A & B).
  { change (inject_Z (2 ^ 52)) with (4503599627370496 # 1). lra. }
  split; [done|]. rewrite inject_Z_plus in B. change (inject_Z 1) with 1 in B.
  assert (inject_Z (k * total) == a * t * inject_Z n) as Ekt by (rewrite inject_Z_mult, <- Eq; fold t; ring).
  split; rewrite Zlt_Qlt, Ekt, inject_Z_mult, (Qmult_comm (inject_Z n)); apply Qmult_lt_r; try done;
    unfold Z.sub; rewrite inject_Z_plus; [change (inject_Z (- (1))) with (-1)|change (inject_Z 1) with 1]; lra.
Qed.

Lemma scaled_count_exact k n : (0 <= k <= n)%Z -> (0 < n < 2 ^ 50)%Z -> scaled_count k n n = k.
Proof. intros Hk Hn. pose proof (scaled_count_near k n n Hk Hn Hn) as [? ?]. nia. Qed.

Lemma scaled_count_bound k n total : (0 <= k <= n)%Z -> (0 < n < 2 ^ 50)%Z -> (0 < total < 2 ^ 50)%Z ->
  (0 <= scaled_count k n total <= total)%Z.
Proof. intros Hk Hn Ht. pose proof (scaled_count_near k n total Hk Hn Ht) as [? ?]. nia. Qed.
