(* ===== verification/Expr.v ===== *)
(** * Expressions: syntax trees, binding, bytecode

    [src/src/common/src/ast_expr.rs] (the expression tree and [bind_expr]),
    [bytecode_expr.rs] (the stack machine), the compiler between them
    ([convert_ast_to_bytecode] of [queryexe/src/query/planner.rs]) and the tree
    evaluator of the statistics manager ([queryexe/src/stats/mod.rs]). *)

From S2P Require Import Prelude Bytes Common Types.

(** ** Syntax ([ast_expr.rs]) *)

Inductive AstExpr :=
| ELiteral (f : Field)
| EIdent (s : string)
| EAlias (s : string) (e : AstExpr)
| EMath (op : MathOp) (l r : AstExpr)
| EBoolean (op : BooleanOp) (l r : AstExpr)
| EAgg (op : AggOp) (e : AstExpr)
| EColIdx (i : nat).

#[export] Instance AstExpr_eq_dec : EqDecision AstExpr.
Proof. solve_decision. Defined.

Fixpoint has_agg (e : AstExpr) : bool :=
  match e with
  | ELiteral _ => false
  | EIdent _ => false
  | EAlias _ e => has_agg e
  | EMath _ l r => has_agg l || has_agg r
  | EBoolean _ l r => has_agg l || has_agg r
  | EAgg _ _ => true
  | EColIdx _ => false
  end.

Definition is_agg (e : AstExpr) : bool := match e with EAgg _ _ => true | _ => false end.

Section Names.
Context `{Chrono}.

Definition binop_name (op l r : string) : string := "(" +:+ l +:+ " " +:+ op +:+ " " +:+ r +:+ ")".

Fixpoint to_name (e : AstExpr) : result string :=
  match e with
  | ELiteral v => s ← Field_display v; Ok ("Literal(" +:+ s +:+ ")")
  | EIdent n => Ok n
  | EAlias n _ => Ok n
  | EMath op l r => l ← to_name l; r ← to_name r; Ok (binop_name (MathOp_display op) l r)
  | EBoolean op l r => l ← to_name l; r ← to_name r; Ok (binop_name (BooleanOp_display op) l r)
  | EAgg op e => n ← to_name e; Ok (AggOp_display op +:+ "(" +:+ n +:+ ")")
  | EColIdx _ => Panic
  end.

Definition literal_dtype (v : Field) : DataType :=
  match v with
  | FInt _ => TInt
  | FString _ => TString
  | FDecimal _ _ => TDecimal default_decimal_precision default_decimal_scale
  | FDate _ => TDate
  | FBool _ => TBool
  | FNull => TNull
  end.

Fixpoint to_attr (e : AstExpr) (schema : TableSchema) : result Attribute :=
  match e with
  | ELiteral v => s ← to_name e; Ok (Attribute_new s (literal_dtype v))
  | EIdent n =>
      i ← unwrap_opt (get_field_index schema n);
      unwrap_opt (get_attribute schema i)
  | EAlias n e => a ← to_attr e schema; Ok (Attribute_new n (dtype a))
  | EMath op l r =>
      l ← to_attr l schema; r ← to_attr r schema;
      Ok (Attribute_new (binop_name (MathOp_display op) (name l) (name r)) (dtype l))
  | EBoolean op l r =>
      l ← to_attr l schema; r ← to_attr r schema;
      Ok (Attribute_new (binop_name (BooleanOp_display op) (name l) (name r)) TBool)
  | EAgg op e =>
      a ← to_attr e schema;
      let n := AggOp_display op +:+ "(" +:+ name a +:+ ")" in
      Ok (match op with
          | AAvg => match dtype a with
                    | TDecimal _ _ => Attribute_new n (dtype a)
                    | _ => Attribute_new n (TDecimal default_decimal_precision default_decimal_scale)
                    end
          | _ => Attribute_new n (dtype a)
          end)
  | EColIdx i => unwrap_opt (get_attribute schema i)
  end.
End Names.

(** Identifiers become column indexes and aliases disappear; an aggregate or an
    unknown identifier panics. *)
Fixpoint bind_expr (ast : AstExpr) (schema : TableSchema) : result AstExpr :=
  match ast with
  | EAgg _ _ => Panic
  | ELiteral _ => Ok ast
  | EIdent n => i ← unwrap_opt (get_field_index schema n); Ok (EColIdx i)
  | EAlias _ e => bind_expr e schema
  | EMath op l r =>
      l ← bind_expr l schema; r ← bind_expr r schema; Ok (EMath op l r)
  | EBoolean op l r =>
      l ← bind_expr l schema; r ← bind_expr r schema; Ok (EBoolean op l r)
  | EColIdx _ => Ok ast
  end.

(** ** The stack machine ([bytecode_expr.rs]) *)

Inductive ByteCodes :=
| PushLit | PushField | BcAdd | BcSub | BcMul | BcDiv
| BcEq | BcNeq | BcLt | BcGt | BcLte | BcGte | BcAnd | BcOr.

(** [code as usize] *)
Definition opcode (c : ByteCodes) : nat :=
  match c with
  | PushLit => 0 | PushField => 1 | BcAdd => 2 | BcSub => 3 | BcMul => 4 | BcDiv => 5
  | BcEq => 6 | BcNeq => 7 | BcLt => 8 | BcGt => 9 | BcLte => 10 | BcGte => 11
  | BcAnd => 12 | BcOr => 13
  end%nat.

Record ByteCodeExpr := mkBC { bytecodes : list nat; literals : list Field }.

Definition ByteCodeExpr_new : ByteCodeExpr := mkBC [] [].
Definition add_code (b : ByteCodeExpr) (code : nat) : ByteCodeExpr :=
  mkBC (bytecodes b ++ [code]) (literals b).
Definition add_literal (b : ByteCodeExpr) (l : Field) : ByteCodeExpr * nat :=
  (mkBC (bytecodes b) (literals b ++ [l]), length (literals b)).
Definition bc_is_empty (b : ByteCodeExpr) : bool := match bytecodes b with [] => true | _ => false end.

Definition colidx_expr (colidx : nat) : ByteCodeExpr :=
  add_code (add_code ByteCodeExpr_new (opcode PushField)) colidx.

(** A machine state: the position [i] and the stack, top first. *)
Definition machine : Type := nat * list Field.

(** [stack.pop().unwrap()] *)
Definition pop (stack : list Field) : result (Field * list Field) :=
  match stack with [] => Panic | x :: s => Ok (x, s) end.

(** [slice[i]] *)
Definition idx {A} (l : list A) (i : nat) : result A := unwrap_opt (l !! i).

Definition push_field (bc : list nat) (record : list Field) (m : machine) : result machine :=
  let '(i, stack) := m in
  c ← idx bc i; f ← idx record c; Ok (S i, f :: stack).

Definition push_lit (bc : list nat) (lits : list Field) (m : machine) : result machine :=
  let '(i, stack) := m in
  c ← idx bc i; f ← idx lits c; Ok (S i, f :: stack).

(** Pop the right, then the left operand, and push the result of [op]. *)
Definition binary (op : Field -> Field -> result Field) (m : machine) : result machine :=
  let '(i, stack) := m in
  '(r, stack) ← pop stack;
  '(l, stack) ← pop stack;
  f ← op l r;
  Ok (i, f :: stack).

Definition cmp (op : BooleanOp) (l r : Field) : result Field :=
  b ← compare_fields op l r; Ok (from_bool b).

Section Machine.
Context `{Profile} (bc : list nat) (lits record : list Field).

(** [STATIC_DISPATCHER[opcode](..)]: an opcode out of the table panics. *)
Definition dispatch (op : nat) (m : machine) : result machine :=
  match op with
  | 0 => push_lit bc lits m
  | 1 => push_field bc record m
  | 2 => binary (fun l r => unwrap (Field_add l r)) m
  | 3 => binary (fun l r => unwrap (Field_sub l r)) m
  | 4 => binary (fun l r => unwrap (Field_mul l r)) m
  | 5 => binary (fun l r => unwrap (Field_div l r)) m
  | 6 => binary (cmp BEq) m
  | 7 => binary (cmp BNeq) m
  | 8 => binary (cmp BLt) m
  | 9 => binary (cmp BGt) m
  | 10 => binary (cmp BLte) m
  | 11 => binary (cmp BGte) m
  | 12 => binary Field_and m
  | 13 => binary Field_or m
  | _ => Panic
  end%nat.

(** [while i < bytecodes.len()]; [i] grows in every turn. *)
Fixpoint eval_loop (fuel : nat) (m : machine) : result (list Field) :=
  if (m.1 <? length bc)%nat then
    match fuel with
    | O => Panic
    | S fuel' =>
        op ← idx bc m.1;
        m ← dispatch op (S m.1, m.2);
        eval_loop fuel' m
    end
  else Ok m.2.
End Machine.

Definition bc_eval `{Profile} (b : ByteCodeExpr) (t : Tuple) : result Field :=
  if bc_is_empty b then Panic
  else
    stack ← eval_loop (bytecodes b) (literals b) (field_vals t)
              (S (length (bytecodes b))) (0%nat, []);
    '(f, _) ← pop stack;
    Ok f.

(** ** The compiler ([planner.rs]) *)

Definition math_code (op : MathOp) : ByteCodes :=
  match op with MAdd => BcAdd | MSub => BcSub | MMul => BcMul | MDiv => BcDiv end.

Definition bool_code (op : BooleanOp) : ByteCodes :=
  match op with
  | BEq => BcEq | BNeq => BcNeq | BGt => BcGt | BGte => BcGte
  | BLt => BcLt | BLte => BcLte | BAnd => BcAnd | BOr => BcOr
  end.

Definition err_unbound : CrustyError :=
  c_err "Ident, Alias, and Agg should have been handled in conversion to logical plan or bound expression".

Fixpoint convert_ast_to_bytecode_inner (e : AstExpr) (b : ByteCodeExpr) : result ByteCodeExpr :=
  match e with
  | EIdent _ | EAlias _ _ | EAgg _ _ => Err err_unbound
  | ELiteral l =>
      let '(b, i) := add_literal b l in
      Ok (add_code (add_code b (opcode PushLit)) i)
  | EMath op l r =>
      b ← convert_ast_to_bytecode_inner l b;
      b ← convert_ast_to_bytecode_inner r b;
      Ok (add_code b (opcode (math_code op)))
  | EBoolean op l r =>
      b ← convert_ast_to_bytecode_inner l b;
      b ← convert_ast_to_bytecode_inner r b;
      Ok (add_code b (opcode (bool_code op)))
  | EColIdx i => Ok (add_code (add_code b (opcode PushField)) i)
  end.

Definition convert_ast_to_bytecode (e : AstExpr) (schema : TableSchema) : result ByteCodeExpr :=
  bound ← bind_expr e schema;
  convert_ast_to_bytecode_inner bound ByteCodeExpr_new.

(** ** The tree evaluator ([stats/mod.rs], [eval_astexpr]) *)

Definition eval_math `{Profile} (op : MathOp) (l r : Field) : result Field :=
  match op with
  | MAdd => Field_add l r | MSub => Field_sub l r | MMul => Field_mul l r | MDiv => Field_div l r
  end.

Definition eval_bool (op : BooleanOp) (l r : Field) : result Field :=
  match op with
  | BAnd => match l, r with
            | FBool a, FBool b => Ok (FBool (a && b))
            | _, _ => Err (CrustyErr "Non-bool operands for And operation")
            end
  | BOr => match l, r with
           | FBool a, FBool b => Ok (FBool (a || b))
           | _, _ => Err (CrustyErr "Non-bool operands for Or operation")
           end
  | _ => b ← compare_fields op l r; Ok (FBool b)
  end.

Fixpoint eval_astexpr `{Profile} (e : AstExpr) (t : Tuple) : result Field :=
  match e with
  | ELiteral f => Ok f
  | EIdent _ => Err (CrustyErr "Unexpected Ident in AST evaluation")
  | EAlias _ e => eval_astexpr e t
  | EMath op l r =>
      l ← eval_astexpr l t; r ← eval_astexpr r t; eval_math op l r
  | EBoolean op l r =>
      l ← eval_astexpr l t; r ← eval_astexpr r t; eval_bool op l r
  | EAgg _ _ => Err (CrustyErr "Unexpected Agg in AST evaluation")
  | EColIdx i => ok_or (get_field t i) (CrustyErr "Column index out of bounds")
  end.
