(* ===== verification/ExprProofs.v ===== *)
(** * Correctness of binding and of the expression compiler

    Compiled expressions compute on the stack machine what the tree evaluator
    computes on the bound expression, and both agree with the meaning of the
    expression by column names. *)

From S2P Require Import Prelude Bytes Common Types Expr.

(** ** The compiler *)

Section Compile.
Context `{Profile} (t : Tuple).

(** The instructions the compiler emits for a bound expression, with the first
    free literal index. *)
Lemma convert_inner_shape e : forall b b',
  convert_ast_to_bytecode_inner e b = Ok b' ->
  exists code lits, code <> [] /\ b' = mkBC (bytecodes b ++ code) (literals b ++ lits).
Proof.
  induction e as [f|s|s e IH|op l IHl r IHr|op l IHl r IHr|op e IH|i]; intros b b' E;
    cbn [convert_ast_to_bytecode_inner] in E; try done.
  - injection E as <-. exists [opcode PushLit; length (literals b)], [f].
    split; [done|]. unfold add_code. cbn. by rewrite <- app_assoc.
  - apply bind_Ok_inv in E as (b1 & E1 & E). apply bind_Ok_inv in E as (b2 & E2 & [= <-]).
    destruct (IHl _ _ E1) as (c1 & k1 & N1 & ->). destruct (IHr _ _ E2) as (c2 & k2 & N2 & ->).
    exists (c1 ++ c2 ++ [opcode (math_code op)]), (k1 ++ k2). split; [by destruct c1|].
    unfold add_code. cbn. by rewrite <- !app_assoc.
  - apply bind_Ok_inv in E as (b1 & E1 & E). apply bind_Ok_inv in E as (b2 & E2 & [= <-]).
    destruct (IHl _ _ E1) as (c1 & k1 & N1 & ->). destruct (IHr _ _ E2) as (c2 & k2 & N2 & ->).
    exists (c1 ++ c2 ++ [opcode (bool_code op)]), (k1 ++ k2). split; [by destruct c1|].
    unfold add_code. cbn. by rewrite <- !app_assoc.
  - injection E as <-. exists [opcode PushField; i], [].
    split; [done|]. unfold add_code. cbn. by rewrite <- app_assoc, app_nil_r.
Qed.

(** [n] turns of the loop evaluate [e]: they push its value, or panic. *)
Definition runs (bc : list nat) (lits : list Field) (pos pos' : nat) (e : AstExpr) : Prop :=
  exists n, (n <= pos' - pos)%nat /\ forall f stack,
    eval_loop bc lits (field_vals t) (n + f) (pos, stack) =
    match eval_astexpr e t with
    | Ok v => eval_loop bc lits (field_vals t) f (pos', v :: stack)
    | _ => Panic
    end.

Lemma eval_loop_step bc lits f pos stack op :
  bc !! pos = Some op ->
  eval_loop bc lits (field_vals t) (S f) (pos, stack) =
  (m ← dispatch bc lits (field_vals t) op (S pos, stack);
   eval_loop bc lits (field_vals t) f m).
Proof.
  intros E. cbn [eval_loop fst snd]. apply lookup_lt_Some in E as Hlt.
  rewrite (proj2 (Nat.ltb_lt _ _)) by done. unfold idx. rewrite E. done.
Qed.

Lemma dispatch_math bc lits rec op pos l r stack :
  dispatch bc lits rec (opcode (math_code op)) (pos, r :: l :: stack) =
  match eval_math op l r with Ok v => Ok (pos, v :: stack) | _ => Panic end.
Proof.
  destruct op; cbn [dispatch opcode math_code binary pop eval_math]; mstep; cbn [pop]; mstep;
    [destruct (Field_add l r)|destruct (Field_sub l r)|destruct (Field_mul l r)
    |destruct (Field_div l r)]; done.
Qed.

Lemma dispatch_bool bc lits rec op pos l r stack :
  dispatch bc lits rec (opcode (bool_code op)) (pos, r :: l :: stack) =
  match eval_bool op l r with Ok v => Ok (pos, v :: stack) | _ => Panic end.
Proof. destruct op; try done; destruct l, r; done. Qed.

Lemma runs_binary bc lits pos pos1 pos2 l r op (ev : Field -> Field -> result Field) e :
  (pos <= pos1)%nat -> (pos1 <= pos2)%nat ->
  runs bc lits pos pos1 l -> runs bc lits pos1 pos2 r -> bc !! pos2 = Some op ->
  (forall p a b stack, dispatch bc lits (field_vals t) op (p, b :: a :: stack) =
     match ev a b with Ok v => Ok (p, v :: stack) | _ => Panic end) ->
  eval_astexpr e t = (a ← eval_astexpr l t; b ← eval_astexpr r t; ev a b) ->
  runs bc lits pos (S pos2) e.
Proof.
  intros Hp1 Hp2 (n1 & Hn1 & R1) (n2 & Hn2 & R2) Hop Hd He.
  exists (n1 + (n2 + 1))%nat. split; [lia|]. intros f stack.
  replace (n1 + (n2 + 1) + f)%nat with (n1 + (n2 + S f))%nat by lia.
  rewrite R1, He. destruct (eval_astexpr l t) as [a| |]; mstep; [|done..].
  rewrite R2. destruct (eval_astexpr r t) as [b| |]; mstep; [|done..].
  rewrite (eval_loop_step _ _ _ _ _ op Hop), Hd. by destruct (ev a b).
Qed.

(** The code of a binary expression: that of both operands, then the operator. *)
Lemma runs_operands e l r op (ev : Field -> Field -> result Field) b b1 b2 post more :
  convert_ast_to_bytecode_inner l b = Ok b1 -> convert_ast_to_bytecode_inner r b1 = Ok b2 ->
  (forall post more, runs (bytecodes b1 ++ post) (literals b1 ++ more)
     (length (bytecodes b)) (length (bytecodes b1)) l) ->
  (forall post more, runs (bytecodes b2 ++ post) (literals b2 ++ more)
     (length (bytecodes b1)) (length (bytecodes b2)) r) ->
  (forall bc lits p x y stack, dispatch bc lits (field_vals t) op (p, y :: x :: stack) =
     match ev x y with Ok v => Ok (p, v :: stack) | _ => Panic end) ->
  eval_astexpr e t = (x ← eval_astexpr l t; y ← eval_astexpr r t; ev x y) ->
  runs (bytecodes (add_code b2 op) ++ post) (literals (add_code b2 op) ++ more)
       (length (bytecodes b)) (length (bytecodes (add_code b2 op))) e.
Proof.
  intros E1 E2 Hl Hr Hd He.
  destruct (convert_inner_shape _ _ _ E1) as (c1 & k1 & _ & S1).
  destruct (convert_inner_shape _ _ _ E2) as (c2 & k2 & _ & S2).
  unfold add_code. cbn [bytecodes literals]. rewrite length_app. cbn [length].
  rewrite Nat.add_1_r, <- app_assoc.
  eapply (runs_binary _ _ _ (length (bytecodes b1)) _ l r _ ev); [| | | |by apply list_lookup_middle|by intros|done].
  - rewrite S1. cbn. rewrite length_app. lia.
  - rewrite S2. cbn. rewrite length_app. lia.
  - rewrite S2. cbn [bytecodes literals]. rewrite <- !app_assoc. apply Hl.
  - apply Hr.
Qed.

(** The code of a leaf: an instruction and its operand. *)
Lemma runs_leaf e op i bc lits post :
  (forall stack, dispatch (bc ++ [op; i] ++ post) lits (field_vals t) op (S (length bc), stack) =
     match eval_astexpr e t with Ok v => Ok (length bc + 2, v :: stack)%nat | _ => Panic end) ->
  runs (((bc ++ [op]) ++ [i]) ++ post) lits (length bc) (length ((bc ++ [op]) ++ [i])) e.
Proof.
  intros Hd. rewrite !length_app. cbn [length]. exists 1%nat. split; [lia|]. intros fuel stack.
  rewrite <- !app_assoc. cbn [app Nat.add]. rewrite (eval_loop_step _ _ _ _ _ op) by by rewrite list_lookup_middle.
  cbn [app] in Hd. rewrite Hd. destruct (eval_astexpr e t); [|done..]. mstep. do 2 f_equal. lia.
Qed.

Lemma convert_inner_runs e : forall b b' post more,
  convert_ast_to_bytecode_inner e b = Ok b' ->
  runs (bytecodes b' ++ post) (literals b' ++ more) (length (bytecodes b))
       (length (bytecodes b')) e.
Proof.
  induction e as [f|s|s e IH|op l IHl r IHr|op l IHl r IHr|op e IH|i];
    intros b b' post more E; cbn [convert_ast_to_bytecode_inner] in E; try done.
  - injection E as <-. unfold add_code. cbn [bytecodes literals].
    apply runs_leaf. intros stack. cbn [dispatch opcode]. unfold push_lit, idx.
    rewrite lookup_app_r by lia. replace (S _ - _)%nat with 1%nat by lia. cbn [app]. cbn [lookup list_lookup unwrap_opt].
    mstep. rewrite <- !app_assoc. cbn [app]. rewrite list_lookup_middle by done. cbn [unwrap_opt]. mstep.
    cbn [eval_astexpr]. do 2 f_equal. lia.
  - apply bind_Ok_inv in E as (b1 & E1 & E). apply bind_Ok_inv in E as (b2 & E2 & [= <-]).
    apply (runs_operands _ l r _ (eval_math op) b b1 b2); eauto using dispatch_math.
  - apply bind_Ok_inv in E as (b1 & E1 & E). apply bind_Ok_inv in E as (b2 & E2 & [= <-]).
    apply (runs_operands _ l r _ (eval_bool op) b b1 b2); eauto using dispatch_bool.
  - injection E as <-. unfold add_code. cbn [bytecodes literals].
    apply runs_leaf. intros stack. cbn [dispatch opcode]. unfold push_field, idx.
    rewrite lookup_app_r by lia. replace (S _ - _)%nat with 1%nat by lia. cbn [app]. cbn [lookup list_lookup unwrap_opt].
    mstep. cbn [eval_astexpr]. unfold get_field. destruct (field_vals t !! i); [|done].
    cbn [unwrap_opt ok_or]. mstep. do 2 f_equal. lia.
Qed.
End Compile.

(** ** Binding *)

(** The identifiers of an expression. *)
Fixpoint idents (e : AstExpr) : list string :=
  match e with
  | ELiteral _ | EColIdx _ => []
  | EIdent n => [n]
  | EAlias _ e | EAgg _ e => idents e
  | EMath _ l r | EBoolean _ l r => idents l ++ idents r
  end.

(** No aggregate, and every identifier is an attribute of the schema. *)
Definition bindable (schema : TableSchema) (e : AstExpr) : bool :=
  negb (has_agg e) && forallb (schema_contains schema) (idents e).

Lemma field_index_contains l n : forall i,
  is_Some (field_index_from i l n) <-> schema_contains_go l n = true.
Proof.
  induction l as [|a l IH]; intros i; cbn [field_index_from schema_contains_go].
  - split; [by intros [? ?]|done].
  - destruct (String.eqb (name a) n); [|apply IH]. split; [done|eauto].
Qed.

Lemma field_index_lookup l n : forall i j,
  field_index_from i l n = Some j ->
  exists a, (i <= j)%nat /\ l !! (j - i)%nat = Some a /\ name a = n.
Proof.
  induction l as [|a l IH]; intros i j E; cbn [field_index_from] in E; [done|].
  destruct (String.eqb (name a) n) eqn:En.
  - injection E as <-. exists a. rewrite Nat.sub_diag. apply String.eqb_eq in En. done.
  - destruct (IH _ _ E) as (a' & Hj & E' & Hn). exists a'. split; [lia|]. split; [|done].
    by replace (j - i)%nat with (S (j - S i)) by lia.
Qed.

Lemma bindable_binop schema (l r : AstExpr) :
  negb (has_agg l || has_agg r) && forallb (schema_contains schema) (idents l ++ idents r) =
  bindable schema l && bindable schema r.
Proof.
  unfold bindable. rewrite forallb_app. by destruct (has_agg l), (has_agg r); cbn;
    rewrite ?andb_false_r.
Qed.

(** Binding gives an expression the compiler accepts, or panics. *)
Lemma bind_expr_ok schema e :
  if bindable schema e
  then exists b, bind_expr e schema = Ok b /\
         forall c, exists c', convert_ast_to_bytecode_inner b c = Ok c'
  else bind_expr e schema = Panic.
Proof.
  induction e as [f|s|s e IH|op l IHl r IHr|op l IHl r IHr|op e IH|i]; cbn [bind_expr].
  - eexists. split; [done|]. intros c. cbn. eauto.
  - unfold bindable. cbn [has_agg negb idents forallb andb]. rewrite andb_true_r.
    pose proof (field_index_contains (attributes schema) s 0) as Hi.
    unfold schema_contains, get_field_index.
    destruct (schema_contains_go _ s).
    + destruct (proj2 Hi eq_refl) as [i ->]. eexists. split; [done|]. intros c. cbn. eauto.
    + destruct (field_index_from 0 _ s); [|done]. by discriminate (proj1 Hi (ex_intro _ _ eq_refl)).
  - exact IH.
  - change (bindable schema (EMath op l r)) with
      (negb (has_agg l || has_agg r) && forallb (schema_contains schema) (idents l ++ idents r)).
    rewrite bindable_binop. destruct (bindable schema l); cbn [andb]; [|by rewrite IHl].
    destruct IHl as (bl & -> & Hl). mstep.
    destruct (bindable schema r); [|by rewrite IHr]. destruct IHr as (br & -> & Hr). mstep.
    eexists. split; [done|]. intros c. cbn [convert_ast_to_bytecode_inner].
    destruct (Hl c) as [c1 ->]. mstep. destruct (Hr c1) as [c2 ->]. mstep. eauto.
  - change (bindable schema (EBoolean op l r)) with
      (negb (has_agg l || has_agg r) && forallb (schema_contains schema) (idents l ++ idents r)).
    rewrite bindable_binop. destruct (bindable schema l); cbn [andb]; [|by rewrite IHl].
    destruct IHl as (bl & -> & Hl). mstep.
    destruct (bindable schema r); [|by rewrite IHr]. destruct IHr as (br & -> & Hr). mstep.
    eexists. split; [done|]. intros c. cbn [convert_ast_to_bytecode_inner].
    destruct (Hl c) as [c1 ->]. mstep. destruct (Hr c1) as [c2 ->]. mstep. eauto.
  - done.
  - eexists. split; [done|]. intros c. cbn. eauto.
Qed.

Lemma bc_eval_ok `{Profile} b bc t :
  convert_ast_to_bytecode_inner b ByteCodeExpr_new = Ok bc ->
  bc_eval bc t = unwrap (eval_astexpr b t).
Proof.
  intros E. destruct (convert_inner_shape b _ _ E) as (code & lits & Nc & Eb).
  destruct (convert_inner_runs t b _ _ [] [] E) as (n & Hn & R).
  rewrite !app_nil_r in R. cbn [bytecodes ByteCodeExpr_new length] in *.
  unfold bc_eval. assert (bc_is_empty bc = false) as ->.
  { rewrite Eb. unfold bc_is_empty. cbn. by destruct code. }
  replace (S (length (bytecodes bc))) with (n + (S (length (bytecodes bc)) - n))%nat by lia.
  rewrite R. destruct (eval_astexpr b t) as [v| |]; [|done..].
  destruct (S (length (bytecodes bc)) - n)%nat eqn:Ef; [lia|]. cbn [eval_loop fst snd].
  by rewrite Nat.ltb_irrefl.
Qed.

(** C19: the expression compiler is correct.  An expression without aggregates
    whose identifiers are all in the schema binds and compiles, and on every
    tuple the bytecode computes exactly what the tree evaluator computes on the
    bound expression (an error there is a panic here); any other expression
    panics while it is bound. *)
Theorem compile_expr_correct `{Profile} schema e :
  if bindable schema e
  then exists b bc, bind_expr e schema = Ok b /\ convert_ast_to_bytecode e schema = Ok bc /\
         forall t, bc_eval bc t = unwrap (eval_astexpr b t)
  else convert_ast_to_bytecode e schema = Panic.
Proof.
  unfold convert_ast_to_bytecode. pose proof (bind_expr_ok schema e) as Hb.
  destruct (bindable schema e); [|by rewrite Hb].
  destruct Hb as (b & -> & Hc). destruct (Hc ByteCodeExpr_new) as [bc E].
  exists b, bc. mstep. split_and!; [done|done|]. intros t. by apply bc_eval_ok.
Qed.

(** The meaning of an expression by attribute names, for a reader: an
    identifier is the field under the first attribute of that name. *)
Fixpoint eval_named `{Profile} (schema : TableSchema) (e : AstExpr) (t : Tuple) : result Field :=
  match e with
  | ELiteral f => Ok f
  | EIdent n => i ← unwrap_opt (get_field_index schema n);
                ok_or (get_field t i) (CrustyErr "Column index out of bounds")
  | EAlias _ e => eval_named schema e t
  | EMath op l r => l ← eval_named schema l t; r ← eval_named schema r t; eval_math op l r
  | EBoolean op l r => l ← eval_named schema l t; r ← eval_named schema r t; eval_bool op l r
  | EAgg _ _ => Panic
  | EColIdx i => ok_or (get_field t i) (CrustyErr "Column index out of bounds")
  end.

(** Binding preserves the meaning by names. *)
Lemma bind_expr_eval `{Profile} schema t e : forall b,
  bind_expr e schema = Ok b -> eval_astexpr b t = eval_named schema e t.
Proof.
  induction e as [f|s|s e IH|op l IHl r IHr|op l IHl r IHr|op e IH|i]; intros b E;
    cbn [bind_expr eval_named] in *.
  - by injection E as <-.
  - destruct (get_field_index schema s); [|done]. by injection E as <-.
  - by apply IH.
  - apply bind_Ok_inv in E as (bl & El & E). apply bind_Ok_inv in E as (br & Er & [= <-]).
    cbn [eval_astexpr]. by rewrite (IHl _ El), (IHr _ Er).
  - apply bind_Ok_inv in E as (bl & El & E). apply bind_Ok_inv in E as (br & Er & [= <-]).
    cbn [eval_astexpr]. by rewrite (IHl _ El), (IHr _ Er).
  - done.
  - by injection E as <-.
Qed.

(** Compilation, by names. *)
Lemma compile_named `{Profile} schema e : bindable schema e = true ->
  exists bc, convert_ast_to_bytecode e schema = Ok bc /\
    forall t, bc_eval bc t = unwrap (eval_named schema e t).
Proof.
  intros Hb. pose proof (bind_expr_ok schema e) as He. rewrite Hb in He.
  destruct He as (b & Eb & Hc). destruct (Hc ByteCodeExpr_new) as [bc E]. exists bc.
  unfold convert_ast_to_bytecode. rewrite Eb. mstep. split; [done|]. intros t.
  rewrite (bc_eval_ok b bc t E). by rewrite (bind_expr_eval schema t e b Eb).
Qed.
