(* ===== verification/TxnManager.v ===== *)
(** * The transaction manager interface

    [src/src/common/src/traits/transaction_manager_trait.rs] and its only
    implementation, the mock of [src/src/txn_manager/src/mock_tm.rs]; the index
    manager and the tree index of [src/src/index/src], which only keep what they
    are given.  A call may change the state of the manager and, where the trait
    takes a [&mut Tuple], the tuple. *)

From S2P Require Import Prelude Bytes Common Types Expr.

Inductive IsolationLevel := ReadCommitted.

(** [common/src/ids.rs] *)
Abbreviation TupleAssignments := (list (nat * Field)).

Class TransactionManagerTrait (T : Type) := {
  tm_new : T;
  tm_shutdown : T -> T * result unit;
  set_isolation_level : T -> IsolationLevel -> T * result unit;
  start_transaction : T -> TransactionId -> T * result unit;
  read_record : T -> Tuple -> ValueId -> TransactionId -> T * result unit;
  pre_update_record : T -> Tuple -> ValueId -> TransactionId -> TupleAssignments -> T * Tuple * result unit;
  post_update_record : T -> Tuple -> ValueId -> ValueId -> TransactionId -> TupleAssignments -> T * Tuple * result unit;
  pre_insert_record : T -> Tuple -> TransactionId -> T * Tuple * result unit;
  post_insert_record : T -> Tuple -> ValueId -> TransactionId -> T * Tuple * result unit;
  read_predicate : T -> AstExpr -> TransactionId -> T * result unit;
  validate_txn : T -> TransactionId -> T * result unit;
  rollback_txn : T -> TransactionId -> T * result unit;
  commit_txn : T -> TransactionId -> T * result unit;
}.

(** What the update operator relies on: updates are let through, and the tuples
    are not touched. *)
Class PermitsUpdates {T} `{TransactionManagerTrait T} : Prop := {
  permits_pre tm t id tid l : exists tm', pre_update_record tm t id tid l = (tm', t, Ok tt);
  permits_post tm t new_id id tid l : exists tm', post_update_record tm t new_id id tid l = (tm', t, Ok tt);
}.

(** ** The mock *)

Inductive MockTransactionManager := Mock.

#[export] Instance Mock_trait : TransactionManagerTrait MockTransactionManager := {|
  tm_new := Mock;
  tm_shutdown tm := (tm, Ok tt);
  set_isolation_level tm _ := (tm, Ok tt);
  start_transaction tm _ := (tm, Ok tt);
  read_record tm _ _ _ := (tm, Ok tt);
  pre_update_record tm t _ _ _ := (tm, t, Ok tt);
  post_update_record tm t _ _ _ _ := (tm, t, Ok tt);
  pre_insert_record tm t _ := (tm, t, Ok tt);
  post_insert_record tm t _ _ := (tm, t, Ok tt);
  read_predicate tm _ _ := (tm, Ok tt);
  validate_txn tm _ := (tm, Ok tt);
  rollback_txn tm _ := (tm, Ok tt);
  commit_txn tm _ := (tm, Ok tt);
|}.

#[export] Instance Mock_permits : PermitsUpdates (T := MockTransactionManager).
Proof. split; intros; by eexists. Qed.

(** ** Indexes *)

Section Index.
Context {St T : Type}.

Record IndexManager := mkIndexManager { im_sm : St; im_tm : T }.

Definition IndexManager_new (sm : St) (tm : T) : IndexManager := mkIndexManager sm tm.

Record TreeIndex := mkTreeIndex {
  is_primary : bool;
  is_unique : bool;
  ti_name : string;
  ti_attributes : list Attribute;
  ti_sm : St;
  ti_tm : T;
}.

Definition TreeIndex_new (is_primary is_unique : bool) (name : string) (attributes : list Attribute) (sm : St) (tm : T)
  : TreeIndex := mkTreeIndex is_primary is_unique name attributes sm tm.
End Index.
