(* ===== verification/Storage.v ===== *)
(** * The storage interface

    [src/src/common/src/storage_trait.rs]: what a storage manager offers to the
    query engine, as a class of operations, and what the query engine relies on,
    as a class of laws stated over an abstract view of the stored values.
    Transaction ids and permissions are not used by the storage managers of the
    repository and are left out. *)

From S2P Require Import Prelude Bytes Common.

Definition value := list byte.

(** Stored values: container, then value id. *)
Abbreviation sview := (gmap ContainerId (gmap ValueId value)).

Class StorageTrait (St It : Type) := {
  insert_value : St -> ContainerId -> value -> result (St * ValueId);
  insert_values : St -> ContainerId -> list value -> result (St * list ValueId);
  delete_value : St -> ValueId -> St * result unit;
  update_value : St -> value -> ValueId -> St * result ValueId;
  create_container : St -> ContainerId -> option string -> St * result unit;
  create_table : St -> ContainerId -> St * result unit;
  remove_container : St -> ContainerId -> St * result unit;
  get_iterator : St -> ContainerId -> result It;
  get_iterator_from : St -> ContainerId -> ValueId -> result It;
  iter_next : St -> It -> result (option (value * ValueId) * It);
  get_value : St -> ValueId -> result value;
  reset : St -> St * result unit;
}.

(** The rest of the trait: how a manager starts and stops.  [Dir] is what the
    storage directory holds; [None] is a directory that does not exist. *)
Class StorageLifecycle (St Dir : Type) := {
  sm_new : option Dir -> result St;
  sm_new_test : St;
  sm_clear_cache : St -> St;
  sm_shutdown : St -> Dir -> result Dir;
}.

(** Inserting values one by one. *)
Fixpoint insert_each `{StorageTrait St It} (s : St) (c : ContainerId) (vs : list value)
  : result (St * list ValueId) :=
  match vs with
  | [] => Ok (s, [])
  | v :: vs' =>
      '(s, id) ← insert_value s c v;
      '(s, ids) ← insert_each s c vs';
      Ok (s, id :: ids)
  end.

(** [for x in iter { .. }], collecting the items; [fuel] bounds their number. *)
Fixpoint drain `{StorageTrait St It} (s : St) (fuel : nat) (it : It)
  : result (list (value * ValueId)) :=
  '(o, it) ← iter_next s it;
  match o, fuel with
  | None, _ => Ok []
  | Some _, O => Panic
  | Some x, S fuel' => xs ← drain s fuel' it; Ok (x :: xs)
  end.

(** [it] yields exactly the items [l], then ends and stays at its end. *)
Inductive yields `{StorageTrait St It} (s : St) : It -> list (value * ValueId) -> Prop :=
| yields_nil it it' :
    iter_next s it = Ok (None, it') -> iter_next s it' = Ok (None, it') -> yields s it []
| yields_cons it it' x l :
    iter_next s it = Ok (Some x, it') -> yields s it' l -> yields s it (x :: l).

Lemma drain_yields `{StorageTrait St It} s it l :
  yields s it l -> forall fuel, (length l <= fuel)%nat -> drain s fuel it = Ok l.
Proof.
  induction 1 as [it it' E _|it it' x l E Y IH]; intros fuel Hf.
  - destruct fuel; cbn [drain]; rewrite E; done.
  - cbn [length] in Hf. destruct fuel as [|fuel]; [lia|]. cbn [drain]. rewrite E. mstep.
    rewrite IH by lia. done.
Qed.

(** The promises: a well-formedness invariant [ok] every operation keeps, and
    the effect of every operation on the view.  [room s c n] says that
    container [c] can take [n] more values, [names s] are the names that
    containers were created with. *)
Class StorageLaws `{StorageTrait St It} := {
  ok : St -> Prop;
  view : St -> sview;
  room : St -> ContainerId -> nat -> Prop;
  names : St -> gset string;
  law_room s c n n' : room s c n' -> (n <= n')%nat -> room s c n;
  law_insert s c v n : ok s -> room s c (S n) -> is_Some (view s !! c) ->
    exists s' id m, insert_value s c v = Ok (s', id) /\ ok s' /\ view s !! c = Some m /\
      m !! id = None /\ container_id id = c /\ view s' = <[c := <[id := v]> m]> (view s) /\
      room s' c n;
  law_insert_missing s c v : view s !! c = None -> insert_value s c v = Panic;
  law_insert_frame s c v s' id c' n : insert_value s c v = Ok (s', id) ->
    names s' = names s /\ (c' <> c -> room s c' n -> room s' c' n);
  law_insert_values s c vs : insert_values s c vs = insert_each s c vs;
  law_delete s id m : ok s -> view s !! container_id id = Some m ->
    exists s', delete_value s id = (s', Ok tt) /\ ok s' /\
      view s' = <[container_id id := delete id m]> (view s) /\
      forall c n, room s c n -> room s' c n;
  law_update s id v m n : ok s -> room s (container_id id) (S n) -> view s !! container_id id = Some m ->
    exists s' id', update_value s v id = (s', Ok id') /\ ok s' /\ container_id id' = container_id id /\
      delete id m !! id' = None /\ room s' (container_id id) n /\
      view s' = <[container_id id := <[id' := v]> (delete id m)]> (view s);
  law_get s id v : ok s ->
    get_value s id = Ok v <-> exists m, view s !! container_id id = Some m /\ m !! id = Some v;
  law_create s c : ok s ->
    exists s', create_table s c = (s', Ok tt) /\ ok s' /\
      view s' = (if decide (is_Some (view s !! c)) then view s else <[c := ∅]> (view s)) /\
      names s' = names s /\ (forall c' k, room s c' k -> room s' c' k);
  law_create_container s c n : ok s -> n ∉ names s ->
    exists s', create_container s c (Some n) = (s', Ok tt) /\ ok s' /\
      view s' = (if decide (is_Some (view s !! c)) then view s else <[c := ∅]> (view s)) /\
      names s' = {[n]} ∪ names s /\ (forall c' k, room s c' k -> room s' c' k);
  law_create_taken s c n : ok s -> n ∈ names s ->
    exists e, create_container s c (Some n) = (s, Err e);
  law_reset s : ok s -> exists s', reset s = (s', Ok tt) /\ ok s' /\ view s' = ∅ /\ names s' = ∅ /\
    (forall c n, room s c n -> room s' c n);
  law_remove s c : ok s ->
    exists s', remove_container s c = (s', Ok tt) /\ ok s' /\ view s' = delete c (view s);
  law_iterate s c m : ok s -> room s c 1 -> view s !! c = Some m ->
    exists it l, get_iterator s c = Ok it /\ yields s it l /\ l.*1 ≡ₚ (map_to_list m).*2;
}.

(** A manager starts empty, clearing its cache changes nothing, and after a
    shutdown into a directory without files of other containers ([files]) the next
    start finds what was stored, with room for one value less at most.  [lasting]:
    the manager is not temporary. *)
Class LifecycleLaws {St It Dir : Type} `{!StorageTrait St It, !StorageLaws (St := St) (It := It)}
  `{!StorageLifecycle St Dir} := {
  lasting : St -> Prop;
  files : Dir -> gset ContainerId;
  law_new : exists s, sm_new None = Ok s /\ ok s /\ view s = ∅ /\ names s = ∅ /\ lasting s;
  law_lasting s c : lasting s -> lasting (create_table s c).1;
  law_lasting_insert s c v s' id : lasting s -> insert_value s c v = Ok (s', id) -> lasting s';
  law_new_test : ok sm_new_test /\ view sm_new_test = ∅ /\ names sm_new_test = ∅;
  law_clear_cache s : ok s -> ok (sm_clear_cache s) /\ view (sm_clear_cache s) = view s;
  law_restart s dir : ok s -> lasting s -> files dir ⊆ dom (view s) ->
    exists dir' s', sm_shutdown s dir = Ok dir' /\ sm_new (Some dir') = Ok s' /\ ok s' /\ view s' = view s /\
      forall c n, room s c (S n) -> room s' c n;
}.

(** Bulk insertion stores every value under a fresh id of its own. *)
Lemma insert_values_ok `{StorageLaws St It} c vs : forall s m n,
  ok s -> room s c (length vs + n) -> view s !! c = Some m ->
  exists s' ids, insert_values s c vs = Ok (s', ids) /\ ok s' /\ room s' c n /\
    length ids = length vs /\ NoDup ids /\ (forall id, id ∈ ids -> m !! id = None /\ container_id id = c) /\
    view s' = <[c := list_to_map (zip ids vs) ∪ m]> (view s).
Proof.
  setoid_rewrite law_insert_values.
  induction vs as [|v vs IH]; intros s m n Ws Rs Vs; cbn [insert_each].
  - exists s, []. split_and!; [done..|constructor|set_solver|].
    cbn. rewrite (left_id_L ∅ (∪)). by rewrite insert_id.
  - destruct (law_insert s c v (length vs + n) Ws Rs) as (s1 & id & m' & E1 & W1 & V1 & Hf & Hc & V2 & R1);
      [by eexists|].
    rewrite Vs in V1. injection V1 as <-. rewrite E1. mstep.
    destruct (IH s1 (<[id := v]> m) n W1 R1) as (s2 & ids & E2 & W2 & R2 & Hl & Hnd & Hids & V3).
    { rewrite V2. apply lookup_insert_eq. }
    rewrite E2. mstep. exists s2, (id :: ids).
    assert (id ∉ ids) as Hni.
    { intros Hin. destruct (Hids id Hin) as [Hm _]. by rewrite lookup_insert_eq in Hm. }
    split_and!; [done..|cbn; lia| | |].
    + by apply NoDup_cons.
    + intros id' [->|Hin]%elem_of_cons; [done|]. destruct (Hids id' Hin) as [Hm Hc'].
      rewrite lookup_insert_ne in Hm by (intros ->; done). done.
    + rewrite V3, V2, insert_insert_eq. f_equal. cbn.
      rewrite <- insert_union_l, <- insert_union_r; [done|].
      apply not_elem_of_list_to_map. rewrite fst_zip by lia. done.
Qed.

(** Bulk insertion leaves the names and the room of other containers alone. *)
Lemma insert_values_frame `{StorageLaws St It} c vs : forall s s' ids, insert_values s c vs = Ok (s', ids) ->
  names s' = names s /\ forall c' n, c' <> c -> room s c' n -> room s' c' n.
Proof.
  setoid_rewrite law_insert_values. induction vs as [|v vs IH]; intros s s' ids; cbn [insert_each]; [by intros [= <- <-]|].
  intros ([s1 id] & E1 & ([s2 ids2] & E2 & [= <- <-])%bind_Ok_inv)%bind_Ok_inv.
  destruct (IH s1 s2 ids2 E2) as [N2 R2]. split; [rewrite N2; by apply (law_insert_frame s c v s1 id c 0 E1)|].
  intros c' n Hc Hr. apply R2; [done|]. by apply (law_insert_frame s c v s1 id c' n E1).
Qed.
