(* ===== verification/HeapStore.v ===== *)
(** * The heap-file storage manager

    [src/src/storage/heapstore/src/storage_manager.rs], [heapfile.rs] and
    [heapfileiter.rs].  The reading and writing of pages is an unimplemented
    milestone: those calls panic, and they are modelled as they are.  What has a
    body is the configuration that [shutdown] writes and [new] reads, the wrappers
    of the trait, and the directory of a temporary manager.

    The theorems say what is left of the manager: one that starts holds no
    container, survives a restart, and refuses every access to a container. *)

From S2P Require Import Prelude Bytes Common Storage HeapPage.

Open Scope Z_scope.

(** The [serde_json] crate on the manager, without the field it skips. *)
Class ConfigCodec := {
  config_to_writer : string * bool * gmap ContainerId string -> option string;
  config_from_reader : string -> option (string * bool * gmap ContainerId string);
}.

Class ConfigCodecLaws `{ConfigCodec} : Prop :=
  config_roundtrip : forall c, exists t, config_to_writer c = Some t /\ config_from_reader t = Some c.

(** [OpenOptions::open] on a path; an error is its debug text. *)
Class OpenFile := open_file : string -> unit + string.

(** [fs::remove_dir_all], its error as [?] converts it. *)
Class RemoveDir := remove_dir_all : string -> result unit.

Module Heap.

(** ** Heap files *)

(** The open file itself is left out. *)
Record HeapFile := mkHeapFile { hf_container_id : ContainerId; read_count : Z; write_count : Z }.

(** The file is opened or created before the milestone panics. *)
Definition HeapFile_new `{OpenFile} (file_path : string) (container_id : ContainerId) : result HeapFile :=
  match open_file file_path with
  | inr error => Err (CrustyErr ("Cannot open or create heap file: " +:+ file_path +:+ " " +:+ error))
  | inl _ => Panic
  end.

Definition num_pages (hf : HeapFile) : result PageId := Panic.
Definition read_page_from_file (hf : HeapFile) (pid : PageId) : result Page := Panic.
Definition write_page_to_file (hf : HeapFile) (page : Page) : result HeapFile := Panic.

Inductive HeapFileIterator := mkHeapFileIterator.

Definition HeapFileIterator_new (hf : HeapFile) : result HeapFileIterator := Panic.
Definition HeapFileIterator_new_from (hf : HeapFile) (start : ValueId) : result HeapFileIterator := Panic.
Definition HeapFileIterator_next (it : HeapFileIterator) : result (option (value * ValueId) * HeapFileIterator) := Panic.

(** ** The manager *)

Record StorageManager := mkSM {
  storage_dir : string;
  is_temp : bool;
  cid_path_map : gmap ContainerId string;
  cid_heapfile_map : gmap ContainerId HeapFile;
}.

(** [new]: [config] is the text of the configuration file, if there is one. *)
Definition new `{ConfigCodec, OpenFile} (dir : string) (config : option string) : result StorageManager :=
  match config with
  | Some text =>
      '(_, _, old_files) ← unwrap_opt (config_from_reader text);
      '(hm, hmfiles) ← foldM (fun '(hm, hmfiles) '(id, path) =>
          hf ← unwrap (HeapFile_new path id);
          Ok (<[id := hf]> hm, <[id := path]> hmfiles)) (∅, ∅) (map_to_list old_files);
      Ok (mkSM dir false hmfiles hm)
  | None => Panic
  end.

Definition new_test_sm : result StorageManager := Panic.

(** [shutdown]: the text of the configuration file it writes. *)
Definition shutdown `{ConfigCodec} (s : StorageManager) : result string :=
  unwrap_opt (config_to_writer (storage_dir s, is_temp s, cid_path_map s)).

Definition get_page (s : StorageManager) (container_id : ContainerId) (page_id : PageId) : result (option Page) := Panic.
Definition write_page (s : StorageManager) (container_id : ContainerId) (page : Page) : StorageManager * result unit := (s, Panic).
Definition get_num_pages (s : StorageManager) (container_id : ContainerId) : result PageId := Panic.

Definition get_hf_read_write_count (s : StorageManager) (container_id : ContainerId) : result (Z * Z) := Panic.

Definition get_page_debug (render : Page -> string) (s : StorageManager) (container_id : ContainerId) (page_id : PageId)
  : result string :=
  o ← get_page s container_id page_id;
  Ok (match o with Some p => render p | None => "" end).

Definition insert_value (s : StorageManager) (container_id : ContainerId) (v : value) : result (StorageManager * ValueId) :=
  if PAGE_SIZE <? lenZ v then Panic else Panic.

Fixpoint insert_values (s : StorageManager) (container_id : ContainerId) (values : list value)
  : result (StorageManager * list ValueId) :=
  match values with
  | [] => Ok (s, [])
  | v :: values =>
      '(s, id) ← insert_value s container_id v;
      '(s, ids) ← insert_values s container_id values;
      Ok (s, id :: ids)
  end.

Definition delete_value (s : StorageManager) (id : ValueId) : StorageManager * result unit := (s, Panic).
Definition update_value (s : StorageManager) (v : value) (id : ValueId) : StorageManager * result ValueId := (s, Panic).
Definition create_container (s : StorageManager) (container_id : ContainerId) (name : option string)
  : StorageManager * result unit := (s, Panic).
Definition create_table (s : StorageManager) (container_id : ContainerId) : StorageManager * result unit :=
  create_container s container_id None.
Definition remove_container (s : StorageManager) (container_id : ContainerId) : StorageManager * result unit := (s, Panic).
Definition get_iterator (s : StorageManager) (container_id : ContainerId) : result HeapFileIterator := Panic.
Definition get_iterator_from (s : StorageManager) (container_id : ContainerId) (start : ValueId)
  : result HeapFileIterator := Panic.
Definition get_value (s : StorageManager) (id : ValueId) : result value := Panic.

(** [reset] removes the directory, or fails to, before the milestone panics. *)
Definition reset `{RemoveDir} (s : StorageManager) : StorageManager * result unit :=
  (s, _ ← remove_dir_all (storage_dir s); Panic).

Definition clear_cache (s : StorageManager) : StorageManager := s.

(** [Drop]: whether the directory is removed with the manager. *)
Definition drop_removes (s : StorageManager) : bool := is_temp s.
End Heap.

#[export] Instance HeapStore_trait `{RemoveDir} : StorageTrait Heap.StorageManager Heap.HeapFileIterator := {|
  Storage.insert_value := Heap.insert_value;
  Storage.insert_values := Heap.insert_values;
  Storage.delete_value := Heap.delete_value;
  Storage.update_value := Heap.update_value;
  Storage.create_container := Heap.create_container;
  Storage.create_table := Heap.create_table;
  Storage.remove_container := Heap.remove_container;
  Storage.get_iterator := Heap.get_iterator;
  Storage.get_iterator_from := Heap.get_iterator_from;
  Storage.iter_next s it := Heap.HeapFileIterator_next it;
  Storage.get_value := Heap.get_value;
  Storage.reset := Heap.reset;
|}.

(** ** What the manager can do *)

Section HeapStore.
Context `{ConfigCodec, !ConfigCodecLaws, OpenFile}.

(** A manager that starts holds no container: the configuration of one with
    containers makes [new] panic, as does a directory without configuration. *)
Theorem heap_new_spec dir config s :
  Heap.new dir config = Ok s <->
  s = Heap.mkSM dir false ∅ ∅ /\ exists text d t, config = Some text /\ config_from_reader text = Some (d, t, ∅).
Proof.
  unfold Heap.new. destruct config as [text|]; [|split; [done|by intros (_ & ? & ? & ? & ? & _)]].
  destruct (config_from_reader text) as [[[d t] files]|] eqn:E; cbn [unwrap_opt]; mstep.
  2:{ split; [done|]. intros (_ & ? & ? & ? & [= <-] & ?). congruence. }
  destruct (map_to_list files) as [|[id path] l] eqn:El.
  - apply map_to_list_empty_iff in El as ->. cbn [foldM]. mstep. split.
    + intros [= <-]. split; [done|]. by exists text, d, t.
    + by intros [-> _].
  - cbn [foldM]. unfold Heap.HeapFile_new. destruct (open_file path); cbn [unwrap]; mstep.
    all: split; [done|]; intros (_ & ? & ? & ? & [= <-] & Hr); rewrite E in Hr; injection Hr as -> -> ->;
      by rewrite map_to_list_empty in El.
Qed.

(** A restart finds the same manager, since there is nothing to lose. *)
Theorem heap_restart dir config s : Heap.new dir config = Ok s ->
  exists text, Heap.shutdown s = Ok text /\ Heap.new dir (Some text) = Ok s.
Proof.
  intros [-> _]%heap_new_spec. unfold Heap.shutdown. cbn [Heap.storage_dir Heap.is_temp Heap.cid_path_map].
  destruct (config_roundtrip (dir, false, ∅)) as (text & E1 & E2). exists text. rewrite E1. split; [done|].
  apply heap_new_spec. split; [done|]. by exists text, dir, false.
Qed.
End HeapStore.

(** Values cannot be stored, whatever their size; only storing none at all is
    answered.  The manager does not keep the promises of the interface. *)
Theorem heap_insert_values s c vs : Heap.insert_values s c vs = match vs with [] => Ok (s, []) | _ => Panic end.
Proof. destruct vs as [|v vs]; [done|]. cbn. unfold Heap.insert_value. by destruct (PAGE_SIZE <? lenZ v). Qed.
