(* ===== verification/MemStore.v ===== *)
(** * The in-memory storage manager

    [src/src/storage/memstore/src/storage_manager.rs].

    A container is an [Arc] of a map, shared between the manager and every
    iterator over it: the model keeps the maps in a heap and refers to them by
    address, so that an iterator sees later changes of its container and
    outlives the removal of the container from the directory. *)

From S2P Require Import Prelude Bytes Common Storage.

Open Scope Z_scope.

Module Mem.

Abbreviation ContainerMap := nat (only parsing).

Record StorageManager := mkSM {
  is_temp : bool;
  heap : list (gmap ValueId value);
  containers : gmap ContainerId ContainerMap;
  last_insert : gmap ContainerId ValueId;
  container_names : gmap string ContainerId;
}.

Definition new_sm (temp : bool) : StorageManager := mkSM temp [] ∅ ∅ ∅.

(** The map an [Arc] points to. *)
Definition deref (s : StorageManager) (a : ContainerMap) : gmap ValueId value :=
  match heap s !! a with Some m => m | None => ∅ end.

Definition slot_rid (c : ContainerId) (slot : Z) : ValueId := mkValueId c None None (Some slot).

Section Ops.
Context `{Profile}.

Definition insert_value (s : StorageManager) (c : ContainerId) (v : value)
  : result (StorageManager * ValueId) :=
  a ← unwrap_opt (containers s !! c);
  next_slot ← match last_insert s !! c with
              | None => Ok 0
              | Some id => slot ← unwrap_opt (slot_id id); arith_u 16 (slot + 1)
              end;
  let rid := slot_rid c next_slot in
  Ok (mkSM (is_temp s) (<[a := <[rid := v]> (deref s a)]> (heap s)) (containers s)
        (<[c := rid]> (last_insert s)) (container_names s), rid).

Fixpoint insert_values (s : StorageManager) (c : ContainerId) (vs : list value)
  : result (StorageManager * list ValueId) :=
  match vs with
  | [] => Ok (s, [])
  | v :: vs' =>
      '(s, id) ← insert_value s c v;
      '(s, ids) ← insert_values s c vs';
      Ok (s, id :: ids)
  end.

Definition delete_value (s : StorageManager) (id : ValueId) : StorageManager * result unit :=
  match containers s !! container_id id with
  | Some a =>
      (mkSM (is_temp s) (<[a := delete id (deref s a)]> (heap s)) (containers s)
         (last_insert s) (container_names s), Ok tt)
  | None => (s, Err (CrustyErr "File ID not found for recordID"))
  end.

Definition update_value (s : StorageManager) (v : value) (id : ValueId)
  : StorageManager * result ValueId :=
  match delete_value s id with
  | (s, Ok _) =>
      match insert_value s (container_id id) v with
      | Ok (s, rid) => (s, Ok rid)
      | Err e => (s, Err e)
      | Panic => (s, Panic)
      end
  | (s, Err e) => (s, Err e)
  | (s, Panic) => (s, Panic)
  end.

Definition create_container (s : StorageManager) (c : ContainerId) (nm : option string)
  (dependencies : option (list ContainerId)) : StorageManager * result unit :=
  let named :=
    match nm with
    | None => Some (container_names s)
    | Some n => match container_names s !! n with
                | None => Some (<[n := c]> (container_names s))
                | Some _ => None
                end
    end in
  match named with
  | None => (s, Err (ExecutionError "Container with name already exists"))
  | Some names =>
      let s := mkSM (is_temp s) (heap s) (containers s) (last_insert s) names in
      match dependencies with
      | Some _ => (s, Panic)
      | None =>
          match containers s !! c with
          | Some _ => (s, Ok tt)
          | None => (mkSM (is_temp s) (heap s ++ [∅]) (<[c := length (heap s)]> (containers s))
                       (last_insert s) (container_names s), Ok tt)
          end
      end
  end.

Definition create_table (s : StorageManager) (c : ContainerId) : StorageManager * result unit :=
  create_container s c None None.

Definition remove_container (s : StorageManager) (c : ContainerId) : StorageManager * result unit :=
  match containers s !! c with
  | None => (s, Ok tt)
  | Some _ => (mkSM (is_temp s) (heap s) (delete c (containers s)) (last_insert s)
                 (container_names s), Ok tt)
  end.

Definition get_value (s : StorageManager) (id : ValueId) : result value :=
  match containers s !! container_id id with
  | Some a => match deref s a !! id with
              | Some v => Ok v
              | None => Err (ExecutionError ("Record ID not found " +:+ ValueId_debug id))
              end
  | None => Err (ExecutionError ("File ID not found " +:+ ValueId_debug id))
  end.

Definition reset (s : StorageManager) : StorageManager * result unit :=
  (mkSM (is_temp s) (heap s) ∅ ∅ ∅, Ok tt).

(** ** Iterators *)

Record ValueIterator := mkIt { tracker : ValueId; max : Z; table_map : ContainerMap; current : Z }.

Definition ValueIterator_new (a : ContainerMap) (c : ContainerId) (mx : Z) : ValueIterator :=
  mkIt (slot_rid c 0) mx a 0.

Definition get_iterator (s : StorageManager) (c : ContainerId) : result ValueIterator :=
  a ← unwrap_opt (containers s !! c);
  let last := match last_insert s !! c with Some id => id | None => ValueId_new c end in
  let mx := match slot_id last with Some sl => sl | None => 0 end in
  Ok (ValueIterator_new a c mx).

(** [unimplemented!()] *)
Definition get_iterator_from (s : StorageManager) (c : ContainerId) (start : ValueId)
  : result ValueIterator := Panic.

(** [self.tracker.slot_id = Some(self.tracker.slot_id.unwrap() + 1); self.current += 1] *)
Definition advance (it : ValueIterator) : result ValueIterator :=
  sl ← unwrap_opt (slot_id (tracker it));
  sl ← arith_u 16 (sl + 1);
  c ← arith_u 16 (current it + 1);
  let t := tracker it in
  Ok (mkIt (mkValueId (container_id t) (segment_id t) (page_id t) (Some sl))
           (max it) (table_map it) c).

(** [while self.current <= self.max]: each turn increments [current], so the
    distance to [max] bounds the turns as long as [current + 1] fits in 16 bits
    (when [max] is 65535 a checked build panics in [advance]). *)
Fixpoint next_loop (s : StorageManager) (fuel : nat) (it : ValueIterator)
  : result (option (value * ValueId) * ValueIterator) :=
  if current it <=? max it then
    match fuel with
    | O => Panic
    | S fuel' =>
        match deref s (table_map it) !! tracker it with
        | Some res => it ← advance it; Ok (Some (res, tracker it), it)
        | None => it ← advance it; next_loop s fuel' it
        end
    end
  else Ok (None, it).

Definition next (s : StorageManager) (it : ValueIterator)
  : result (option (value * ValueId) * ValueIterator) :=
  next_loop s (Z.to_nat (max it + 1 - current it)) it.
End Ops.

(** ** Poisoned locks

    A manager that several calls share, and whether its locks are poisoned.  The
    calls below lock [containers] before anything else and [unwrap] the guard.
    The only one that can panic with guards in its hands is [insert_value] (on its
    own or in [update_value]), which then holds the write guards of [containers]
    and of [last_insert]: the panic poisons both, and from then on every call
    panics at its first [unwrap]. *)

Record Shared := mkShared { manager : StorageManager; poisoned : bool }.

Definition share (s : StorageManager) : Shared := mkShared s false.

Definition is_panic {A} (r : result A) : bool := match r with Panic => true | _ => false end.

Definition locked {A} (call : StorageManager -> StorageManager * result A) (s : Shared) : Shared * result A :=
  if poisoned s then (s, Panic)
  else let '(m, r) := call (manager s) in (mkShared m (is_panic r), r).

(** An insertion that panics has not changed the maps. *)
Definition insert_call `{Profile} (c : ContainerId) (v : value) (s : StorageManager) : StorageManager * result ValueId :=
  match insert_value s c v with
  | Ok (s, id) => (s, Ok id)
  | Err e => (s, Err e)
  | Panic => (s, Panic)
  end.

(** ** Persistence *)

(** [serde_cbor] on a container, as [shutdown] and [load] use it. *)
Class ContainerCodec := {
  to_writer : gmap ValueId value -> option (list byte);
  from_reader : list byte -> option (gmap ValueId value);
}.

Class ContainerCodecLaws `{ContainerCodec} : Prop :=
  container_codec : forall m, exists bs, to_writer m = Some bs /\ from_reader bs = Some m.

(** The files of the storage directory: the container id in the file name, and
    the contents. *)
Abbreviation directory := (gmap ContainerId (list byte)).

(** [shutdown]: writes one file per container, unless the manager is temporary;
    other files of the directory stay. *)
Definition shutdown `{ContainerCodec} (s : StorageManager) (dir : directory) : result directory :=
  if is_temp s then Ok dir
  else foldM (fun dir '(c, a) => bs ← unwrap_opt (to_writer (deref s a)); Ok (<[c := bs]> dir))
         dir (map_to_list (containers s)).

(** The largest key of a loaded container. *)
Definition max_key (c : ContainerId) (keys : list ValueId) : result ValueId :=
  foldM (fun mx key =>
           match slot_id key with
           | Some slot => m ← unwrap_opt (slot_id mx); Ok (if m <? slot then key else mx)
           | None => Ok mx
           end) (slot_rid c 0) keys.

Definition load_file `{ContainerCodec} (s : StorageManager) (f : ContainerId * list byte)
  : result StorageManager :=
  let '(c, bs) := f in
  m ← unwrap_opt (from_reader bs);
  mx ← max_key c (map_to_list m).*1;
  Ok (mkSM false (heap s ++ [m]) (<[c := length (heap s)]> (containers s))
        (<[c := mx]> (last_insert s)) ∅).

(** [load]: the entries of the directory, in the order [read_dir] lists them. *)
Definition load `{ContainerCodec} (entries : list (ContainerId * list byte)) : result StorageManager :=
  foldM load_file (new_sm false) entries.

(** [StorageTrait::new]: loads the directory if it exists. *)
Definition new `{ContainerCodec} (dir : option directory) : result StorageManager :=
  match dir with
  | Some dir => load (map_to_list dir)
  | None => Ok (new_sm false)
  end.

(** [clear_cache]: there is none. *)
Definition clear_cache (s : StorageManager) : StorageManager := s.
End Mem.

(** The manager offers the storage interface. *)
#[export] Instance MemStore_trait `{Profile} : StorageTrait Mem.StorageManager Mem.ValueIterator := {|
  insert_value := Mem.insert_value;
  insert_values := Mem.insert_values;
  delete_value := Mem.delete_value;
  update_value := Mem.update_value;
  create_container s c nm := Mem.create_container s c nm None;
  create_table := Mem.create_table;
  remove_container := Mem.remove_container;
  get_iterator := Mem.get_iterator;
  get_iterator_from := Mem.get_iterator_from;
  iter_next := Mem.next;
  get_value := Mem.get_value;
  reset := Mem.reset;
|}.

#[export] Instance MemStore_lifecycle `{ContainerCodec : Mem.ContainerCodec} :
  StorageLifecycle Mem.StorageManager Mem.directory := {|
  sm_new := Mem.new;
  sm_new_test := Mem.new_sm true;
  sm_clear_cache := Mem.clear_cache;
  sm_shutdown := Mem.shutdown;
|}.
