(* ===== verification/MemStoreProofs.v ===== *)
(** * The in-memory storage manager implements the storage interface

    The invariant of the manager, its preservation, the effect of every operation
    on the stored values, and what iteration yields. *)

From S2P Require Import Prelude Bytes Common Storage MemStore.
Import Mem.

Open Scope Z_scope.

(** ** The invariant *)

Record mem_ok (s : StorageManager) : Prop := {
  mo_addr : forall c a, containers s !! c = Some a -> (a < length (heap s))%nat;
  mo_inj : forall c1 c2 a, containers s !! c1 = Some a -> containers s !! c2 = Some a -> c1 = c2;
  mo_last : forall c id, last_insert s !! c = Some id ->
            exists L, id = slot_rid c L /\ 0 <= L < 65536;
  mo_keys : forall c a id v, containers s !! c = Some a -> deref s a !! id = Some v ->
            exists sl L, id = slot_rid c sl /\ last_insert s !! c = Some (slot_rid c L) /\
              0 <= sl <= L;
}.

Definition mem_view (s : StorageManager) : sview := deref s <$> containers s.

(** The last slot number of the container is not the last one there is. *)
Definition mem_room (s : StorageManager) (c : ContainerId) : Prop :=
  forall L, last_insert s !! c = Some (slot_rid c L) -> L < 65535.

Lemma mem_view_lookup s c m :
  mem_view s !! c = Some m <-> exists a, containers s !! c = Some a /\ m = deref s a.
Proof.
  unfold mem_view. rewrite lookup_fmap.
  destruct (containers s !! c) as [a|]; cbn; [|naive_solver].
  split; [intros [= <-]; eauto|intros (? & [= <-] & ->); done].
Qed.

Lemma mem_view_None s c : mem_view s !! c = None <-> containers s !! c = None.
Proof. unfold mem_view. rewrite lookup_fmap. by destruct (containers s !! c). Qed.

(** Writing through the address of one container changes that container only. *)
Lemma deref_write t h cs li cn a a' m :
  (a < length h)%nat ->
  deref (mkSM t (<[a := m]> h) cs li cn) a' = if decide (a' = a) then m else deref (mkSM t h cs li cn) a'.
Proof.
  intros Ha. unfold deref. cbn [heap]. destruct (decide (a' = a)) as [->|].
  - by rewrite list_lookup_insert_eq.
  - by rewrite list_lookup_insert_ne.
Qed.

Lemma deref_irrel s t cs li cn a : deref (mkSM t (heap s) cs li cn) a = deref s a.
Proof. done. Qed.

Lemma view_write s c a m t li cn :
  mem_ok s -> containers s !! c = Some a ->
  mem_view (mkSM t (<[a := m]> (heap s)) (containers s) li cn) = <[c := m]> (mem_view s).
Proof.
  intros W E. apply map_eq. intros c'. unfold mem_view. cbn [containers].
  rewrite lookup_fmap. destruct (decide (c' = c)) as [->|Hc].
  - rewrite E, lookup_insert_eq. cbn. rewrite deref_write by (by eapply mo_addr).
    by rewrite decide_True.
  - rewrite lookup_insert_ne, lookup_fmap by done.
    destruct (containers s !! c') as [a'|] eqn:E'; [|done]. cbn.
    rewrite deref_write by (by eapply mo_addr). case_decide as D; [|done].
    subst a'. by destruct Hc, (mo_inj s W c' c a).
Qed.

Section Laws.
Context `{Profile}.

(** The slot an insertion takes. *)
Definition next_slot (s : StorageManager) (c : ContainerId) : Z :=
  match last_insert s !! c with
  | Some id => match slot_id id with Some sl => sl + 1 | None => 0 end
  | None => 0
  end.

(** The slot numbers left for the container. *)
Definition mem_rooms (s : StorageManager) (c : ContainerId) (n : nat) : Prop :=
  next_slot s c + Z.of_nat n <= 65536.

Lemma mem_rooms_room s c n : mem_rooms s c (S n) -> mem_room s c.
Proof. unfold mem_rooms, next_slot, mem_room. intros R L E. rewrite E in R. cbn in R. lia. Qed.

Lemma room_mem_rooms s c : mem_ok s -> mem_room s c -> mem_rooms s c 1.
Proof.
  intros W R. unfold mem_rooms, next_slot. destruct (last_insert s !! c) as [id|] eqn:E; [|lia].
  destruct (mo_last s W c id E) as (L & -> & HL). specialize (R L E). cbn. lia.
Qed.

Lemma next_slot_bounds s c : mem_ok s -> mem_room s c ->
  0 <= next_slot s c < 65536 /\
  forall L, last_insert s !! c = Some (slot_rid c L) -> next_slot s c = L + 1 /\ 0 <= L.
Proof.
  intros W R. unfold next_slot.
  destruct (last_insert s !! c) as [id|] eqn:E; [|split; [lia|done]].
  destruct (mo_last s W c id E) as (L & -> & HL). pose proof (R L E). cbn.
  split; [lia|]. intros L' [= <-]. lia.
Qed.

Lemma insert_value_ok s c v a :
  mem_ok s -> mem_room s c -> containers s !! c = Some a ->
  let rid := slot_rid c (next_slot s c) in
  let s' := mkSM (is_temp s) (<[a := <[rid := v]> (deref s a)]> (heap s)) (containers s)
              (<[c := rid]> (last_insert s)) (container_names s) in
  Mem.insert_value s c v = Ok (s', rid) /\ mem_ok s' /\ deref s a !! rid = None.
Proof.
  intros W R E rid s'. destruct (next_slot_bounds s c W R) as [Hn HL]. split; [|split].
  - unfold Mem.insert_value. rewrite E. cbn [unwrap_opt]. mstep.
    assert (match last_insert s !! c with
            | None => Ok 0
            | Some id => slot ← unwrap_opt (slot_id id); arith_u 16 (slot + 1)
            end = (Ok (next_slot s c) : result Z)) as ->; [|done].
    unfold next_slot in *. destruct (last_insert s !! c) as [id|] eqn:El; [|done].
    destruct (mo_last s W c id El) as (L & -> & HL'). cbn [slot_rid slot_id unwrap_opt] in *.
    mstep. apply arith_u_ok. unfold in_u. lia.
  - split; cbn [containers heap last_insert s'].
    + intros c' a' E'. rewrite length_insert. by apply (mo_addr s W c').
    + apply (mo_inj s W).
    + intros c' id. destruct (decide (c' = c)) as [->|].
      * rewrite lookup_insert_eq. intros [= <-]. by exists (next_slot s c).
      * rewrite lookup_insert_ne by done. apply (mo_last s W).
    + intros c' a' id v' E'. unfold s'.
      rewrite deref_write by (by eapply (mo_addr s W)). case_decide as D.
      * subst a'. assert (c' = c) as -> by (by apply (mo_inj s W c' c a)).
        rewrite lookup_insert_eq. intros [[<- <-]|[_ Hv]]%lookup_insert_Some.
        -- exists (next_slot s c), (next_slot s c). split_and!; (done || lia).
        -- destruct (mo_keys s W c a id v' E Hv) as (sl & L & -> & El & Hsl).
           exists sl, (next_slot s c). destruct (HL L El) as [Hns _]. split_and!; (done || lia).
      * intros Hv. destruct (mo_keys s W c' a' id v' E' Hv) as (sl & L & -> & El & Hsl).
        exists sl, L. rewrite lookup_insert_ne; [done|]. intros ->. congruence.
  - destruct (deref s a !! rid) as [v'|] eqn:Ev; [|done].
    destruct (mo_keys s W c a rid v' E Ev) as (sl & L & Er & El & Hsl).
    destruct (HL L El) as [Hns _]. injection Er as Er. lia.
Qed.

Lemma mem_ok_delete s a id :
  mem_ok s ->
  mem_ok (mkSM (is_temp s) (<[a := delete id (deref s a)]> (heap s)) (containers s)
            (last_insert s) (container_names s)).
Proof.
  intros W. split; cbn [containers heap last_insert].
  - intros c' a' E'. rewrite length_insert. by apply (mo_addr s W c').
  - apply (mo_inj s W).
  - apply (mo_last s W).
  - intros c' a' id' v' E' Hv. destruct (decide (a < length (heap s))%nat) as [Ha|Ha].
    + rewrite deref_write in Hv by done. case_decide as D.
      * subst a'. apply lookup_delete_Some in Hv as [_ Hv]. by apply (mo_keys s W c' a id' v').
      * by apply (mo_keys s W c' a' id' v').
    + unfold deref in Hv. cbn [heap] in Hv. rewrite list_insert_ge in Hv by lia.
      by apply (mo_keys s W c' a' id' v').
Qed.

Lemma mem_ok_create s c :
  mem_ok s -> containers s !! c = None ->
  mem_ok (mkSM (is_temp s) (heap s ++ [∅]) (<[c := length (heap s)]> (containers s))
            (last_insert s) (container_names s)) /\
  mem_view (mkSM (is_temp s) (heap s ++ [∅]) (<[c := length (heap s)]> (containers s))
            (last_insert s) (container_names s)) = <[c := ∅]> (mem_view s).
Proof.
  intros W E.
  assert (forall a t cs li cn, deref (mkSM t (heap s ++ [∅]) cs li cn) a = deref s a) as Hd.
  { intros a t cs li cn. unfold deref. cbn [heap].
    destruct (decide (a < length (heap s))%nat).
    - by rewrite lookup_app_l.
    - rewrite lookup_app_r, (lookup_ge_None_2 (heap s)) by lia.
      destruct (a - length (heap s))%nat as [|k]; [done|]. by destruct k. }
  assert (forall c' a', <[c := length (heap s)]> (containers s) !! c' = Some a' ->
            c' = c /\ a' = length (heap s) \/ c' <> c /\ containers s !! c' = Some a') as Hc.
  { intros c' a'. rewrite lookup_insert_Some. naive_solver. }
  split; [split|]; cbn [containers heap last_insert].
  - intros c' a' [[-> ->]|[_ E']]%Hc; rewrite length_app; cbn; [lia|].
    apply (mo_addr s W) in E'. lia.
  - intros c1 c2 a [[-> ->]|[H1 E1]]%Hc [[-> H2]|[H2 E2]]%Hc; try done.
    + apply (mo_addr s W) in E2. lia.
    + apply (mo_addr s W) in E1. lia.
    + by apply (mo_inj s W c1 c2 a).
  - apply (mo_last s W).
  - intros c' a' id v. rewrite Hd. intros [[-> ->]|[_ E']]%Hc.
    + unfold deref. rewrite lookup_ge_None_2 by lia. by rewrite lookup_empty.
    + by apply (mo_keys s W c' a').
  - apply map_eq. intros c'. unfold mem_view. cbn [containers]. rewrite lookup_fmap.
    destruct (decide (c' = c)) as [->|].
    + rewrite !lookup_insert_eq. cbn. rewrite Hd. unfold deref.
      by rewrite lookup_ge_None_2 by lia.
    + rewrite !lookup_insert_ne, lookup_fmap by done.
      destruct (containers s !! c'); cbn; [by rewrite Hd|done].
Qed.
End Laws.

(** ** Iteration *)

(** What iteration from slot [k] up to [n] slots yields: the values in slot
    order, each with the id of the slot behind its own. *)
Definition scan_from (m : gmap ValueId value) (c : ContainerId) (k n : Z) : list (value * ValueId) :=
  omap (fun sl => (fun v => (v, slot_rid c (sl + 1))) <$> m !! slot_rid c sl) (seqZ k n).

Section Iterate.
Context `{Profile} (s : StorageManager) (c : ContainerId) (a : ContainerMap) (mx : Z).
Context (Hmx : 0 <= mx < 65535).

Local Abbreviation it k := (mkIt (slot_rid c k) mx a k).

Lemma advance_ok k : 0 <= k <= mx -> advance (it k) = Ok (it (k + 1)).
Proof.
  intros Hk. unfold advance. cbn [tracker slot_rid slot_id unwrap_opt current]. mstep.
  rewrite arith_u_ok by (unfold in_u; lia). mstep. done.
Qed.

Lemma scan_from_cons k n :
  0 < n -> scan_from (deref s a) c k n =
    match deref s a !! slot_rid c k with
    | Some v => (v, slot_rid c (k + 1)) :: scan_from (deref s a) c (k + 1) (n - 1)
    | None => scan_from (deref s a) c (k + 1) (n - 1)
    end.
Proof.
  intros Hn. unfold scan_from. rewrite seqZ_cons by done. cbn [omap list_omap].
  replace (Z.succ k) with (k + 1) by lia. replace (Z.pred n) with (n - 1) by lia.
  by destruct (deref s a !! slot_rid c k).
Qed.

Lemma next_loop_ok n k :
  Z.of_nat n = mx + 1 - k -> 0 <= k <= mx + 1 ->
  match scan_from (deref s a) c k (mx + 1 - k) with
  | [] => next_loop s n (it k) = Ok (None, it (mx + 1))
  | x :: l => exists k', k < k' <= mx + 1 /\ next_loop s n (it k) = Ok (Some x, it k') /\
                l = scan_from (deref s a) c k' (mx + 1 - k')
  end.
Proof.
  revert k. induction n as [|n IH]; intros k Hn Hk.
  - replace k with (mx + 1) by lia. rewrite Z.sub_diag. cbn [scan_from].
    cbn [next_loop current max]. rewrite (proj2 (Z.leb_gt _ _)) by lia. done.
  - cbn [next_loop current max table_map tracker].
    rewrite (proj2 (Z.leb_le _ _)) by lia. rewrite scan_from_cons by lia.
    replace (mx + 1 - k - 1) with (mx + 1 - (k + 1)) by lia.
    rewrite advance_ok by lia. mstep.
    destruct (deref s a !! slot_rid c k) as [v|].
    + exists (k + 1). split; [lia|done].
    + specialize (IH (k + 1) ltac:(lia) ltac:(lia)).
      destruct (scan_from _ c (k + 1) _) as [|x l]; [done|].
      destruct IH as (k' & Hk' & E & El). exists k'. split; [lia|done].
Qed.

Lemma scan_yields k : 0 <= k <= mx + 1 ->
  yields s (it k) (scan_from (deref s a) c k (mx + 1 - k)).
Proof.
  remember (length (scan_from (deref s a) c k (mx + 1 - k))) as n eqn:En. revert k En.
  induction n as [|n IH]; intros k En Hk;
    pose proof (next_loop_ok (Z.to_nat (mx + 1 - k)) k ltac:(lia) Hk) as Hx;
    destruct (scan_from (deref s a) c k (mx + 1 - k)) as [|x l] eqn:El; try done.
  - apply (yields_nil s (it k) (it (mx + 1))); [exact Hx|].
    change (next_loop s (Z.to_nat (mx + 1 - (mx + 1))) (it (mx + 1)) = Ok (None, it (mx + 1))).
    rewrite Z.sub_diag. change (Z.to_nat 0) with O. cbn [next_loop current max].
    by rewrite (proj2 (Z.leb_gt _ _)) by lia.
  - destruct Hx as (k' & Hk' & E & ->). eapply yields_cons; [exact E|].
    apply IH; [|lia]. cbn in En. lia.
Qed.
End Iterate.

(** The iterated values are those of the container, each once. *)
Lemma scan_values m c mx :
  0 <= mx ->
  (forall id v, m !! id = Some v -> exists sl, id = slot_rid c sl /\ 0 <= sl <= mx) ->
  (scan_from m c 0 (mx + 1)).*1 ≡ₚ (map_to_list m).*2.
Proof.
  intros Hmx Hk.
  set (pairs := omap (fun sl => (fun v => (slot_rid c sl, v)) <$> m !! slot_rid c sl)
                  (seqZ 0 (mx + 1))).
  assert ((scan_from m c 0 (mx + 1)).*1 = pairs.*2) as ->.
  { unfold scan_from, pairs. generalize (seqZ 0 (mx + 1)) as l.
    induction l as [|x l IH]; [done|]. cbn [omap list_omap].
    destruct (m !! slot_rid c x); cbn; [|done]. f_equal. exact IH. }
  apply fmap_Permutation. apply NoDup_Permutation.
  - unfold pairs. pose proof (NoDup_seqZ 0 (mx + 1)) as Hnd. revert Hnd.
    generalize (seqZ 0 (mx + 1)) as l.
    induction l as [|x l IH]; [constructor|]. intros [Hx Hl]%NoDup_cons. cbn [omap list_omap].
    destruct (m !! slot_rid c x) as [v|]; cbn; [|by apply IH].
    apply NoDup_cons. split; [|by apply IH]. rewrite list_elem_of_omap.
    intros (y & Hy & E). destruct (m !! slot_rid c y); [|done]. cbn in E. injection E as E _.
    by subst y.
  - apply NoDup_map_to_list.
  - intros [id v]. rewrite elem_of_map_to_list. unfold pairs. rewrite list_elem_of_omap. split.
    + intros (sl & _ & E). destruct (m !! slot_rid c sl) as [v'|] eqn:Ev; [|done].
      cbn in E. by injection E as <- <-.
    + intros E. destruct (Hk id v E) as (sl & -> & Hsl). exists sl.
      rewrite elem_of_seqZ, E. split; [lia|done].
Qed.

Lemma get_iterator_ok s c a :
  mem_ok s -> mem_room s c -> containers s !! c = Some a ->
  exists mx, 0 <= mx < 65535 /\ Mem.get_iterator s c = Ok (mkIt (slot_rid c 0) mx a 0) /\
    forall id v, deref s a !! id = Some v -> exists sl, id = slot_rid c sl /\ 0 <= sl <= mx.
Proof.
  intros W R E. unfold Mem.get_iterator. rewrite E. cbn [unwrap_opt]. mstep.
  destruct (last_insert s !! c) as [id|] eqn:El.
  - destruct (mo_last s W c id El) as (L & -> & HL). pose proof (R L El). cbn [slot_rid slot_id].
    exists L. split; [lia|]. split; [done|]. intros id v Hv.
    destruct (mo_keys s W c a id v E Hv) as (sl & L' & -> & El' & Hsl).
    exists sl. split; [done|]. rewrite El in El'. injection El' as ->. lia.
  - exists 0. split; [lia|]. split; [done|]. intros id v Hv.
    destruct (mo_keys s W c a id v E Hv) as (sl & L & _ & El' & _). congruence.
Qed.

(** ** The laws of the interface *)

#[export] Program Instance MemStore_laws `{Profile} :
  StorageLaws (St := StorageManager) (It := ValueIterator) := {|
  ok := mem_ok; view := mem_view; room := mem_rooms; names s := dom (container_names s);
|}.
Next Obligation. intros ? s c n n'. unfold mem_rooms. lia. Qed.
Next Obligation.
  intros ? s c v n W R [m [a [E ->]]%mem_view_lookup].
  destruct (insert_value_ok s c v a W) as (E1 & W1 & E2); [by eapply mem_rooms_room|done|].
  eexists _, _, (deref s a). split; [exact E1|]. split; [exact W1|].
  split; [by apply mem_view_lookup; eauto|]. split; [done|]. split; [done|].
  split; [by apply view_write|]. unfold mem_rooms, next_slot in *. cbn [last_insert].
  rewrite lookup_insert_eq. cbn [slot_rid slot_id]. lia.
Qed.
Next Obligation.
  intros ? s c v E%mem_view_None. change (Mem.insert_value s c v = Panic). unfold Mem.insert_value. by rewrite E.
Qed.
Next Obligation.
  intros ? s c v s' id c' n. change (Storage.insert_value s c v) with (Mem.insert_value s c v).
  intros (a & _ & (k & _ & [= <- _])%bind_Ok_inv)%bind_Ok_inv. split; [done|]. intros Hc.
  unfold mem_rooms, next_slot. cbn [last_insert]. by rewrite lookup_insert_ne.
Qed.
Next Obligation.
  intros ? s c vs. change (Mem.insert_values s c vs = insert_each s c vs). revert s.
  induction vs as [|v vs IH]; intros s; cbn [Mem.insert_values insert_each]; [done|].
  change (Storage.insert_value s c v) with (Mem.insert_value s c v).
  destruct (Mem.insert_value s c v) as [[s1 id]| |]; mstep; [|done..]. by rewrite IH.
Qed.
Next Obligation.
  intros ? s id m W [a [E ->]]%mem_view_lookup. change (Storage.delete_value s id) with (Mem.delete_value s id).
  unfold Mem.delete_value. rewrite E.
  eexists. split; [done|]. split; [by apply mem_ok_delete|]. split; [by apply view_write|done].
Qed.
Next Obligation.
  intros ? s id v m n W R [a [E ->]]%mem_view_lookup.
  change (Storage.update_value s v id) with (Mem.update_value s v id). unfold Mem.update_value, Mem.delete_value. rewrite E.
  set (s1 := mkSM _ _ _ _ _). assert (mem_ok s1) as W1 by (by apply mem_ok_delete).
  assert (mem_view s1 = <[container_id id := delete id (deref s a)]> (mem_view s)) as V1 by (by apply view_write).
  destruct (insert_value_ok s1 (container_id id) v a W1) as (E1 & W2 & E2); [by eapply (mem_rooms_room s1)|done|].
  rewrite E1. eexists _, _. split; [done|]. split; [exact W2|]. split; [done|].
  assert (deref s1 a = delete id (deref s a)) as Ed.
  { assert (mem_view s1 !! container_id id = Some (deref s1 a)) as Hv by (apply mem_view_lookup; eauto).
    rewrite V1, lookup_insert_eq in Hv. by injection Hv. }
  rewrite Ed in E2. split; [done|]. split.
  - unfold mem_rooms, next_slot in *. cbn [last_insert]. rewrite lookup_insert_eq. cbn [slot_rid slot_id]. unfold s1. cbn [last_insert]. lia.
  - rewrite (view_write s1 (container_id id) a) by done. rewrite Ed, V1. by rewrite insert_insert_eq.
Qed.
Next Obligation.
  intros ? s id v W. change (Storage.get_value s id) with (Mem.get_value s id). unfold Mem.get_value. split.
  - destruct (containers s !! container_id id) as [a|] eqn:E; [|done].
    destruct (deref s a !! id) eqn:Ev; [|done]. intros [= ->]. exists (deref s a).
    split; [|done]. apply mem_view_lookup. eauto.
  - intros (m & [a [-> ->]]%mem_view_lookup & ->). done.
Qed.
Next Obligation.
  intros ? s c W. change (Storage.create_table s c) with (Mem.create_table s c). unfold Mem.create_table, create_container.
  cbn [containers heap last_insert container_names].
  destruct (containers s !! c) as [a|] eqn:E.
  - exists s. split; [by destruct s|]. split; [done|]. split; [|done]. rewrite decide_True; [done|].
    exists (deref s a). apply mem_view_lookup. eauto.
  - destruct (mem_ok_create s c W E) as [W' V'].
    eexists. split; [done|]. split; [exact W'|]. split; [|done]. rewrite decide_False; [exact V'|].
    rewrite (proj2 (mem_view_None s c) E). by intros [? ?].
Qed.
Next Obligation.
  intros ? s c n W Hn%not_elem_of_dom. cbn [Storage.create_container MemStore_trait]. unfold Mem.create_container.
  rewrite Hn. set (names' := <[n := c]> (container_names s)).
  pose (s1 := mkSM (is_temp s) (heap s) (containers s) (last_insert s) names').
  assert (mem_ok s1) as W1 by (destruct W; by split).
  assert (dom names' = {[n]} ∪ dom (container_names s)) as Hd by apply dom_insert_L.
  cbn [containers]. destruct (containers s !! c) as [a|] eqn:E.
  - exists s1. split; [done|]. split; [done|]. split; [|done]. rewrite decide_True; [done|].
    exists (deref s a). apply mem_view_lookup. eauto.
  - destruct (mem_ok_create s1 c W1 E) as [W' V']. eexists. split; [done|]. split; [exact W'|].
    split; [|done]. rewrite decide_False; [exact V'|].
    rewrite (proj2 (mem_view_None s c) E). by intros [? ?].
Qed.
Next Obligation.
  intros ? s c n W [c' Hn]%elem_of_dom. cbn [Storage.create_container MemStore_trait]. unfold Mem.create_container.
  rewrite Hn. by eexists.
Qed.
Next Obligation.
  intros ? s W. change (Storage.reset s) with (Mem.reset s). unfold Mem.reset. eexists. split; [done|].
  split; [by split; cbn; intros *; rewrite ?lookup_empty|]. split; [apply fmap_empty|].
  split; [apply dom_empty_L|]. intros c n. unfold mem_rooms, next_slot. cbn [last_insert]. rewrite lookup_empty.
  destruct (last_insert s !! c) as [id|] eqn:E; [|done].
  destruct (mo_last s W c id E) as (L & -> & HL). cbn. lia.
Qed.
Next Obligation.
  intros ? s c W. change (Storage.remove_container s c) with (Mem.remove_container s c). unfold Mem.remove_container.
  destruct (containers s !! c) as [a|] eqn:E.
  - eexists. split; [done|]. split.
    + split; cbn [containers heap last_insert].
      * intros c' a' [_ E']%lookup_delete_Some. by apply (mo_addr s W c').
      * intros c1 c2 a' [_ E1]%lookup_delete_Some [_ E2]%lookup_delete_Some.
        by apply (mo_inj s W c1 c2 a').
      * apply (mo_last s W).
      * intros c' a' id v [_ E']%lookup_delete_Some. by apply (mo_keys s W c' a').
    + unfold mem_view. cbn [containers]. apply fmap_delete.
  - exists s. split; [done|]. split; [done|]. rewrite delete_id; [done|]. by apply mem_view_None.
Qed.
Next Obligation.
  intros ? s c m W R [a [E ->]]%mem_view_lookup.
  apply mem_rooms_room in R. destruct (get_iterator_ok s c a W R E) as (mx & Hmx & Ei & Hk).
  eexists _, (scan_from (deref s a) c 0 (mx + 1)). split; [exact Ei|]. split.
  - pose proof (scan_yields s c a mx Hmx 0 ltac:(lia)) as Hy. by rewrite Z.sub_0_r in Hy.
  - apply scan_values; [lia|done].
Qed.

(** The laws, read on the manager itself. *)
Section MemLaws.
Context `{Profile} (s : StorageManager) (W : mem_ok s).

Lemma mem_insert c v : mem_room s c -> is_Some (mem_view s !! c) ->
  exists s' id m, Mem.insert_value s c v = Ok (s', id) /\ mem_ok s' /\ mem_view s !! c = Some m /\
    m !! id = None /\ container_id id = c /\ mem_view s' = <[c := <[id := v]> m]> (mem_view s).
Proof.
  intros R V. destruct (MemStore_laws.(law_insert) s c v 0%nat W (room_mem_rooms s c W R) V)
    as (s' & id & m & ? & ? & ? & ? & ? & ? & _).
  by exists s', id, m.
Qed.

Lemma mem_delete id m : mem_view s !! container_id id = Some m ->
  exists s', Mem.delete_value s id = (s', Ok tt) /\ mem_ok s' /\
    mem_view s' = <[container_id id := delete id m]> (mem_view s).
Proof. intros Hm. destruct (MemStore_laws.(law_delete) s id m W Hm) as (s' & E & W' & V & _). by exists s'. Qed.

Lemma mem_get id v :
  Mem.get_value s id = Ok v <-> exists m, mem_view s !! container_id id = Some m /\ m !! id = Some v.
Proof. exact (MemStore_laws.(law_get) s id v W). Qed.

Lemma mem_create c :
  exists s', Mem.create_table s c = (s', Ok tt) /\ mem_ok s' /\
    mem_view s' = (if decide (is_Some (mem_view s !! c)) then mem_view s
                   else <[c := ∅]> (mem_view s)).
Proof.
  destruct (MemStore_laws.(law_create) s c W) as (s' & E & W' & V & _). by exists s'.
Qed.

Lemma mem_remove c :
  exists s', Mem.remove_container s c = (s', Ok tt) /\ mem_ok s' /\
    mem_view s' = delete c (mem_view s).
Proof. exact (MemStore_laws.(law_remove) s c W). Qed.
End MemLaws.
