(* ===== verification/MemStoreTheorems.v ===== *)
(** * The in-memory storage manager: client-level properties

    Every sequence of calls behaves like a map from containers to maps from ids
    to values; iteration yields every value; a restart from the persisted files
    keeps the values and the freshness of ids. *)

From S2P Require Import Prelude Bytes Common Storage MemStore MemStoreProofs.
Import Mem.

Open Scope Z_scope.

(** ** The abstract store *)

Inductive sop :=
| SCreate (c : ContainerId)
| SRemove (c : ContainerId)
| SInsert (c : ContainerId) (v : value)
| SDelete (id : ValueId)
| SUpdate (v : value) (id : ValueId)
| SGet (id : ValueId).

Inductive sout := ODone | OId (id : ValueId) | OVal (v : value) | OErr | OPanic.

(** The specification of one call: a fresh id for an inserted value, the value
    of an id, errors for unknown ids and containers.  The state is [None] once a
    call has panicked: all calls panic from then on. *)
Inductive a_step : option sview -> sop -> sout -> option sview -> Prop :=
| as_create V c : a_step (Some V) (SCreate c) ODone
    (Some (if decide (is_Some (V !! c)) then V else <[c := ∅]> V))
| as_remove V c : a_step (Some V) (SRemove c) ODone (Some (delete c V))
| as_insert V c v m id : V !! c = Some m -> m !! id = None -> container_id id = c ->
    a_step (Some V) (SInsert c v) (OId id) (Some (<[c := <[id := v]> m]> V))
| as_insert_missing V c v : V !! c = None -> a_step (Some V) (SInsert c v) OPanic None
| as_delete V id m : V !! container_id id = Some m ->
    a_step (Some V) (SDelete id) ODone (Some (<[container_id id := delete id m]> V))
| as_delete_missing V id : V !! container_id id = None -> a_step (Some V) (SDelete id) OErr (Some V)
| as_update V v id m id' : V !! container_id id = Some m ->
    delete id m !! id' = None -> container_id id' = container_id id ->
    a_step (Some V) (SUpdate v id) (OId id') (Some (<[container_id id := <[id' := v]> (delete id m)]> V))
| as_update_missing V v id : V !! container_id id = None -> a_step (Some V) (SUpdate v id) OErr (Some V)
| as_get V id m v : V !! container_id id = Some m -> m !! id = Some v ->
    a_step (Some V) (SGet id) (OVal v) (Some V)
| as_get_missing V id : (forall m, V !! container_id id = Some m -> m !! id = None) ->
    a_step (Some V) (SGet id) OErr (Some V)
| as_poisoned o : a_step None o OPanic None.

Inductive a_steps : option sview -> list sop -> list sout -> option sview -> Prop :=
| as_nil V : a_steps V [] [] V
| as_cons V o x V1 os xs V2 : a_step V o x V1 -> a_steps V1 os xs V2 ->
    a_steps V (o :: os) (x :: xs) V2.

Definition out_of {A} (f : A -> sout) (r : result A) : sout :=
  match r with Ok a => f a | Err _ => OErr | Panic => OPanic end.

Section Run.
Context `{Profile}.

Definition answer_of {A} (f : A -> sout) (x : Shared * result A) : Shared * sout := (x.1, out_of f x.2).

Definition run_sop (s : Shared) (o : sop) : Shared * sout :=
  match o with
  | SCreate c => answer_of (fun _ => ODone) (locked (fun s => Mem.create_table s c) s)
  | SRemove c => answer_of (fun _ => ODone) (locked (fun s => Mem.remove_container s c) s)
  | SInsert c v => answer_of OId (locked (insert_call c v) s)
  | SDelete id => answer_of (fun _ => ODone) (locked (fun s => Mem.delete_value s id) s)
  | SUpdate v id => answer_of OId (locked (fun s => Mem.update_value s v id) s)
  | SGet id => answer_of OVal (locked (fun s => (s, Mem.get_value s id)) s)
  end.

(** The stored values, while the locks are not poisoned. *)
Definition shared_view (s : Shared) : option sview :=
  if poisoned s then None else Some (mem_view (manager s)).

Fixpoint run_sops (s : Shared) (os : list sop) : Shared * list sout :=
  match os with
  | [] => (s, [])
  | o :: os => let '(s, x) := run_sop s o in let '(s, xs) := run_sops s os in (s, x :: xs)
  end.

(** Fewer than [n] values were ever inserted into each container. *)
Definition bounded (s : StorageManager) (n : Z) : Prop :=
  forall c L, last_insert s !! c = Some (slot_rid c L) -> L < n.

Lemma bounded_room s n c : bounded s n -> n <= 65535 -> mem_room s c.
Proof. intros B Hn L E. specialize (B c L E). lia. Qed.

Lemma bounded_mono s n n' : bounded s n -> n <= n' -> bounded s n'.
Proof. intros B Hn c L E. specialize (B c L E). lia. Qed.

Lemma insert_bounded s c v s' id n :
  mem_ok s -> bounded s n -> 0 <= n <= 65535 -> Mem.insert_value s c v = Ok (s', id) -> bounded s' (n + 1).
Proof.
  intros W B Hn E.
  destruct (containers s !! c) as [a|] eqn:Ec; [|by unfold Mem.insert_value in E; rewrite Ec in E].
  destruct (insert_value_ok s c v a W (bounded_room s n c B ltac:(lia)) Ec) as (E1 & _ & _).
  rewrite E in E1. injection E1 as -> _. intros c' L. cbn [last_insert].
  destruct (decide (c' = c)) as [->|].
  - rewrite lookup_insert_eq. intros [= <-]. unfold next_slot.
    destruct (last_insert s !! c) as [id'|] eqn:El; [|lia].
    destruct (mo_last s W c id' El) as (L' & -> & _). specialize (B c L' El). cbn. lia.
  - rewrite lookup_insert_ne by done. intros El. specialize (B c' L El). lia.
Qed.

Lemma last_insert_delete s id : last_insert (Mem.delete_value s id).1 = last_insert s.
Proof. unfold Mem.delete_value. by destruct (containers s !! container_id id). Qed.

Lemma delete_missing s id :
  mem_view s !! container_id id = None ->
  Mem.delete_value s id = (s, Err (CrustyErr "File ID not found for recordID")).
Proof. rewrite mem_view_None. unfold Mem.delete_value. by intros ->. Qed.

Lemma view_cases s c : mem_view s !! c = None \/ exists m, mem_view s !! c = Some m.
Proof. destruct (mem_view s !! c); eauto. Qed.

Lemma update_refines s v id n :
  mem_ok s -> bounded s n -> 0 <= n < 65535 ->
  exists s' x, run_sop (share s) (SUpdate v id) = (share s', x) /\ mem_ok s' /\ bounded s' (n + 1) /\
    a_step (Some (mem_view s)) (SUpdate v id) x (Some (mem_view s')).
Proof.
  intros W B Hn. unfold run_sop, locked, share. cbn [poisoned manager]. unfold Mem.update_value.
  destruct (view_cases s (container_id id)) as [Ev|[m Ev]].
  - rewrite (delete_missing _ _ Ev). exists s, OErr. cbn [out_of].
    split_and!; [done|done|apply (bounded_mono s n); [done|lia]|by constructor].
  - destruct (mem_delete s W id m Ev) as (s1 & E1 & W1 & V1).
    rewrite E1.
    assert (bounded s1 n) as B1.
    { intros c L. pose proof (last_insert_delete s id) as Hl. rewrite E1 in Hl. cbn in Hl.
      rewrite Hl. apply B. }
    destruct (mem_insert s1 W1 (container_id id) v (bounded_room s1 n _ B1 ltac:(lia)))
      as (s2 & id2 & m1 & E2 & W2 & Em & Ef & Ec & V2).
    { rewrite V1, lookup_insert_eq. eauto. }
    rewrite V1, lookup_insert_eq in Em. injection Em as <-.
    rewrite E2.
    exists s2, (OId id2). cbn [out_of].
    split_and!; [done|done|by eapply insert_bounded; [exact W1|exact B1|lia|]|].
    rewrite V2, V1, insert_insert_eq.
    by constructor.
Qed.

Lemma run_sop_refines s o n :
  mem_ok s -> bounded s n -> 0 <= n < 65535 ->
  exists s' x, run_sop (share s) o = (s', x) /\ mem_ok (manager s') /\ bounded (manager s') (n + 1) /\
    a_step (Some (mem_view s)) o x (shared_view s').
Proof.
  intros W B Hn. unfold shared_view. assert (bounded s (n + 1)) as B1 by (apply (bounded_mono s n); [done|lia]).
  destruct o as [c|c|c v|id|v id|id].
  - destruct (mem_create s W c) as (s' & E & W' & V).
    unfold run_sop, locked, share. cbn [poisoned manager]. rewrite E.
    exists (share s'), ODone. split_and!; [done|done| |].
    + cbn [manager share]. unfold Mem.create_table, create_container in E. cbn [containers] in E.
      destruct (containers s !! c); by injection E as <-.
    + cbn [poisoned manager share]. rewrite V. constructor.
  - destruct (mem_remove s W c) as (s' & E & W' & V).
    unfold run_sop, locked, share. cbn [poisoned manager]. rewrite E.
    exists (share s'), ODone. split_and!; [done|done| |].
    + cbn [manager share]. unfold Mem.remove_container in E. destruct (containers s !! c); by injection E as <-.
    + cbn [poisoned manager share]. rewrite V. constructor.
  - destruct (view_cases s c) as [Ev|[m Ev]].
    + apply mem_view_None in Ev as Ec. unfold run_sop, locked, share, insert_call, Mem.insert_value.
      cbn [poisoned manager]. rewrite Ec. exists (mkShared s true), OPanic. split_and!; try done. by constructor.
    + destruct (mem_insert s W c v (bounded_room s n c B ltac:(lia)))
        as (s' & id & m' & E & W' & Em & Ef & Ecid & V); [by exists m|].
      unfold run_sop, locked, share, insert_call. cbn [poisoned manager]. rewrite E.
      exists (share s'), (OId id). split_and!; [done|done|apply (insert_bounded s c v s' id n); (done || lia)|].
      cbn [poisoned manager share]. rewrite V. by constructor.
  - destruct (view_cases s (container_id id)) as [Ev|[m Ev]].
    + unfold run_sop, locked, share. cbn [poisoned manager]. rewrite (delete_missing s id Ev). exists (share s), OErr.
      split_and!; try done. by constructor.
    + destruct (mem_delete s W id m Ev) as (s' & E & W' & V).
      unfold run_sop, locked, share. cbn [poisoned manager]. rewrite E.
      exists (share s'), ODone. split_and!; [done|done| |].
      * cbn [manager share]. intros c L. pose proof (last_insert_delete s id) as Hl. rewrite E in Hl. cbn in Hl.
        rewrite Hl. apply B1.
      * cbn [poisoned manager share]. rewrite V. by constructor.
  - destruct (update_refines s v id n W B Hn) as (s' & x & E & W' & B' & St). by exists (share s'), x.
  - unfold run_sop, locked, share. cbn [poisoned manager].
    destruct (Mem.get_value s id) as [v|e|] eqn:E; [| |by unfold Mem.get_value in E; repeat case_match];
      eexists (share s), _; (split_and!; [done|done|done|]); cbn [poisoned manager share].
    + apply (mem_get s W id v) in E as (m & Ev & Em). by eapply as_get.
    + apply as_get_missing. intros m Ev. destruct (m !! id) as [v|] eqn:Em; [|done].
      assert (Mem.get_value s id = Ok v) by (apply (mem_get s W id v); eauto). congruence.
Qed.

(** Poisoned locks stay poisoned. *)
Lemma run_sop_poisoned m o : run_sop (mkShared m true) o = (mkShared m true, OPanic).
Proof. by destruct o. Qed.

Lemma run_sops_poisoned m os : exists xs, run_sops (mkShared m true) os = (mkShared m true, xs) /\ a_steps None os xs None.
Proof.
  induction os as [|o os (xs & E & St)]; [exists []; split; [done|constructor]|].
  exists (OPanic :: xs). cbn [run_sops]. rewrite run_sop_poisoned, E. split; [done|].
  econstructor; [constructor|done].
Qed.

Lemma run_sops_refines os : forall s n,
  mem_ok s -> bounded s n -> 0 <= n -> n + Z.of_nat (length os) <= 65535 ->
  exists s' xs, run_sops (share s) os = (s', xs) /\ mem_ok (manager s') /\
    a_steps (Some (mem_view s)) os xs (shared_view s').
Proof.
  induction os as [|o os IH]; intros s n W B H0 Hn; cbn [run_sops].
  - exists (share s), []. split_and!; [done|done|constructor].
  - cbn [length] in Hn.
    destruct (run_sop_refines s o n W B ltac:(lia)) as (s1 & x & -> & W1 & B1 & S1).
    destruct s1 as [m []].
    { destruct (run_sops_poisoned m os) as (xs & -> & S2). exists (mkShared m true), (x :: xs).
      split_and!; [done|done|by econstructor]. }
    destruct (IH m (n + 1) W1 B1 ltac:(lia) ltac:(lia)) as (s2 & xs & E2 & W2 & S2). unfold share in E2. rewrite E2.
    exists s2, (x :: xs). split_and!; [done|done|by econstructor].
Qed.
End Run.

Lemma new_sm_ok t : mem_ok (new_sm t) /\ bounded (new_sm t) 0.
Proof.
  split; [split; cbn; intros *; rewrite ?lookup_empty; done|].
  intros c L. cbn. by rewrite lookup_empty.
Qed.

(** The store that calls on a new manager leave. *)
Definition store_of `{Profile} (t : bool) (os : list sop) : StorageManager :=
  manager (run_sops (share (new_sm t)) os).1.

Lemma store_of_ok `{Profile} t os : Z.of_nat (length os) <= 65535 -> mem_ok (store_of t os).
Proof.
  intros Hn. destruct (new_sm_ok t) as [W B]. unfold store_of.
  by destruct (run_sops_refines os (new_sm t) 0 W B) as (s' & xs & -> & W' & _); [lia|lia|].
Qed.

(** C4: the in-memory storage manager refines the abstract store: any sequence
    of up to 65535 create, remove, insert, delete, update and get calls on a new
    manager answers as a map of maps would, every inserted value under an id
    that no stored value has.  The only call that panics on its own is an
    insertion into a missing container; it poisons the locks of the manager, and
    every later call panics. *)
Theorem memstore_ops_simulate `{Profile} t os :
  Z.of_nat (length os) <= 65535 ->
  exists s' xs, run_sops (share (new_sm t)) os = (s', xs) /\ a_steps (Some ∅) os xs (shared_view s').
Proof.
  intros Hn. destruct (new_sm_ok t) as [W B].
  destruct (run_sops_refines os (new_sm t) 0 W B) as (s' & xs & E & _ & St); [lia|lia|].
  exists s', xs. split; [done|]. by rewrite <- (fmap_empty (deref (new_sm t))).
Qed.

Lemma memstore_ops_simulate_witness :
  exists s' xs,
    run_sops (H := true) (share (new_sm true))
      [SCreate 1; SInsert 1 [x07]; SGet (slot_rid 1 0); SInsert 2 [x08]; SGet (slot_rid 1 0)]
    = (s', xs) /\ xs = [ODone; OId (slot_rid 1 0); OVal [x07]; OPanic; OPanic].
Proof.
  destruct (@memstore_ops_simulate true true
              [SCreate 1; SInsert 1 [x07]; SGet (slot_rid 1 0); SInsert 2 [x08]; SGet (slot_rid 1 0)])
    as (s' & xs & E & _); [cbn; lia|].
  exists s', xs. split; [exact E|]. vm_compute in E. by injection E as _ <-.
Defined.

(** ** Iteration *)

Lemma length_omap_le {A B} (f : A -> option B) l : (length (omap f l) <= length l)%nat.
Proof.
  induction l as [|x l IH]; [done|]. cbn [omap list_omap]. destruct (f x); cbn [length]; lia.
Qed.

(** Iterating over a container yields every stored value exactly once, in
    slot order, but paired with the id of the slot behind the value's own: the
    iterator advances before it reports its position. *)
Theorem memstore_iterator_yields `{Profile} s c m :
  mem_ok s -> mem_room s c -> mem_view s !! c = Some m ->
  exists it mx, Mem.get_iterator s c = Ok it /\
    (forall fuel, mx < Z.of_nat fuel -> drain s fuel it = Ok (scan_from m c 0 (mx + 1))) /\
    (scan_from m c 0 (mx + 1)).*1 ≡ₚ (map_to_list m).*2 /\
    forall v id, (v, id) ∈ scan_from m c 0 (mx + 1) <->
      exists sl, m !! slot_rid c sl = Some v /\ id = slot_rid c (sl + 1) /\ 0 <= sl <= mx.
Proof.
  intros W R [a [E ->]]%mem_view_lookup.
  destruct (get_iterator_ok s c a W R E) as (mx & Hmx & Ei & Hk).
  exists (mkIt (slot_rid c 0) mx a 0), mx. split; [done|]. split; [|split].
  - intros fuel Hf. apply drain_yields.
    + pose proof (scan_yields s c a mx Hmx 0 ltac:(lia)) as Hy. by rewrite Z.sub_0_r in Hy.
    + unfold scan_from. etrans; [apply length_omap_le|]. rewrite length_seqZ. lia.
  - apply scan_values; [lia|done].
  - intros v id. unfold scan_from. rewrite list_elem_of_omap. split.
    + intros (sl & Hsl%elem_of_seqZ & Ev). exists sl.
      destruct (deref s a !! slot_rid c sl); [|done]. cbn in Ev. injection Ev as -> <-.
      split_and!; (done || lia).
    + intros (sl & Ev & -> & Hsl). exists sl. rewrite elem_of_seqZ, Ev. split; [lia|done].
Qed.


(** Two values in one container. *)
Definition two_values : StorageManager :=
  store_of (H := true) true [SCreate 1; SInsert 1 [x0a]; SInsert 1 [x0b]].

Lemma two_values_ok : mem_ok two_values /\ mem_room two_values 1.
Proof.
  split; [apply store_of_ok; cbn; lia|]. intros L. vm_compute. by intros [= <-].
Qed.

Lemma memstore_iterator_yields_witness :
  exists it, Mem.get_iterator two_values 1 = Ok it /\
    drain (H := MemStore_trait (H := true)) two_values 5 it =
      Ok [([x0a], slot_rid 1 1); ([x0b], slot_rid 1 2)] /\
    Mem.get_value two_values (slot_rid 1 1) = Ok [x0b].
Proof.
  destruct two_values_ok as [W R].
  destruct (@memstore_iterator_yields true two_values 1 _ W R eq_refl)
    as (it & mx & E & D & _ & _).
  exists it. split; [exact E|]. split; [|vm_compute; reflexivity].
  vm_compute in E. injection E as <-. vm_compute. reflexivity.
Defined.

(** ** Restart *)

Lemma max_key_ok c keys : forall mx,
  (forall id, id ∈ keys -> exists sl, id = slot_rid c sl /\ 0 <= sl < 65536) ->
  (exists L, mx = slot_rid c L /\ 0 <= L < 65536) ->
  exists L, foldM (fun mx key =>
              match slot_id key with
              | Some slot => m ← unwrap_opt (slot_id mx); Ok (if m <? slot then key else mx)
              | None => Ok mx
              end) mx keys = (Ok (slot_rid c L) : result ValueId) /\ 0 <= L < 65536 /\
    (forall sl, slot_rid c sl ∈ keys \/ mx = slot_rid c sl -> sl <= L) /\
    (slot_rid c L ∈ keys \/ mx = slot_rid c L).
Proof.
  induction keys as [|k keys IH]; intros mx Hk (M & -> & HM); cbn [foldM].
  - exists M. split_and!; [done|lia|lia| |by right]. intros sl [?%not_elem_of_nil|[= ->]]; [done|lia].
  - destruct (Hk k) as (sl & -> & Hsl); [by apply list_elem_of_here|].
    cbn [slot_rid slot_id unwrap_opt]. mstep.
    destruct (IH (if M <? sl then slot_rid c sl else slot_rid c M)) as (L & E & HL & Hmax & Hin).
    { intros id Hid. apply Hk. by apply list_elem_of_further. }
    { destruct (M <? sl); eauto. }
    exists L. split; [exact E|]. split; [lia|]. split.
    2:{ rewrite elem_of_cons. destruct Hin as [Hin|Hin]; [by auto|]. destruct (M <? sl); auto. }
    intros sl' Hsl'.
    assert (M <= L /\ sl <= L) as [H1 H2].
    { destruct (Z.ltb_spec M sl); specialize (Hmax _ (or_intror eq_refl)); lia. }
    rewrite elem_of_cons in Hsl'. destruct Hsl' as [[[= ->]|Hin']|[= ->]]; [done| |done].
    apply Hmax. by left.
Qed.

Section Restart.
Context `{ContainerCodec, !ContainerCodecLaws}.

(** The contents of a container that can be persisted: its own ids only. *)
Definition container_ok (c : ContainerId) (m : gmap ValueId value) : Prop :=
  forall id v, m !! id = Some v -> exists sl, id = slot_rid c sl /\ 0 <= sl < 65536.

(** The last id of a container that was loaded is one of its ids, or the first. *)
Definition tight (s : StorageManager) : Prop :=
  forall c id, last_insert s !! c = Some id ->
    id = slot_rid c 0 \/ exists m, mem_view s !! c = Some m /\ is_Some (m !! id).

Lemma load_file_ok s c bs m :
  mem_ok s -> containers s !! c = None -> last_insert s !! c = None ->
  from_reader bs = Some m -> container_ok c m ->
  exists s', load_file s (c, bs) = Ok s' /\ mem_ok s' /\
    mem_view s' = <[c := m]> (mem_view s) /\
    (forall c', containers s' !! c' = None <-> c' <> c /\ containers s !! c' = None) /\
    (forall c', last_insert s' !! c' = None <-> c' <> c /\ last_insert s !! c' = None) /\
    exists L, last_insert s' = <[c := slot_rid c L]> (last_insert s) /\
      (L = 0 \/ is_Some (m !! slot_rid c L)).
Proof.
  intros W Ec El Eb Hm. unfold load_file. rewrite Eb. cbn [unwrap_opt]. mstep.
  destruct (max_key_ok c (map_to_list m).*1 (slot_rid c 0)) as (L & E & HL & Hmax & Hin).
  { intros id Hid. apply list_elem_of_fmap in Hid as ([id' v] & -> & Hin).
    apply elem_of_map_to_list in Hin. by apply (Hm id' v). }
  { exists 0. split; [done|lia]. }
  unfold max_key. rewrite E. mstep. eexists. split; [done|].
  assert (forall a t cs li cn, deref (mkSM t (heap s ++ [m]) cs li cn) a =
            if decide (a = length (heap s)) then m else deref s a) as Hd.
  { intros a t cs li cn. unfold deref. cbn [heap]. case_decide as D.
    - subst a. by rewrite list_lookup_middle.
    - destruct (decide (a < length (heap s))%nat); [by rewrite lookup_app_l|].
      rewrite lookup_app_r, (lookup_ge_None_2 (heap s)) by lia.
      by destruct (a - length (heap s))%nat as [|[|]] eqn:?; [lia|..]. }
  assert (forall c' a', <[c := length (heap s)]> (containers s) !! c' = Some a' ->
            c' = c /\ a' = length (heap s) \/
            c' <> c /\ containers s !! c' = Some a' /\ (a' < length (heap s))%nat) as Hc.
  { intros c' a'. rewrite lookup_insert_Some. intros [[<- <-]|[? E']]; [by left|right].
    split_and!; [done|done|]. by apply (mo_addr s W c'). }
  split_and!; [split|..]; cbn [containers heap last_insert].
  - intros c' a' [[-> ->]|(_ & E' & Ha)]%Hc; rewrite length_app; cbn; lia.
  - intros c1 c2 a [[-> ->]|(H1 & E1 & Ha1)]%Hc [[-> Ha2]|(H2 & E2 & Ha2)]%Hc; try done; try lia.
    by apply (mo_inj s W c1 c2 a).
  - intros c' id [[<- <-]|[_ E']]%lookup_insert_Some; [by exists L|by apply (mo_last s W)].
  - intros c' a' id v. rewrite Hd. intros [[-> ->]|(Hne & E' & Ha)]%Hc.
    + rewrite decide_True by done. intros Hv. destruct (Hm id v Hv) as (sl & -> & Hsl).
      exists sl, L. rewrite lookup_insert_eq. split_and!; [done|done|lia|]. apply Hmax. left.
      apply list_elem_of_fmap. exists (slot_rid c sl, v). by rewrite elem_of_map_to_list.
    + rewrite decide_False by lia. rewrite lookup_insert_ne by done. by apply (mo_keys s W c' a').
  - apply map_eq. intros c'. unfold mem_view. cbn [containers]. rewrite lookup_fmap.
    destruct (decide (c' = c)) as [->|].
    + rewrite !lookup_insert_eq. cbn. rewrite Hd. by rewrite decide_True.
    + rewrite !lookup_insert_ne, lookup_fmap by done.
      destruct (containers s !! c') as [a'|] eqn:E'; [|done]. cbn. rewrite Hd.
      apply (mo_addr s W) in E'. by rewrite decide_False by lia.
  - intros c'. rewrite lookup_insert_None. naive_solver.
  - intros c'. rewrite lookup_insert_None. naive_solver.
  - exists L. split; [done|]. destruct Hin as [([id v] & -> & Hv%elem_of_map_to_list)%list_elem_of_fmap|[= <-]]; [right|by left].
    by exists v.
Qed.

(** Loading a file keeps the last ids tight. *)
Lemma tight_insert s s' c m L : tight s -> mem_view s' = <[c := m]> (mem_view s) ->
  last_insert s' = <[c := slot_rid c L]> (last_insert s) -> L = 0 \/ is_Some (m !! slot_rid c L) -> tight s'.
Proof.
  intros T V El HL c' id. rewrite El, V. intros [[<- <-]|[Hne Hl]]%lookup_insert_Some.
  - destruct HL as [->|HL]; [by left|right]. exists m. by rewrite lookup_insert_eq.
  - rewrite lookup_insert_ne by done. by apply T.
Qed.

(** Loading entries whose containers are new: each holds what its file says. *)
Lemma load_entries_ok l : forall s0,
  mem_ok s0 -> NoDup l.*1 ->
  (forall c bs, (c, bs) ∈ l -> containers s0 !! c = None /\ last_insert s0 !! c = None /\
     exists m, from_reader bs = Some m /\ container_ok c m) ->
  exists s', foldM load_file s0 l = Ok s' /\ mem_ok s' /\
    (tight s0 -> tight s') /\
    forall c m, mem_view s' !! c = Some m <->
      (exists bs, (c, bs) ∈ l /\ from_reader bs = Some m) \/ mem_view s0 !! c = Some m.
Proof.
  induction l as [|[c bs] l IH]; intros s0 W0 Hnd Hl; cbn [foldM].
  - exists s0. split_and!; [done..|]. intros c m.
    split; [by right|]. intros [(a & ?%not_elem_of_nil & _)|?]; done.
  - apply NoDup_cons in Hnd as [Hc Hnd].
    destruct (Hl c bs) as (E1 & E2 & m0 & Efrom & Hm); [by apply list_elem_of_here|].
    destruct (load_file_ok s0 c bs m0 W0 E1 E2 Efrom Hm) as (s1 & El & W1 & V1 & Hn1 & Hn2 & L & HL & HL').
    destruct (IH s1 W1 Hnd) as (s2 & E2' & W2 & T2 & V2).
    { intros c' bs' Hin. destruct (Hl c' bs') as (F1 & F2 & F3); [by apply list_elem_of_further|].
      assert (c' <> c). { intros ->. apply Hc. apply list_elem_of_fmap. by exists (c, bs'). }
      split_and!; [by apply Hn1|by apply Hn2|done]. }
    rewrite El. mstep. exists s2. split_and!; [done|done|by eauto using tight_insert|].
    intros c' m. rewrite V2, V1, lookup_insert_Some. setoid_rewrite elem_of_cons.
    assert (mem_view s0 !! c = None) as Hv by by apply mem_view_None.
    split.
    + intros [(a' & ? & ?)|[[<- <-]|[? ?]]]; [left; eauto|left; eauto|by right].
    + intros [(a' & [[= -> ->]|?] & E)|Hv']; [|left; eauto|].
      * rewrite Efrom in E. injection E as ->. by right; left.
      * right; right. split; [|done]. intros <-. congruence.
Qed.

(** The files after a shutdown: the containers', and what was there before. *)
Lemma shutdown_files s dir : is_temp s = false ->
  exists dir', shutdown s dir = Ok dir' /\
    forall c, match containers s !! c with
              | Some a => exists bs, dir' !! c = Some bs /\ from_reader bs = Some (deref s a)
              | None => dir' !! c = dir !! c
              end.
Proof.
  intros Et. unfold shutdown. rewrite Et.
  assert (forall l dir, NoDup l.*1 -> exists dir',
    foldM (fun dir '(c, a) => bs ← unwrap_opt (to_writer (deref s a)); Ok (<[c := bs]> dir)) dir l =
      (Ok dir' : result directory) /\
    (forall c a, (c, a) ∈ l -> exists bs, dir' !! c = Some bs /\ from_reader bs = Some (deref s a)) /\
    (forall c, c ∉ l.*1 -> dir' !! c = dir !! c)) as Hfold.
  { induction l as [|[c a] l IH]; intros d Hnd; cbn [foldM].
    - exists d. split; [done|]. split; [by intros ?? ?%not_elem_of_nil|done].
    - apply NoDup_cons in Hnd as [Hc Hnd]. destruct (container_codec (deref s a)) as (bs & Eto & Efrom).
      rewrite Eto. cbn [unwrap_opt]. mstep. destruct (IH (<[c := bs]> d) Hnd) as (d' & E & H1 & H2).
      exists d'. split; [done|]. split.
      + intros c' a' [[= -> ->]|Hin]%elem_of_cons; [|by apply H1].
        exists bs. rewrite H2 by done. by rewrite lookup_insert_eq.
      + intros c' [Hne Hn]%not_elem_of_cons. rewrite H2 by done. by rewrite lookup_insert_ne. }
  destruct (Hfold (map_to_list (containers s)) dir (NoDup_fst_map_to_list _)) as (dir' & E & H1 & H2).
  exists dir'. split; [done|]. intros c. destruct (containers s !! c) as [a|] eqn:Ec.
  - apply H1. by apply elem_of_map_to_list.
  - apply H2. intros ([c' a] & -> & Hin%elem_of_map_to_list)%list_elem_of_fmap. cbn in Ec. congruence.
Qed.

Lemma restart_ok s dir : mem_ok s -> is_temp s = false -> dom dir ⊆ dom (containers s) ->
  exists dir', shutdown s dir = Ok dir' /\
    forall entries, entries ≡ₚ map_to_list dir' ->
      exists s', load entries = Ok s' /\ mem_ok s' /\ mem_view s' = mem_view s /\ tight s'.
Proof.
  intros W Et Hd. destruct (shutdown_files s dir Et) as (dir' & E & HF). exists dir'. split; [done|].
  assert (forall c bs, dir' !! c = Some bs <->
    exists a, containers s !! c = Some a /\ dir' !! c = Some bs /\ from_reader bs = Some (deref s a)) as Hdir.
  { intros c bs. split; [|naive_solver]. intros Hb. specialize (HF c).
    destruct (containers s !! c) as [a|] eqn:Ec; [destruct HF as (bs' & E' & Hr); exists a; split_and!; congruence|].
    exfalso. rewrite HF in Hb. apply elem_of_dom_2, Hd, elem_of_dom in Hb as [? ?]. congruence. }
  intros entries P. destruct (new_sm_ok false) as [W0 _].
  destruct (load_entries_ok entries (new_sm false) W0) as (s' & E2 & W' & T & V).
  - rewrite P. apply NoDup_fst_map_to_list.
  - intros c bs. rewrite P, elem_of_map_to_list, Hdir. intros (a & Ha & _ & Hr). cbn. rewrite !lookup_empty.
    split_and!; [done|done|]. exists (deref s a). split; [done|].
    intros id v Hv. destruct (mo_keys s W c a id v Ha Hv) as (sl & L & -> & El & Hsl).
    exists sl. destruct (mo_last s W c _ El) as (L' & [= <-] & HL). split; [done|lia].
  - exists s'. split_and!; [done|done| |by apply T]. apply map_eq. intros c. apply option_eq. intros m. rewrite V, (mem_view_lookup s).
    setoid_rewrite P. setoid_rewrite elem_of_map_to_list. split.
    + intros [(bs & (a & Ha & _ & Hr)%Hdir & Hm)|Hv]; [exists a; split; congruence|].
      apply mem_view_lookup in Hv as (a & Ha & _). cbn in Ha. by rewrite lookup_empty in Ha.
    + intros (a & Ha & ->). left. specialize (HF c). rewrite Ha in HF. destruct HF as (bs & ? & ?). by exists bs.
Qed.

(** After a restart a container has lost room for one value at most. *)
Lemma tight_room s s' c n : mem_ok s -> mem_ok s' -> tight s' -> mem_view s' = mem_view s ->
  mem_rooms s c (S n) -> mem_rooms s' c n.
Proof.
  intros W W' T V. assert (0 <= next_slot s c).
  { unfold next_slot. destruct (last_insert s !! c) as [id|] eqn:E; [|lia].
    destruct (mo_last s W c id E) as (L & -> & HL). cbn. lia. }
  unfold mem_rooms. unfold next_slot at 2. destruct (last_insert s' !! c) as [id|] eqn:El; [|lia].
  destruct (T c id El) as [->|(m & Hm & v & Hv)]; [cbn; lia|].
  rewrite V in Hm. apply mem_view_lookup in Hm as (a & Ha & ->).
  destruct (mo_keys s W c a id v Ha Hv) as (sl & L & -> & E & Hsl). unfold next_slot. rewrite E. cbn. lia.
Qed.
End Restart.

(** The manager discharges the rest of the interface. *)
#[export] Program Instance MemStore_lifecycle_laws `{Profile, ContainerCodec, !ContainerCodecLaws} :
  LifecycleLaws (St := StorageManager) (It := ValueIterator) (Dir := directory) :=
  {| lasting s := is_temp s = false; files := dom |}.
Next Obligation.
  intros. exists (new_sm false). destruct (new_sm_ok false) as [W _]. split_and!; [done|done|done| |done]. apply dom_empty_L.
Qed.
Next Obligation.
  intros ? ? ? s c Hs. change (is_temp (Mem.create_table s c).1 = false). unfold Mem.create_table, Mem.create_container.
  by repeat case_match.
Qed.
Next Obligation.
  intros ? ? ? s c v s' id Hs. change (Storage.insert_value s c v) with (Mem.insert_value s c v).
  by intros (a & _ & (k & _ & [= <- _])%bind_Ok_inv)%bind_Ok_inv.
Qed.
Next Obligation. intros. destruct (new_sm_ok true) as [W _]. split_and!; [done|done|]. apply dom_empty_L. Qed.
Next Obligation. done. Qed.
Next Obligation.
  intros ? ? ? s dir W Et Hd. change (dom dir ⊆ dom (mem_view s)) in Hd. unfold mem_view in Hd.
  rewrite dom_fmap_L in Hd. destruct (restart_ok s dir W Et Hd) as (dir' & E1 & HL).
  destruct (HL (map_to_list dir') ltac:(done)) as (s' & E2 & W' & V & T).
  exists dir', s'. split_and!; [done..|]. intros c n. by apply tight_room.
Qed.

(** C34: a restart keeps the store: [shutdown] into a directory that holds files
    of stored containers at most writes files that load in any order of the
    directory's entries, the loaded manager holds exactly the same values under the
    same ids, and it satisfies the invariant, so that later insertions take fresh
    ids. *)
Theorem memstore_restart `{ContainerCodec, !ContainerCodecLaws} s dir :
  mem_ok s -> is_temp s = false -> dom dir ⊆ dom (containers s) ->
  exists dir', shutdown s dir = Ok dir' /\
    forall entries, entries ≡ₚ map_to_list dir' ->
      exists s', load entries = Ok s' /\ mem_ok s' /\ mem_view s' = mem_view s.
Proof.
  intros W Et Hd. destruct (restart_ok s dir W Et Hd) as (dir' & E & HL). exists dir'. split; [done|].
  intros entries P. destruct (HL entries P) as (s' & ? & ? & ? & _). by exists s'.
Qed.

(** A codec that satisfies the hypothesis: the binary digits of the number the
    map is countable by, one digit per byte. *)
Definition bits_of : positive -> list byte :=
  fix go p := match p with xH => [] | xO p => x00 :: go p | xI p => x01 :: go p end.

Fixpoint of_bits (bs : list byte) : option positive :=
  match bs with
  | [] => Some xH
  | x00 :: bs => xO <$> of_bits bs
  | x01 :: bs => xI <$> of_bits bs
  | _ => None
  end.

Lemma of_bits_of p : of_bits (bits_of p) = Some p.
Proof. induction p as [p IH|p IH|]; cbn; [by rewrite IH..|done]. Qed.

#[export] Instance byte_countable : Countable byte :=
  inj_countable' (fun b => byte_to_Z b) (fun z => byte_of_Z z) (fun b => byte_of_to_Z b).

Definition bit_codec : ContainerCodec := {|
  to_writer m := Some (bits_of (encode m));
  from_reader bs := p ← of_bits bs; decode p;
|}.

Lemma bit_codec_laws : ContainerCodecLaws (H := bit_codec).
Proof.
  intros m. exists (bits_of (encode m)). split; [done|]. cbn. rewrite of_bits_of. cbn.
  apply decode_encode.
Qed.

Definition two_values_disk : StorageManager :=
  store_of (H := true) false [SCreate 1; SInsert 1 [x0a]; SInsert 1 [x0b]].

Lemma two_values_disk_ok : mem_ok two_values_disk.
Proof. apply store_of_ok. cbn. lia. Qed.

Lemma memstore_restart_witness :
  exists dir s', shutdown (H := bit_codec) two_values_disk {[1 := [x07]]} = Ok dir /\
    new (H := bit_codec) (Some dir) = Ok s' /\ mem_view s' = mem_view two_values_disk.
Proof.
  destruct (@memstore_restart bit_codec bit_codec_laws two_values_disk {[1 := [x07]]} two_values_disk_ok eq_refl)
    as (dir & E1 & HL); [apply (bool_decide_unpack _); vm_compute; exact I|].
  destruct (HL (map_to_list dir) (Permutation_refl _)) as (s' & E2 & _ & V).
  exists dir, s'. split; [exact E1|]. split; [exact E2|exact V].
Defined.

(** The file of a removed container stays in the directory: after a shutdown,
    a removal and another shutdown, the next start finds the container again. *)
Theorem removed_container_returns :
  exists dir1 dir2 s', shutdown (H := bit_codec) two_values_disk ∅ = Ok dir1 /\
    let s := (remove_container two_values_disk 1).1 in
    mem_view s !! 1 = None /\ shutdown (H := bit_codec) s dir1 = Ok dir2 /\
    new (H := bit_codec) (Some dir2) = Ok s' /\ mem_view s' = mem_view two_values_disk.
Proof.
  destruct (@restart_ok bit_codec bit_codec_laws two_values_disk ∅ two_values_disk_ok eq_refl) as (dir1 & E1 & HL); [set_solver|].
  destruct (HL (map_to_list dir1) (Permutation_refl _)) as (s' & E2 & _ & V & _).
  exists dir1, dir1, s'. split; [exact E1|]. split; [vm_compute; reflexivity|]. split; [vm_compute; reflexivity|].
  split; [exact E2|exact V].
Qed.
