(* ===== verification/OpIter.v ===== *)
(** * Query operators

    [src/src/queryexe/src/opiterator/]: the operators that have a body
    ([TupleIterator], [Filter], [Project], [CrossJoin], [SeqScan], [Update]) as
    one tree type, the calls of the [OpIterator] trait on it, and
    [Executor::execute] ([query/executor.rs]).

    A Rust iterator mutates itself; here each call returns the new operator.  The
    loops of [next] are unbounded in the code (they end when a child is
    exhausted), so the calls take fuel; running out of it is reported like a
    panic, and the theorems show that enough fuel exists. *)

From S2P Require Import Prelude Bytes Common Types Expr Storage.

Section Operators.
Context `{Profile, Cbor} {St It : Type} `{!StorageTrait St It}.

Inductive Op :=
| TupleIterator (schema : TableSchema) (tuples : list Tuple) (will_rewind opened : bool) (index : nat)
| Filter (schema : TableSchema) (predicate : ByteCodeExpr) (child : Op) (opened : bool)
| Project (schema : TableSchema) (fields : list ByteCodeExpr) (child : Op) (opened : bool)
| CrossJoin (schema : TableSchema) (left_child right_child : Op) (opened : bool)
    (current_tuple : option Tuple)
| SeqScan (schema : TableSchema) (container : ContainerId) (filter : option ByteCodeExpr)
    (projection : option (list ByteCodeExpr)) (opened : bool) (index : option ValueId)
    (file_iter : option It).

(** ** Constructors *)

(** The tuples are kept in reverse, to be popped from the end. *)
Definition TupleIterator_new (tuples : list Tuple) (schema : TableSchema) : Op :=
  TupleIterator schema (rev tuples) true false (length tuples).

Definition Filter_new (predicate : ByteCodeExpr) (schema : TableSchema) (child : Op) : Op :=
  Filter schema predicate child false.

Definition Project_new (fields : list ByteCodeExpr) (schema : TableSchema) (child : Op) : Op :=
  Project schema fields child false.

Definition CrossJoin_new (schema : TableSchema) (left_child right_child : Op) : Op :=
  CrossJoin schema left_child right_child false None.

Definition SeqScan_new (schema : TableSchema) (container : ContainerId)
  (filter : option ByteCodeExpr) (projection : option (list ByteCodeExpr)) : Op :=
  SeqScan schema container filter projection false None None.

Definition get_schema (op : Op) : TableSchema :=
  match op with
  | TupleIterator sc _ _ _ _ | Filter sc _ _ _ | Project sc _ _ _
  | CrossJoin sc _ _ _ _ | SeqScan sc _ _ _ _ _ _ => sc
  end.

(** ** [configure] *)

Fixpoint configure (op : Op) (will_rewind : bool) : Op :=
  match op with
  | TupleIterator sc ts _ o i => TupleIterator sc ts will_rewind o i
  | Filter sc p c o => Filter sc p (configure c will_rewind) o
  | Project sc fs c o => Project sc fs (configure c will_rewind) o
  | CrossJoin sc l r o t => CrossJoin sc (configure l will_rewind) (configure r true) o t
  | SeqScan _ _ _ _ _ _ _ => op
  end.

(** ** Evaluation of predicates and projections *)

Definition project_tuple (fields : list ByteCodeExpr) (t : Tuple) : result Tuple :=
  new_field_vals ← mapM_o (fun e => bc_eval e t) fields; Ok (Tuple_new new_field_vals).

(** [Filter]'s test: a predicate that is not boolean is an error. *)
Definition filter_keeps (p : ByteCodeExpr) (t : Tuple) : result bool :=
  f ← bc_eval p t;
  match f with
  | FBool b => Ok b
  | _ => Err (c_err "Predicate did not evaluate to a boolean")
  end.

(** [SeqScan]'s test: there it is a panic. *)
Definition scan_keeps (p : option ByteCodeExpr) (t : Tuple) : result bool :=
  match p with
  | None => Ok true
  | Some p => f ← bc_eval p t; match f with FBool b => Ok b | _ => Panic end
  end.

Definition scan_project (projection : option (list ByteCodeExpr)) (t : Tuple) : result Tuple :=
  match projection with Some fs => project_tuple fs t | None => Ok t end.

(** The tuple of a stored value, with its id. *)
Definition scan_tuple (bytes : value) (id : ValueId) : result Tuple :=
  t ← Tuple_from_bytes bytes; Ok (mkTuple (t_tid t) (Some id) (field_vals t)).

(** ** The calls of the trait, operator by operator

    Each takes what the corresponding call does on the children (and, for the
    loops of [next], on the operator itself) as an argument; [next], [rewind],
    [open] and [close] below tie the knot. *)

Section Calls.
Context (s : St) (fnext : Op -> result (Op * option Tuple)) (frewind fopen fclose : Op -> result Op).

(** *** [TupleIterator] *)

Definition TupleIterator_open sc ts wr (o : bool) i : result Op :=
  Ok (TupleIterator sc ts wr (if negb o then true else o) i).

Definition TupleIterator_next sc ts (wr o : bool) i : result (Op * option Tuple) :=
  if negb o then Panic
  else if wr then
    match i with
    | O => Ok (TupleIterator sc ts wr o i, None)
    | S i' => Ok (TupleIterator sc ts wr o i', ts !! i')
    end
  else
    match rev ts with
    | [] => Ok (TupleIterator sc ts wr o i, None)
    | t :: ts' => Ok (TupleIterator sc (rev ts') wr o i, Some t)
    end.

Definition TupleIterator_close sc ts wr (o : bool) (i : nat) : result Op :=
  Ok (TupleIterator sc ts wr false 0).

Definition TupleIterator_rewind sc ts (wr o : bool) (i : nat) : result Op :=
  if negb o then Panic else if negb wr then Panic
  else Ok (TupleIterator sc ts wr o (length ts)).

(** *** [Filter] *)

Definition Filter_open sc p c (o : bool) : result Op :=
  if negb o then c ← fopen c; Ok (Filter sc p c true) else Ok (Filter sc p c o).

Definition Filter_next sc p c (o : bool) : result (Op * option Tuple) :=
  if negb o then Panic
  else
    '(c, ot) ← fnext c;
    match ot with
    | None => Ok (Filter sc p c o, None)
    | Some t =>
        b ← filter_keeps p t;
        if (b : bool) then Ok (Filter sc p c o, Some t) else fnext (Filter sc p c o)
    end.

Definition Filter_close sc p c (o : bool) : result Op := c ← fclose c; Ok (Filter sc p c false).

Definition Filter_rewind sc p c (o : bool) : result Op :=
  if negb o then Panic else c ← frewind c; Ok (Filter sc p c o).

(** *** [Project] *)

Definition Project_open sc fs c (o : bool) : result Op :=
  c ← (if negb o then fopen c else Ok c); Ok (Project sc fs c true).

Definition Project_next sc fs c (o : bool) : result (Op * option Tuple) :=
  if negb o then Panic
  else
    '(c, ot) ← fnext c;
    match ot with
    | None => Ok (Project sc fs c o, None)
    | Some t => t' ← project_tuple fs t; Ok (Project sc fs c o, Some t')
    end.

Definition Project_close sc fs c (o : bool) : result Op := c ← fclose c; Ok (Project sc fs c false).

Definition Project_rewind sc fs c (o : bool) : result Op :=
  if negb o then Panic else c ← frewind c; Ok (Project sc fs c o).

(** *** [CrossJoin] *)

Definition CrossJoin_open sc l r (o : bool) cur : result Op :=
  if negb o then
    l ← fopen l;
    r ← fopen r;
    '(l, cur) ← fnext l;
    Ok (CrossJoin sc l r true cur)
  else Ok (CrossJoin sc l r o cur).

Definition CrossJoin_next sc l r (o : bool) cur : result (Op * option Tuple) :=
  if negb o then Panic
  else
    match cur with
    | None => Ok (CrossJoin sc l r o cur, None)
    | Some left_tuple =>
        '(r, ot) ← fnext r;
        match ot with
        | Some right_tuple =>
            Ok (CrossJoin sc l r o cur, Some (tuple_merge left_tuple right_tuple))
        | None =>
            r ← frewind r;
            '(l, cur) ← fnext l;
            fnext (CrossJoin sc l r o cur)
        end
    end.

Definition CrossJoin_close sc l r (o : bool) cur : result Op :=
  l ← fclose l; r ← fclose r; Ok (CrossJoin sc l r false cur).

Definition CrossJoin_rewind sc l r (o : bool) (cur : option Tuple) : result Op :=
  l ← frewind l;
  r ← frewind r;
  '(l, cur) ← fnext l;
  Ok (CrossJoin sc l r o cur).

(** *** [SeqScan] *)

Definition SeqScan_open sc c flt prj (o : bool) ix fi : result Op :=
  fi ← (if negb o then
          it ← match ix with
               | Some index => get_iterator_from s c index
               | None => get_iterator s c
               end;
          Ok (Some it)
        else Ok fi);
  Ok (SeqScan sc c flt prj true ix fi).

Definition SeqScan_next sc c flt prj (o : bool) ix fi : result (Op * option Tuple) :=
  if negb o then Panic
  else
    it ← unwrap_opt fi;
    '(x, it) ← iter_next s it;
    match x with
    | None => Ok (SeqScan sc c flt prj o ix (Some it), None)
    | Some (bytes, id) =>
        t ← scan_tuple bytes id;
        b ← scan_keeps flt t;
        if (b : bool) then
          t' ← scan_project prj t;
          Ok (SeqScan sc c flt prj o (Some id) (Some it), Some t')
        else fnext (SeqScan sc c flt prj o (Some id) (Some it))
    end.

Definition SeqScan_close sc c flt prj (o : bool) (ix : option ValueId) (fi : option It) : result Op :=
  Ok (SeqScan sc c flt prj false None None).

Definition SeqScan_rewind sc c flt prj (o : bool) (ix : option ValueId) (fi : option It) : result Op :=
  if negb o then Panic
  else it ← get_iterator s c; Ok (SeqScan sc c flt prj o None (Some it)).
End Calls.

(** ** Dynamic dispatch *)

Fixpoint next (fuel : nat) (s : St) (op : Op) : result (Op * option Tuple) :=
  match fuel with
  | O => Panic
  | S fuel =>
      match op with
      | TupleIterator sc ts wr o i => TupleIterator_next sc ts wr o i
      | Filter sc p c o => Filter_next (next fuel s) sc p c o
      | Project sc fs c o => Project_next (next fuel s) sc fs c o
      | CrossJoin sc l r o cur => CrossJoin_next (next fuel s) (rewind fuel s) sc l r o cur
      | SeqScan sc c flt prj o ix fi => SeqScan_next s (next fuel s) sc c flt prj o ix fi
      end
  end
with rewind (fuel : nat) (s : St) (op : Op) : result Op :=
  match fuel with
  | O => Panic
  | S fuel =>
      match op with
      | TupleIterator sc ts wr o i => TupleIterator_rewind sc ts wr o i
      | Filter sc p c o => Filter_rewind (rewind fuel s) sc p c o
      | Project sc fs c o => Project_rewind (rewind fuel s) sc fs c o
      | CrossJoin sc l r o cur => CrossJoin_rewind (next fuel s) (rewind fuel s) sc l r o cur
      | SeqScan sc c flt prj o ix fi => SeqScan_rewind s sc c flt prj o ix fi
      end
  end.

Fixpoint open (fuel : nat) (s : St) (op : Op) : result Op :=
  match op with
  | TupleIterator sc ts wr o i => TupleIterator_open sc ts wr o i
  | Filter sc p c o => Filter_open (open fuel s) sc p c o
  | Project sc fs c o => Project_open (open fuel s) sc fs c o
  | CrossJoin sc l r o cur => CrossJoin_open (next fuel s) (open fuel s) sc l r o cur
  | SeqScan sc c flt prj o ix fi => SeqScan_open s sc c flt prj o ix fi
  end.

Fixpoint close (op : Op) : result Op :=
  match op with
  | TupleIterator sc ts wr o i => TupleIterator_close sc ts wr o i
  | Filter sc p c o => Filter_close close sc p c o
  | Project sc fs c o => Project_close close sc fs c o
  | CrossJoin sc l r o cur => CrossJoin_close close sc l r o cur
  | SeqScan sc c flt prj o ix fi => SeqScan_close sc c flt prj o ix fi
  end.

(** ** The executor *)

(** [while let Some(t) = opiterator.next()? { res.push(t); }] *)
Fixpoint drain_op (fuel : nat) (s : St) (op : Op) (res : list Tuple) : result (Op * list Tuple) :=
  match fuel with
  | O => Panic
  | S fuel' =>
      '(op, ot) ← next fuel s op;
      match ot with
      | None => Ok (op, res)
      | Some t => drain_op fuel' s op (res ++ [t])
      end
  end.

(** [Executor::execute]: the schema and the tuples of the query result. *)
Definition execute (fuel : nat) (s : St) (op : Op) : result (TableSchema * list Tuple) :=
  let schema := get_schema op in
  let op := configure op false in
  op ← open fuel s op;
  '(op, res) ← drain_op fuel s op [];
  op ← close op;
  Ok (schema, res).
End Operators.

Arguments Op It : clear implicits.
