(* ===== verification/OpIterProofs.v ===== *)
(** * The operators compute the relational operations

    A relation [run] between an open operator, the tuples it produces in all and
    those it still has to produce; [next] and [rewind] follow it.  From it: what
    [Executor::execute] returns for a tree of operators. *)

From S2P Require Import Prelude Bytes Common Types Expr Storage OpIter.

(** Unfold one call of [next]. *)
Ltac op_step :=
  cbn [next TupleIterator_next Filter_next Project_next CrossJoin_next SeqScan_next negb].

(** Keeping the elements a fallible test accepts, in order. *)
Fixpoint filterM_o {E A} (f : A -> outcome E bool) (l : list A) : outcome E (list A) :=
  match l with
  | [] => Ok []
  | a :: l => b ← f a; r ← filterM_o f l; Ok (if (b : bool) then a :: r else r)
  end.

(** All pairs, merged, the left operand varying slowest. *)
Definition cross (l r : list Tuple) : list Tuple := l ≫= fun t => tuple_merge t <$> r.

Section Run.
Context `{Profile, Cbor} {St It : Type} `{!StorageTrait St It} (s : St).

(** The tuples a scan makes of the stored values. *)
Fixpoint scan_items (flt : option ByteCodeExpr) (prj : option (list ByteCodeExpr))
  (l : list (value * ValueId)) : result (list Tuple) :=
  match l with
  | [] => Ok []
  | (bytes, id) :: l =>
      t ← scan_tuple bytes id;
      b ← scan_keeps flt t;
      if (b : bool) then t' ← scan_project prj t; r ← scan_items flt prj l; Ok (t' :: r)
      else scan_items flt prj l
  end.

(** [run wr op full rest]: [op] is open and configured with [will_rewind = wr];
    it produces [full] from its start, and [rest] from where it is. *)
Inductive run : bool -> Op It -> list Tuple -> list Tuple -> Prop :=
| run_tuple sc before rest :
    run true (TupleIterator sc (rev (before ++ rest)) true true (length rest)) (before ++ rest) rest
| run_tuple_consume sc full rest i : run false (TupleIterator sc (rev rest) false true i) full rest
| run_filter wr sc p c fc rc full rest :
    run wr c fc rc -> filterM_o (filter_keeps p) fc = Ok full ->
    filterM_o (filter_keeps p) rc = Ok rest -> run wr (Filter sc p c true) full rest
| run_project wr sc fs c fc rc full rest :
    run wr c fc rc -> mapM_o (project_tuple fs) fc = Ok full ->
    mapM_o (project_tuple fs) rc = Ok rest -> run wr (Project sc fs c true) full rest
| run_cross wr sc l r cur fl rl fr rr :
    run wr l fl rl -> run true r fr rr ->
    run wr (CrossJoin sc l r true cur) (cross fl fr)
      (match cur with Some t => (tuple_merge t <$> rr) ++ cross rl fr | None => [] end)
| run_scan wr sc c flt prj ix it it0 items fitems full rest :
    get_iterator s c = Ok it0 -> yields s it0 fitems -> yields s it items ->
    scan_items flt prj fitems = Ok full -> scan_items flt prj items = Ok rest ->
    run wr (SeqScan sc c flt prj true ix (Some it)) full rest.

Fixpoint depth (op : Op It) : nat :=
  match op with
  | TupleIterator _ _ _ _ _ | SeqScan _ _ _ _ _ _ _ => 0
  | Filter _ _ c _ | Project _ _ c _ => S (depth c)
  | CrossJoin _ l r _ _ => S (max (depth l) (depth r))
  end.

(** [next] takes the head of what is left. *)
Definition next_ok (d : nat) (wr : bool) (op : Op It) (full rest : list Tuple) : Prop :=
  exists n op', (forall fuel, (n <= fuel)%nat -> next fuel s op = Ok (op', head rest)) /\
    run wr op' full (tail rest) /\ (depth op' <= d)%nat.

Definition rewind_ok (d : nat) (op : Op It) (full : list Tuple) : Prop :=
  exists n op', (forall fuel, (n <= fuel)%nat -> rewind fuel s op = Ok op') /\
    run true op' full full /\ (depth op' <= d)%nat.

(** One more unit of fuel than [n]. *)
Lemma fuel_step n fuel : (S n <= fuel)%nat -> exists f, fuel = S f /\ (n <= f)%nat.
Proof. intros Hn. destruct fuel as [|f]; [lia|]. exists f. split; [done|lia]. Qed.

Lemma tuple_next sc before rest d :
  next_ok d true (TupleIterator sc (rev (before ++ rest)) true true (length rest))
    (before ++ rest) rest.
Proof.
  exists 1%nat. destruct rest as [|t rest].
  - eexists. split; [intros fuel (f & -> & _)%fuel_step; done|]. split; [apply run_tuple|cbn; lia].
  - eexists (TupleIterator sc _ true true (length rest)). split; [|split].
    + intros fuel (f & -> & _)%fuel_step. op_step; cbn [length head]. do 2 f_equal.
      rewrite rev_app_distr. cbn [rev]. rewrite <- !app_assoc.
      rewrite lookup_app_r by (rewrite length_rev; lia). rewrite length_rev, Nat.sub_diag. done.
    + cbn [tail]. replace (before ++ t :: rest) with ((before ++ [t]) ++ rest)
        by (by rewrite <- app_assoc). apply run_tuple.
    + cbn. lia.
Qed.

Lemma tuple_consume_next sc full rest i d :
  next_ok d false (TupleIterator sc (rev rest) false true i) full rest.
Proof.
  exists 1%nat. destruct rest as [|t rest].
  - eexists. split; [intros fuel (f & -> & _)%fuel_step; done|].
    split; [apply (run_tuple_consume sc full [])|cbn; lia].
  - eexists. split; [|split; [apply run_tuple_consume|cbn; lia]].
    intros fuel (f & -> & _)%fuel_step. op_step. by rewrite rev_involutive.
Qed.

Section Level.
Context (d : nat).
Context (IHnext : forall wr op full rest, (depth op <= d)%nat -> run wr op full rest ->
                  next_ok d wr op full rest).
Context (IHrewind : forall op full rest, (depth op <= d)%nat -> run true op full rest ->
                    rewind_ok d op full).

Lemma filter_next wr sc p fc full : filterM_o (filter_keeps p) fc = Ok full ->
  forall rc c rest, (depth c <= d)%nat -> run wr c fc rc ->
  filterM_o (filter_keeps p) rc = Ok rest ->
  next_ok (S d) wr (Filter sc p c true) full rest.
Proof.
  intros Ef. induction rc as [|t rc IH]; intros c rest Hd R Er;
    destruct (IHnext _ _ _ _ Hd R) as (n & c' & En & R' & Hd'); cbn [head tail] in *.
  - injection Er as <-. exists (S n), (Filter sc p c' true). split; [|split].
    + intros fuel (f & -> & Hf)%fuel_step. op_step. rewrite En by done. done.
    + by eapply run_filter.
    + cbn. lia.
  - cbn [filterM_o] in Er. apply bind_Ok_inv in Er as (b & Eb & Er).
    apply bind_Ok_inv in Er as (rest' & Er' & [= <-]). destruct b.
    + exists (S n), (Filter sc p c' true). split; [|split].
      * intros fuel (f & -> & Hf)%fuel_step. op_step. rewrite En by done. mstep.
        rewrite Eb. done.
      * cbn [tail]. by eapply run_filter.
      * cbn. lia.
    + destruct (IH c' rest' Hd' R' Er') as (n2 & op' & En2 & R2 & Hd2).
      exists (S (max n n2)), op'. split; [|done].
      intros fuel (f & -> & Hf)%fuel_step. op_step. rewrite En by lia. mstep.
      rewrite Eb. mstep. apply En2. lia.
Qed.

Lemma project_next wr sc fs c fc rc full rest :
  (depth c <= d)%nat -> run wr c fc rc -> mapM_o (project_tuple fs) fc = Ok full ->
  mapM_o (project_tuple fs) rc = Ok rest -> next_ok (S d) wr (Project sc fs c true) full rest.
Proof.
  intros Hd R Ef Er. destruct (IHnext _ _ _ _ Hd R) as (n & c' & En & R' & Hd').
  exists (S n), (Project sc fs c' true). destruct rc as [|t rc]; cbn [head tail mapM_o] in *.
  - injection Er as <-. split; [|split; [by eapply run_project|cbn; lia]].
    intros fuel (f & -> & Hf)%fuel_step. op_step. rewrite En by done. done.
  - apply bind_Ok_inv in Er as (t' & Et & Er). apply bind_Ok_inv in Er as (rest' & Er' & [= <-]).
    split; [|split; [by eapply run_project|cbn; lia]].
    intros fuel (f & -> & Hf)%fuel_step. op_step. rewrite En by done. mstep.
    rewrite Et. done.
Qed.

Lemma cross_next wr sc fl fr : forall rl l r cur rr,
  (depth l <= d)%nat -> (depth r <= d)%nat -> run wr l fl rl -> run true r fr rr ->
  next_ok (S d) wr (CrossJoin sc l r true cur) (cross fl fr)
    (match cur with Some t => (tuple_merge t <$> rr) ++ cross rl fr | None => [] end).
Proof.
  assert (forall rl l r cur rr (Hc : match cur with Some _ => rr <> [] | None => True end),
    (depth l <= d)%nat -> (depth r <= d)%nat -> run wr l fl rl -> run true r fr rr ->
    next_ok (S d) wr (CrossJoin sc l r true cur) (cross fl fr)
      (match cur with Some t => (tuple_merge t <$> rr) ++ cross rl fr | None => [] end)) as Hbase.
  { intros rl l r cur rr Hc Hl Hr Rl Rr. destruct cur as [t|].
    - destruct rr as [|x rr]; [done|]. destruct (IHnext _ _ _ _ Hr Rr) as (n & r' & En & R' & Hd').
      exists (S n), (CrossJoin sc l r' true (Some t)). split; [|split; [|cbn; lia]].
      + intros fuel (f & -> & Hf)%fuel_step. op_step. rewrite En by done. done.
      + cbn [tail fmap list_fmap app]. by apply (run_cross wr sc l r' (Some t) fl rl fr rr).
    - exists 1%nat, (CrossJoin sc l r true None). split; [|split; [|cbn; lia]].
      + intros fuel (f & -> & Hf)%fuel_step. done.
      + by apply (run_cross wr sc l r None fl rl fr rr). }
  induction rl as [|x rl IH]; intros l r cur rr Hl Hr Rl Rr.
  all: destruct cur as [t|]; [|by eapply (Hbase _ l r None rr)].
  all: destruct rr as [|y rr]; [|by eapply (Hbase _ l r (Some t) (y :: rr))].
  all: destruct (IHnext _ _ _ _ Hr Rr) as (n1 & r1 & E1 & R1 & D1); cbn [head tail] in *.
  all: destruct (IHrewind _ _ _ D1 R1) as (n2 & r2 & E2 & R2 & D2).
  all: destruct (IHnext _ _ _ _ Hl Rl) as (n3 & l3 & E3 & R3 & D3); cbn [head tail] in *.
  - destruct (Hbase [] l3 r2 None fr) as (n4 & op4 & E4 & R4 & D4); try done.
    exists (S (max (max n1 n2) (max n3 n4))), op4. split; [|done].
    intros fuel (f & -> & Hf)%fuel_step. op_step. rewrite E1 by lia. mstep.
    rewrite E2 by lia. mstep. rewrite E3 by lia. mstep. apply E4. lia.
  - destruct (IH l3 r2 (Some x) fr) as (n4 & op4 & E4 & R4 & D4); try done.
    exists (S (max (max n1 n2) (max n3 n4))), op4. split; [|done].
    intros fuel (f & -> & Hf)%fuel_step. op_step. rewrite E1 by lia. mstep.
    rewrite E2 by lia. mstep. rewrite E3 by lia. mstep. apply E4. lia.
Qed.
End Level.

Lemma scan_next wr sc c flt prj it0 fitems full d :
  get_iterator s c = Ok it0 -> yields s it0 fitems -> scan_items flt prj fitems = Ok full ->
  forall items it ix rest, yields s it items -> scan_items flt prj items = Ok rest ->
  next_ok d wr (SeqScan sc c flt prj true ix (Some it)) full rest.
Proof.
  intros Eg Yf Ef. induction items as [|[bytes id] items IH]; intros it ix rest Y Er.
  - injection Er as <-. inversion Y as [i i' Ei Ei'|]; subst.
    exists 1%nat, (SeqScan sc c flt prj true ix (Some i')). split; [|split; [|cbn; lia]].
    + intros fuel (f & -> & _)%fuel_step. cbn [next TupleIterator_next Filter_next Project_next CrossJoin_next SeqScan_next negb unwrap_opt]. mstep. by rewrite Ei.
    + apply (run_scan wr sc c flt prj ix i' it0 [] fitems full []); try done.
      by apply (yields_nil s i' i').
  - inversion Y as [|i i' x l Ei Y']; subst. cbn [scan_items] in Er.
    apply bind_Ok_inv in Er as (t & Et & Er). apply bind_Ok_inv in Er as (b & Eb & Er).
    destruct b.
    + apply bind_Ok_inv in Er as (t' & Et' & Er). apply bind_Ok_inv in Er as (r & Er' & [= <-]).
      exists 1%nat, (SeqScan sc c flt prj true (Some id) (Some i')). split; [|split; [|cbn; lia]].
      * intros fuel (f & -> & _)%fuel_step. cbn [next TupleIterator_next Filter_next Project_next CrossJoin_next SeqScan_next negb unwrap_opt]. mstep. rewrite Ei. mstep.
        rewrite Et. mstep. rewrite Eb. mstep. rewrite Et'. done.
      * cbn [tail]. by eapply run_scan.
    + destruct (IH i' (Some id) rest Y' Er) as (n & op' & En & R & D).
      exists (S n), op'. split; [|done]. intros fuel (f & -> & Hf)%fuel_step.
      cbn [next TupleIterator_next Filter_next Project_next CrossJoin_next SeqScan_next negb unwrap_opt]. mstep. rewrite Ei. mstep. rewrite Et. mstep. rewrite Eb. mstep.
      by apply En.
Qed.

(** ** [rewind] *)

Lemma cross_head l r :
  match head l with Some t => (tuple_merge t <$> r) ++ cross (tail l) r | None => [] end = cross l r.
Proof. by destruct l. Qed.

Lemma rewind_step d :
  (forall wr op full rest, (depth op <= d)%nat -> run wr op full rest -> next_ok d wr op full rest) ->
  (forall op full rest, (depth op <= d)%nat -> run true op full rest -> rewind_ok d op full) ->
  forall op full rest, (depth op <= S d)%nat -> run true op full rest -> rewind_ok (S d) op full.
Proof.
  intros IHn IHr op full rest Hd R. remember true as wr eqn:Ewr.
  destruct R as [sc before rest|sc full rest i|wr sc p c fc rc full rest R Ef Er
                |wr sc fs c fc rc full rest R Ef Er|wr sc l r cur fl rl fr rr Rl Rr
                |wr sc c flt prj ix it it0 items fitems full rest Eg Yf Y Ef Er]; subst; try done;
    cbn [depth] in Hd.
  - exists 1%nat. eexists. split; [intros f0 (f & -> & _)%fuel_step; done|].
    split; [|cbn; lia]. rewrite length_rev. apply (run_tuple sc [] (before ++ rest)).
  - destruct (IHr c fc rc) as (n & c' & En & R' & D'); [lia|done|].
    exists (S n), (Filter sc p c' true). split; [|split; [by eapply run_filter|cbn; lia]].
    intros f0 (f & -> & Hf)%fuel_step. cbn [rewind TupleIterator_rewind Filter_rewind Project_rewind SeqScan_rewind negb]. by rewrite En.
  - destruct (IHr c fc rc) as (n & c' & En & R' & D'); [lia|done|].
    exists (S n), (Project sc fs c' true). split; [|split; [by eapply run_project|cbn; lia]].
    intros f0 (f & -> & Hf)%fuel_step. cbn [rewind TupleIterator_rewind Filter_rewind Project_rewind SeqScan_rewind negb]. by rewrite En.
  - destruct (IHr l fl rl) as (n1 & l1 & E1 & R1 & D1); [lia|done|].
    destruct (IHr r fr rr) as (n2 & r2 & E2 & R2 & D2); [lia|done|].
    destruct (IHn true l1 fl fl) as (n3 & l3 & E3 & R3 & D3); [lia|done|].
    exists (S (max n1 (max n2 n3))), (CrossJoin sc l3 r2 true (head fl)).
    split; [|split; [|cbn; lia]].
    + intros f0 (f & -> & Hf)%fuel_step.
      change (CrossJoin_rewind (next f s) (rewind f s) sc l r true cur =
              Ok (CrossJoin sc l3 r2 true (head fl))).
      unfold CrossJoin_rewind. rewrite E1 by lia. mstep.
      rewrite E2 by lia. mstep. by rewrite E3 by lia.
    + rewrite <- (cross_head fl fr) at 2. by apply (run_cross true sc l3 r2 (head fl) fl (tail fl) fr fr).
  - exists 1%nat, (SeqScan sc c flt prj true None (Some it0)).
    split; [|split; [by eapply run_scan|cbn; lia]].
    intros f0 (f & -> & _)%fuel_step. cbn [rewind TupleIterator_rewind Filter_rewind Project_rewind SeqScan_rewind negb]. by rewrite Eg.
Qed.

Lemma next_step d :
  (forall wr op full rest, (depth op <= d)%nat -> run wr op full rest -> next_ok d wr op full rest) ->
  (forall op full rest, (depth op <= d)%nat -> run true op full rest -> rewind_ok d op full) ->
  forall wr op full rest, (depth op <= S d)%nat -> run wr op full rest -> next_ok (S d) wr op full rest.
Proof.
  intros IHn IHr wr op full rest Hd R.
  destruct R as [sc before rest|sc full rest i|wr sc p c fc rc full rest R Ef Er
                |wr sc fs c fc rc full rest R Ef Er|wr sc l r cur fl rl fr rr Rl Rr
                |wr sc c flt prj ix it it0 items fitems full rest Eg Yf Y Ef Er]; cbn [depth] in Hd.
  - apply tuple_next.
  - apply tuple_consume_next.
  - eapply filter_next; (done || lia).
  - eapply project_next; (done || lia).
  - eapply cross_next; (done || lia).
  - by eapply scan_next.
Qed.

Lemma run_ok d :
  (forall wr op full rest, (depth op <= d)%nat -> run wr op full rest -> next_ok d wr op full rest) /\
  (forall op full rest, (depth op <= d)%nat -> run true op full rest -> rewind_ok d op full).
Proof.
  induction d as [|d [IHn IHr]].
  - split.
    + intros wr op full rest Hd R. destruct R; cbn [depth] in Hd; try lia;
        [apply tuple_next|apply tuple_consume_next|by eapply scan_next].
    + intros op full rest Hd R. remember true as wr eqn:Ewr.
      destruct R; cbn [depth] in Hd; try lia; try done.
      * exists 1%nat. eexists. split; [intros f0 (f & -> & _)%fuel_step; done|].
        split; [|cbn; lia]. rewrite length_rev. apply (run_tuple sc [] (before ++ rest)).
      * exists 1%nat. eexists. split.
        -- intros f0 (f & -> & _)%fuel_step. cbn [rewind TupleIterator_rewind Filter_rewind Project_rewind SeqScan_rewind negb].
           match goal with E : get_iterator s c = _ |- _ => by rewrite E end.
        -- subst. split; [by eapply run_scan|cbn; lia].
  - split; [by apply next_step|by apply rewind_step].
Qed.

Lemma run_next wr op full rest : run wr op full rest ->
  exists n op', (forall fuel, (n <= fuel)%nat -> next fuel s op = Ok (op', head rest)) /\
    run wr op' full (tail rest).
Proof.
  intros R. destruct (proj1 (run_ok (depth op)) wr op full rest ltac:(lia) R)
    as (n & op' & E & R' & _). eauto.
Qed.

Lemma run_rewind op full rest : run true op full rest ->
  exists n op', (forall fuel, (n <= fuel)%nat -> rewind fuel s op = Ok op') /\ run true op' full full.
Proof.
  intros R. destruct (proj2 (run_ok (depth op)) op full rest ltac:(lia) R)
    as (n & op' & E & R' & _). eauto.
Qed.

(** ** [open] and [execute] *)

(** [den op full]: the tuples a closed operator stands for: the given tuples,
    the selection, the projection and the product of the children's, and the
    decoded values of a container. *)
Inductive den : Op It -> list Tuple -> Prop :=
| den_tuple sc wr full : den (TupleIterator sc (rev full) wr false (length full)) full
| den_filter sc p c fc full :
    den c fc -> filterM_o (filter_keeps p) fc = Ok full -> den (Filter sc p c false) full
| den_project sc fs c fc full :
    den c fc -> mapM_o (project_tuple fs) fc = Ok full -> den (Project sc fs c false) full
| den_cross sc l r cur fl fr :
    den l fl -> den r fr -> den (CrossJoin sc l r false cur) (cross fl fr)
| den_scan sc c flt prj fi it items full :
    get_iterator s c = Ok it -> yields s it items -> scan_items flt prj items = Ok full ->
    den (SeqScan sc c flt prj false None fi) full.

Lemma den_open op full : den op full -> forall wr,
  exists n op', (forall fuel, (n <= fuel)%nat -> open fuel s (configure op wr) = Ok op') /\
    run wr op' full full.
Proof.
  induction 1 as [sc wr0 full|sc p c fc full D IH E|sc fs c fc full D IH E
                 |sc l r cur fl fr Dl IHl Dr IHr|sc c flt prj fi it items full Eg Y E];
    intros wr; cbn [configure].
  - exists 0%nat. eexists. split; [done|]. destruct wr.
    + apply (run_tuple sc [] full).
    + apply run_tuple_consume.
  - destruct (IH wr) as (n & c' & En & R). exists n, (Filter sc p c' true).
    split; [|by eapply run_filter]. intros fuel Hf.
    change (Filter_open (open fuel s) sc p (configure c wr) false = Ok (Filter sc p c' true)).
    unfold Filter_open. cbn [negb]. by rewrite En.
  - destruct (IH wr) as (n & c' & En & R). exists n, (Project sc fs c' true).
    split; [|by eapply run_project]. intros fuel Hf.
    change (Project_open (open fuel s) sc fs (configure c wr) false = Ok (Project sc fs c' true)).
    unfold Project_open. cbn [negb]. by rewrite En.
  - destruct (IHl wr) as (n1 & l1 & E1 & R1). destruct (IHr true) as (n2 & r2 & E2 & R2).
    destruct (run_next _ _ _ _ R1) as (n3 & l3 & E3 & R3).
    exists (max n1 (max n2 n3)), (CrossJoin sc l3 r2 true (head fl)). split.
    + intros fuel Hf.
      change (CrossJoin_open (next fuel s) (open fuel s) sc (configure l wr) (configure r true) false cur
              = Ok (CrossJoin sc l3 r2 true (head fl))).
      unfold CrossJoin_open. cbn [negb].
      rewrite E1 by lia. mstep. rewrite E2 by lia. mstep. by rewrite E3 by lia.
    + rewrite <- (cross_head fl fr) at 2. by apply (run_cross wr sc l3 r2 (head fl) fl (tail fl) fr fr).
  - exists 0%nat, (SeqScan sc c flt prj true None (Some it)). split; [|by eapply run_scan].
    intros fuel _. cbn [open]. unfold SeqScan_open. cbn [negb]. by rewrite Eg.
Qed.

Lemma close_ok (op : Op It) : exists op', close op = Ok op'.
Proof.
  induction op as [sc ts wr o i|sc p c [c' IH] o|sc fs c [c' IH] o|sc l [l' IHl] r [r' IHr] o cur
                  |sc c flt prj o ix fi]; try by eexists.
  - exists (Filter sc p c' false). change (Filter_close close sc p c o = Ok (Filter sc p c' false)).
    unfold Filter_close. by rewrite IH.
  - exists (Project sc fs c' false). change (Project_close close sc fs c o = Ok (Project sc fs c' false)).
    unfold Project_close. by rewrite IH.
  - exists (CrossJoin sc l' r' false cur).
    change (CrossJoin_close close sc l r o cur = Ok (CrossJoin sc l' r' false cur)).
    unfold CrossJoin_close. rewrite IHl. mstep. by rewrite IHr.
Qed.

Lemma run_drain wr full rest : forall op, run wr op full rest ->
  exists n op', forall fuel res, (n <= fuel)%nat -> drain_op fuel s op res = Ok (op', res ++ rest).
Proof.
  induction rest as [|t rest IH]; intros op R; destruct (run_next _ _ _ _ R) as (n & op' & E & R').
  - exists (S n), op'. intros fuel res Hf. destruct fuel as [|f]; [lia|]. cbn [drain_op].
    rewrite E by lia. mstep. cbn [head]. by rewrite app_nil_r.
  - destruct (IH op' R') as (n2 & op2 & E2). exists (S (max n n2)), op2. intros fuel res Hf.
    destruct fuel as [|f]; [lia|]. cbn [drain_op]. rewrite E by lia. mstep. cbn [head].
    rewrite E2 by lia. by rewrite <- app_assoc.
Qed.

(** [k] calls of [next]. *)
Fixpoint nexts (fuel k : nat) (op : Op It) : result (Op It) :=
  match k with O => Ok op | S k => '(op, _) ← next fuel s op; nexts fuel k op end.

Lemma run_nexts wr full k : forall op rest, run wr op full rest ->
  exists n op', (forall fuel, (n <= fuel)%nat -> nexts fuel k op = Ok op') /\ run wr op' full (drop k rest).
Proof.
  induction k as [|k IH]; intros op rest R; [by exists 0%nat, op|].
  destruct (run_next _ _ _ _ R) as (n & op1 & E & R1).
  destruct (IH op1 (tail rest) R1) as (n2 & op2 & E2 & R2).
  exists (max n n2), op2. split.
  - intros fuel Hf. cbn [nexts]. rewrite E by lia. mstep. apply E2. lia.
  - destruct rest; [by rewrite drop_nil in *|done].
Qed.
End Run.
