(* ===== verification/OpIterTheorems.v ===== *)
(** * Query execution: the theorems

    [Executor::execute] returns the relational meaning of its operator tree, a
    rewound operator starts over, and a scan returns the stored tuples. *)

From S2P Require Import Prelude Bytes Common Types Expr Storage OpIter OpIterProofs.
From S2P Require Import MemStore MemStoreProofs MemStoreTheorems.

(** ** A serialisation that satisfies the laws, for the witnesses *)

Definition Field_to_sum (f : Field) : Z + string + (Z * Z) + Z + bool + unit :=
  match f with
  | FInt i => inl (inl (inl (inl (inl i))))
  | FString s => inl (inl (inl (inl (inr s))))
  | FDecimal w s => inl (inl (inl (inr (w, s))))
  | FDate d => inl (inl (inr d))
  | FBool b => inl (inr b)
  | FNull => inr tt
  end.

Definition Field_of_sum (x : Z + string + (Z * Z) + Z + bool + unit) : Field :=
  match x with
  | inl (inl (inl (inl (inl i)))) => FInt i
  | inl (inl (inl (inl (inr s)))) => FString s
  | inl (inl (inl (inr (w, s)))) => FDecimal w s
  | inl (inl (inr d)) => FDate d
  | inl (inr b) => FBool b
  | inr tt => FNull
  end.

#[export] Instance Field_countable : Countable Field :=
  inj_countable' Field_to_sum Field_of_sum (fun f => ltac:(by destruct f)).

Definition bit_cbor : Cbor := {|
  cbor_to_vec t := Some (bits_of (encode (t_tid t, field_vals t)));
  cbor_from_slice bs :=
    p ← of_bits bs; x ← decode p; let '(tid, fs) := x : Z * list Field in Some (mkTuple tid None fs);
|}.

Lemma bit_cbor_laws : CborLaws (H := bit_cbor).
Proof.
  intros t. exists (bits_of (encode (t_tid t, field_vals t))). split; [done|]. cbn.
  rewrite of_bits_of. cbn. by rewrite decode_encode.
Qed.

(** ** Execution *)

Section Theorems.
Context `{Profile, Cbor} {St It : Type} `{!StorageTrait St It} (s : St).

Lemma execute_den op full : den s op full ->
  exists n, forall fuel, (n <= fuel)%nat -> execute fuel s op = Ok (get_schema op, full).
Proof.
  intros D. destruct (den_open s op full D false) as (n1 & op1 & E1 & R1).
  destruct (run_drain s false full full op1 R1) as (n2 & op2 & E2).
  destruct (close_ok op2) as [op3 E3].
  exists (max n1 n2). intros fuel Hf. unfold execute. rewrite E1 by lia. mstep.
  rewrite (E2 fuel []) by lia. mstep. rewrite E3. done.
Qed.
End Theorems.

(** C5: query execution is correct.  For a tree of scans, selections,
    projections and products whose expressions evaluate without error on the
    tuples they meet, [execute] ends and returns exactly the tuples of the
    relational expression, in order. *)
Theorem execute_correct `{Profile, Cbor} {St It : Type} `{!StorageTrait St It} (s : St) op full :
  den s op full ->
  exists n, forall fuel, (n <= fuel)%nat -> execute fuel s op = Ok (get_schema op, full).
Proof. apply execute_den. Qed.

(** Two small tables. *)
Definition tup (l : list Z) : Tuple := Tuple_new (FInt <$> l).
Definition demo_left : list Tuple := [tup [1]; tup [2]]%Z.
Definition demo_right : list Tuple := [tup [10]; tup [20]]%Z.
Definition demo_schema : TableSchema := from_vecs ["a"] [TInt].

(** [SELECT * FROM l, r WHERE l.a = 2] as an operator tree. *)
Definition demo_pred : ByteCodeExpr :=
  mkBC [opcode PushField; 0; opcode PushLit; 0; opcode BcEq]%nat [FInt 2].
Definition demo_op : Op Mem.ValueIterator :=
  Filter_new demo_pred demo_schema
    (CrossJoin_new demo_schema (TupleIterator_new demo_left demo_schema)
       (TupleIterator_new demo_right demo_schema)).

Lemma demo_den : den (H := true) (H0 := bit_cbor) (StorageTrait0 := MemStore_trait (H := true))
  (Mem.new_sm true) demo_op [tup [2; 10]; tup [2; 20]]%Z.
Proof.
  eapply den_filter; [apply den_cross|].
  - apply (den_tuple _ demo_schema true demo_left).
  - apply (den_tuple _ demo_schema true demo_right).
  - vm_compute. reflexivity.
Qed.

Lemma execute_correct_witness :
  exists n, forall fuel, (n <= fuel)%nat ->
    execute (H := true) (H0 := bit_cbor) (StorageTrait0 := MemStore_trait (H := true))
      fuel (Mem.new_sm true) demo_op = Ok (demo_schema, [tup [2; 10]; tup [2; 20]]%Z).
Proof. exact (execute_correct (Mem.new_sm true) demo_op _ demo_den). Defined.

(** C28: [rewind] restarts an operator.  An operator tree of scans, selections,
    projections and products whose expressions evaluate without error on the tuples
    they meet, configured to be rewound, opened, and rewound after any number of [next] calls, even past its
    end, produces all its tuples again. *)
Theorem rewind_restarts `{Profile, Cbor} {St It : Type} `{!StorageTrait St It} (s : St) op full k :
  den s op full ->
  exists n, forall fuel, (n <= fuel)%nat ->
    (op ← open fuel s (configure op true);
     op ← nexts s fuel k op;
     op ← rewind fuel s op;
     '(_, res) ← drain_op fuel s op [];
     Ok res) = Ok full.
Proof.
  intros D. destruct (den_open s op full D true) as (n1 & op1 & E1 & R1).
  destruct (run_nexts s true full k op1 full R1) as (n2 & op2 & E2 & R2).
  destruct (run_rewind s op2 full _ R2) as (n3 & op3 & E3 & R3).
  destruct (run_drain s true full full op3 R3) as (n4 & op4 & E4).
  exists (max (max n1 n2) (max n3 n4)). intros fuel Hf.
  rewrite E1 by lia. mstep. rewrite E2 by lia. mstep. rewrite E3 by lia. mstep.
  rewrite (E4 fuel []) by lia. done.
Qed.

Lemma rewind_restarts_witness :
  exists n, forall fuel, (n <= fuel)%nat ->
    (op ← open (H := true) (H0 := bit_cbor) (StorageTrait0 := MemStore_trait (H := true))
            fuel (Mem.new_sm true) (configure demo_op true);
     op ← nexts (H := true) (H0 := bit_cbor) (StorageTrait0 := MemStore_trait (H := true))
            (Mem.new_sm true) fuel 7 op;
     op ← rewind (H := true) (H0 := bit_cbor) (StorageTrait0 := MemStore_trait (H := true))
            fuel (Mem.new_sm true) op;
     '(_, res) ← drain_op (H := true) (H0 := bit_cbor) (StorageTrait0 := MemStore_trait (H := true))
            fuel (Mem.new_sm true) op [];
     Ok res) = Ok [tup [2; 10]; tup [2; 20]]%Z.
Proof. exact (rewind_restarts (Mem.new_sm true) demo_op _ 7 demo_den). Defined.

(** A [TupleIterator] that is rewindable is not re-initialised by [open]
    after [close]: [close] sets its position to the end, so it yields nothing. *)
Theorem tuple_iterator_reopen_empty `{Profile, Cbor} {St It : Type} `{!StorageTrait St It}
  (s : St) (ts : list Tuple) sc fuel :
  (op ← open (S fuel) s (configure (TupleIterator_new ts sc) true);
   op ← close op;
   op ← open (S fuel) s op;
   '(_, o) ← next (S fuel) s op;
   Ok o) = Ok None.
Proof. done. Qed.

(** ** Scans *)

Section Scan.
Context `{Profile, Cbor, !CborLaws}.

(** Scanning stored encodings gives the tuples back, under the iterated ids. *)
Lemma scan_items_decode (items : list (value * ValueId)) ts :
  Forall2 (fun t bs => cbor_to_vec t = Some bs) ts items.*1 ->
  exists res, scan_items None None items = Ok res /\ field_vals <$> res = field_vals <$> ts.
Proof.
  revert ts. induction items as [|[bs id] items IH]; intros ts HF; cbn in HF.
  - apply Forall2_nil_inv_r in HF as ->. by exists [].
  - apply Forall2_cons_inv_r in HF as (t & ts' & Et & HF & ->).
    destruct (IH ts' HF) as (res & Er & Eq).
    destruct (cbor_roundtrip t) as (bs' & E1 & E2). rewrite Et in E1. injection E1 as <-.
    cbn [scan_items]. unfold scan_tuple, Tuple_from_bytes. rewrite E2. cbn [unwrap_opt]. mstep.
    cbn [scan_keeps scan_project]. mstep. rewrite Er. mstep.
    eexists. split; [done|]. cbn. by rewrite Eq.
Qed.
End Scan.

(** A scan of a container yields the tuples whose encodings it holds. *)
Lemma scan_table_den `{Profile, Cbor, !CborLaws} {St It : Type} `{!StorageTrait St It}
  `{!StorageLaws (St := St) (It := It)} (s : St) sc c m ts :
  ok s -> room s c 1%nat -> view s !! c = Some m ->
  Forall2 (fun t bs => cbor_to_vec t = Some bs) ts (map_to_list m).*2 ->
  exists res, den s (SeqScan_new sc c None None) res /\ field_vals <$> res ≡ₚ field_vals <$> ts.
Proof.
  intros Ws Rs Vs HF. destruct (law_iterate s c m Ws Rs Vs) as (it & items & Eg & Y & P).
  apply Forall2_flip in HF.
  destruct (Permutation_Forall2 (Permutation_sym P) HF) as (ts' & P' & HF'%Forall2_flip).
  destruct (scan_items_decode items ts' HF') as (res & Er & Eq).
  exists res. split; [by eapply den_scan|]. rewrite Eq. by apply fmap_Permutation.
Qed.

(** A container with the encodings of two tuples. *)
Definition stored_tuples : Mem.StorageManager :=
  store_of (H := true) true
    [SCreate 1; SInsert 1 (bits_of (encode (0, [FInt 4])));
     SInsert 1 (bits_of (encode (0, [FInt 5])))]%Z.

Lemma stored_tuples_ok : mem_ok stored_tuples /\ mem_room stored_tuples 1.
Proof.
  split; [apply store_of_ok; cbn; lia|]. intros L. vm_compute. by intros [= <-].
Qed.
