(* ===== verification/Graph.v ===== *)
(** * Plan graphs

    [src/src/common/src/crusty_graph.rs]: nodes and edges in two vectors, the
    edges of a node in a linked list through the edge vector; topological order
    (Kahn's algorithm) and reachability (depth-first search). *)

From S2P Require Import Prelude Common.

Abbreviation NodeIndex := nat (only parsing).
Abbreviation EdgeIndex := nat (only parsing).

(** ** Data *)

Record Node (T : Type) := mkNode { data : T; outgoing_edge : option EdgeIndex }.
Arguments mkNode {T} data outgoing_edge.
Arguments data {T}.
Arguments outgoing_edge {T}.

Record Edge := mkEdge { source : NodeIndex; target : NodeIndex; next_edge : option EdgeIndex }.

Record CrustyGraph (T : Type) := mkGraph { nodes : list (Node T); edge_list : list Edge }.
Arguments mkGraph {T} nodes edge_list.
Arguments nodes {T}.
Arguments edge_list {T}.

(** The order in which a [HashMap] enumerates its keys: any order. *)
Class HashOrder := hash_order : list nat -> list nat.
Class HashOrderLaws `{HashOrder} : Prop := hash_order_perm : forall l, hash_order l ≡ₚ l.

Section Ops.
Context {T : Type}.

Definition graph_new : CrustyGraph T := mkGraph [] [].

Definition add_node (g : CrustyGraph T) (d : T) : CrustyGraph T * NodeIndex :=
  (mkGraph (nodes g ++ [mkNode d None]) (edge_list g), length (nodes g)).

Definition node_index_exists (g : CrustyGraph T) (n : NodeIndex) : bool :=
  bool_decide (is_Some (nodes g !! n)).

Definition add_edge (g : CrustyGraph T) (src tgt : NodeIndex) : result (CrustyGraph T) :=
  if negb (node_index_exists g src) then Panic
  else if negb (node_index_exists g tgt) then Panic
  else
    node ← unwrap_opt (nodes g !! src);
    let index := length (edge_list g) in
    let edge := mkEdge src tgt (outgoing_edge node) in
    Ok (mkGraph (<[src := mkNode (data node) (Some index)]> (nodes g)) (edge_list g ++ [edge])).

Definition node_data (g : CrustyGraph T) (n : NodeIndex) : option T := data <$> nodes g !! n.
Definition node_count (g : CrustyGraph T) : nat := length (nodes g).
Definition edge_count (g : CrustyGraph T) : nat := length (edge_list g).

(** [node_references]: the indexes with their nodes. *)
Definition node_references (g : CrustyGraph T) : list (NodeIndex * Node T) :=
  zip (seq 0 (length (nodes g))) (nodes g).

Definition edge_references (g : CrustyGraph T) : list Edge := edge_list g.

(** The [Edges] iterator: from an edge to the next one of the same source. *)
Fixpoint edges_from (g : CrustyGraph T) (fuel : nat) (edge : option EdgeIndex)
  : result (list NodeIndex) :=
  match edge with
  | None => Ok []
  | Some i =>
      match fuel with
      | O => Panic
      | S fuel' =>
          e ← unwrap_opt (edge_list g !! i);
          l ← edges_from g fuel' (next_edge e);
          Ok (target e :: l)
      end
  end.

(** Links point to edges added before, so the number of edges bounds the walk. *)
Definition edges (g : CrustyGraph T) (src : NodeIndex) : result (list NodeIndex) :=
  node ← unwrap_opt (nodes g !! src);
  edges_from g (length (edge_list g)) (outgoing_edge node).

(** ** Topological order *)

Section Topo.
Context `{Profile, HashOrder}.

(** [if let Some(num) = num_incoming.get_mut(&child) { *num += 1 }] *)
Definition count_child (num : gmap nat Z) (child : NodeIndex) : result (gmap nat Z) :=
  match num !! child with
  | Some n => n' ← arith_u 32 (n + 1)%Z; Ok (<[child := n']> num)
  | None => Ok num
  end.

Definition count_node (g : CrustyGraph T) (num : gmap nat Z) (n : NodeIndex) : result (gmap nat Z) :=
  cs ← edges g n; foldM count_child num cs.

(** The body of the inner loop: a child whose last incoming edge goes is ready. *)
Definition relax_child (st : gmap nat Z * list NodeIndex) (child : NodeIndex)
  : result (gmap nat Z * list NodeIndex) :=
  let '(num, none_incoming) := st in
  match num !! child with
  | Some n =>
      if (n =? 1)%Z then Ok (delete child num, child :: none_incoming)
      else n' ← arith_u 32 (n - 1)%Z; Ok (<[child := n']> num, none_incoming)
  | None => Ok (num, none_incoming)
  end.

(** The stack [none_incoming] has its top first; [fuel] bounds the pops. *)
Fixpoint topo_loop (g : CrustyGraph T) (fuel : nat) (num : gmap nat Z)
  (none_incoming res : list NodeIndex) : result (list NodeIndex) :=
  match none_incoming with
  | [] => Ok res
  | next :: rest =>
      match fuel with
      | O => Panic
      | S fuel' =>
          cs ← edges g next;
          '(num, stack) ← foldM relax_child (num, rest) cs;
          topo_loop g fuel' num stack (res ++ [next])
      end
  end.

Definition topological_order (g : CrustyGraph T) : result (option (list NodeIndex)) :=
  let ids := (node_references g).*1 in
  let num_incoming : gmap nat Z := foldl (fun m n => <[n := 0%Z]> m) ∅ ids in
  num_incoming ← foldM (count_node g) num_incoming ids;
  let none_incoming :=
    rev (filter (fun n => num_incoming !! n = Some 0%Z)
           (hash_order (map_to_list num_incoming).*1)) in
  res ← topo_loop g (node_count g) num_incoming none_incoming [];
  Ok (if (length res =? node_count g)%nat then Some res else None).

Definition cycle_free (g : CrustyGraph T) : result bool :=
  o ← topological_order g; Ok (bool_decide (is_Some o)).
End Topo.

(** ** Reachability *)

Definition push_unvisited (visited : gset nat) (todo : list NodeIndex) (child : NodeIndex)
  : list NodeIndex :=
  if bool_decide (child ∉ visited) then child :: todo else todo.

Fixpoint reach_loop (g : CrustyGraph T) (fuel : nat) (visited : gset nat) (todo : list NodeIndex)
  : result (gset nat) :=
  match todo with
  | [] => Ok visited
  | next :: todo =>
      match fuel with
      | O => Panic
      | S fuel' =>
          cs ← edges g next;
          let todo := foldl (push_unvisited visited) todo cs in
          reach_loop g fuel' ({[next]} ∪ visited) todo
      end
  end.

(** A pop either visits a new node, or is followed by one that does, or removes
    an entry; so the pops are bounded by twice the nodes times the edges. *)
Definition reach_fuel (g : CrustyGraph T) : nat :=
  2 * S (length (nodes g)) * S (length (edge_list g)).

Definition err_invalid_node : CrustyError :=
  CrustyErr "tried to check if graph is all reachable from invalid node".

Definition all_reachable_from_node (g : CrustyGraph T) (n : NodeIndex) : result bool :=
  if negb (node_index_exists g n) then Err err_invalid_node
  else
    visited ← reach_loop g (reach_fuel g) ∅ [n];
    Ok (size visited =? node_count g)%nat.
End Ops.
