(* ===== verification/GraphProofs.v ===== *)
(** * Plan graphs: linked lists, topological order, reachability *)

From S2P Require Import Prelude Common Graph.

Section GraphProofs.
Context {T : Type}.
Implicit Types g : CrustyGraph T.

(** ** The edges of a node *)

(** The targets of the edges out of [s], latest edge first. *)
Definition out (es : list Edge) (s : nat) : list nat :=
  rev (omap (fun e => if decide (source e = s) then Some (target e) else None) es).

Definition edge_rel g (u v : nat) : Prop :=
  exists e, e ∈ edge_list g /\ source e = u /\ target e = v.

(** A linked list through the edge vector; links go to earlier edges. *)
Inductive chain (es : list Edge) : option nat -> list nat -> Prop :=
| chain_nil : chain es None []
| chain_cons i e l : es !! i = Some e -> (forall j, next_edge e = Some j -> (j < i)%nat) ->
    chain es (next_edge e) l -> chain es (Some i) (target e :: l).

Record graph_wf g : Prop := {
  gw_chain : forall s nd, nodes g !! s = Some nd -> chain (edge_list g) (outgoing_edge nd) (out (edge_list g) s);
  gw_edges : forall e, e ∈ edge_list g ->
             (source e < length (nodes g))%nat /\ (target e < length (nodes g))%nat;
}.

Lemma chain_app es es' o l : chain es o l -> chain (es ++ es') o l.
Proof.
  induction 1 as [|i e l E Hn C IH]; [constructor|].
  apply chain_cons; [|done|done]. rewrite lookup_app_l; [done|]. by eapply lookup_lt_Some.
Qed.

Lemma out_app es e s :
  out (es ++ [e]) s = (if decide (source e = s) then [target e] else []) ++ out es s.
Proof.
  unfold out. rewrite omap_app. cbn. rewrite rev_app_distr. by destruct (decide (source e = s)).
Qed.

Lemma elem_of_out es s v : v ∈ out es s <-> exists e, e ∈ es /\ source e = s /\ target e = v.
Proof.
  unfold out. rewrite list_elem_of_In, <- in_rev, <- list_elem_of_In.
  rewrite list_elem_of_omap. split.
  - intros (e & He & E). exists e. case_decide; [|done]. by injection E.
  - intros (e & He & <- & <-). exists e. by rewrite decide_True.
Qed.

Lemma edge_rel_out g u v : edge_rel g u v <-> v ∈ out (edge_list g) u.
Proof. unfold edge_rel. by rewrite elem_of_out. Qed.

Lemma graph_new_wf : graph_wf graph_new.
Proof. split; [done|]. cbn. by intros e ?%not_elem_of_nil. Qed.

Lemma add_node_wf g d : graph_wf g -> graph_wf (add_node g d).1.
Proof.
  intros W. split; cbn [add_node fst nodes edge_list].
  - intros s nd. rewrite lookup_app_Some. intros [E|[Hl E]]; [by apply (gw_chain g W)|].
    destruct (s - length (nodes g))%nat eqn:Es; [|by destruct n]. injection E as <-. cbn [outgoing_edge].
    assert (out (edge_list g) s = []) as ->; [|constructor].
    apply elem_of_nil_inv. intros v (e & He & Hs & _)%elem_of_out.
    apply (gw_edges g W) in He. lia.
  - intros e He. rewrite length_app. cbn. apply (gw_edges g W) in He. lia.
Qed.

Lemma node_index_exists_iff g n : node_index_exists g n = true <-> (n < length (nodes g))%nat.
Proof. unfold node_index_exists. by rewrite bool_decide_eq_true, lookup_lt_is_Some. Qed.

Lemma add_edge_ok g u v :
  graph_wf g -> (u < length (nodes g))%nat -> (v < length (nodes g))%nat ->
  exists g', add_edge g u v = Ok g' /\ graph_wf g' /\ length (nodes g') = length (nodes g) /\
    forall a b, edge_rel g' a b <-> edge_rel g a b \/ a = u /\ b = v.
Proof.
  intros W Hu Hv. unfold add_edge.
  rewrite !(proj2 (node_index_exists_iff g _)) by done. cbn [negb].
  destruct (lookup_lt_is_Some_2 _ _ Hu) as [nd E]. rewrite E. cbn [unwrap_opt]. mstep.
  eexists. split; [done|]. split; [split|split]; cbn [nodes edge_list].
  - intros s nd'. rewrite out_app. cbn [source target].
    destruct (decide (u = s)) as [<-|Hne].
    + rewrite list_lookup_insert_eq by done. intros [= <-]. cbn [outgoing_edge app].
      apply (chain_cons _ _ (mkEdge u v (outgoing_edge nd))).
      * by apply list_lookup_middle.
      * cbn. intros j Hj. pose proof (gw_chain g W u nd E) as C. rewrite Hj in C.
        inversion C; subst. by eapply lookup_lt_Some.
      * apply chain_app. by apply (gw_chain g W).
    + rewrite list_lookup_insert_ne by done. intros E'. cbn [app].
      apply chain_app. by apply (gw_chain g W).
  - intros e. rewrite length_insert, elem_of_app, list_elem_of_singleton.
    intros [He| ->]; [by apply (gw_edges g W)|done].
  - apply length_insert.
  - intros a b. unfold edge_rel. cbn [edge_list]. setoid_rewrite elem_of_app.
    setoid_rewrite list_elem_of_singleton. split.
    + intros (e & [He| ->] & <- & <-); [left; eauto|by right].
    + intros [(e & He & <- & <-)|[-> ->]]; [eauto|]. eexists. split; [by right|done].
Qed.

Lemma edges_from_ok g o l : chain (edge_list g) o l ->
  forall fuel, (match o with Some i => i < fuel | None => True end)%nat -> edges_from g fuel o = Ok l.
Proof.
  induction 1 as [|i e l E Hn C IH]; intros fuel Hf; [by destruct fuel|].
  destruct fuel as [|fuel]; [lia|]. cbn [edges_from]. rewrite E. cbn [unwrap_opt]. mstep.
  rewrite IH; [done|]. destruct (next_edge e) as [j|]; [|done]. specialize (Hn j eq_refl). lia.
Qed.

Lemma edges_ok g s : graph_wf g -> (s < length (nodes g))%nat -> edges g s = Ok (out (edge_list g) s).
Proof.
  intros W Hs. unfold edges. destruct (lookup_lt_is_Some_2 _ _ Hs) as [nd E]. rewrite E.
  cbn [unwrap_opt]. mstep. pose proof (gw_chain g W s nd E) as C. apply edges_from_ok; [done|].
  destruct (outgoing_edge nd); [|done]. inversion C; subst. by eapply lookup_lt_Some.
Qed.

(** ** Counting occurrences *)

Definition cnt (v : nat) (l : list nat) : nat := count_occ Nat.eq_dec l v.

Lemma cnt_app v l1 l2 : cnt v (l1 ++ l2) = (cnt v l1 + cnt v l2)%nat.
Proof. apply count_occ_app. Qed.

Lemma cnt_cons v c l : cnt v (c :: l) = ((if decide (v = c) then 1 else 0) + cnt v l)%nat.
Proof.
  unfold cnt. cbn. destruct (Nat.eq_dec c v), (decide (v = c)); subst; try done.
Qed.

Lemma cnt_pos v l : (0 < cnt v l)%nat <-> v ∈ l.
Proof. unfold cnt. rewrite list_elem_of_In, (count_occ_In Nat.eq_dec). lia. Qed.

Lemma cnt_perm v l1 l2 : l1 ≡ₚ l2 -> cnt v l1 = cnt v l2.
Proof. intros P. by apply (Permutation_count_occ Nat.eq_dec). Qed.

Lemma cnt_le v l : (cnt v l <= length l)%nat.
Proof. apply count_occ_bound. Qed.

(** The edges out of the nodes not yet in [res]. *)
Definition pending g (res : list nat) : list nat :=
  (filter (fun s => s ∉ res) (seq 0 (length (nodes g)))) ≫= out (edge_list g).

Lemma elem_of_pending g res v :
  v ∈ pending g res <-> exists u, (u < length (nodes g))%nat /\ (u ∉ res) /\ edge_rel g u v.
Proof.
  unfold pending. rewrite list_elem_of_bind.
  setoid_rewrite list_elem_of_filter. setoid_rewrite elem_of_seq. split.
  - intros (u & Hv & Hu & Hlt). exists u. rewrite edge_rel_out. split; [lia|done].
  - intros (u & Hlt & Hu & He%edge_rel_out). exists u. split; [done|]. split; [done|lia].
Qed.

(** Taking a node into [res] takes its edges out of the pending ones. *)
Lemma pending_step g res n :
  (n < length (nodes g))%nat -> n ∉ res ->
  pending g res ≡ₚ out (edge_list g) n ++ pending g (res ++ [n]).
Proof.
  intros Hn Hr. unfold pending.
  assert (forall l, NoDup l ->
    (filter (fun s => s ∉ res) l ≫= out (edge_list g)) ≡ₚ
    (if decide (n ∈ l) then out (edge_list g) n else []) ++
    (filter (fun s => s ∉ res ++ [n]) l ≫= out (edge_list g))) as Hl.
  { induction l as [|x l IH]; intros Hnd; [by rewrite decide_False by apply not_elem_of_nil|].
    apply NoDup_cons in Hnd as [Hx Hnd]. specialize (IH Hnd). rewrite !filter_cons.
    destruct (decide (x = n)) as [->|Hxn].
    - rewrite decide_True by done. rewrite (decide_True (P := n ∈ n :: l)) by set_solver.
      rewrite (decide_False (P := n ∉ res ++ [n])) by set_solver.
      cbn [mbind list_bind]. f_equiv. rewrite IH. rewrite decide_False by done. done.
    - rewrite (decide_ext (n ∈ x :: l) (n ∈ l)) by set_solver.
      destruct (decide (x ∉ res)) as [Hxr|Hxr].
      + rewrite (decide_True (P := x ∉ res ++ [n])) by set_solver.
        cbn [mbind list_bind]. rewrite IH. rewrite !(assoc_L (++)).
        f_equiv. apply Permutation_app_comm.
      + rewrite (decide_False (P := x ∉ res ++ [n])) by set_solver. done. }
  rewrite Hl by apply NoDup_seq. rewrite decide_True; [done|]. apply elem_of_seq. lia.
Qed.

(** ** The inner loop of the topological sort *)

(** [ready] are the nodes found so far, [num] counts the pending edges [rem]
    into every other node. *)
Record topo_inv (n : nat) (num : gmap nat Z) (ready rem : list nat) : Prop := {
  ti_nodup : NoDup ready;
  ti_node : forall v, v ∈ ready -> (v < n)%nat;
  ti_ready : forall v, v ∈ ready -> cnt v rem = 0%nat;
  ti_wait : forall v, (v < n)%nat -> v ∉ ready ->
            num !! v = Some (Z.of_nat (cnt v rem)) /\ (0 < cnt v rem)%nat;
}.

Lemma topo_inv_perm n num ready ready' rem rem' :
  topo_inv n num ready rem -> ready' ≡ₚ ready -> rem' ≡ₚ rem -> topo_inv n num ready' rem'.
Proof.
  intros [I1 I2 I3 I4] P1 P2. split.
  - by rewrite P1.
  - intros v Hv. apply I2. by rewrite <- P1.
  - intros v Hv. rewrite (cnt_perm v _ _ P2). apply I3. by rewrite <- P1.
  - intros v Hv Hn. rewrite (cnt_perm v _ _ P2). apply I4; [done|]. by rewrite <- P1.
Qed.

Context `{Profile}.

Lemma relax_child_ok n num res stack c rem :
  topo_inv n num (res ++ stack) (c :: rem) -> (c < n)%nat ->
  (Z.of_nat (length (c :: rem)) < 2 ^ 32)%Z ->
  exists num' stack', relax_child (num, stack) c = Ok (num', stack') /\
    topo_inv n num' (res ++ stack') rem.
Proof.
  intros [I1 I2 I3 I4] Hc Hlen.
  assert (c ∉ res ++ stack) as Hnr.
  { intros Hin. specialize (I3 c Hin). rewrite cnt_cons, decide_True in I3 by done. lia. }
  destruct (I4 c Hc Hnr) as [E Hpos]. unfold relax_child. rewrite E.
  rewrite cnt_cons, decide_True in * by done.
  destruct (Z.eqb_spec (Z.of_nat (1 + cnt c rem)) 1) as [H1|H1].
  - eexists _, _. split; [done|]. assert (cnt c rem = 0%nat) as H0 by lia. split.
    + rewrite <- Permutation_middle. by apply NoDup_cons.
    + intros v. rewrite <- Permutation_middle, elem_of_cons. intros [->|Hv]; [done|by apply I2].
    + intros v. rewrite <- Permutation_middle, elem_of_cons. intros [->|Hv]; [done|].
      specialize (I3 v Hv). rewrite cnt_cons in I3. lia.
    + intros v Hv. rewrite <- Permutation_middle, not_elem_of_cons. intros [Hvc Hvr].
      rewrite lookup_delete_ne by done. destruct (I4 v Hv Hvr) as [E' Hp].
      rewrite cnt_cons, decide_False in * by done. done.
  - pose proof (cnt_le c rem) as Hle. cbn [length] in Hlen.
    rewrite arith_u_ok by (unfold in_u; lia). mstep. eexists _, _. split; [done|]. split.
    + done.
    + done.
    + intros v Hv. specialize (I3 v Hv). rewrite cnt_cons in I3. lia.
    + intros v Hv Hvr. destruct (decide (v = c)) as [->|Hvc].
      * rewrite lookup_insert_eq. split; [f_equal; lia|lia].
      * rewrite lookup_insert_ne by done. destruct (I4 v Hv Hvr) as [E' Hp].
        rewrite cnt_cons, decide_False in * by done. done.
Qed.

Lemma relax_ok n res rem cs : forall num stack,
  topo_inv n num (res ++ stack) (cs ++ rem) -> (forall c, c ∈ cs -> (c < n)%nat) ->
  (Z.of_nat (length (cs ++ rem)) < 2 ^ 32)%Z ->
  exists num' stack', foldM relax_child (num, stack) cs = Ok (num', stack') /\
    topo_inv n num' (res ++ stack') rem.
Proof.
  induction cs as [|c cs IH]; intros num stack I Hc Hlen; cbn [foldM]; [eauto|].
  destruct (relax_child_ok n num res stack c (cs ++ rem) I) as (num1 & stack1 & -> & I1).
  { apply Hc. by apply list_elem_of_here. } { done. }
  mstep. apply (IH num1 stack1 I1).
  - intros c' Hc'. apply Hc. by apply list_elem_of_further.
  - cbn [app length] in Hlen. lia.
Qed.

(** ** The outer loop *)

(** [l] lists the sources of all edges into a node before the node. *)
Definition respects g (l : list nat) : Prop :=
  forall i v u, l !! i = Some v -> edge_rel g u v -> u ∈ take i l.

Lemma respects_snoc g res n :
  graph_wf g -> respects g res -> cnt n (pending g res) = 0%nat -> respects g (res ++ [n]).
Proof.
  intros W R Hc i v u E He. apply lookup_app_Some in E as [E|[Hl E]].
  - rewrite take_app_le by (apply lookup_lt_Some in E; lia). by apply (R i v).
  - destruct (i - length res)%nat eqn:Ei; [|by destruct n0]. injection E as <-.
    rewrite take_app_ge by lia. apply elem_of_app. left. destruct (decide (u ∈ res)); [done|].
    exfalso. assert (n ∈ pending g res) as Hin%cnt_pos; [|lia].
    apply elem_of_pending. exists u. split_and!; [|done|done].
    destruct He as (e & He & <- & _). by apply (gw_edges g W).
Qed.

Lemma length_le_nodes n (l : list nat) :
  NoDup l -> (forall v, v ∈ l -> (v < n)%nat) -> (length l <= n)%nat.
Proof.
  intros Hnd Hl. assert (length l <= length (seq 0 n))%nat as Hle; [|by rewrite length_seq in Hle].
  apply submseteq_length.
  apply NoDup_submseteq; [done|]. intros v Hv. apply elem_of_seq. specialize (Hl v Hv). lia.
Qed.

Lemma topo_loop_ok g fuel : forall num stack res,
  graph_wf g -> (Z.of_nat (length (pending g res)) < 2 ^ 32)%Z ->
  topo_inv (length (nodes g)) num (res ++ stack) (pending g res) -> respects g res ->
  (length (nodes g) - length res <= fuel)%nat ->
  exists res' num', topo_loop g fuel num stack res = Ok res' /\
    topo_inv (length (nodes g)) num' res' (pending g res') /\ respects g res'.
Proof.
  induction fuel as [|fuel IH]; intros num stack res W Hlen I R Hf;
    destruct stack as [|n stack]; cbn [topo_loop].
  - exists res, num. rewrite app_nil_r in I. done.
  - exfalso. pose proof (length_le_nodes _ _ (ti_nodup _ _ _ _ I) (ti_node _ _ _ _ I)) as Hle.
    rewrite length_app in Hle. cbn in Hle. lia.
  - exists res, num. rewrite app_nil_r in I. done.
  - assert (n ∈ res ++ n :: stack) as Hin by set_solver.
    pose proof (ti_node _ _ _ _ I n Hin) as Hn.
    assert (n ∉ res) as Hnr.
    { pose proof (ti_nodup _ _ _ _ I) as Hnd. apply NoDup_app in Hnd as (_ & Hd & _).
      intros Hr. apply (Hd n Hr). by apply list_elem_of_here. }
    rewrite edges_ok by done. mstep.
    pose proof (pending_step g res n Hn Hnr) as P.
    destruct (relax_ok (length (nodes g)) (res ++ [n]) (pending g (res ++ [n]))
                (out (edge_list g) n) num stack) as (num1 & stack1 & -> & I1).
    + apply (topo_inv_perm _ _ (res ++ n :: stack) _ (pending g res)); [done| |by rewrite P].
      by rewrite <- app_assoc.
    + intros c (e & He & _ & <-)%elem_of_out. by apply (gw_edges g W).
    + by rewrite <- (Permutation_length P).
    + mstep. apply IH; [done| |done| |].
      * apply Permutation_length in P. rewrite length_app in P. lia.
      * apply respects_snoc; [done|done|]. by apply (ti_ready _ _ _ _ I).
      * rewrite length_app. cbn. lia.
Qed.

(** ** Counting the incoming edges *)

Lemma count_child_ok (num : gmap nat Z) c k :
  num !! c = Some (Z.of_nat k) -> (Z.of_nat k + 1 < 2 ^ 32)%Z ->
  count_child num c = Ok (<[c := Z.of_nat (S k)]> num).
Proof.
  intros E Hk. unfold count_child. rewrite E. rewrite arith_u_ok by (unfold in_u; lia). mstep.
  do 2 f_equal. lia.
Qed.

Definition counts (n : nat) (num : gmap nat Z) (l : list nat) : Prop :=
  forall v, num !! v = if decide (v < n)%nat then Some (Z.of_nat (cnt v l)) else None.

Lemma count_children_ok n cs : forall num l,
  counts n num l -> (forall c, c ∈ cs -> (c < n)%nat) -> (Z.of_nat (length (cs ++ l)) < 2 ^ 32)%Z ->
  exists num', foldM count_child num cs = Ok num' /\ counts n num' (cs ++ l).
Proof.
  induction cs as [|c cs IH]; intros num l C Hc Hlen; cbn [foldM]; [eauto|].
  assert (c < n)%nat as Hcn by (apply Hc; by apply list_elem_of_here).
  pose proof (C c) as E. rewrite decide_True in E by done.
  cbn [app length] in Hlen. rewrite length_app in Hlen. pose proof (cnt_le c l).
  rewrite (count_child_ok num c (cnt c l) E) by lia. mstep.
  destruct (IH (<[c := Z.of_nat (S (cnt c l))]> num) (c :: l)) as (num' & -> & C').
  - intros v. rewrite cnt_cons. destruct (decide (v = c)) as [->|].
    + rewrite lookup_insert_eq. by rewrite decide_True.
    + rewrite lookup_insert_ne by done. apply C.
  - intros c' Hc'. apply Hc. by apply list_elem_of_further.
  - rewrite length_app. cbn [length]. lia.
  - exists num'. split; [done|]. intros v. rewrite (C' v).
    rewrite (cnt_perm v (cs ++ c :: l) ((c :: cs) ++ l)); [done|].
    cbn. by rewrite Permutation_middle.
Qed.

Lemma bind_cons_out es s ids : ((s :: ids) ≫= out es) = out es s ++ (ids ≫= out es).
Proof. done. Qed.

Lemma count_nodes_ok g ids : forall num l,
  graph_wf g -> counts (length (nodes g)) num l ->
  (forall s, s ∈ ids -> (s < length (nodes g))%nat) ->
  (Z.of_nat (length ((ids ≫= out (edge_list g)) ++ l)) < 2 ^ 32)%Z ->
  exists num', foldM (count_node g) num ids = Ok num' /\
    counts (length (nodes g)) num' ((ids ≫= out (edge_list g)) ++ l).
Proof.
  induction ids as [|s ids IH]; intros num l W C Hs Hlen; cbn [foldM]; [eauto|].
  rewrite bind_cons_out in *. rewrite !length_app in Hlen.
  assert (count_node g num s = foldM count_child num (out (edge_list g) s)) as ->.
  { unfold count_node. rewrite edges_ok; [done|done|]. apply Hs. by apply list_elem_of_here. }
  destruct (count_children_ok (length (nodes g)) (out (edge_list g) s) num l C)
    as (num1 & -> & C1).
  { intros c (e & He & _ & <-)%elem_of_out. by apply (gw_edges g W). }
  { rewrite length_app. lia. }
  mstep. destruct (IH num1 (out (edge_list g) s ++ l) W C1) as (num2 & -> & C2).
  { intros s' Hs'. apply Hs. by apply list_elem_of_further. }
  { rewrite !length_app. lia. }
  exists num2. split; [done|]. intros v. rewrite (C2 v).
  rewrite (cnt_perm v _ ((out (edge_list g) s ++ (ids ≫= out (edge_list g))) ++ l)); [done|].
  rewrite !(assoc_L (++)). f_equiv. apply Permutation_app_comm.
Qed.

Lemma init_counts n : counts n (foldl (fun m v => <[v := 0%Z]> m) ∅ (seq 0 n)) [].
Proof.
  assert (forall l (m : gmap nat Z) v, foldl (fun m v => <[v := 0%Z]> m) m l !! v =
            if decide (v ∈ l) then Some 0%Z else m !! v) as Hl.
  { induction l as [|x l IH]; intros m v; cbn [foldl].
    - by rewrite decide_False by apply not_elem_of_nil.
    - rewrite IH. destruct (decide (v ∈ l)).
      + by rewrite decide_True by set_solver.
      + destruct (decide (v = x)) as [->|].
        * rewrite lookup_insert_eq. by rewrite decide_True by set_solver.
        * rewrite lookup_insert_ne by done. by rewrite decide_False by set_solver. }
  intros v. rewrite Hl, lookup_empty. cbn.
  rewrite (decide_ext (v ∈ seq 0 n) (v < n)%nat); [done|]. rewrite elem_of_seq. lia.
Qed.

(** Every edge is counted once. *)
Lemma length_pending g : (length (pending g []) <= length (edge_list g))%nat.
Proof.
  unfold pending. generalize (edge_list g) as es.
  assert (NoDup (filter (fun s => s ∉ []) (seq 0 (length (nodes g))))) as Hnd
    by apply NoDup_filter, NoDup_seq.
  revert Hnd. generalize (filter (fun s => s ∉ []) (seq 0 (length (nodes g)))) as ids.
  intros ids Hnd es. induction es as [|e es IH] using rev_ind.
  - assert (ids ≫= out [] = []) as ->; [|done]. clear. by induction ids.
  - assert (forall l, NoDup l -> (length (l ≫= out (es ++ [e])) <=
              length (l ≫= out es) + (if decide (source e ∈ l) then 1 else 0))%nat) as Hl.
    { clear. induction l as [|s l IH]; intros Hnd; [cbn; lia|]. apply NoDup_cons in Hnd as [Hs Hnd].
      specialize (IH Hnd). rewrite !bind_cons_out, !length_app, out_app, length_app.
      destruct (decide (source e = s)) as [<-|Hne].
      - rewrite (decide_False (P := source e ∈ l)) in IH by done.
        rewrite decide_True by set_solver. cbn [length]. lia.
      - rewrite (decide_ext (source e ∈ s :: l) (source e ∈ l)) by set_solver. cbn [length]. lia. }
    specialize (Hl ids Hnd). rewrite length_app. cbn [length]. case_decide; lia.
Qed.
End GraphProofs.
