(* ===== verification/GraphTheorems.v ===== *)
(** * Plan graphs: the theorems

    [topological_order] decides whether an order exists and returns one;
    [all_reachable_from_node] decides reachability; both terminate. *)

From S2P Require Import Prelude Common Graph GraphProofs.

(** ** Topological order *)

(** A topological order: every node once, sources before targets. *)
Definition is_topo {T} (g : CrustyGraph T) (l : list nat) : Prop :=
  l ≡ₚ seq 0 (length (nodes g)) /\ respects g l.

Section Topo.
Context {T : Type} `{Profile, HashOrder, !HashOrderLaws} (g : CrustyGraph T).
Context (W : graph_wf g) (HE : (Z.of_nat (length (edge_list g)) < 2 ^ 32)%Z).

Lemma pending_nil : pending g [] = (seq 0 (length (nodes g)) ≫= out (edge_list g)).
Proof.
  unfold pending. f_equal. generalize (seq 0 (length (nodes g))) as l.
  induction l as [|x l IH]; [done|]. rewrite filter_cons, decide_True by apply not_elem_of_nil.
  by rewrite IH.
Qed.

Lemma node_ids : (node_references g).*1 = seq 0 (length (nodes g)).
Proof. unfold node_references. apply fst_zip. by rewrite length_seq. Qed.

Lemma initial_inv num :
  counts (length (nodes g)) num (pending g []) ->
  topo_inv (length (nodes g)) num
    (rev (filter (fun n => num !! n = Some 0%Z) (hash_order (map_to_list num).*1)))
    (pending g []).
Proof.
  intros C.
  assert (forall v, v ∈ rev (filter (fun n => num !! n = Some 0%Z) (hash_order (map_to_list num).*1)) <->
            num !! v = Some 0%Z) as Hm.
  { intros v. rewrite <- Permutation_rev, list_elem_of_filter, hash_order_perm. split; [tauto|].
    intros E. split; [done|]. apply list_elem_of_fmap. exists (v, 0%Z).
    by rewrite elem_of_map_to_list. }
  split.
  - rewrite <- Permutation_rev. apply NoDup_filter. rewrite hash_order_perm.
    apply NoDup_fst_map_to_list.
  - intros v E%Hm. rewrite (C v) in E. by case_decide.
  - intros v E%Hm. rewrite (C v) in E. case_decide; [|done]. injection E. lia.
  - intros v Hv Hn. rewrite (C v), decide_True by done. split; [done|].
    apply Nat.neq_0_lt_0. intros E0. apply Hn, Hm. rewrite (C v), decide_True by done. by rewrite E0.
Qed.

(** What remains when the sort stops short has no order. *)
Lemma stuck_no_order res num l :
  topo_inv (length (nodes g)) num res (pending g res) -> length res <> length (nodes g) ->
  ~ is_topo g l.
Proof.
  intros I Hlen [P R].
  assert (forall i v, l !! i = Some v -> v ∈ res) as Hall.
  { induction i as [i IH] using lt_wf_ind. intros v E. destruct (decide (v ∈ res)) as [|Hnv]; [done|].
    assert (v < length (nodes g))%nat as Hv.
    { assert (v ∈ seq 0 (length (nodes g))) as Hin by (rewrite <- P; by eapply list_elem_of_lookup_2).
      apply elem_of_seq in Hin. lia. }
    destruct (ti_wait _ _ _ _ I v Hv Hnv) as [_ Hpos%cnt_pos].
    apply elem_of_pending in Hpos as (u & Hu & Hur & He).
    pose proof (R i v u E He) as Hin. apply list_elem_of_lookup in Hin as [j Hj].
    apply lookup_take_Some in Hj as [Hj Hji]. destruct Hur. by apply (IH j). }
  apply Hlen. apply Nat.le_antisymm.
  - apply length_le_nodes; [apply (ti_nodup _ _ _ _ I)|apply (ti_node _ _ _ _ I)].
  - rewrite <- (length_seq (length (nodes g)) 0), <- P. apply submseteq_length, NoDup_submseteq.
    + rewrite P. apply NoDup_seq.
    + intros v [i Hi]%list_elem_of_lookup. by apply (Hall i).
Qed.

Lemma finished_order res num :
  topo_inv (length (nodes g)) num res (pending g res) -> respects g res ->
  length res = length (nodes g) -> is_topo g res.
Proof.
  intros I R Hlen. split; [|done]. apply submseteq_length_Permutation.
  - apply NoDup_submseteq; [apply (ti_nodup _ _ _ _ I)|]. intros v Hv. apply elem_of_seq.
    apply (ti_node _ _ _ _ I) in Hv. lia.
  - rewrite length_seq. lia.
Qed.

Lemma topological_order_ok :
  exists o, topological_order g = Ok o /\
    match o with Some l => is_topo g l | None => forall l, ~ is_topo g l end.
Proof.
  unfold topological_order. rewrite node_ids.
  pose proof (length_pending g) as Hlen.
  destruct (count_nodes_ok g (seq 0 (length (nodes g)))
              (foldl (fun m n => <[n := 0%Z]> m) ∅ (seq 0 (length (nodes g)))) [] W)
    as (num & -> & C).
  { apply init_counts. } { intros s Hs%elem_of_seq. lia. }
  { rewrite app_nil_r, <- pending_nil. lia. }
  rewrite app_nil_r, <- pending_nil in C. mstep.
  destruct (topo_loop_ok g (node_count g) num _ [] W ltac:(lia) (initial_inv num C))
    as (res & num' & -> & I & R); [by intros i v u E|unfold node_count; cbn; lia|].
  mstep. eexists. split; [done|]. unfold node_count.
  destruct (Nat.eqb_spec (length res) (length (nodes g))).
  - by eapply finished_order.
  - intros l. by eapply stuck_no_order.
Qed.
End Topo.

(** C20: [topological_order] is sound and complete on every graph built by the
    interface with fewer than 2^32 edges, for every enumeration order of the hash map: it ends and returns
    a list of all nodes in which the source of every edge precedes its target,
    or [None] exactly when there is no such list. *)
Theorem topological_order_correct {T} `{Profile, HashOrder, !HashOrderLaws} (g : CrustyGraph T) :
  graph_wf g -> (Z.of_nat (edge_count g) < 2 ^ 32)%Z ->
  exists o, topological_order g = Ok o /\
    match o with Some l => is_topo g l | None => forall l, ~ is_topo g l end.
Proof. apply topological_order_ok. Qed.

(** A small plan: node 2 over nodes 1 and 0. *)
Definition demo_graph : result (CrustyGraph nat) :=
  let g := (add_node (add_node (add_node graph_new 0).1 1).1 2).1%nat in
  g ← add_edge g 2 1; add_edge g 1 0.

Lemma demo_graph_ok : exists g, demo_graph = Ok g /\ graph_wf g.
Proof.
  set (g0 := (add_node (add_node (add_node (T := nat) graph_new 0).1 1).1 2).1%nat).
  assert (graph_wf g0) as W0 by (repeat apply add_node_wf; apply graph_new_wf).
  destruct (add_edge_ok g0 2 1 W0) as (g1 & E1 & W1 & L1 & _); [cbn; lia..|].
  destruct (add_edge_ok g1 1 0 W1) as (g2 & E2 & W2 & _); [rewrite L1; cbn; lia..|].
  exists g2. unfold demo_graph. fold g0. rewrite E1. mstep. done.
Qed.

Definition id_order : HashOrder := fun l => l.

Lemma topological_order_correct_witness :
  exists g, demo_graph = Ok g /\
    topological_order (H := true) (H0 := id_order) g = Ok (Some [2; 1; 0]%nat) /\
    is_topo g [2; 1; 0]%nat.
Proof.
  destruct demo_graph_ok as (g & E & W). exists g. split; [exact E|].
  assert (Z.of_nat (edge_count g) < 2 ^ 32)%Z as HE.
  { vm_compute in E. injection E as <-. vm_compute. reflexivity. }
  destruct (@topological_order_correct nat true id_order (fun l => Permutation_refl l) g W HE)
    as (o & Eo & Ho).
  assert (o = Some [2; 1; 0]%nat) as ->.
  { vm_compute in E. injection E as <-. vm_compute in Eo. by injection Eo as <-. }
  split; [exact Eo|exact Ho].
Defined.

(** ** Reachability *)

Section Reach.
Context {T : Type} (g : CrustyGraph T) (W : graph_wf g).

Local Abbreviation n := (length (nodes g)).
Local Abbreviation E := (length (edge_list g)).

Lemma elem_of_push visited cs : forall todo v,
  v ∈ foldl (push_unvisited visited) todo cs <-> v ∈ todo \/ v ∈ cs /\ v ∉ visited.
Proof.
  induction cs as [|c cs IH]; intros todo v; cbn [foldl]; [set_solver|].
  rewrite IH. unfold push_unvisited. case_bool_decide; set_solver.
Qed.

Lemma length_push visited cs : forall todo,
  (length (foldl (push_unvisited visited) todo cs) <= length todo + length cs)%nat.
Proof.
  induction cs as [|c cs IH]; intros todo; cbn [foldl length]; [lia|].
  specialize (IH (push_unvisited visited todo c)). unfold push_unvisited in *.
  case_bool_decide; cbn [length] in *; lia.
Qed.

(** Either nothing was pushed, or the new top is unvisited. *)
Lemma head_push visited cs : forall todo,
  foldl (push_unvisited visited) todo cs = todo \/
  exists v l, foldl (push_unvisited visited) todo cs = v :: l /\ v ∉ visited.
Proof.
  induction cs as [|c cs IH] using rev_ind; intros todo; [by left|].
  rewrite foldl_app. cbn [foldl]. unfold push_unvisited at 1 3. case_bool_decide; [|apply IH].
  right. eauto.
Qed.

Lemma length_out s : (length (out (edge_list g) s) <= E)%nat.
Proof.
  unfold out. rewrite length_rev. generalize (edge_list g) as l.
  induction l as [|e l IH]; [done|]. cbn [omap list_omap length].
  case_decide; cbn [length]; lia.
Qed.

(** The nodes not visited yet. *)
Definition unvisited (visited : gset nat) : nat := size (set_seq (C := gset nat) 0 n ∖ visited).

Lemma unvisited_visit visited v : (v < n)%nat -> v ∉ visited ->
  (unvisited ({[v]} ∪ visited) + 1 = unvisited visited)%nat.
Proof.
  intros Hv Hn. unfold unvisited.
  replace (set_seq 0 n ∖ visited) with ({[v]} ∪ (set_seq 0 n ∖ ({[v]} ∪ visited)) : gset nat).
  - rewrite (size_union (C := gset nat) {[v]}) by set_solver. rewrite size_singleton. lia.
  - apply set_eq. intros x. rewrite elem_of_union, !elem_of_difference, elem_of_union, elem_of_singleton.
    rewrite elem_of_set_seq. destruct (decide (x = v)) as [->|]; [|tauto].
    split; [intros _; split; [lia|done]|by left].
Qed.

(** The potential of a search state: it falls with every pop. *)
Definition potential (visited : gset nat) (todo : list nat) : Z :=
  (Z.of_nat (length todo) + 2 * Z.of_nat E * Z.of_nat (unvisited visited) -
   match todo with v :: _ => if bool_decide (v ∈ visited) then 0 else Z.of_nat E | [] => 0 end)%Z.

Lemma potential_step visited v todo :
  (v < n)%nat ->
  let todo' := foldl (push_unvisited visited) todo (out (edge_list g) v) in
  (potential ({[v]} ∪ visited) todo' < potential visited (v :: todo))%Z.
Proof.
  intros Hv todo'. pose proof (length_push visited (out (edge_list g) v) todo) as Hl.
  pose proof (length_out v) as Ho. fold todo' in Hl. unfold potential. cbn [length].
  assert (forall (vs : gset nat) (l : list nat), (0 <= match l with w :: _ => if bool_decide (w ∈ vs)
     then 0 else Z.of_nat E | [] => 0 end)%Z) as Hb.
  { intros vs [|w l]; [lia|]. case_bool_decide; lia. }
  case_bool_decide as Hvis.
  - assert ({[v]} ∪ visited = visited) as -> by set_solver.
    destruct (head_push visited (out (edge_list g) v) todo) as [Eq|(w & l & Eq & Hw)];
      fold todo' in Eq.
    + rewrite Eq. specialize (Hb visited todo). nia.
    + rewrite Eq in *. rewrite bool_decide_eq_false_2 by done. nia.
  - pose proof (unvisited_visit visited v Hv Hvis) as Hu. specialize (Hb ({[v]} ∪ visited) todo'). nia.
Qed.

Lemma potential_pos visited todo : (forall v, v ∈ todo -> (v < n)%nat) ->
  (Z.of_nat (length todo) <= potential visited todo)%Z.
Proof.
  intros Hl. unfold potential. destruct todo as [|v todo]; [cbn; lia|].
  case_bool_decide as Hv; [nia|].
  assert (v < n)%nat as Hvn by (apply Hl; by apply list_elem_of_here).
  pose proof (unvisited_visit visited v Hvn Hv). nia.
Qed.

(** The search invariant from root [r]. *)
Record reach_inv (r : nat) (visited : gset nat) (todo : list nat) : Prop := {
  ri_root : r ∈ visited \/ r ∈ todo;
  ri_sound : forall v, v ∈ visited \/ v ∈ todo -> (v < n)%nat /\ rtc (edge_rel g) r v;
  ri_closed : forall u v, u ∈ visited -> edge_rel g u v -> v ∈ visited \/ v ∈ todo;
}.

Lemma reach_inv_step r visited v todo :
  reach_inv r visited (v :: todo) ->
  reach_inv r ({[v]} ∪ visited) (foldl (push_unvisited visited) todo (out (edge_list g) v)).
Proof.
  intros [I1 I2 I3]. split.
  - rewrite elem_of_push. set_solver.
  - intros w. rewrite elem_of_push. intros [Hw|[Hw|[Hw _]]]; [apply I2; set_solver..|].
    apply edge_rel_out in Hw. destruct (I2 v) as [Hv Hr]; [set_solver|].
    split; [destruct Hw as (e & He & _ & <-); by apply (gw_edges g W)|]. by eapply rtc_r.
  - intros u w Hu He. rewrite elem_of_push.
    apply elem_of_union in Hu as [->%elem_of_singleton|Hu].
    + apply edge_rel_out in He. destruct (decide (w ∈ visited)); set_solver.
    + destruct (I3 u w Hu He) as [?|[-> |?]%elem_of_cons]; set_solver.
Qed.

Lemma reach_loop_ok r fuel : forall visited todo,
  reach_inv r visited todo -> (potential visited todo <= Z.of_nat fuel)%Z ->
  exists visited', reach_loop g fuel visited todo = Ok visited' /\ reach_inv r visited' [].
Proof.
  induction fuel as [|fuel IH]; intros visited todo I Hf; destruct todo as [|v todo]; cbn [reach_loop];
    try by eexists.
  - assert (forall w, w ∈ v :: todo -> (w < n)%nat) as Hn
      by (intros w Hw; by apply (ri_sound r visited (v :: todo) I); right).
    apply potential_pos with (visited := visited) in Hn. cbn [length] in Hn. lia.
  - destruct (ri_sound r visited (v :: todo) I v) as [Hv _]; [right; by apply list_elem_of_here|].
    rewrite edges_ok by done. mstep. apply IH; [by apply reach_inv_step|].
    pose proof (potential_step visited v todo Hv) as Hp. cbn zeta in Hp. lia.
Qed.

Lemma reach_inv_done r visited v :
  reach_inv r visited [] -> v ∈ visited <-> rtc (edge_rel g) r v.
Proof.
  intros [I1 I2 I3]. split; [intros Hv; apply I2; by left|]. intros Hr.
  assert (r ∈ visited) as Hr0 by (destruct I1 as [?|?%not_elem_of_nil]; done).
  revert v Hr. apply rtc_ind_r; [done|]. intros x y _ Hxy Hx.
  destruct (I3 x y Hx Hxy) as [?|?%not_elem_of_nil]; done.
Qed.

Lemma initial_reach_inv r : (r < n)%nat -> reach_inv r ∅ [r].
Proof.
  intros Hr. split; [right; by apply list_elem_of_here| |set_solver].
  intros v [Hv|Hv%list_elem_of_singleton]; [set_solver|]. subst. split; [done|apply rtc_refl].
Qed.

Lemma initial_potential r : (potential ∅ [r] <= Z.of_nat (reach_fuel g))%Z.
Proof.
  unfold potential, reach_fuel, unvisited. rewrite difference_empty_L, size_set_seq.
  cbn [length]. case_bool_decide; nia.
Qed.

(** A set of nodes has all of them when it has as many. *)
Lemma size_all (visited : gset nat) : (forall v, v ∈ visited -> (v < n)%nat) ->
  (size visited = n <-> forall v, (v < n)%nat -> v ∈ visited).
Proof.
  intros Hv. assert (visited ⊆ set_seq (C := gset nat) 0 n) as Hsub.
  { intros v Hin. apply elem_of_set_seq. specialize (Hv v Hin). lia. }
  split.
  - intros Hs v Hin. assert (set_seq (C := gset nat) 0 n ⊆ visited) as Hsup.
    { rewrite (set_subseteq_size_eq visited (set_seq 0 n)); [done|done|].
      rewrite size_set_seq. lia. }
    apply Hsup, elem_of_set_seq. lia.
  - intros Hall. replace visited with (set_seq (C := gset nat) 0 n); [apply size_set_seq|].
    apply set_eq. intros v. split; [|apply Hsub]. intros Hin%elem_of_set_seq. apply Hall. lia.
Qed.

Lemma all_reachable_ok r : (r < n)%nat ->
  exists b, all_reachable_from_node g r = Ok b /\
    (b = true <-> forall v, (v < n)%nat -> rtc (edge_rel g) r v).
Proof.
  intros Hr. unfold all_reachable_from_node.
  rewrite (proj2 (node_index_exists_iff g r)) by done. cbn [negb].
  destruct (reach_loop_ok r (reach_fuel g) ∅ [r] (initial_reach_inv r Hr) (initial_potential r))
    as (visited & -> & I).
  mstep. eexists. split; [done|]. unfold node_count. rewrite Nat.eqb_eq, size_all.
  - by setoid_rewrite (reach_inv_done r visited _ I).
  - intros v Hv. apply (ri_sound r visited [] I). by left.
Qed.
End Reach.

(** [all_reachable_from_node] ends and decides whether every node of the
    graph is reachable from the given one; an unknown node is an error. *)
Theorem all_reachable_from_node_correct {T} (g : CrustyGraph T) (r : nat) :
  graph_wf g ->
  if decide (r < node_count g)%nat
  then exists b, all_reachable_from_node g r = Ok b /\
    (b = true <-> forall v, (v < node_count g)%nat -> rtc (edge_rel g) r v)
  else all_reachable_from_node g r = Err err_invalid_node.
Proof.
  intros W. case_decide as Hr; [by apply all_reachable_ok|].
  unfold all_reachable_from_node. destruct (node_index_exists g r) eqn:E; [|done].
  by apply node_index_exists_iff in E.
Qed.

Lemma all_reachable_from_node_correct_witness :
  exists g, demo_graph = Ok g /\ all_reachable_from_node g 2 = Ok true /\
    (forall v, (v < node_count g)%nat -> rtc (edge_rel g) 2%nat v) /\
    all_reachable_from_node g 7 = Err err_invalid_node.
Proof.
  destruct demo_graph_ok as (g & E & W). exists g. split; [exact E|].
  pose proof (all_reachable_from_node_correct g 2 W) as H2.
  pose proof (all_reachable_from_node_correct g 7 W) as H7.
  assert (node_count g = 3%nat) as Hn.
  { vm_compute in E. injection E as <-. reflexivity. }
  rewrite Hn in *. rewrite decide_True in H2 by lia. rewrite decide_False in H7 by lia.
  destruct H2 as (b & Eb & Hb).
  assert (b = true) as ->.
  { vm_compute in E. injection E as <-. vm_compute in Eb. by injection Eb as <-. }
  split; [exact Eb|]. split; [by apply Hb|exact H7].
Defined.
