(* ===== verification/Sql.v ===== *)
(** * SQL syntax

    The syntax trees of the [sqlparser] crate, as far as the code tells them
    apart: the other cases of its types are one constructor each, and fields the
    code never reads are left out.  Then [src/src/server/src/sql_parser.rs], which
    checks the primary keys of parsed statements.  The parser and the printers of
    the crate are parameters. *)

From S2P Require Import Prelude Common Types.

Open Scope Z_scope.

(** ** Names, values and expressions *)

Record Ident := mkIdent { id_value : string; quote_style : option ascii }.

#[export] Instance Ident_eq_dec : EqDecision Ident.
Proof. solve_decision. Defined.

Definition ObjectName : Type := list Ident.

Inductive SqlValue :=
| Number (val : string) (long : bool)
| SingleQuotedString (val : string)
| DoubleQuotedString (val : string)
| SqlBoolean (b : bool)
| SqlNull
| OtherValue.

(** [ExactNumberInfo], with the 64-bit numbers of the parser. *)
Inductive ExactNumberInfo :=
| NumNone
| NumPrecision (p : Z)
| NumPrecisionAndScale (p s : Z).

Inductive SqlDataType :=
| SqlInt
| SqlVarchar
| SqlChar
| SqlDate
| SqlDecimal (info : ExactNumberInfo)
| OtherDataType.

Inductive BinaryOperator :=
| OpPlus | OpMinus | OpMultiply | OpDivide
| OpEq | OpNotEq | OpGt | OpGtEq | OpLt | OpLtEq
| OpAnd | OpOr
| OtherOperator.

Inductive FunctionArgExpr (E : Type) :=
| ArgExpr (e : E)
| ArgQualifiedWildcard
| ArgWildcard.
Arguments ArgExpr {E}.
Arguments ArgQualifiedWildcard {E}.
Arguments ArgWildcard {E}.

Inductive FunctionArg (E : Type) :=
| NamedArg (arg : FunctionArgExpr E)
| UnnamedArg (arg : FunctionArgExpr E).
Arguments NamedArg {E}.
Arguments UnnamedArg {E}.

#[warnings="-register-all"]
Inductive Expr :=
| Identifier (name : Ident)
| CompoundIdentifier (names : list Ident)
| ValueExpr (v : SqlValue)
| TypedString (data_type : SqlDataType) (value : string)
| BinaryOp (l : Expr) (op : BinaryOperator) (r : Expr)
| FunctionExpr (name : ObjectName) (args : list (FunctionArg Expr))
| Nested (e : Expr)
| OtherExpr.

(** ** Queries *)

Inductive TableFactor := TableRef (name : ObjectName) | OtherFactor.

Inductive JoinConstraint := On (e : Expr) | OtherConstraint.
Inductive JoinOperator := Inner (c : JoinConstraint) | OtherJoin.
Record SqlJoin := mkJoin { j_relation : TableFactor; join_operator : JoinOperator }.

Record TableWithJoins := mkTableWithJoins { tw_relation : TableFactor; tw_joins : list SqlJoin }.

Inductive SelectItem :=
| Wildcard
| UnnamedExpr (e : Expr)
| ExprWithAlias (e : Expr) (alias : Ident)
| OtherItem.

Inductive GroupByExpr := GroupAll | GroupExpressions (l : list Expr).

Record Select := mkSelect {
  s_distinct : bool;
  s_projection : list SelectItem;
  s_from : list TableWithJoins;
  s_selection : option Expr;
  s_group_by : GroupByExpr;
  s_having : option Expr;
}.

Definition Values : Type := list (list Expr).

Inductive SetExpr :=
| SelectBody (s : Select)
| ValuesBody (v : Values)
| OtherBody.

Record OrderByExpr := mkOrderBy { o_expr : Expr; o_asc : option bool }.

Record Query := mkQuery { q_body : SetExpr; q_order_by : list OrderByExpr }.

(** ** Statements *)

Inductive ColumnOption := ColUnique (is_primary : bool) | OtherOption.

Record ColumnDef := mkColumn { col_name : Ident; col_type : SqlDataType; col_options : list ColumnOption }.

Inductive TableConstraint :=
| UniqueConstraint (is_primary : bool) (columns : list Ident)
| OtherTableConstraint.

Inductive Statement :=
| CreateTable (name : ObjectName) (columns : list ColumnDef) (constraints : list TableConstraint)
| QueryStmt (q : Query)
| InsertStmt (table_name : ObjectName) (columns : list Ident) (source : option Query)
| OtherStatement.

(** The parser of the crate, with its error as printed, and the printers of
    [Display] and [Debug]. *)
Class SqlParser := {
  parser_parse_sql : string -> list Statement + string;
  ident_to_string : Ident -> string;
  object_name_to_string : ObjectName -> string;
  expr_debug : Expr -> string;
  value_debug : SqlValue -> string;
  datatype_debug : SqlDataType -> string;
  operator_debug : BinaryOperator -> string;
}.

(** ** [sql_parser.rs] *)

Inductive ParserResponse :=
| RespErr
| RespSQLError (e : string)
| RespSQL (ast : list Statement)
| RespSQLConstraintError (msg : string).

(** The inner loop over the options of a column. *)
Definition inline_pk (column : ColumnDef) (st : list Ident * bool) (option : ColumnOption)
  : outcome ParserResponse (list Ident * bool) :=
  let '(res, has_inline_pk) := st in
  match option with
  | ColUnique true =>
      if (has_inline_pk : bool)
      then Err (RespSQLConstraintError "Table cannot have multiple inline primary keys")
      else Ok (res ++ [col_name column], true)
  | _ => Ok st
  end.

Definition inline_pks (columns : list ColumnDef) : outcome ParserResponse (list Ident * bool) :=
  foldM (fun st column => foldM (inline_pk column) st (col_options column)) ([], false) columns.

Definition external_pk (has_inline_pk : bool) (st : list Ident * bool) (constraint : TableConstraint)
  : outcome ParserResponse (list Ident * bool) :=
  let '(res, has_external_pk) := st in
  match constraint with
  | UniqueConstraint true pk_columns =>
      if has_inline_pk
      then Err (RespSQLConstraintError "Table cannot have external and inline primary keys")
      else if (has_external_pk : bool)
      then Err (RespSQLConstraintError "Table cannot have multiple external primary keys")
      else Ok (res ++ pk_columns, true)
  | _ => Ok st
  end.

Definition sql_get_pks (columns : list ColumnDef) (constraints : list TableConstraint)
  : outcome ParserResponse (list Ident) :=
  '(res, has_inline_pk) ← inline_pks columns;
  '(res, _) ← foldM (external_pk has_inline_pk) (res, false) constraints;
  match res with
  | [] => Err (RespSQLConstraintError "Table has no primary key")
  | _ => Ok res
  end.

Definition validate_sql `{SqlParser} (sql : string) : ParserResponse :=
  match parser_parse_sql sql with
  | inl a => RespSQL a
  | inr e => RespSQLError e
  end.

Definition parse_sql `{SqlParser} (sql : string) : ParserResponse :=
  match validate_sql sql with
  | RespSQL [] => RespSQLConstraintError "No Statement"
  | RespSQL [statement] =>
      match statement with
      | CreateTable _ columns constraints =>
          match sql_get_pks columns constraints with
          | Err e => e
          | _ => RespSQL [statement]
          end
      | _ => RespSQL [statement]
      end
  | RespSQL _ => RespSQLConstraintError "Multiple Statements not supported"
  | request => request
  end.

(** ** Primary keys *)

Definition is_primary_option (o : ColumnOption) : bool := match o with ColUnique true => true | _ => false end.

(** The key columns declared in the columns, and the keys declared as constraints. *)
Definition inline_keys (columns : list ColumnDef) : list Ident :=
  columns ≫= fun c => replicate (length (filter (fun o => is_primary_option o = true) (col_options c))) (col_name c).

Definition external_keys (constraints : list TableConstraint) : list (list Ident) :=
  omap (fun c => match c with UniqueConstraint true l => Some l | _ => None end) constraints.

Lemma inline_pk_fold c os : forall res b,
  foldM (inline_pk c) (res, b) os =
  let n := length (filter (fun o => is_primary_option o = true) os) in
  if (n + Nat.b2n b <=? 1)%nat || (n =? 0)%nat then Ok (res ++ replicate n (col_name c), b || negb (n =? 0)%nat)
  else Err (RespSQLConstraintError "Table cannot have multiple inline primary keys").
Proof.
  induction os as [|o os IH]; intros res b; cbn [foldM].
  - cbn. rewrite app_nil_r, orb_false_r. by destruct b.
  - rewrite filter_cons. destruct o as [[]|]; cbn [inline_pk is_primary_option].
    + rewrite decide_True by done. cbn [length]. destruct b; mstep.
      * cbn [Nat.b2n]. rewrite (proj2 (Nat.leb_gt _ _)) by lia. done.
      * rewrite IH. cbn [Nat.b2n]. set (n := length _). rewrite Nat.add_0_r.
        destruct (Nat.eqb_spec n 0) as [->|Hn].
        -- cbn. by rewrite <- app_assoc.
        -- rewrite !(proj2 (Nat.leb_gt _ _)) by lia. done.
    + rewrite decide_False by done. mstep. apply IH.
    + rewrite decide_False by done. mstep. apply IH.
Qed.

Lemma inline_pks_ok columns : inline_pks columns =
  if (length (inline_keys columns) <=? 1)%nat
  then Ok (inline_keys columns, negb (length (inline_keys columns) =? 0)%nat)
  else Err (RespSQLConstraintError "Table cannot have multiple inline primary keys").
Proof.
  unfold inline_pks.
  assert (forall cs res, (length res <= 1)%nat ->
    foldM (fun st c => foldM (inline_pk c) st (col_options c)) (res, negb (length res =? 0)%nat) cs =
    if (length (res ++ inline_keys cs) <=? 1)%nat
    then Ok (res ++ inline_keys cs, negb (length (res ++ inline_keys cs) =? 0)%nat)
    else Err (RespSQLConstraintError "Table cannot have multiple inline primary keys")) as Hgen.
  { induction cs as [|c cs IH]; intros res Hres; cbn [foldM].
    - unfold inline_keys. cbn [mbind list_bind]. rewrite app_nil_r. by rewrite (proj2 (Nat.leb_le _ _)).
    - rewrite inline_pk_fold. unfold inline_keys. cbn [mbind list_bind]. fold (inline_keys cs).
      set (n := length (filter _ (col_options c))). cbn zeta.
      rewrite app_assoc, (length_app (res ++ _)), (length_app res), length_replicate.
      destruct (decide (n + length res <= 1)%nat) as [Hle|Hgt].
      + assert ((n + Nat.b2n (negb (length res =? 0)) <=? 1)%nat || (n =? 0)%nat = true) as ->.
        { apply orb_true_iff. left. apply Nat.leb_le. destruct (Nat.eqb_spec (length res) 0); cbn; lia. }
        mstep. specialize (IH (res ++ replicate n (col_name c))). rewrite !length_app, length_replicate in IH.
        replace (negb (length res =? 0)%nat || negb (n =? 0)%nat) with (negb (length res + n =? 0)%nat);
          [apply IH; lia|].
        destruct (Nat.eqb_spec (length res) 0), (Nat.eqb_spec n 0), (Nat.eqb_spec (length res + n) 0); try done; lia.
      + assert ((n + Nat.b2n (negb (length res =? 0)) <=? 1)%nat || (n =? 0)%nat = false) as ->.
        { apply orb_false_iff. split; [apply Nat.leb_gt|apply Nat.eqb_neq];
            destruct (Nat.eqb_spec (length res) 0); cbn; lia. }
        mstep. by rewrite (proj2 (Nat.leb_gt _ _)) by lia. }
  exact (Hgen columns [] ltac:(cbn; lia)).
Qed.

Lemma external_pk_fold cs : forall res b,
  foldM (external_pk false) (res, b) cs =
  match b, external_keys cs with
  | _, [] => Ok (res, b)
  | false, [l] => Ok (res ++ l, true)
  | _, _ => Err (RespSQLConstraintError "Table cannot have multiple external primary keys")
  end.
Proof.
  induction cs as [|c cs IH]; intros res b; cbn [foldM]; [by destruct b|].
  unfold external_keys. cbn [omap list_omap]. fold (external_keys cs).
  destruct c as [[] l|]; cbn [external_pk]; [|mstep; apply IH..].
  destruct b; mstep; [done|]. rewrite IH. by destruct (external_keys cs).
Qed.

Lemma external_pk_fold_inline cs : forall res,
  foldM (external_pk true) (res, false) cs =
  match external_keys cs with
  | [] => Ok (res, false)
  | _ => Err (RespSQLConstraintError "Table cannot have external and inline primary keys")
  end.
Proof.
  induction cs as [|c cs IH]; intros res; cbn [foldM]; [done|].
  unfold external_keys. cbn [omap list_omap]. fold (external_keys cs).
  destruct c as [[] l|]; cbn [external_pk]; [done|mstep; apply IH..].
Qed.

(** Primary keys.  [get_pks] returns the one key that is declared, either on a
    column or as a constraint with at least one column, and reports every other
    case: several keys on columns, a key in both places, several constraints, or
    no key at all. *)
Theorem get_pks_decides columns constraints :
  sql_get_pks columns constraints =
  match inline_keys columns, external_keys constraints with
  | [k], [] => Ok [k]
  | [_], _ => Err (RespSQLConstraintError "Table cannot have external and inline primary keys")
  | _ :: _ :: _, _ => Err (RespSQLConstraintError "Table cannot have multiple inline primary keys")
  | [], [] | [], [[]] => Err (RespSQLConstraintError "Table has no primary key")
  | [], [l] => Ok l
  | [], _ => Err (RespSQLConstraintError "Table cannot have multiple external primary keys")
  end.
Proof.
  unfold sql_get_pks. rewrite inline_pks_ok. destruct (inline_keys columns) as [|k [|k' ks]]; cbn; mstep.
  - rewrite external_pk_fold. destruct (external_keys constraints) as [|[|x l] [|? ?]]; done.
  - rewrite external_pk_fold_inline. by destruct (external_keys constraints).
  - done.
Qed.
