(* ===== verification/Catalog.v ===== *)
(** * The catalog

    [src/src/common/src/catalog.rs] and [table.rs]: the id generator and the
    table metadata.  Both are behind locks, so that operations are atomic. *)

From S2P Require Import Prelude Common Types.

Open Scope Z_scope.

(** ** Data *)

Record TableInfo := mkTableInfo { c_id : ContainerId; name : string; schema : TableSchema }.

Record ContainerIdGenerator := mkGen { next_id : ContainerId; table_to_id : gmap string Z }.

Record Catalog := mkCatalog {
  container_id_generator : ContainerIdGenerator;
  tables : gmap Z TableInfo;
}.

(** ** Operations *)

Definition generator_new : ContainerIdGenerator := mkGen 0 ∅.

(** [self.next_id += 1] at the 16 bits of a container id. *)
Definition generator_get `{Profile} (g : ContainerIdGenerator) (table_name : string)
  : result (ContainerIdGenerator * ContainerId) :=
  match table_to_id g !! table_name with
  | Some id => Ok (g, id)
  | None =>
      let id := next_id g in
      n ← arith_u 16 (next_id g + 1);
      Ok (mkGen n (<[table_name := id]> (table_to_id g)), id)
  end.

Definition Catalog_new : Catalog := mkCatalog generator_new ∅.

Definition get_table_id `{Profile} (c : Catalog) (nm : string) : result (Catalog * ContainerId) :=
  '(g, id) ← generator_get (container_id_generator c) nm;
  Ok (mkCatalog g (tables c), id).

Definition add_table (c : Catalog) (info : TableInfo) : Catalog * option unit :=
  match tables c !! c_id info with
  | Some _ => (c, None)
  | None => (mkCatalog (container_id_generator c) (<[c_id info := info]> (tables c)), Some tt)
  end.

Definition get_table (c : Catalog) (id : ContainerId) : option TableInfo := tables c !! id.

(** The names, in the unspecified order in which the hash map enumerates its
    values: [order] permutes them. *)
Definition get_table_names (order : list TableInfo -> list TableInfo) (c : Catalog) : list string :=
  name <$> order (map_to_list (tables c)).*2.

Definition get_table_schema (c : Catalog) (id : ContainerId) : option TableSchema :=
  schema <$> tables c !! id.

Definition is_valid_table (c : Catalog) (id : ContainerId) : bool :=
  bool_decide (is_Some (tables c !! id)).

Definition is_valid_column (c : Catalog) (id : ContainerId) (column_name : string) : bool :=
  match tables c !! id with
  | Some info => schema_contains (schema info) column_name
  | None => false
  end.

(** ** Theorems *)

(** Calls that may be interleaved by clients, and their answers. *)
Inductive cat_op := CGetId (nm : string) | CAdd (info : TableInfo).

Definition run_cat_op `{Profile} (c : Catalog) (o : cat_op) : result (Catalog * option (string * Z)) :=
  match o with
  | CGetId nm => '(c, id) ← get_table_id c nm; Ok (c, Some (nm, id))
  | CAdd info => Ok ((add_table c info).1, None)
  end.

Fixpoint run_cat_ops `{Profile} (c : Catalog) (os : list cat_op)
  : result (Catalog * list (string * Z)) :=
  match os with
  | [] => Ok (c, [])
  | o :: os' =>
      '(c, x) ← run_cat_op c o;
      '(c, xs) ← run_cat_ops c os';
      Ok (c, match x with Some a => a :: xs | None => xs end)
  end.

(** Ids are handed out in order, each to one name. *)
Record gen_ok (g : ContainerIdGenerator) : Prop := {
  go_next : 0 <= next_id g;
  go_range : forall nm id, table_to_id g !! nm = Some id -> 0 <= id < next_id g;
  go_inj : forall a b id, table_to_id g !! a = Some id -> table_to_id g !! b = Some id -> a = b;
}.

Lemma generator_get_ok `{Profile} g nm :
  gen_ok g -> next_id g < 65535 ->
  exists g' id, generator_get g nm = Ok (g', id) /\ gen_ok g' /\ table_to_id g' !! nm = Some id /\
    table_to_id g ⊆ table_to_id g' /\ next_id g' <= next_id g + 1.
Proof.
  intros [G0 G1 G2] Hn. unfold generator_get. destruct (table_to_id g !! nm) as [id|] eqn:E.
  - exists g, id. split_and!; [done..|lia].
  - rewrite arith_u_ok by (unfold in_u; lia). mstep. eexists _, _. split; [done|].
    split; [split|]; cbn [next_id table_to_id].
    + lia.
    + intros nm' id [[<- <-]|[_ Hl%G1]]%lookup_insert_Some; lia.
    + intros a b id [[<- <-]|[Ha Hl]]%lookup_insert_Some [[<- Hid]|[Hb Hl']]%lookup_insert_Some.
      * done.
      * apply G1 in Hl'. lia.
      * subst id. apply G1 in Hl. lia.
      * by eapply G2.
    + split; [apply lookup_insert_eq|]. split; [by apply insert_subseteq|lia].
Qed.

Lemma run_cat_ops_ok `{Profile} os : forall c,
  gen_ok (container_id_generator c) ->
  next_id (container_id_generator c) + Z.of_nat (length os) <= 65535 ->
  exists c' xs, run_cat_ops c os = Ok (c', xs) /\ gen_ok (container_id_generator c') /\
    next_id (container_id_generator c') <= next_id (container_id_generator c) + Z.of_nat (length os) /\
    table_to_id (container_id_generator c) ⊆ table_to_id (container_id_generator c') /\
    (forall nm id, (nm, id) ∈ xs -> table_to_id (container_id_generator c') !! nm = Some id) /\
    (forall i info, tables c !! i = Some info -> tables c' !! i = Some info).
Proof.
  induction os as [|o os IH]; intros c G Hn; cbn [run_cat_ops length] in *.
  - exists c, []. split_and!; [done|done|lia|done|set_solver|done].
  - destruct o as [nm|info]; cbn [run_cat_op].
    + unfold get_table_id.
      destruct (generator_get_ok _ nm G) as (g' & id & -> & G' & E & Hsub & Hle); [lia|]. mstep.
      destruct (IH (mkCatalog g' (tables c)) G') as (c' & xs & -> & Gc & Hb & Hs & Hxs & Ht);
        cbn [container_id_generator] in *; [lia|].
      mstep. exists c', ((nm, id) :: xs). split_and!; [done|done|lia|by etrans| |done].
      intros nm' id' [[= -> ->]|Hin]%elem_of_cons; [by eapply lookup_weaken|by apply Hxs].
    + mstep. unfold add_table. destruct (tables c !! c_id info) eqn:E; cbn [fst].
      * destruct (IH c G) as (c' & xs & -> & Gc & Hb & R); [lia|]. mstep. exists c', xs.
        split_and!; [done|done|lia|apply R..].
      * destruct (IH (mkCatalog (container_id_generator c) (<[c_id info := info]> (tables c))) G)
          as (c' & xs & -> & Gc & Hb & Hs & Hxs & Ht); cbn [container_id_generator tables] in *; [lia|].
        mstep. exists c', xs. split_and!; [done|done|lia|done|done|]. intros i info' Hi. apply Ht.
        rewrite lookup_insert_ne; [done|]. congruence.
Qed.

Lemma generator_new_ok : gen_ok generator_new.
Proof. by split; cbn; [lia|..]; intros *; rewrite lookup_empty. Qed.

(** C36: table ids identify tables: along any interleaving of up to 65535
    catalog calls, two requests for ids get the same id exactly when they name
    the same table, and a table once added keeps its entry. *)
Theorem table_ids_unique `{Profile} os1 os2 :
  Z.of_nat (length (os1 ++ os2)) <= 65535 ->
  exists c1 xs1 c2 xs2, run_cat_ops Catalog_new os1 = Ok (c1, xs1) /\
    run_cat_ops c1 os2 = Ok (c2, xs2) /\
    (forall a i b j, (a, i) ∈ xs1 ++ xs2 -> (b, j) ∈ xs1 ++ xs2 -> (a = b <-> i = j)) /\
    (forall i info, get_table c1 i = Some info -> get_table c2 i = Some info).
Proof.
  intros Hl. rewrite length_app in Hl.
  destruct (run_cat_ops_ok os1 Catalog_new generator_new_ok)
    as (c1 & xs1 & E1 & G1 & Hb & _ & Hx1 & _); cbn in *; [lia|].
  destruct (run_cat_ops_ok os2 c1 G1) as (c2 & xs2 & E2 & G2 & _ & Hs & Hx2 & Ht); [lia|].
  exists c1, xs1, c2, xs2. split_and!; [done|done| |done].
  assert (forall a i, (a, i) ∈ xs1 ++ xs2 -> table_to_id (container_id_generator c2) !! a = Some i) as Hx.
  { intros a i [Hi|Hi]%elem_of_app; [eapply lookup_weaken; [by apply Hx1|done]|by apply Hx2]. }
  intros a i b j Ha%Hx Hb'%Hx. split; [intros <-; congruence|intros <-]. by eapply go_inj.
Qed.

Lemma table_ids_unique_witness :
  exists c1 xs1 c2 xs2,
    run_cat_ops (H := true) Catalog_new [CGetId "a"; CAdd (mkTableInfo 0 "a" (TableSchema_new []))] = Ok (c1, xs1) /\
    run_cat_ops (H := true) c1 [CGetId "b"; CGetId "a"] = Ok (c2, xs2) /\
    xs1 ++ xs2 = [("a", 0); ("b", 1); ("a", 0)]%string /\
    (forall i info, get_table c1 i = Some info -> get_table c2 i = Some info).
Proof.
  destruct (@table_ids_unique true [CGetId "a"; CAdd (mkTableInfo 0 "a" (TableSchema_new []))]
              [CGetId "b"; CGetId "a"]) as (c1 & xs1 & c2 & xs2 & E1 & E2 & _ & Ht); [cbn; lia|].
  exists c1, xs1, c2, xs2. split; [exact E1|]. split; [exact E2|]. split; [|exact Ht].
  vm_compute in E1. injection E1 as <- <-. vm_compute in E2. injection E2 as _ <-. reflexivity.
Defined.
