(* ===== verification/Stats.v ===== *)
(** * The statistics manager

    [src/src/queryexe/src/stats/mod.rs]: a reservoir sample of the tuples of
    every registered container.  The state is behind a lock, so that operations
    are atomic; the random number generator of the [rand] crate is a parameter.
    The floating-point estimates are in [StatsEstimate]. *)

From S2P Require Import Prelude Common Types.

Open Scope Z_scope.

Definition SAMPLE_SIZE : Z := 1000.

Record ContainerSamples := mkSamples {
  samples : list Tuple;
  record_count : Z;
  cs_schema : TableSchema;
}.

(** [gen_range g n] draws from [0..n]. *)
Class Rng (G : Type) := gen_range : G -> Z -> Z * G.
Class RngLaws {G} `{Rng G} : Prop :=
  gen_range_bound : forall g n, 0 < n -> 0 <= (gen_range g n).1 < n.

Section Stats.
Context {G : Type} `{Rng G}.

Record ReservoirStatManager := mkStats { st_samples : gmap Z ContainerSamples; rng : G }.

Definition Stats_new (g : G) : ReservoirStatManager := mkStats ∅ g.

Definition register_container (st : ReservoirStatManager) (c : ContainerId) (sc : TableSchema)
  : ReservoirStatManager * result unit :=
  match st_samples st !! c with
  | None => (mkStats (<[c := mkSamples [] 0 sc]> (st_samples st)) (rng st), Ok tt)
  | Some _ => (st, Ok tt)
  end.

(** [samples[r] = tuple.clone()]: panics out of bounds. *)
Definition replace_sample (l : list Tuple) (r : Z) (t : Tuple) : result (list Tuple) :=
  if (r <? Z.of_nat (length l))%Z then Ok (<[Z.to_nat r := t]> l) else Panic.

(** [gen_range] of an empty range panics. *)
Definition draw (g : G) (n : Z) : result (Z * G) :=
  if n <=? 0 then Panic else Ok (gen_range g n).

Definition sample_record (cs : ContainerSamples) (g : G) (t : Tuple) : result (list Tuple * G) :=
  if (Z.of_nat (length (samples cs)) <? SAMPLE_SIZE)%Z then Ok (samples cs ++ [t], g)
  else
    '(r, g) ← draw g (record_count cs);
    if r <? SAMPLE_SIZE then l ← replace_sample (samples cs) r t; Ok (l, g)
    else Ok (samples cs, g).

Definition new_record `{Profile} (st : ReservoirStatManager) (t : Tuple) (id : ValueId)
  : ReservoirStatManager * result unit :=
  match st_samples st !! container_id id with
  | None => (st, Err (CrustyErr "Container not found/registered"))
  | Some cs =>
      match sample_record cs (rng st) t with
      | Ok (l, g) =>
          match arith_u 64 (record_count cs + 1) with
          | Ok n => (mkStats (<[container_id id := mkSamples l n (cs_schema cs)]> (st_samples st)) g, Ok tt)
          | Err e => (st, Err e)
          | Panic => (st, Panic)
          end
      | Err e => (st, Err e)
      | Panic => (st, Panic)
      end
  end.

Definition get_container_record_count (st : ReservoirStatManager) (c : ContainerId) : result Z :=
  cs ← unwrap_opt (st_samples st !! c); Ok (record_count cs).

Definition get_container_schema (st : ReservoirStatManager) (c : ContainerId) : result TableSchema :=
  cs ← unwrap_opt (st_samples st !! c); Ok (cs_schema cs).
End Stats.
Arguments ReservoirStatManager G : clear implicits.

(** ** The reservoir invariant *)

Section Reservoir.
Context {G : Type} `{Rng G, !RngLaws} `{Profile}.

(** What the samples of one container are, after the tuples [ts] were recorded. *)
Record sampled (ts : list Tuple) (cs : ContainerSamples) : Prop := {
  sd_count : record_count cs = Z.of_nat (length ts);
  sd_size : Z.of_nat (length (samples cs)) = Z.min (Z.of_nat (length ts)) SAMPLE_SIZE;
  sd_from : forall t, t ∈ samples cs -> t ∈ ts;
  sd_whole : Z.of_nat (length ts) <= SAMPLE_SIZE -> samples cs = ts;
}.

Lemma sample_record_ok ts cs g t :
  sampled ts cs ->
  exists l g', sample_record cs g t = Ok (l, g') /\
    Z.of_nat (length l) = Z.min (Z.of_nat (length (ts ++ [t]))) SAMPLE_SIZE /\
    (forall x, x ∈ l -> x ∈ ts ++ [t]) /\ (Z.of_nat (length (ts ++ [t])) <= SAMPLE_SIZE -> l = ts ++ [t]).
Proof.
  intros [S1 S2 S3 S4]. unfold sample_record, draw, replace_sample.
  rewrite length_app. cbn [length]. unfold SAMPLE_SIZE in *.
  destruct (Z.ltb_spec (Z.of_nat (length (samples cs))) 1000) as [Hlt|Hge].
  - eexists _, _. split; [done|]. rewrite length_app. cbn [length]. split; [lia|].
    split; [set_solver|]. intros _. by rewrite S4 by lia.
  - destruct (Z.leb_spec (record_count cs) 0); [lia|]. mstep.
    pose proof (gen_range_bound g (record_count cs) ltac:(lia)) as Hr.
    destruct (gen_range g (record_count cs)) as [r g']. cbn [fst] in Hr.
    destruct (Z.ltb_spec r 1000) as [Hr1|Hr1].
    + destruct (Z.ltb_spec r (Z.of_nat (length (samples cs)))); [|lia]. mstep.
      eexists _, _. split; [done|]. rewrite length_insert. split; [lia|].
      split; [|lia]. intros x Hx. apply elem_of_app. apply list_elem_of_lookup in Hx as [i Hi].
      apply list_lookup_insert_Some in Hi as [(_ & <- & _)|[_ Hi]]; [right; by apply list_elem_of_singleton|].
      left. apply S3. by eapply list_elem_of_lookup_2.
    + eexists _, _. split; [done|]. split; [lia|]. split; [set_solver|lia].
Qed.

(** A client's calls, and the tuples recorded for a container. *)
Inductive stat_op := SRegister (c : ContainerId) (sc : TableSchema) | SNew (t : Tuple) (id : ValueId).

Definition run_stat_op (st : ReservoirStatManager G) (o : stat_op)
  : ReservoirStatManager G * result unit :=
  match o with
  | SRegister c sc => register_container st c sc
  | SNew t id => new_record st t id
  end.

Fixpoint run_stat_ops (st : ReservoirStatManager G) (os : list stat_op)
  : ReservoirStatManager G * list (result unit) :=
  match os with
  | [] => (st, [])
  | o :: os' =>
      let '(st, x) := run_stat_op st o in
      let '(st, xs) := run_stat_ops st os' in
      (st, x :: xs)
  end.

(** The abstract state: the tuples recorded per registered container. *)
Definition a_stat_op (m : gmap Z (list Tuple)) (o : stat_op) : gmap Z (list Tuple) * result unit :=
  match o with
  | SRegister c _ => (match m !! c with None => <[c := []]> m | Some _ => m end, Ok tt)
  | SNew t id =>
      match m !! container_id id with
      | None => (m, Err (CrustyErr "Container not found/registered"))
      | Some ts => (<[container_id id := ts ++ [t]]> m, Ok tt)
      end
  end.

Fixpoint a_stat_ops (m : gmap Z (list Tuple)) (os : list stat_op)
  : gmap Z (list Tuple) * list (result unit) :=
  match os with
  | [] => (m, [])
  | o :: os' =>
      let '(m, x) := a_stat_op m o in
      let '(m, xs) := a_stat_ops m os' in
      (m, x :: xs)
  end.

(** The manager's state represents the abstract one. *)
Definition stats_rel (n : nat) (m : gmap Z (list Tuple)) (st : ReservoirStatManager G) : Prop :=
  map_relation (fun _ => sampled) (fun _ _ => False) (fun _ _ => False) m (st_samples st) /\
  forall c ts, m !! c = Some ts -> (length ts <= n)%nat.

Lemma stats_lookup n m st c : stats_rel n m st ->
  match m !! c, st_samples st !! c with
  | Some ts, Some cs => sampled ts cs /\ (length ts <= n)%nat
  | None, None => True
  | _, _ => False
  end.
Proof.
  intros [R B]. specialize (R c). destruct (m !! c) eqn:E, (st_samples st !! c); try done.
  split; [done|]. by eapply B.
Qed.

Lemma stats_rel_insert n m st c ts cs g : stats_rel n m st -> sampled ts cs -> (length ts <= S n)%nat ->
  stats_rel (S n) (<[c := ts]> m) (mkStats (<[c := cs]> (st_samples st)) g).
Proof.
  intros [R B] Hs Hl. split; cbn [st_samples].
  - intros c'. destruct (decide (c' = c)) as [->|].
    + by rewrite !lookup_insert_eq.
    + rewrite !lookup_insert_ne by done. apply R.
  - intros c' ts' [[<- <-]|[_ Hc%B]]%lookup_insert_Some; lia.
Qed.

Lemma stats_rel_S n m st : stats_rel n m st -> stats_rel (S n) m st.
Proof. intros [R B]. split; [done|]. intros c ts Hc%B. lia. Qed.

Lemma stat_op_refines n m st o : stats_rel n m st -> Z.of_nat n < 2 ^ 64 - 1 ->
  (run_stat_op st o).2 = (a_stat_op m o).2 /\
  stats_rel (S n) (a_stat_op m o).1 (run_stat_op st o).1.
Proof.
  intros R Hn. destruct o as [c sc|t id]; cbn [run_stat_op a_stat_op].
  - unfold register_container. pose proof (stats_lookup n m st c R) as L.
    destruct (m !! c) as [ts|], (st_samples st !! c) as [cs|]; try done; cbn [fst snd];
      (split; [done|]); [by apply stats_rel_S|].
    apply stats_rel_insert; [done| |cbn; lia]. split; cbn; [done|done|set_solver|done].
  - unfold new_record. pose proof (stats_lookup n m st (container_id id) R) as L.
    destruct (m !! container_id id) as [ts|], (st_samples st !! container_id id) as [cs|];
      try done; cbn [fst snd]; [|split; [done|by apply stats_rel_S]].
    destruct L as [S Hl]. destruct (sample_record_ok ts cs (rng st) t S) as (l & g & -> & Hs & Hf & Hw).
    rewrite arith_u_ok; [|unfold in_u; rewrite (sd_count _ _ S); lia].
    cbn [fst snd]. split; [done|]. apply stats_rel_insert; [done| |rewrite length_app; cbn; lia].
    split; cbn [samples record_count]; [rewrite (sd_count _ _ S), length_app; cbn; lia|done..].
Qed.

Lemma stat_ops_refine os : forall n m st,
  stats_rel n m st -> Z.of_nat (n + length os) < 2 ^ 64 ->
  (run_stat_ops st os).2 = (a_stat_ops m os).2 /\
  stats_rel (n + length os) (a_stat_ops m os).1 (run_stat_ops st os).1.
Proof.
  induction os as [|o os IH]; intros n m st R Hn; cbn [run_stat_ops a_stat_ops length] in *.
  - rewrite Nat.add_0_r. done.
  - destruct (stat_op_refines n m st o R) as [E R']; [lia|].
    destruct (run_stat_op st o) as [st1 x], (a_stat_op m o) as [m1 y]. cbn [fst snd] in *. subst y.
    destruct (IH (S n) m1 st1 R') as [E2 R2]; [lia|].
    destruct (run_stat_ops st1 os), (a_stat_ops m1 os). cbn [fst snd] in *.
    rewrite Nat.add_succ_r. by subst.
Qed.
End Reservoir.

(** C35: the reservoir keeps its promise: along any sequence of fewer than 2^64
    register and new-record calls, with any
    generator that draws within its range, no call panics, every answer is that
    of the abstract record of all tuples, the record count is exact, and the
    sample of a container holds min(count, 1000) of its recorded tuples, all of
    them and in order when there are at most 1000. *)
Theorem reservoir_correct {G} `{Rng G, !RngLaws, Profile} (g : G) (os : list stat_op) :
  Z.of_nat (length os) < 2 ^ 64 ->
  (run_stat_ops (Stats_new g) os).2 = (a_stat_ops ∅ os).2 /\
  forall c, match (a_stat_ops ∅ os).1 !! c, st_samples (run_stat_ops (Stats_new g) os).1 !! c with
            | Some ts, Some cs => sampled ts cs
            | None, None => True
            | _, _ => False
            end.
Proof.
  intros Hl. destruct (stat_ops_refine os 0 ∅ (Stats_new g)) as [E R]; [|done|].
  - split; [|by intros c ts; rewrite lookup_empty].
    intros c. cbn. by rewrite !lookup_empty.
  - split; [done|]. intros c. pose proof (stats_lookup _ _ _ c R) as L.
    destruct ((a_stat_ops ∅ os).1 !! c), (st_samples _ !! c); [apply L|done..].
Qed.

(** A generator that always draws zero. *)
Definition zero_rng : Rng unit := fun _ _ => (0, tt).

Lemma reservoir_correct_witness :
  let os := [SNew (Tuple_new [FInt 1]) (ValueId_new 4); SRegister 4 (TableSchema_new []);
             SNew (Tuple_new [FInt 2]) (ValueId_new 4)] in
  (run_stat_ops (H := zero_rng) (H1 := true) (Stats_new tt) os).2 =
    [Err (CrustyErr "Container not found/registered"); Ok tt; Ok tt] /\
  exists cs, st_samples (run_stat_ops (H := zero_rng) (H1 := true) (Stats_new tt) os).1 !! 4%Z = Some cs /\
    sampled [Tuple_new [FInt 2]] cs.
Proof.
  intros os.
  assert (@RngLaws unit zero_rng) as L by (intros g n Hn; cbn; lia).
  destruct (@reservoir_correct unit zero_rng L true tt os) as [E R]; [vm_compute; reflexivity|].
  split; [rewrite E; vm_compute; reflexivity|]. specialize (R 4%Z).
  vm_compute in R. eexists. split; [vm_compute; reflexivity|exact R].
Defined.
