(* ===== verification/StatsEstimate.v ===== *)
(** * Estimates of the statistics manager

    [estimate_count_and_sel] and [estimate_join_count_and_sel] of
    [src/src/queryexe/src/stats/mod.rs]: a predicate is evaluated on the sample and
    the share of matches is scaled to the number of records, in [f64].  The counters
    of matches and pairs are [i32]. *)

From S2P Require Import Prelude Common Types Expr Stats Float.

Open Scope Z_scope.

Section Estimate.
Context {G : Type} `{Rng G, Profile}.
Implicit Types st : ReservoirStatManager G.

(** [if let Field::Bool(true) = eval(..)?] *)
Definition matches (bound_predicate : AstExpr) (tuple : Tuple) : result bool :=
  f ← eval_astexpr bound_predicate tuple; Ok (match f with FBool true => true | _ => false end).

Definition count_match (e : AstExpr) (matching_count : Z) (tuple : Tuple) : result Z :=
  b ← matches e tuple; if (b : bool) then arith_i 32 (matching_count + 1) else Ok matching_count.

(** The selectivity and the estimate. *)
Definition scale (matching_count sample_size total_records : Z) : Z * f64 :=
  let selectivity := f64_div (f64_of_i64 matching_count) (f64_of_i64 sample_size) in
  let estimated_count := f64_mul selectivity (f64_of_i64 total_records) in
  (f64_as_u64 (f64_round estimated_count), selectivity).

Definition f64_zero : f64 := S754_zero false.

Definition estimate_count_and_sel st (c_id : ContainerId) (predicate : AstExpr) : result (Z * f64) :=
  container_samples ← ok_or (st_samples st !! c_id) (CrustyErr "Container not found");
  match samples container_samples with
  | [] => Ok (0, f64_zero)
  | _ =>
      schema ← get_container_schema st c_id;
      bound_predicate ← bind_expr predicate schema;
      matching_count ← foldM (count_match bound_predicate) 0 (samples container_samples);
      let total_records := record_count container_samples in
      let sample_size := Z.of_nat (length (samples container_samples)) in
      Ok (scale matching_count sample_size total_records)
  end.

(** [eqs.iter().all(..)]: stops at the first pair that differs; errors are
    unwrapped. *)
Fixpoint all_equal (left_schema right_schema : TableSchema) (left_tuple right_tuple : Tuple)
  (eqs : list (AstExpr * AstExpr)) : result bool :=
  match eqs with
  | [] => Ok true
  | (left_expr, right_expr) :: eqs =>
      bound_left ← unwrap (bind_expr left_expr left_schema);
      bound_right ← unwrap (bind_expr right_expr right_schema);
      left_result ← unwrap (eval_astexpr bound_left left_tuple);
      right_result ← unwrap (eval_astexpr bound_right right_tuple);
      b ← compare_fields BEq left_result right_result;
      if (b : bool) then all_equal left_schema right_schema left_tuple right_tuple eqs else Ok false
  end.

Definition pair_matches (left_schema right_schema : TableSchema) (eqs : list (AstExpr * AstExpr))
  (filter : option AstExpr) (left_tuple right_tuple : Tuple) : result bool :=
  let merged_tuple := tuple_merge left_tuple right_tuple in
  b ← all_equal left_schema right_schema left_tuple right_tuple eqs;
  if (b : bool) then
    match filter with
    | Some filter_expr =>
        let merged_schema := schema_merge left_schema right_schema in
        bound_filter ← bind_expr filter_expr merged_schema;
        matches bound_filter merged_tuple
    | None => Ok true
    end
  else Ok false.

(** The body of the two loops: [matching_count] and [total_pairs]. *)
Definition count_pair (m : Tuple -> Tuple -> result bool) (left_tuple : Tuple) (s : Z * Z) (right_tuple : Tuple)
  : result (Z * Z) :=
  let '(matching_count, total_pairs) := s in
  b ← m left_tuple right_tuple;
  matching_count ← (if (b : bool) then arith_i 32 (matching_count + 1) else Ok matching_count);
  total_pairs ← arith_i 32 (total_pairs + 1);
  Ok (matching_count, total_pairs).

Definition count_pairs (m : Tuple -> Tuple -> result bool) (lefts rights : list Tuple) : result (Z * Z) :=
  foldM (fun s left_tuple => foldM (count_pair m left_tuple) s rights) (0, 0) lefts.

Definition estimate_join_count_and_sel st (left_c_id right_c_id : ContainerId) (eqs : list (AstExpr * AstExpr))
  (filter : option AstExpr) : result (Z * f64) :=
  left_container_samples ← ok_or (st_samples st !! left_c_id) (CrustyErr "Container 1 not found");
  right_container_samples ← ok_or (st_samples st !! right_c_id) (CrustyErr "Container 2 not found");
  match samples left_container_samples, samples right_container_samples with
  | [], _ | _, [] => Ok (0, f64_zero)
  | _, _ =>
      left_schema ← get_container_schema st left_c_id;
      right_schema ← get_container_schema st right_c_id;
      '(matching_count, total_pairs) ← count_pairs (pair_matches left_schema right_schema eqs filter)
                                         (samples left_container_samples) (samples right_container_samples);
      total_records ← arith_u 64 (record_count left_container_samples * record_count right_container_samples);
      Ok (scale matching_count total_pairs total_records)
  end.
End Estimate.

(** ** Counting *)

(** How many elements satisfy a test, and how many pairs. *)
Definition count_if {A} (p : A -> bool) (l : list A) : Z := Z.of_nat (length (filter (fun a => p a = true) l)).

Definition count_if2 {A B} (p : A -> B -> bool) (l : list A) (r : list B) : Z := sumZ ((fun a => count_if (p a) r) <$> l).

Lemma count_if_bound {A} (p : A -> bool) l : 0 <= count_if p l <= Z.of_nat (length l).
Proof. unfold count_if. pose proof (length_filter (fun a => p a = true) l). lia. Qed.

Lemma count_if_cons {A} (p : A -> bool) a l : count_if p (a :: l) = (if p a then 1 else 0) + count_if p l.
Proof. unfold count_if. rewrite filter_cons. destruct (p a); cbn; case_decide; cbn in *; try done; lia. Qed.

Lemma count_if2_bound {A B} (p : A -> B -> bool) l r :
  0 <= count_if2 p l r <= Z.of_nat (length l) * Z.of_nat (length r).
Proof.
  unfold count_if2. induction l as [|a l IH]; cbn [fmap list_fmap length]; [cbn; lia|].
  change (sumZ (?x :: ?y)) with (x + sumZ y). pose proof (count_if_bound (p a) r). lia.
Qed.

Section Loops.
Context `{Profile}.

Lemma count_match_ok e (p : Tuple -> bool) l : forall n, 0 <= n -> n + Z.of_nat (length l) < 2 ^ 31 ->
  (forall t, t ∈ l -> matches e t = Ok (p t)) -> foldM (count_match e) n l = Ok (n + count_if p l).
Proof.
  induction l as [|t l IH]; intros n Hn Hl Hp; cbn [foldM length] in *.
  - unfold count_if. cbn. f_equal. lia.
  - assert (count_match e n t = Ok (if p t then n + 1 else n)) as ->.
    { unfold count_match. rewrite Hp by apply list_elem_of_here. mstep.
      destruct (p t); [|done]. apply arith_i_ok. unfold in_i. lia. }
    mstep. rewrite IH; [|destruct (p t); lia..|intros t' Ht; apply Hp; by apply list_elem_of_further].
    rewrite count_if_cons. f_equal. destruct (p t); lia.
Qed.

Lemma count_right_ok m (p : Tuple -> Tuple -> bool) a rs : forall k n, 0 <= k <= n -> n + Z.of_nat (length rs) < 2 ^ 31 ->
  (forall b, b ∈ rs -> m a b = Ok (p a b)) ->
  foldM (count_pair m a) (k, n) rs = Ok (k + count_if (p a) rs, n + Z.of_nat (length rs)).
Proof.
  induction rs as [|b rs IH]; intros k n Hk Hn Hp; cbn [foldM length] in *.
  - unfold count_if. cbn. do 2 f_equal; lia.
  - assert (count_pair m a (k, n) b = Ok ((if p a b then k + 1 else k), n + 1)) as ->.
    { unfold count_pair. rewrite Hp by apply list_elem_of_here. mstep.
      assert ((if p a b then arith_i (E := CrustyError) 32 (k + 1) else Ok k) = Ok (if p a b then k + 1 else k)) as ->.
      { destruct (p a b); [|done]. apply arith_i_ok. unfold in_i. lia. }
      mstep. by rewrite arith_i_ok by (unfold in_i; lia). }
    mstep. rewrite IH; [|destruct (p a b); lia..|intros t' Ht; apply Hp; by apply list_elem_of_further].
    rewrite count_if_cons. do 2 f_equal; destruct (p a b); lia.
Qed.

Lemma count_pairs_ok m (p : Tuple -> Tuple -> bool) ls rs :
  Z.of_nat (length ls) * Z.of_nat (length rs) < 2 ^ 31 ->
  (forall a b, a ∈ ls -> b ∈ rs -> m a b = Ok (p a b)) ->
  count_pairs m ls rs = Ok (count_if2 p ls rs, Z.of_nat (length ls) * Z.of_nat (length rs)).
Proof.
  unfold count_pairs. intros Hl Hp.
  enough (forall k n, 0 <= k <= n -> n + Z.of_nat (length ls) * Z.of_nat (length rs) < 2 ^ 31 ->
    foldM (fun s a => foldM (count_pair m a) s rs) (k, n) ls =
      Ok (k + count_if2 p ls rs, n + Z.of_nat (length ls) * Z.of_nat (length rs))) as E by (apply E; lia).
  clear Hl. induction ls as [|a ls IH]; intros k n Hk Hn; cbn [foldM length] in *.
  - unfold count_if2. cbn. do 2 f_equal; lia.
  - rewrite (count_right_ok m p); [|lia..|intros b Hb; apply Hp; [apply list_elem_of_here|done]]. mstep.
    pose proof (count_if_bound (p a) rs). rewrite IH; [|intros a' b Ha Hb; apply Hp; [by apply list_elem_of_further|done]|lia..].
    unfold count_if2. cbn [fmap list_fmap]. change (sumZ (?x :: ?y)) with (x + sumZ y). do 2 f_equal; lia.
Qed.
End Loops.

(** ** The estimates *)

(** A scaled count is within one of the exact proportion, at most the number of
    records, and exact when every record was counted. *)
Definition good_estimate (est matching sampled_size total : Z) : Prop :=
  0 <= est <= total /\ sampled_size * (est - 1) < matching * total < sampled_size * (est + 1).

Lemma scale_good k n total : 0 <= k <= n -> 0 < n < 2 ^ 50 -> 0 < total < 2 ^ 50 ->
  good_estimate (scale k n total).1 k n total.
Proof. intros Hk Hn Ht. split; [by apply scaled_count_bound|by apply scaled_count_near]. Qed.

Lemma scale_exact k n : 0 <= k <= n -> 0 < n < 2 ^ 50 -> (scale k n n).1 = k.
Proof. apply scaled_count_exact. Qed.

Section Theorems.
Context {G : Type} `{Rng G, !RngLaws, Profile} (g : G) (os : list stat_op).
Abbreviation st := ((run_stat_ops (Stats_new g) os).1).
Abbreviation recorded := ((a_stat_ops ∅ os).1).

(** The samples of a container after the calls. *)
Lemma recorded_samples c ts : Z.of_nat (length os) < 2 ^ 64 -> recorded !! c = Some ts ->
  exists cs, st_samples st !! c = Some cs /\ sampled ts cs.
Proof.
  intros Hl E. destruct (stat_ops_refine os 0 ∅ (Stats_new g)) as [_ R]; [|done|].
  - split; [|by intros c' ts'; rewrite lookup_empty]. intros c'. cbn. by rewrite !lookup_empty.
  - pose proof (stats_lookup _ _ _ c R) as L. rewrite E in L. destruct (st_samples st !! c) as [cs|]; [|done].
    exists cs. split; [done|apply L].
Qed.

Lemma sample_sizes ts cs : sampled ts cs -> (0 < length ts)%nat -> samples cs <> [] /\
  0 < Z.of_nat (length (samples cs)) <= 1000 /\ record_count cs = Z.of_nat (length ts).
Proof.
  intros [S1 S2 _ _] Hts. unfold SAMPLE_SIZE in S2. split; [|split; [lia|done]].
  destruct (samples cs); [cbn in S2; lia|done].
Qed.

(** C26: after any sequence of register and new-record calls, a container of at
    least one and fewer than 2^50 records and a predicate that evaluates on them:
    the estimated count is within one of the exact share of matches in the sample
    scaled to the records, at most their number, and exactly the number of matching
    records when at most 1000 were recorded; rounding errors of the division and
    the multiplication included. *)
Theorem estimate_count_correct (c : ContainerId) (ts : list Tuple) (sc : TableSchema) (predicate e : AstExpr)
    (p : Tuple -> bool) :
  Z.of_nat (length os) < 2 ^ 64 -> recorded !! c = Some ts -> (0 < length ts)%nat -> Z.of_nat (length ts) < 2 ^ 50 ->
  get_container_schema st c = Ok sc -> bind_expr predicate sc = Ok e -> (forall t, t ∈ ts -> matches e t = Ok (p t)) ->
  exists cs est sel, st_samples st !! c = Some cs /\ estimate_count_and_sel st c predicate = Ok (est, sel) /\
    good_estimate est (count_if p (samples cs)) (Z.of_nat (length (samples cs))) (Z.of_nat (length ts)) /\
    ((length ts <= 1000)%nat -> est = count_if p ts).
Proof.
  intros Ho Ec Hts Hb Es Eb Hp. destruct (recorded_samples c ts Ho Ec) as (cs & El & S).
  destruct (sample_sizes ts cs S Hts) as (Hne & Hn & Hc). pose proof (count_if_bound p (samples cs)) as Hk.
  exists cs, (scale (count_if p (samples cs)) (Z.of_nat (length (samples cs))) (Z.of_nat (length ts))).1, 
    (scale (count_if p (samples cs)) (Z.of_nat (length (samples cs))) (Z.of_nat (length ts))).2.
  split_and!; [done| |apply scale_good; lia|].
  - unfold estimate_count_and_sel. rewrite El. cbn [ok_or]. mstep. rewrite Es. mstep. rewrite Eb. mstep.
    rewrite (count_match_ok e p) by (try lia; intros t Ht; by apply Hp, (sd_from ts cs S)). mstep.
    rewrite Hc, Z.add_0_l. by destruct (samples cs).
  - intros Hle. rewrite (sd_whole ts cs S) by (unfold SAMPLE_SIZE; lia). apply scale_exact; [|lia].
    apply count_if_bound.
Qed.

(** Likewise for joins: the estimate is within one of the exact share of
    matching pairs of sampled tuples scaled to the product of the record counts,
    at most that product, and exactly the number of matching pairs when both
    containers have at most 1000 records. *)
Theorem estimate_join_correct (c1 c2 : ContainerId) (ts1 ts2 : list Tuple) (sc1 sc2 : TableSchema)
    (eqs : list (AstExpr * AstExpr)) (flt : option AstExpr) (p : Tuple -> Tuple -> bool) :
  Z.of_nat (length os) < 2 ^ 64 -> recorded !! c1 = Some ts1 -> recorded !! c2 = Some ts2 ->
  (0 < length ts1)%nat -> (0 < length ts2)%nat -> Z.of_nat (length ts1) * Z.of_nat (length ts2) < 2 ^ 50 ->
  get_container_schema st c1 = Ok sc1 -> get_container_schema st c2 = Ok sc2 ->
  (forall a b, a ∈ ts1 -> b ∈ ts2 -> pair_matches sc1 sc2 eqs flt a b = Ok (p a b)) ->
  exists cs1 cs2 est sel, st_samples st !! c1 = Some cs1 /\ st_samples st !! c2 = Some cs2 /\
    estimate_join_count_and_sel st c1 c2 eqs flt = Ok (est, sel) /\
    good_estimate est (count_if2 p (samples cs1) (samples cs2))
      (Z.of_nat (length (samples cs1)) * Z.of_nat (length (samples cs2)))
      (Z.of_nat (length ts1) * Z.of_nat (length ts2)) /\
    ((length ts1 <= 1000)%nat -> (length ts2 <= 1000)%nat -> est = count_if2 p ts1 ts2).
Proof.
  intros Ho Ec1 Ec2 P1 P2 Hb Es1 Es2 Hp.
  destruct (recorded_samples c1 ts1 Ho Ec1) as (cs1 & El1 & S1).
  destruct (recorded_samples c2 ts2 Ho Ec2) as (cs2 & El2 & S2).
  destruct (sample_sizes ts1 cs1 S1 P1) as (Hne1 & Hn1 & Hc1).
  destruct (sample_sizes ts2 cs2 S2 P2) as (Hne2 & Hn2 & Hc2).
  pose proof (count_if2_bound p (samples cs1) (samples cs2)) as Hk.
  set (n := Z.of_nat (length (samples cs1)) * Z.of_nat (length (samples cs2))) in *.
  assert (0 < n <= 1000 * 1000) as Hn by (unfold n; nia).
  exists cs1, cs2, (scale (count_if2 p (samples cs1) (samples cs2)) n
                      (Z.of_nat (length ts1) * Z.of_nat (length ts2))).1,
    (scale (count_if2 p (samples cs1) (samples cs2)) n (Z.of_nat (length ts1) * Z.of_nat (length ts2))).2.
  split_and!; [done|done| |apply scale_good; nia|].
  - unfold estimate_join_count_and_sel. rewrite El1, El2. cbn [ok_or]. mstep. rewrite Es1, Es2. mstep.
    rewrite (count_pairs_ok _ p) by (try (fold n; lia); intros a b Ha Hb'; apply Hp; by first [apply (sd_from _ _ S1)|apply (sd_from _ _ S2)]).
    mstep. rewrite Hc1, Hc2, arith_u_ok by (unfold in_u; nia). mstep.
    fold n. by destruct (samples cs1), (samples cs2).
  - intros L1 L2. pose proof (sd_whole ts1 cs1 S1) as W1. pose proof (sd_whole ts2 cs2 S2) as W2.
    unfold SAMPLE_SIZE in W1, W2. unfold n in *. rewrite W1, W2 in * by lia. apply scale_exact; lia.
Qed.
End Theorems.

(** ** Witnesses: three records, two of which match *)

Definition est_schema : TableSchema := TableSchema_new [mkAttribute "a" TInt CNone].
Definition est_ops : list stat_op :=
  SRegister 4 est_schema :: ((fun z => SNew (Tuple_new [FInt z]) (ValueId_new 4)) <$> [5; 7; 5]).
Definition est_row (z : Z) : Tuple := Tuple_new [FInt z].
Definition est_pred : AstExpr := EBoolean BEq (EIdent "a") (ELiteral (FInt 5)).
Definition is_five (t : Tuple) : bool := bool_decide (t = est_row 5).

#[local] Instance zero_draws : RngLaws (H := zero_rng).
Proof. intros g n Hn. cbn. lia. Qed.
#[local] Instance est_profile : Profile := true.
#[local] Existing Instance zero_rng.

Lemma estimate_count_correct_witness :
  exists sel, estimate_count_and_sel (run_stat_ops (Stats_new tt) est_ops).1 4 est_pred = Ok (2, sel).
Proof.
  destruct (estimate_count_correct tt est_ops 4 [est_row 5; est_row 7; est_row 5] est_schema est_pred
              (EBoolean BEq (EColIdx 0) (ELiteral (FInt 5))) is_five) as (cs & est & sel & _ & E & _ & X);
    [vm_compute; reflexivity|vm_compute; reflexivity|cbn; lia|vm_compute; reflexivity..| |].
  - intros t Ht. repeat (apply elem_of_cons in Ht as [->|Ht]; [vm_compute; reflexivity|]). by apply not_elem_of_nil in Ht.
  - exists sel. rewrite E, X by (cbn; lia). vm_compute. reflexivity.
Defined.

Lemma estimate_join_correct_witness :
  exists sel, estimate_join_count_and_sel (run_stat_ops (Stats_new tt) est_ops).1 4 4 [(EIdent "a", EIdent "a")] None
    = Ok (5, sel).
Proof.
  destruct (estimate_join_correct tt est_ops 4 4 [est_row 5; est_row 7; est_row 5] [est_row 5; est_row 7; est_row 5]
              est_schema est_schema [(EIdent "a", EIdent "a")] None (fun a b => bool_decide (a = b)))
    as (cs1 & cs2 & est & sel & _ & _ & E & _ & X);
    [vm_compute; reflexivity|vm_compute; reflexivity|vm_compute; reflexivity|cbn; lia|cbn; lia|vm_compute; reflexivity..| |].
  - intros a b Ha Hb. repeat (apply elem_of_cons in Ha as [->|Ha]; [|]); [..|by apply not_elem_of_nil in Ha];
      repeat (apply elem_of_cons in Hb as [->|Hb]; [vm_compute; reflexivity|]); by apply not_elem_of_nil in Hb.
  - exists sel. rewrite E, X by (cbn; lia). vm_compute. reflexivity.
Defined.
