(* ===== verification/Mutator.v ===== *)
(** * Ingestion

    [src/src/queryexe/src/mutator/mod.rs] (conversion, validation and insertion
    of tuples), the import operations of [query/executor.rs] and the CSV reader
    of [src/src/common/src/data_reader.rs]. *)

From S2P Require Import Prelude Bytes Common Types Sql Storage Stats.

Open Scope Z_scope.

(** [{:?}] of the errors and lists in the messages. *)
Definition ConversionError_debug (e : ConversionError) : string :=
  match e with
  | FieldConstraintError i s => "FieldConstraintError(" +:+ pretty i +:+ ", " +:+ str_debug s +:+ ")"
  | PrimaryKeyViolation => "PrimaryKeyViolation"
  | UniqueViolation => "UniqueViolation"
  | TransactionViolation t s =>
      "TransactionViolation(TransactionId { id: " +:+ pretty (tid_id t) +:+ " }, " +:+ str_debug s +:+ ")"
  | ParseError => "ParseError"
  | UnsupportedType => "UnsupportedType"
  | NullFieldNotAllowed i => "NullFieldNotAllowed(" +:+ pretty i +:+ ")"
  | WrongType => "WrongType"
  end.

Definition list_debug {A} (f : A -> string) (l : list A) : string :=
  "[" +:+ String.concat ", " (f <$> l) +:+ "]".

Definition unconverted_debug (l : list (Z * list ConversionError)) : string :=
  list_debug (fun '(i, es) => "(" +:+ pretty i +:+ ", " +:+ list_debug ConversionError_debug es +:+ ")") l.

(** ** Conversion *)

Section Convert.
Context `{Profile}.

(** [if let Ok(field) = .. { fields.push(field) } else { .. ParseError .. }] *)
Definition parsed (m : result Field) : result (Field + ConversionError) :=
  match m with
  | Ok f => Ok (inl f)
  | Err _ => Ok (inr ParseError)
  | Panic => Panic
  end.

Definition convert_value (v : SqlValue) : result (Field + ConversionError) :=
  match v with
  | Number val _ =>
      let parts := split_on "." val in
      if (2 <? length parts)%nat then Ok (inr ParseError)
      else if (length parts =? 2)%nat
      then parsed (from_str_to_decimal val default_decimal_precision default_decimal_scale)
      else parsed (from_str_to_int val)
  | DoubleQuotedString val | SingleQuotedString val => parsed (from_str_to_string val)
  | SqlNull => Ok (inl FNull)
  | SqlBoolean _ | OtherValue => Ok (inr UnsupportedType)
  end.

(** One expression of row [i]: a field, or an entry in [unconverted]. *)
Definition convert_expr (i : Z) (st : list Field * list (Z * list ConversionError)) (e : Expr)
  : result (list Field * list (Z * list ConversionError)) :=
  let '(fields, bad) := st in
  match e with
  | ValueExpr v =>
      r ← convert_value v;
      Ok (match r with
          | inl f => (fields ++ [f], bad)
          | inr err => (fields, bad ++ [(i, [err])])
          end)
  | _ => Err (CrustyErr "Only values supported in insert")
  end.

Definition convert_row (res : Z * ConvertedResult) (row : list Expr)
  : result (Z * ConvertedResult) :=
  let '(i, res) := res in
  '(fields, bad) ← foldM (convert_expr i) ([], unconverted res) row;
  Ok (i + 1, mkConverted (converted res ++ [Tuple_new fields]) bad).

Definition convert_insert_vals (values : Values) : result ConvertedResult :=
  '(_, res) ← foldM convert_row (0, mkConverted [] []) values; Ok res.
End Convert.

(** ** Validation *)

Definition forbids_null (c : Constraint) : bool :=
  match c with
  | NotNull | UniqueNotNull | PrimaryKey | NotNullFKey _ => true
  | CNone | Unique | ForeignKey _ => false
  end.

Definition type_matches (t : DataType) (f : Field) : bool :=
  match t, f with
  | TInt, FInt _ | TString, FString _ | TDate, FDate _ | TDecimal _ _, FDecimal _ _
  | TBool, FBool _ => true
  | _, _ => false
  end.

(** The entries one field adds to [values_to_remove]: a forbidden null falls
    through to the type test, an allowed one is skipped by [continue]. *)
Definition check_field (i : nat) (j : Z) (f : Field) (attr : Attribute)
  : list (nat * list ConversionError) :=
  let typed := if type_matches (dtype attr) f then [] else [(i, [WrongType])] in
  match f with
  | FNull => if forbids_null (constraint attr) then [(i, [NullFieldNotAllowed j])] ++ typed else []
  | _ => typed
  end.

Fixpoint check_fields (i : nat) (j : Z) (l : list (Field * Attribute))
  : list (nat * list ConversionError) :=
  match l with
  | [] => []
  | (f, attr) :: l' => check_field i j f attr ++ check_fields i (j + 1) l'
  end.

Fixpoint check_records (sc : TableSchema) (i : nat) (l : list Tuple)
  : list (nat * list ConversionError) :=
  match l with
  | [] => []
  | rec :: l' => check_fields i 0 (zip (field_vals rec) (attributes sc)) ++ check_records sc (S i) l'
  end.

(** [Vec::remove]: panics out of bounds. *)
Definition vec_remove {A} (l : list A) (i : nat) : result (list A) :=
  if (i <? length l)%nat then Ok (delete i l) else Panic.

Definition validate_tuples (sc : TableSchema) (col_order : option (list nat)) (values : ConvertedResult)
  : result ConvertedResult :=
  match col_order with
  | Some _ => Err (CrustyErr "Col ordering not supported")
  | None =>
      let values_to_remove := check_records sc 0 (converted values) in
      l ← foldM vec_remove (converted values) (rev values_to_remove.*1);
      Ok (mkConverted l (unconverted values))
  end.

(** ** Insertion *)

(** The managers the executor works on. *)
Record Managers (St G : Type) := mkManagers { sm : St; stats : ReservoirStatManager G }.
Arguments mkManagers {St G} sm stats.
Arguments sm {St G}.
Arguments stats {St G}.

Section Insert.
Context `{Profile, Cbor} {St It G : Type} `{!StorageTrait St It, !Rng G}.

Definition with_sm {A} (f : St -> result (St * A)) : stm (Managers St G) A := fun m =>
  match f (sm m) with
  | Ok (s, a) => (mkManagers s (stats m), Ok a)
  | Err e => (m, Err e)
  | Panic => (m, Panic)
  end.

Definition with_stats {A} (f : ReservoirStatManager G -> ReservoirStatManager G * result A)
  : stm (Managers St G) A := fun m =>
  let '(st, r) := f (stats m) in (mkManagers (sm m) st, r).

Definition err_insert_count (want got : nat) : CrustyError :=
  ExecutionError ("Attempting to insert " +:+ pretty want +:+ " tuples and only "
                    +:+ pretty got +:+ " were inserted").

Definition insert_validated_tuples (table_id : ContainerId) (tuples : list Tuple)
  : stm (Managers St G) Z :=
  tuples_bytes ← lift (mapM_o Tuple_to_bytes tuples);
  inserted ← with_sm (fun s => insert_values s table_id tuples_bytes);
  if (length inserted =? length tuples)%nat
  then
    _ ← for_each (fun '(t, v) => with_stats (fun st => new_record st t v)) (zip tuples inserted);
    mret (Z.of_nat (length inserted))
  else throw (err_insert_count (length tuples) (length inserted)).

(** ** The import operations of the executor *)

Definition import_tuples (values : Values) (table_id : ContainerId) (sc : TableSchema)
  : stm (Managers St G) Z :=
  converted_result ← lift (convert_insert_vals values);
  validated ← lift (validate_tuples sc None converted_result);
  match unconverted validated with
  | [] => insert_validated_tuples table_id (converted validated)
  | bad => throw (Types.verr ("Some records were not valid: " +:+ unconverted_debug bad))
  end.

(** A source of records. *)
Class DataReader (R : Type) := read_next : R -> R * result (option Tuple).

Definition max_records_in_mem : Z := 100000.

Section Import.
Context {R : Type} `{!DataReader R}.

(** The inner loop; [fuel] bounds the records. *)
Fixpoint read_chunk (fuel : nat) (rdr : R) (count : Z) : R * result (list Tuple) :=
  match fuel with
  | O => (rdr, Panic)
  | S fuel' =>
      match read_next rdr with
      | (rdr, Ok (Some t)) =>
          if max_records_in_mem <=? count + 1 then (rdr, Ok [t])
          else
            match read_chunk fuel' rdr (count + 1) with
            | (rdr, Ok ts) => (rdr, Ok (t :: ts))
            | x => x
            end
      | (rdr, Ok None) => (rdr, Ok [])
      | (rdr, Err e) => (rdr, Err e)
      | (rdr, Panic) => (rdr, Panic)
      end
  end.

Fixpoint import_loop (fuel : nat) (rdr : R) (table_id : ContainerId) (total : Z)
  : stm (Managers St G) Z :=
  match fuel with
  | O => lift Panic
  | S fuel' =>
      match read_chunk fuel rdr 0 with
      | (_, Err e) => throw e
      | (_, Panic) => lift Panic
      | (rdr, Ok []) => mret total
      | (rdr, Ok ts) =>
          insert_count ← insert_validated_tuples table_id ts;
          total ← lift (arith_u 64 (total + insert_count));
          import_loop fuel' rdr table_id total
      end
  end.

Definition import_records_from_reader (fuel : nat) (rdr : R) (table_id : ContainerId)
  : stm (Managers St G) Z :=
  import_loop fuel rdr table_id 0.
End Import.
End Insert.

(** ** The CSV reader *)

(** The record reader of the [csv] crate: the next record, an error, or the end. *)
Class CsvCrate (Rd : Type) := records_next : Rd -> Rd * option (string + list string).

Record CsvReader (Rd : Type) := mkCsvReader { csv_schema : TableSchema; rdr : Rd }.
Arguments mkCsvReader {Rd} csv_schema rdr.
Arguments csv_schema {Rd}.
Arguments rdr {Rd}.

Definition convert_to_tuple `{Profile, Chrono} (record : list string) (sc : TableSchema) : result Tuple :=
  fields ← mapM_o (fun '(s, attr) => Field_from_str s attr) (zip record (attributes sc));
  Ok (Tuple_new fields).

#[export] Instance CsvReader_reader `{Profile, Chrono, CsvCrate Rd} : DataReader (CsvReader Rd) := fun r =>
  let '(rd, o) := records_next (rdr r) in
  let r' := mkCsvReader (csv_schema r) rd in
  match o with
  | Some (inr record) => (r', t ← convert_to_tuple record (csv_schema r); Ok (Some t))
  | Some (inl e) => (r', Err (IOError e))
  | None => (r', Ok None)
  end.
