(* ===== verification/MutatorProofs.v ===== *)
(** * Ingestion: validation, conversion and insertion *)

From S2P Require Import Prelude Bytes Common Types Sql Storage Stats Mutator.

Open Scope Z_scope.

(** ** Validation *)

(** The entries a record adds to [values_to_remove]. *)
Definition violations (sc : TableSchema) (t : Tuple) : list (nat * list ConversionError) :=
  check_fields 0 0 (zip (field_vals t) (attributes sc)).

Definition row_valid (sc : TableSchema) (t : Tuple) : Prop := violations sc t = [].

#[export] Instance row_valid_dec sc t : Decision (row_valid sc t).
Proof. unfold row_valid. destruct (violations sc t); [by left|by right]. Defined.

Lemma check_field_index i j f attr :
  (check_field i j f attr).*1 = replicate (length (check_field 0 j f attr)) i.
Proof.
  unfold check_field. destruct (type_matches (dtype attr) f), f, (forbids_null (constraint attr)); done.
Qed.

Lemma check_fields_index i l : forall j,
  (check_fields i j l).*1 = replicate (length (check_fields 0 j l)) i.
Proof.
  induction l as [|[f attr] l IH]; intros j; cbn [check_fields]; [done|].
  by rewrite fmap_app, length_app, replicate_add, check_field_index, IH.
Qed.

Lemma check_records_index sc n t l :
  (check_records sc n (t :: l)).*1 = replicate (length (violations sc t)) n ++ (check_records sc (S n) l).*1.
Proof. cbn [check_records]. by rewrite fmap_app, check_fields_index. Qed.

Lemma vec_remove_ok {A} (pre : list A) a l : vec_remove (pre ++ a :: l) (length pre) = Ok (pre ++ l).
Proof.
  unfold vec_remove. rewrite length_app. cbn [length].
  rewrite (proj2 (Nat.ltb_lt _ _)) by lia. by rewrite delete_middle.
Qed.

Lemma vec_remove_out {A} (l : list A) : vec_remove l (length l) = Panic.
Proof. unfold vec_remove. by rewrite Nat.ltb_irrefl. Qed.

(** With at most one entry per record, removing in reverse order removes the
    invalid records. *)
Lemma remove_invalid sc l : forall pre,
  Forall (fun t => (length (violations sc t) <= 1)%nat) l ->
  foldM vec_remove (pre ++ l) (rev (check_records sc (length pre) l).*1) =
  Ok (pre ++ filter (row_valid sc) l).
Proof.
  induction l as [|t l IH]; intros pre Hl; [done|].
  apply Forall_cons in Hl as [Ht Hl]. rewrite check_records_index, rev_app_distr, foldM_app.
  specialize (IH (pre ++ [t]) Hl). rewrite length_app, Nat.add_1_r, <- !app_assoc in IH. cbn [app] in IH.
  rewrite IH. mstep. rewrite filter_cons. unfold row_valid at 1.
  destruct (violations sc t) as [|x [|y vs]] eqn:E; cbn [length replicate rev app foldM] in *; [| |lia].
  - by rewrite decide_True.
  - rewrite decide_False by (unfold row_valid; by rewrite E). rewrite vec_remove_ok. done.
Qed.

Lemma validate_tuples_ok sc ts bad :
  Forall (fun t => (length (violations sc t) <= 1)%nat) ts ->
  validate_tuples sc None (mkConverted ts bad) = Ok (mkConverted (filter (row_valid sc) ts) bad).
Proof.
  intros Hl. unfold validate_tuples. cbn [converted unconverted].
  pose proof (remove_invalid sc ts [] Hl) as E. cbn [app length] in E. by rewrite E.
Qed.

Lemma check_records_app sc l1 l2 : forall n,
  check_records sc n (l1 ++ l2) = check_records sc n l1 ++ check_records sc (n + length l1) l2.
Proof.
  induction l1 as [|t l1 IH]; intros n; cbn [app check_records length].
  - by rewrite Nat.add_0_r.
  - rewrite IH, <- app_assoc. do 3 f_equal. lia.
Qed.

Lemma rev_replicate {A} n (x : A) : rev (replicate n x) = replicate n x.
Proof. rewrite rev_alt. apply (reverse_replicate n x). Qed.

(** A last record with two entries is removed once; the second removal is out of
    bounds. *)
Lemma double_violation_panics sc ts t bad :
  (2 <= length (violations sc t))%nat ->
  validate_tuples sc None (mkConverted (ts ++ [t]) bad) = Panic.
Proof.
  intros Hv. unfold validate_tuples. cbn [converted unconverted].
  rewrite check_records_app, Nat.add_0_l, fmap_app, check_records_index. cbn [check_records fmap list_fmap].
  rewrite app_nil_r, rev_app_distr, rev_replicate.
  destruct (length (violations sc t)) as [|[|k]]; [lia..|]. cbn [replicate app foldM].
  rewrite vec_remove_ok. mstep. rewrite app_nil_r.
  by rewrite vec_remove_out.
Qed.

Lemma null_violations sc t j attr :
  field_vals t !! j = Some FNull -> attributes sc !! j = Some attr ->
  forbids_null (constraint attr) = true -> (2 <= length (violations sc t))%nat.
Proof.
  unfold violations. generalize 0 as k. generalize (field_vals t) as fs, (attributes sc) as ats.
  intros fs. revert j. induction fs as [|f fs IH]; intros j ats k Hf Ha Hc; [done|].
  destruct ats as [|a ats]; [done|]. cbn [zip zip_with check_fields].
  rewrite length_app. destruct j as [|j]; cbn in Hf, Ha.
  - injection Hf as ->. injection Ha as ->. unfold check_field. rewrite Hc.
    destruct (dtype attr); cbn; lia.
  - specialize (IH j ats (k + 1) Hf Ha Hc). lia.
Qed.

(** ** Conversion *)

Section Convert.
Context `{Profile}.

(** The expression stands for a value that converts to the field. *)
Definition expr_field (e : Expr) (f : Field) : Prop :=
  exists v, e = ValueExpr v /\ convert_value v = Ok (inl f).

Lemma convert_exprs_ok i row fs : Forall2 expr_field row fs -> forall pre bad,
  foldM (convert_expr i) (pre, bad) row = Ok (pre ++ fs, bad).
Proof.
  induction 1 as [|e f row fs (v & -> & E) HF IH]; intros pre bad; cbn [foldM].
  - by rewrite app_nil_r.
  - cbn [convert_expr]. rewrite E. mstep. rewrite IH, <- app_assoc. done.
Qed.

Lemma convert_rows_ok values rows : Forall2 (Forall2 expr_field) values rows -> forall i ts bad,
  exists i', foldM convert_row (i, mkConverted ts bad) values =
    Ok (i', mkConverted (ts ++ (Tuple_new <$> rows)) bad).
Proof.
  induction 1 as [|row fs values rows Hr HF IH]; intros i ts bad; cbn [foldM fmap list_fmap].
  - exists i. by rewrite app_nil_r.
  - cbn [convert_row unconverted converted]. rewrite (convert_exprs_ok i row fs Hr). mstep. cbn [app].
    destruct (IH (i + 1) (ts ++ [Tuple_new fs]) bad) as [i' ->]. exists i'. by rewrite <- app_assoc.
Qed.

Lemma convert_insert_vals_ok values rows :
  Forall2 (Forall2 expr_field) values rows ->
  convert_insert_vals values = Ok (mkConverted (Tuple_new <$> rows) []).
Proof.
  intros HF. unfold convert_insert_vals.
  destruct (convert_rows_ok values rows HF 0 [] []) as [i' ->]. done.
Qed.
End Convert.

(** ** Insertion *)

(** [m'] holds the values of [m] under their ids, and the encodings of [ts]. *)
Definition appended `{Cbor} (m : gmap ValueId value) (ts : list Tuple) (m' : gmap ValueId value) : Prop :=
  m ⊆ m' /\ exists bss, Forall2 (fun t bs => cbor_to_vec t = Some bs) ts bss /\
    (map_to_list m').*2 ≡ₚ bss ++ (map_to_list m).*2.

Lemma appended_trans `{Cbor} m1 ts1 m2 ts2 m3 :
  appended m1 ts1 m2 -> appended m2 ts2 m3 -> appended m1 (ts1 ++ ts2) m3.
Proof.
  intros (S1 & b1 & F1 & P1) (S2 & b2 & F2 & P2). split; [by etrans|].
  exists (b1 ++ b2). split; [by apply Forall2_app|]. rewrite P2, P1, !(assoc_L (++)).
  f_equiv. apply Permutation_app_comm.
Qed.

Lemma appended_nil `{Cbor} m : appended m [] m.
Proof. split; [done|]. exists []. split; [constructor|done]. Qed.

Lemma appended_union `{Cbor} m ts bss ids :
  Forall2 (fun t bs => cbor_to_vec t = Some bs) ts bss -> length ids = length bss -> NoDup ids ->
  (forall id, id ∈ ids -> m !! id = None) ->
  appended m ts (list_to_map (zip ids bss) ∪ m).
Proof.
  intros HF Hl Hnd Hf. assert ((zip ids bss).*1 = ids) as E1 by (apply fst_zip; lia).
  assert ((list_to_map (zip ids bss) : gmap ValueId value) ##ₘ m) as D.
  { apply map_disjoint_spec. intros id v v' Hv Hv'. apply elem_of_list_to_map_2 in Hv.
    assert (id ∈ ids) as Hin by (rewrite <- E1; by eapply (list_elem_of_fmap_2 fst _ (id, v))).
    by rewrite Hf in Hv'. }
  split; [by apply map_union_subseteq_r|]. exists bss. split; [done|].
  rewrite <- (list_to_map_to_list m) at 1. rewrite <- list_to_map_app, map_to_list_to_map.
  - by rewrite fmap_app, snd_zip by lia.
  - rewrite fmap_app, E1. apply NoDup_app. split; [done|]. split; [|apply NoDup_fst_map_to_list].
    intros id Hin ([? v] & -> & Hv%elem_of_map_to_list)%list_elem_of_fmap. cbn in *.
    by rewrite Hf in Hv.
Qed.

Section Insert.
Context `{Profile, Cbor, !CborLaws} {St It G : Type} `{!StorageTrait St It, !Rng G, !RngLaws}.
Context `{!StorageLaws (St := St) (It := It)}.

(** Container [c] of the managers: it holds [m], and the statistics have seen
    the tuples [ts]. *)
Record table_ok (mg : Managers St G) (c : ContainerId) (m : gmap ValueId value) (ts : list Tuple) : Prop := {
  tk_ok : ok (sm mg);
  tk_view : view (sm mg) !! c = Some m;
  tk_stats : exists cs, st_samples (stats mg) !! c = Some cs /\ sampled ts cs;
}.

(** What changes at most between two states of the managers is container [c]. *)
Record others_kept (c : ContainerId) (mg mg' : Managers St G) : Prop := {
  ok_names : names (sm mg') = names (sm mg);
  ok_room : forall c' n, c' <> c -> room (sm mg) c' n -> room (sm mg') c' n;
  ok_stats : forall c', c' <> c -> st_samples (stats mg') !! c' = st_samples (stats mg) !! c';
}.

Lemma encode_all ts : exists bss, mapM_o Tuple_to_bytes ts = Ok bss /\
  Forall2 (fun t bs => cbor_to_vec t = Some bs) ts bss.
Proof.
  induction ts as [|t ts (bss & E & HF)]; cbn [mapM_o]; [by exists []|].
  destruct (cbor_roundtrip t) as (bs & Et & _). assert (Tuple_to_bytes t = Ok bs) as -> by (unfold Tuple_to_bytes; by rewrite Et).
  mstep. rewrite E. mstep. exists (bs :: bss). split; [done|]. by constructor.
Qed.

Lemma record_ok (mg : Managers St G) c ts t id :
  (exists cs, st_samples (stats mg) !! c = Some cs /\ sampled ts cs) -> container_id id = c ->
  Z.of_nat (length ts) < 2 ^ 64 - 1 ->
  exists st, with_stats (fun st => new_record st t id) mg = (mkManagers (sm mg) st, Ok tt) /\
    (forall c', c' <> c -> st_samples st !! c' = st_samples (stats mg) !! c') /\
    exists cs, st_samples st !! c = Some cs /\ sampled (ts ++ [t]) cs.
Proof.
  intros (cs & E & Hs) <- Hb. unfold with_stats, new_record. rewrite E.
  destruct (sample_record_ok ts cs (rng (stats mg)) t Hs) as (l & g & -> & Hl & Hf & Hw).
  rewrite arith_u_ok; [|unfold in_u; rewrite (sd_count _ _ Hs); lia].
  eexists. split; [done|]. split; [intros c' Hc; by apply lookup_insert_ne|].
  eexists. cbn [st_samples]. split; [apply lookup_insert_eq|].
  split; cbn [samples record_count]; [rewrite (sd_count _ _ Hs), length_app; cbn; lia|done..].
Qed.

Lemma record_all_ok c ts : forall ids (mg : Managers St G) ts0,
  length ids = length ts -> (forall id, id ∈ ids -> container_id id = c) ->
  (exists cs, st_samples (stats mg) !! c = Some cs /\ sampled ts0 cs) ->
  Z.of_nat (length ts0 + length ts) < 2 ^ 64 ->
  exists st, for_each (fun '(t, v) => with_stats (fun st => new_record st t v)) (zip ts ids) mg =
      (mkManagers (sm mg) st, Ok tt) /\
    (forall c', c' <> c -> st_samples st !! c' = st_samples (stats mg) !! c') /\
    exists cs, st_samples st !! c = Some cs /\ sampled (ts0 ++ ts) cs.
Proof.
  induction ts as [|t ts IH]; intros [|id ids] mg ts0 Hl Hc Hs Hb; try done.
  - exists (stats mg). rewrite app_nil_r. split; [by destruct mg|by split].
  - cbn [length] in *. destruct (record_ok mg c ts0 t id Hs) as (st & E & Ho & Hs'); [set_solver|lia|].
    cbn [zip zip_with for_each]. unfold mbind, stm_bind. rewrite E.
    destruct (IH ids (mkManagers (sm mg) st) (ts0 ++ [t])) as (st' & E' & Ho' & Hs''); [lia|set_solver|done| |].
    { rewrite length_app. cbn. lia. }
    exists st'. split; [exact E'|]. rewrite <- app_assoc in Hs''. split; [|exact Hs''].
    intros c' Hc'. rewrite Ho' by done. by apply Ho.
Qed.

Lemma insert_validated_ok (mg : Managers St G) c m ts0 ts n :
  table_ok mg c m ts0 -> room (sm mg) c (length ts + n) -> Z.of_nat (length ts0 + length ts) < 2 ^ 64 ->
  exists mg' m', insert_validated_tuples c ts mg = (mg', Ok (Z.of_nat (length ts))) /\
    table_ok mg' c m' (ts0 ++ ts) /\ room (sm mg') c n /\ appended m ts m' /\
    view (sm mg') = <[c := m']> (view (sm mg)) /\ others_kept c mg mg'.
Proof.
  intros [T1 T2 T3] R Hb. destruct (encode_all ts) as (bss & Eb & HF).
  pose proof (Forall2_length _ _ _ HF) as Hlb. rewrite Hlb in R.
  destruct (insert_values_ok c bss (sm mg) m n T1 R T2) as (s & ids & Ei & Ws & Rs & Hl & Hnd & Hids & V).
  unfold insert_validated_tuples, lift. unfold mbind, stm_bind. rewrite Eb. unfold with_sm. rewrite Ei.
  assert (length ids = length ts) as Hl' by (etrans; [exact Hl|symmetry; exact Hlb]).
  rewrite Hl', Nat.eqb_refl.
  destruct (record_all_ok c ts ids (mkManagers s (stats mg)) ts0) as (st & E & Ho & Hs);
    [lia|intros id Hid; by apply Hids|done|done|].
  rewrite E. eexists _, _. split; [done|]. split; [split|]; cbn [sm stats].
  - done.
  - rewrite V. apply lookup_insert_eq.
  - done.
  - destruct (insert_values_frame c bss _ _ _ Ei) as [Hn Hr]. split; [done|]. split; [|done].
    apply appended_union; [done|exact Hl|done|]. intros id Hid. by apply Hids.
Qed.

(** ** The import operations *)

Lemma import_tuples_ok (mg : Managers St G) c sc m ts0 values rows n :
  table_ok mg c m ts0 -> Forall2 (Forall2 expr_field) values rows ->
  Forall (fun t => (length (violations sc t) <= 1)%nat) (Tuple_new <$> rows) ->
  let ts := filter (row_valid sc) (Tuple_new <$> rows) in
  room (sm mg) c (length ts + n) -> Z.of_nat (length ts0 + length ts) < 2 ^ 64 ->
  exists mg' m', import_tuples values c sc mg = (mg', Ok (Z.of_nat (length ts))) /\
    table_ok mg' c m' (ts0 ++ ts) /\ room (sm mg') c n /\ appended m ts m' /\
    view (sm mg') = <[c := m']> (view (sm mg)) /\ others_kept c mg mg'.
Proof.
  intros T Hc Hv ts R Hb.
  destruct (insert_validated_ok mg c m ts0 ts n T R Hb) as (mg' & m' & E & HT).
  exists mg', m'. split; [|exact HT]. unfold import_tuples, lift. unfold mbind, stm_bind at 1.
  rewrite (convert_insert_vals_ok values rows Hc). unfold stm_bind at 1.
  rewrite (validate_tuples_ok sc _ _ Hv). exact E.
Qed.

(** A reader that yields the tuples [ts], then ends and stays at its end. *)
Inductive reads {R} `{!DataReader R} : R -> list Tuple -> Prop :=
| reads_nil rd rd' : read_next rd = (rd', Ok None) -> read_next rd' = (rd', Ok None) -> reads rd []
| reads_cons rd rd' t ts : read_next rd = (rd', Ok (Some t)) -> reads rd' ts -> reads rd (t :: ts).

Lemma read_chunk_ok {R} `{!DataReader R} (rd : R) ts : reads rd ts ->
  forall fuel count, (length ts < fuel)%nat -> count < max_records_in_mem ->
  exists rd' k, read_chunk fuel rd count = (rd', Ok (take k ts)) /\ reads rd' (drop k ts) /\
    (ts <> [] -> (0 < k)%nat).
Proof.
  induction 1 as [rd rd' E E'|rd rd' t ts E Rd IH]; intros fuel count Hf Hc;
    (destruct fuel as [|fuel]; [cbn in Hf; lia|]); cbn [read_chunk]; rewrite E.
  - exists rd', 0%nat. split; [done|]. split; [by eapply reads_nil|done].
  - destruct (Z.leb_spec max_records_in_mem (count + 1)).
    + exists rd', 1%nat. split; [done|]. split; [done|lia].
    + destruct (IH fuel (count + 1)) as (rd2 & k & -> & R2 & _); [cbn in Hf; lia|lia|].
      exists rd2, (S k). split; [done|]. split; [done|lia].
Qed.

Lemma import_loop_ok {R} `{!DataReader R} c fuel : forall (rd : R) (mg : Managers St G) m ts0 ts n total,
  reads rd ts -> (length ts < fuel)%nat -> table_ok mg c m ts0 ->
  room (sm mg) c (length ts + n) -> Z.of_nat (length ts0 + length ts) < 2 ^ 64 ->
  0 <= total -> total + Z.of_nat (length ts) < 2 ^ 64 ->
  exists mg' m', import_loop fuel rd c total mg = (mg', Ok (total + Z.of_nat (length ts))) /\
    table_ok mg' c m' (ts0 ++ ts) /\ room (sm mg') c n /\ appended m ts m' /\
    view (sm mg') = <[c := m']> (view (sm mg)).
Proof.
  induction fuel as [|fuel IH]; intros rd mg m ts0 ts n total Rd Hf T Rm Hb Hp Ht; [lia|].
  cbn [import_loop]. destruct (read_chunk_ok rd ts Rd (S fuel) 0 Hf) as (rd' & k & Ek & Rd' & Hk); [done|].
  rewrite Ek. destruct ts as [|t ts].
  - rewrite take_nil. cbn [length] in *. exists mg, m. rewrite Z.add_0_r, app_nil_r.
    split_and!; [done..|apply appended_nil|]. rewrite insert_id; [done|apply T].
  - specialize (Hk ltac:(done)). destruct k as [|k]; [lia|]. cbn [take] in *.
    remember (t :: take k ts) as ts1 eqn:E1.
    assert (t :: ts = ts1 ++ drop (S k) (t :: ts)) as Esp by (rewrite E1; cbn; by rewrite take_drop).
    remember (drop (S k) (t :: ts)) as ts2 eqn:E2.
    assert (length (t :: ts) = length ts1 + length ts2)%nat as Hlen by (rewrite Esp at 1; apply length_app).
    assert (0 < length ts1)%nat as Hpos by (rewrite E1; cbn; lia).
    rewrite Esp in *. rewrite length_app in *.
    destruct (insert_validated_ok mg c m ts0 ts1 (length ts2 + n) T) as (mg1 & m1 & Ei & T1 & R1 & A1 & V1 & _);
      [by rewrite Nat.add_assoc|lia|].
    destruct ts1 as [|x ts1]; [done|]. unfold mbind, stm_bind at 1. rewrite Ei. unfold stm_bind, lift.
    rewrite arith_u_ok by (unfold in_u; lia).
    destruct (IH rd' mg1 m1 (ts0 ++ x :: ts1) ts2 n (total + Z.of_nat (length (x :: ts1))))
      as (mg2 & m2 & E & T2 & R2 & A2 & V2); [done|lia|done|done|rewrite length_app; lia|lia|lia|].
    exists mg2, m2. split; [rewrite E; do 2 f_equal; lia|].
    split; [by rewrite <- app_assoc in T2|]. split; [done|]. split; [by eapply appended_trans|].
    by rewrite V2, V1, insert_insert_eq.
Qed.
End Insert.
