(* ===== verification/MutatorTheorems.v ===== *)
(** * Ingestion: the theorems

    What an [INSERT] and a CSV import store, read back by a scan; and what
    validation does to rows with more than one violation. *)

From S2P Require Import Prelude Bytes Common Types Sql Expr Storage Stats OpIter OpIterProofs OpIterTheorems.
From S2P Require Import MemStore MemStoreProofs MemStoreTheorems Mutator MutatorProofs.

Open Scope Z_scope.

(** What was appended to a container is what a scan finds there next to the old
    tuples. *)
Lemma appended_den `{Profile, Cbor, !CborLaws} {St It : Type} `{!StorageTrait St It}
  `{!StorageLaws (St := St) (It := It)} (s : St) sc c m m' old ts :
  ok s -> room s c 1%nat -> view s !! c = Some m' -> appended m ts m' ->
  Forall2 (fun t bs => cbor_to_vec t = Some bs) old (map_to_list m).*2 ->
  exists res, den s (SeqScan_new sc c None None) res /\ field_vals <$> res ≡ₚ field_vals <$> ts ++ old.
Proof.
  intros Ws Rs Vs (_ & bss & HF & P) HO.
  assert (Forall2 (fun t bs => cbor_to_vec t = Some bs) (ts ++ old) (bss ++ (map_to_list m).*2)) as HA
    by (by apply Forall2_app).
  apply Forall2_flip in HA.
  destruct (Permutation_Forall2 (Permutation_sym P) HA) as (ts' & P' & HF'%Forall2_flip).
  destruct (scan_table_den s sc c m' ts' Ws Rs Vs HF') as (res & D & Q).
  exists res. split; [done|]. rewrite Q. by rewrite P'.
Qed.

Lemma appended_scan `{Profile, Cbor, !CborLaws} {St It : Type} `{!StorageTrait St It}
  `{!StorageLaws (St := St) (It := It)} (s : St) sc c m m' old ts :
  ok s -> room s c 1%nat -> view s !! c = Some m' -> appended m ts m' ->
  Forall2 (fun t bs => cbor_to_vec t = Some bs) old (map_to_list m).*2 ->
  exists n res, (forall fuel, (n <= fuel)%nat ->
      execute fuel s (SeqScan_new sc c None None) = Ok (sc, res)) /\
    field_vals <$> res ≡ₚ field_vals <$> ts ++ old.
Proof.
  intros Ws Rs Vs A HO. destruct (appended_den s sc c m m' old ts Ws Rs Vs A HO) as (res & D & P).
  destruct (execute_den s _ res D) as [n E]. by exists n, res.
Qed.

(** C17: an [INSERT] is visible to the next scan.  Over any storage manager that
    keeps the promises of the storage interface: if every expression converts
    and no row has more than one violation, [import_tuples] answers the number
    of valid rows, and scanning the table then returns the old tuples and the
    valid rows, each once; invalid rows are dropped without an error. *)
Theorem import_then_scan `{Profile, Cbor, !CborLaws} {St It G : Type}
  `{!StorageTrait St It, !Rng G, !RngLaws} `{!StorageLaws (St := St) (It := It)}
  (mg : Managers St G) c sc m ts0 old values rows :
  table_ok mg c m ts0 -> Forall2 (fun t bs => cbor_to_vec t = Some bs) old (map_to_list m).*2 ->
  Forall2 (Forall2 expr_field) values rows ->
  Forall (fun t => (length (violations sc t) <= 1)%nat) (Tuple_new <$> rows) ->
  let ts := filter (row_valid sc) (Tuple_new <$> rows) in
  room (sm mg) c (length ts + 1) -> Z.of_nat (length ts0 + length ts) < 2 ^ 64 ->
  exists mg' n res, import_tuples values c sc mg = (mg', Ok (Z.of_nat (length ts))) /\
    (forall fuel, (n <= fuel)%nat ->
       execute fuel (sm mg') (SeqScan_new sc c None None) = Ok (sc, res)) /\
    field_vals <$> res ≡ₚ field_vals <$> ts ++ old.
Proof.
  intros T HO Hc Hv ts R Hb.
  destruct (import_tuples_ok mg c sc m ts0 values rows 1 T Hc Hv R Hb)
    as (mg' & m' & E & T' & R' & A & _).
  destruct (appended_scan (sm mg') sc c m m' old ts) as (n & res & Ex & P);
    [apply T'|done|apply T'|done|done|].
  by exists mg', n, res.
Qed.

(** A table with one integer column, registered and empty. *)
Definition demo_managers : Managers Mem.StorageManager unit :=
  mkManagers (store_of (H := true) true [SCreate 1])
    (register_container (Stats_new tt) 1 demo_schema).1.

Lemma demo_managers_ok :
  table_ok (StorageTrait0 := MemStore_trait (H := true)) (StorageLaws0 := MemStore_laws (H := true))
    demo_managers 1 ∅ [].
Proof.
  split.
  - apply store_of_ok. cbn. lia.
  - vm_compute. reflexivity.
  - exists (mkSamples [] 0 demo_schema). split; [vm_compute; reflexivity|].
    split; [done|done|cbn; set_solver|done].
Qed.

Lemma zero_rng_laws : RngLaws (H := zero_rng).
Proof. intros g n Hn. cbn. lia. Qed.

(** Two integers and a string for one integer column: the string is dropped. *)
Definition demo_values : Values :=
  [[ValueExpr (Number "7" false)]; [ValueExpr (SingleQuotedString "x")];
   [ValueExpr (Number "-2" false)]].

Lemma import_then_scan_witness :
  exists mg' n res,
    import_tuples (H := true) (H0 := bit_cbor) (StorageTrait0 := MemStore_trait (H := true))
      (Rng0 := zero_rng) demo_values 1 demo_schema demo_managers = (mg', Ok 2) /\
    (forall fuel, (n <= fuel)%nat ->
       execute (H := true) (H0 := bit_cbor) (StorageTrait0 := MemStore_trait (H := true))
         fuel (sm mg') (SeqScan_new demo_schema 1 None None) = Ok (demo_schema, res)) /\
    field_vals <$> res ≡ₚ [[FInt 7]; [FInt (-2)]].
Proof.
  apply (@import_then_scan true bit_cbor bit_cbor_laws _ _ _ (MemStore_trait (H := true)) zero_rng
           zero_rng_laws (MemStore_laws (H := true)) demo_managers 1 demo_schema ∅ [] []
           demo_values [[FInt 7]; [FString "x"]; [FInt (-2)]]).
  - exact demo_managers_ok.
  - constructor.
  - repeat constructor; eexists; (split; [reflexivity|vm_compute; reflexivity]).
  - repeat constructor; vm_compute; lia.
  - vm_compute. intros [=].
  - vm_compute. reflexivity.
Defined.

(** A NULL in a NOT NULL column of the last row of an [INSERT] panics: it is
    noted twice, once as a null and once as a value of the wrong type, and the
    second removal of the row is out of bounds. *)
Theorem null_in_not_null_panics (sc : TableSchema) (ts : list Tuple) (t : Tuple) bad j attr :
  field_vals t !! j = Some FNull -> attributes sc !! j = Some attr ->
  forbids_null (constraint attr) = true ->
  validate_tuples sc None (mkConverted (ts ++ [t]) bad) = Panic.
Proof. intros Hf Ha Hc. apply double_violation_panics. by eapply null_violations. Qed.

Lemma null_in_not_null_panics_witness :
  validate_tuples (mkSchema [new_pk "a" TInt]) None (mkConverted [Tuple_new [FNull]] []) = Panic.
Proof.
  apply (null_in_not_null_panics (mkSchema [new_pk "a" TInt]) [] (Tuple_new [FNull]) [] 0 (new_pk "a" TInt));
    reflexivity.
Defined.

(** ** CSV import *)

(** The crate's reader yields the records, then ends and stays at its end. *)
Inductive csv_yields `{CsvCrate Rd} : Rd -> list (list string) -> Prop :=
| csv_end rd rd' : records_next rd = (rd', None) -> records_next rd' = (rd', None) -> csv_yields rd []
| csv_record rd rd' r rs : records_next rd = (rd', Some (inr r)) -> csv_yields rd' rs ->
    csv_yields rd (r :: rs).

Lemma csv_reads `{Profile, Chrono, CsvCrate Rd} sc (rd : Rd) rs : csv_yields rd rs -> forall ts,
  Forall2 (fun r t => convert_to_tuple r sc = Ok t) rs ts -> reads (mkCsvReader sc rd) ts.
Proof.
  induction 1 as [rd rd' E E'|rd rd' r rs E Y IH]; intros ts HF.
  - apply Forall2_nil_inv_l in HF as ->. apply (reads_nil _ (mkCsvReader sc rd'));
      unfold read_next, CsvReader_reader; cbn [rdr csv_schema]; by rewrite ?E, ?E'.
  - apply Forall2_cons_inv_l in HF as (t & ts' & Et & HF & ->).
    apply (reads_cons _ (mkCsvReader sc rd')); [|by apply IH].
    unfold read_next, CsvReader_reader. cbn [rdr csv_schema]. rewrite E, Et. done.
Qed.

(** A CSV import stores the file.  If the CSV reader yields records that all
    convert under the schema, [import_records_from_reader] ends, in chunks of
    100000 records, with the number of records; scanning the table then returns
    the old tuples and the converted records, each once. *)
Theorem import_csv_then_scan `{Profile, Chrono, Cbor, !CborLaws, CsvCrate Rd} {St It G : Type}
  `{!StorageTrait St It, !Rng G, !RngLaws} `{!StorageLaws (St := St) (It := It)}
  (mg : Managers St G) c sc m ts0 old (rd : Rd) records ts fuel :
  table_ok mg c m ts0 -> Forall2 (fun t bs => cbor_to_vec t = Some bs) old (map_to_list m).*2 ->
  csv_yields rd records -> Forall2 (fun r t => convert_to_tuple r sc = Ok t) records ts ->
  (length records < fuel)%nat ->
  room (sm mg) c (length ts + 1) -> Z.of_nat (length ts0 + length ts) < 2 ^ 64 ->
  exists mg' n res,
    import_records_from_reader fuel (mkCsvReader sc rd) c mg = (mg', Ok (Z.of_nat (length records))) /\
    (forall fuel, (n <= fuel)%nat ->
       execute fuel (sm mg') (SeqScan_new sc c None None) = Ok (sc, res)) /\
    field_vals <$> res ≡ₚ field_vals <$> ts ++ old.
Proof.
  intros T HO Y HF Hfuel R Hb. rewrite (Forall2_length _ _ _ HF) in *.
  destruct (import_loop_ok c fuel (mkCsvReader sc rd) mg m ts0 ts 1 0)
    as (mg' & m' & E & T' & R' & A & _); [by eapply csv_reads|done|done|done|done|lia|lia|].
  destruct (appended_scan (sm mg') sc c m m' old ts) as (n & res & Ex & P);
    [apply T'|done|apply T'|done|done|].
  by exists mg', n, res.
Qed.

(** Records held in a list. *)
Definition list_csv : CsvCrate (list (list string)) := fun rd =>
  match rd with [] => ([], None) | r :: rd' => (rd', Some (inr r)) end.

Lemma list_csv_yields rs : csv_yields (H := list_csv) rs rs.
Proof. induction rs; [by eapply csv_end|by eapply csv_record]. Qed.

Definition no_dates : Chrono := {| parse_date _ := None; format_date _ := None |}.

Lemma import_csv_then_scan_witness :
  exists mg' n res,
    import_records_from_reader (H := true) (H0 := bit_cbor) (StorageTrait0 := MemStore_trait (H := true))
      (Rng0 := zero_rng) (DataReader0 := CsvReader_reader (H := true) (H0 := no_dates) (H1 := list_csv))
      5 (mkCsvReader demo_schema [["3"]; ["NULL"]]%string) 1 demo_managers = (mg', Ok 2) /\
    (forall fuel, (n <= fuel)%nat ->
       execute (H := true) (H0 := bit_cbor) (StorageTrait0 := MemStore_trait (H := true))
         fuel (sm mg') (SeqScan_new demo_schema 1 None None) = Ok (demo_schema, res)) /\
    field_vals <$> res ≡ₚ [[FInt 3]; [FNull]].
Proof.
  apply (@import_csv_then_scan true no_dates bit_cbor bit_cbor_laws _ list_csv _ _ _
           (MemStore_trait (H := true)) zero_rng zero_rng_laws (MemStore_laws (H := true))
           demo_managers 1 demo_schema ∅ [] [] [["3"]; ["NULL"]]%string [["3"]; ["NULL"]]%string
           [Tuple_new [FInt 3]; Tuple_new [FNull]] 5).
  - exact demo_managers_ok.
  - constructor.
  - apply list_csv_yields.
  - repeat constructor; vm_compute; reflexivity.
  - cbn. lia.
  - vm_compute. intros [=].
  - vm_compute. reflexivity.
Defined.
