(* ===== verification/OpUpdate.v ===== *)
(** * The update operator

    [src/src/queryexe/src/opiterator/update.rs]: for every tuple of its child the
    operator asks the transaction manager, changes the assigned fields, writes the
    tuple back and notifies the transaction manager.  The planner does not build
    it. *)

From S2P Require Import Prelude Bytes Common Types Expr Storage OpIter OpIterProofs OpIterTheorems TxnManager.
From S2P Require Import MemStore MemStoreProofs MemStoreTheorems MutatorProofs.

Section Update.
Context `{Profile, Cbor} {St It T : Type} `{!StorageTrait St It, !TransactionManagerTrait T}.

Record Update := mkUpdate {
  u_schema : TableSchema;
  u_open : bool;
  u_tid : TransactionId;
  assignments : TupleAssignments;
  u_child : Op It;
  u_count : Z;
}.

Definition Update_new (tid : TransactionId) (assignments : TupleAssignments) (child : Op It) : Update :=
  mkUpdate (get_schema child) false tid assignments child 0.

Definition update_open (fuel : nat) (s : St) (u : Update) : result Update :=
  c ← open fuel s (u_child u); Ok (mkUpdate (u_schema u) true (u_tid u) (assignments u) c (u_count u)).

Definition apply_assignments (t : Tuple) (l : TupleAssignments) : result Tuple :=
  foldM (fun t '(i, f) => set_field t i f) t l.

(** A call of the transaction manager with a [&mut Tuple]. *)
Definition with_tm (f : T -> T * Tuple * result unit) : stm (St * T) Tuple := fun m =>
  let '(tm, t, r) := f m.2 in ((m.1, tm), _ ← r; Ok t).

Definition with_store {A} (f : St -> St * result A) : stm (St * T) A := fun m =>
  let '(s, r) := f m.1 in ((s, m.2), r).

Definition update_next (fuel : nat) (u : Update) : stm (St * T) (Update * option Tuple) :=
  if negb (u_open u) then lift Panic
  else
    '(c, o) ← ((fun m => (m, next fuel m.1 (u_child u))) : stm (St * T) (Op It * option Tuple));
    match o with
    | None => mret (mkUpdate (u_schema u) (u_open u) (u_tid u) (assignments u) c (u_count u), None)
    | Some t =>
        match value_id t with
        | None => throw (CrustyErr "No value id set for record. Cannot update")
        | Some id =>
            t ← with_tm (fun tm => pre_update_record tm t id (u_tid u) (assignments u));
            t ← lift (apply_assignments t (assignments u));
            bs ← lift (Tuple_to_bytes t);
            new_value_id ← with_store (fun s => update_value s bs id);
            t ← with_tm (fun tm => post_update_record tm t new_value_id id (u_tid u) (assignments u));
            n ← lift (arith_u 64 (u_count u + 1));
            mret (mkUpdate (u_schema u) (u_open u) (u_tid u) (assignments u) c n, Some t)
        end
    end.

Definition update_close (u : Update) : result Update :=
  c ← close (u_child u); Ok (mkUpdate (u_schema u) false (u_tid u) (assignments u) c (u_count u)).

(** [while let Some(t) = update.next()? { res.push(t); }] *)
Fixpoint drain_update (fuel : nat) (u : Update) (res : list Tuple) : stm (St * T) (Update * list Tuple) :=
  match fuel with
  | O => lift Panic
  | S fuel' =>
      '(u, o) ← update_next fuel u;
      match o with
      | None => mret (u, res)
      | Some t => drain_update fuel' u (res ++ [t])
      end
  end.
End Update.
Arguments Update It : clear implicits.

(** ** An update replaces the rows of its child *)

(** A child that yields [ts] whatever is in the storage. *)
Inductive streams `{Profile, Cbor} {St It : Type} `{!StorageTrait St It} : Op It -> list Tuple -> Prop :=
| streams_nil op op' n : (forall (s : St) fuel, (n <= fuel)%nat -> next fuel s op = Ok (op', None)) -> streams op []
| streams_cons op op' n t ts : (forall (s : St) fuel, (n <= fuel)%nat -> next fuel s op = Ok (op', Some t)) ->
    streams op' ts -> streams op (t :: ts).

Lemma tuples_stream `{Profile, Cbor} {St It : Type} `{!StorageTrait St It} sc rest : forall before,
  streams (St := St) (It := It) (TupleIterator sc (rev (before ++ rest)) true true (length rest)) rest.
Proof.
  induction rest as [|t rest IH]; intros before.
  - eapply (streams_nil _ _ 1). intros s [|fuel] Hf; [lia|]. done.
  - eapply (streams_cons _ (TupleIterator sc (rev (before ++ t :: rest)) true true (length rest)) 1).
    + intros s [|fuel] Hf; [lia|]. cbn. do 2 f_equal. rewrite rev_app_distr. cbn [rev]. rewrite <- !app_assoc.
      rewrite lookup_app_r by (rewrite length_rev; lia). by rewrite length_rev, Nat.sub_diag.
    + replace (before ++ t :: rest) with ((before ++ [t]) ++ rest) by (by rewrite <- app_assoc). apply IH.
Qed.

Section Replace.
Context `{Profile, Cbor, !CborLaws} {St It T : Type}.
Context `{!StorageTrait St It, !StorageLaws (St := St) (It := It), !TransactionManagerTrait T, !PermitsUpdates}.

Definition remove_all (ids : list ValueId) (m : gmap ValueId value) : gmap ValueId value := foldr delete m ids.

Lemma remove_all_lookup ids id (m : gmap ValueId value) : m !! id = None -> remove_all ids m !! id = None.
Proof.
  intros Hm. unfold remove_all. induction ids as [|i ids IH]; cbn [foldr]; [done|]. apply lookup_delete_None. by right.
Qed.

Lemma remove_all_delete ids id (m : gmap ValueId value) : remove_all ids (delete id m) = delete id (remove_all ids m).
Proof. unfold remove_all. induction ids as [|i ids IH]; cbn [foldr]; [done|]. by rewrite IH, delete_delete. Qed.

Lemma remove_all_insert ids id v (m : gmap ValueId value) : id ∉ ids ->
  remove_all ids (<[id := v]> m) = <[id := v]> (remove_all ids m).
Proof.
  unfold remove_all. induction ids as [|i ids IH]; intros Hi; cbn [foldr]; [done|].
  apply not_elem_of_cons in Hi as [Hne Hi]. by rewrite IH, delete_insert_ne.
Qed.

(** The tuple [t] is stored in container [c] and becomes [t']. *)
Definition updates (c : ContainerId) (m : gmap ValueId value) (l : TupleAssignments) (t t' : Tuple) (id : ValueId) : Prop :=
  value_id t = Some id /\ container_id id = c /\ is_Some (m !! id) /\ apply_assignments t l = Ok t'.

(** One turn. *)
Lemma update_next_ok (s : St) (tm : T) (u : Update It) c m n t t' id k op' :
  ok s -> room s c (S n) -> view s !! c = Some m -> u_open u = true -> (0 <= u_count u < 2 ^ 64 - 1)%Z ->
  (forall s fuel, (k <= fuel)%nat -> next fuel s (u_child u) = Ok (op', Some t)) ->
  updates c m (assignments u) t t' id ->
  exists s' tm' bs id', (forall fuel, (k <= fuel)%nat -> update_next fuel u (s, tm) =
      ((s', tm'), Ok (mkUpdate (u_schema u) true (u_tid u) (assignments u) op' (u_count u + 1)%Z, Some t'))) /\
    ok s' /\ room s' c n /\ cbor_to_vec t' = Some bs /\ delete id m !! id' = None /\
    view s' = <[c := <[id' := bs]> (delete id m)]> (view s).
Proof.
  intros W R V Ho Hc Hn (Ev & <- & _ & Ea).
  destruct (permits_pre tm t id (u_tid u) (assignments u)) as [tm1 E1].
  destruct (cbor_roundtrip t') as (bs & Eb & _).
  destruct (law_update s id bs m n W R V) as (s' & id' & E2 & W' & _ & Hf & R' & V').
  destruct (permits_post tm1 t' id' id (u_tid u) (assignments u)) as [tm2 E3].
  exists s', tm2, bs, id'. split; [|done]. intros fuel Hf'.
  unfold update_next, mbind, stm_bind, with_tm, with_store, lift, mret, stm_ret, throw. rewrite Ho. cbn [negb fst snd].
  rewrite (Hn s fuel Hf'), Ev. cbn [fst snd]. rewrite E1. cbn. rewrite Ea. unfold Tuple_to_bytes. rewrite Eb. cbn [unwrap_opt fst snd].
  rewrite E2. cbn [fst snd]. rewrite E3. cbn. rewrite arith_u_ok by (unfold in_u; lia). done.
Qed.

(** An update of the first tuple leaves the others as they were. *)
Lemma updates_rest c m l id id' bs ts ts' ids : NoDup (id :: ids) -> delete id m !! id' = None ->
  Forall3 (updates c m l) ts ts' ids ->
  (id' ∉ ids) /\ Forall3 (updates c (<[id' := bs]> (delete id m)) l) ts ts' ids.
Proof.
  intros [Hn _]%NoDup_cons Hf HF. split.
  - intros Hin. apply list_elem_of_lookup in Hin as [i Ei].
    destruct (Forall3_lookup_r _ _ _ _ _ _ HF Ei) as (t & t' & _ & _ & _ & _ & Hs & _).
    assert (id' <> id) as Hne by (intros ->; apply Hn; by eapply list_elem_of_lookup_2).
    rewrite lookup_delete_ne in Hf by done. destruct Hs. congruence.
  - induction HF as [|t t' i ts ts' ids (Ev & Ec & Hs & Ea) HF IH]; [constructor|].
    apply not_elem_of_cons in Hn as [Hne Hn]. constructor; [|by apply IH].
    split_and!; [done|done| |done]. destruct (decide (i = id')) as [->|]; [by rewrite lookup_insert_eq|].
    by rewrite lookup_insert_ne, lookup_delete_ne.
Qed.

Lemma drain_update_ok c op ts : streams (St := St) op ts -> forall ts' ids (s : St) (tm : T) (u : Update It) m n res,
  u_child u = op -> ok s -> room s c (length ts + n) -> view s !! c = Some m -> u_open u = true ->
  (0 <= u_count u /\ u_count u + Z.of_nat (length ts) < 2 ^ 64)%Z -> NoDup ids ->
  Forall3 (updates c m (assignments u)) ts ts' ids ->
  exists k s' tm' u' m' bss, (forall fuel, (k <= fuel)%nat -> drain_update fuel u res (s, tm) = ((s', tm'), Ok (u', res ++ ts'))) /\
    (u_count u' = u_count u + Z.of_nat (length ts))%Z /\ ok s' /\ view s' = <[c := m']> (view s) /\
    Forall2 (fun t bs => cbor_to_vec t = Some bs) ts' bss /\
    (map_to_list m').*2 ≡ₚ bss ++ (map_to_list (remove_all ids m)).*2.
Proof.
  induction 1 as [op op' k Hn|op op' k t ts Hn _ IH]; intros ts' ids s tm u m n res <- W R V Ho Hc Hd HF.
  - inversion HF; subst. exists (S k), s, tm. eexists _, m, []. split; [|split_and!].
    + intros [|fuel] Hf; [lia|]. cbn [drain_update]. unfold update_next, mbind, stm_bind. rewrite Ho. cbn [negb fst snd].
      rewrite Hn by lia. cbn. rewrite app_nil_r. done.
    + cbn. lia.
    + done.
    + by rewrite insert_id.
    + constructor.
    + done.
  - inversion HF as [|? t' id ? ts1 ids1 Hu HF1]; subst. cbn [length] in *.
    destruct (update_next_ok s tm u c m (length ts + n) t t' id k op' W R V Ho ltac:(lia) Hn Hu)
      as (s1 & tm1 & bs & id' & E1 & W1 & R1 & Eb & Hf & V1).
    destruct (updates_rest c m _ id id' bs _ _ _ Hd Hf HF1) as [Hni HF2]. apply NoDup_cons in Hd as [Hnid Hd].
    set (u1 := mkUpdate (u_schema u) true (u_tid u) (assignments u) op' (u_count u + 1)%Z) in *.
    destruct (IH ts1 ids1 s1 tm1 u1 (<[id' := bs]> (delete id m)) n (res ++ [t'])) as (k2 & s2 & tm2 & u2 & m2 & bss & E2 & C2 & W2 & V2 & F2 & P2);
      [done|done|done|by rewrite V1, lookup_insert_eq|done|cbn [u1 u_count]; lia|done|done|].
    exists (S (max k k2)), s2, tm2, u2, m2, (bs :: bss). split; [|split_and!].
    + intros [|fuel] Hf'; [lia|]. cbn [drain_update]. unfold mbind, stm_bind. rewrite E1 by lia.
      rewrite E2 by lia. by rewrite <- app_assoc.
    + rewrite C2. cbn [u1 u_count]. lia.
    + done.
    + by rewrite V2, V1, insert_insert_eq.
    + by constructor.
    + rewrite P2, remove_all_insert by done. rewrite map_to_list_insert by (by apply remove_all_lookup).
      cbn [fmap list_fmap snd app]. rewrite <- Permutation_middle. rewrite remove_all_delete. done.
Qed.
End Replace.

(** C18: an update replaces exactly the rows of its child.  Over any storage
    manager that keeps the promises of the storage interface and any transaction
    manager that permits updates: for tuples that carry the ids of different stored
    records of a container, running the operator to its end returns the changed
    tuples, counts them, and leaves the container with their encodings in place of
    the old ones and every other record as it was; no other container changes. *)
Theorem update_replaces_rows `{Profile, Cbor, !CborLaws} {St It T : Type}
  `{!StorageTrait St It, !StorageLaws (St := St) (It := It), !TransactionManagerTrait T, !PermitsUpdates}
  (s : St) (tm : T) c m l tid sc ts ts' ids :
  ok s -> room s c (length ts) -> view s !! c = Some m -> (Z.of_nat (length ts) < 2 ^ 64)%Z -> NoDup ids ->
  Forall3 (updates c m l) ts ts' ids ->
  exists k s' tm' u m' bss,
    (forall fuel, (k <= fuel)%nat ->
       (u ← lift (update_open fuel s (Update_new tid l (TupleIterator_new ts sc))); drain_update fuel u []) (s, tm) =
       ((s', tm'), Ok (u, ts'))) /\
    u_count u = Z.of_nat (length ts) /\ ok s' /\ view s' = <[c := m']> (view s) /\
    Forall2 (fun t bs => cbor_to_vec t = Some bs) ts' bss /\
    (map_to_list m').*2 ≡ₚ bss ++ (map_to_list (remove_all ids m)).*2.
Proof.
  intros W R V Hl Hd HF. pose proof (tuples_stream (St := St) (It := It) sc ts []) as Hs. cbn [app] in Hs.
  set (u0 := mkUpdate (It := It) sc true tid l (TupleIterator sc (rev ts) true true (length ts)) 0%Z).
  destruct (drain_update_ok c _ ts Hs ts' ids s tm u0 m 0 []) as (k & s' & tm' & u & m' & bss & E & C & Hrest);
    [done|done|by rewrite Nat.add_0_r|done|done|cbn; lia|done|done|].
  exists (S k), s', tm', u, m', bss. split; [|done]. intros [|fuel] Hf; [lia|].
  unfold mbind at 1, stm_bind at 1, lift. cbn [update_open]. unfold update_open. cbn [open Update_new u_child]. mstep.
  apply E. lia.
Qed.

(** The rows of a container, by slot. *)
Definition rows_by_slot (s : Mem.StorageManager) (c : ContainerId) (slots : list Z) : list (option (list Field)) :=
  (fun sl => match Mem.get_value s (Mem.slot_rid c sl) with
             | Ok bs => field_vals <$> cbor_from_slice (Cbor := bit_cbor) bs
             | _ => None
             end) <$> slots.

(** Over the in-memory storage manager an update hits the wrong record.  The
    scan gives every tuple the id of the slot behind its own, so that the first
    row an [Update] processes replaces the second one: of the rows 4 and 5,
    setting the column to 9 on the first keeps 4 and loses 5. *)
Theorem update_hits_next_record :
  rows_by_slot stored_tuples 1 [0; 1; 2]%Z = [Some [FInt 4]; Some [FInt 5]; None] /\
  exists u u' s' tm t,
    update_open (H := true) (H0 := bit_cbor) (StorageTrait0 := MemStore_trait (H := true)) 3 stored_tuples
      (Update_new (mkTransactionId 1) [(0%nat, FInt 9)] (SeqScan_new demo_schema 1%Z None None)) = Ok u /\
    update_next (H := true) (H0 := bit_cbor) (StorageTrait0 := MemStore_trait (H := true)) 3 u (stored_tuples, Mock)
      = ((s', tm), Ok (u', Some t)) /\
    rows_by_slot s' 1 [0; 1; 2]%Z = [Some [FInt 4]; None; Some [FInt 9]].
Proof.
  split; [vm_compute; reflexivity|]. eexists _, _, _, _, _.
  split; [vm_compute; reflexivity|]. split; [vm_compute; reflexivity|]. vm_compute. reflexivity.
Qed.

(** The rows 4 and 5 under their own ids become 9. *)
Lemma update_replaces_rows_witness :
  exists m k s' tm' u m' bss,
    mem_view stored_tuples !! 1%Z = Some m /\
    (forall fuel, (k <= fuel)%nat ->
       (u ← lift (update_open (H := true) (H0 := bit_cbor) (StorageTrait0 := MemStore_trait (H := true)) fuel stored_tuples
              (Update_new (mkTransactionId 1) [(0%nat, FInt 9)]
                (TupleIterator_new [mkTuple 0 (Some (Mem.slot_rid 1 0)) [FInt 4]; mkTuple 0 (Some (Mem.slot_rid 1 1)) [FInt 5]] demo_schema)));
        drain_update (H := true) (H0 := bit_cbor) (StorageTrait0 := MemStore_trait (H := true)) fuel u []) (stored_tuples, Mock) =
       ((s', tm'), Ok (u, [mkTuple 0 (Some (Mem.slot_rid 1 0)) [FInt 9]; mkTuple 0 (Some (Mem.slot_rid 1 1)) [FInt 9]]))) /\
    u_count u = 2%Z /\ mem_view s' = <[1%Z := m']> (mem_view stored_tuples) /\
    (map_to_list m').*2 ≡ₚ bss ++ (map_to_list (remove_all [Mem.slot_rid 1 0; Mem.slot_rid 1 1] m)).*2.
Proof.
  destruct stored_tuples_ok as [W R]. destruct (mem_view stored_tuples !! 1%Z) as [m|] eqn:V; [|vm_compute in V; discriminate V].
  destruct (@update_replaces_rows true bit_cbor bit_cbor_laws _ _ _ (MemStore_trait (H := true)) (MemStore_laws (H := true))
    Mock_trait Mock_permits stored_tuples Mock 1%Z m [(0%nat, FInt 9)] (mkTransactionId 1) demo_schema
    [mkTuple 0 (Some (Mem.slot_rid 1 0)) [FInt 4]; mkTuple 0 (Some (Mem.slot_rid 1 1)) [FInt 5]]
    [mkTuple 0 (Some (Mem.slot_rid 1 0)) [FInt 9]; mkTuple 0 (Some (Mem.slot_rid 1 1)) [FInt 9]]
    [Mem.slot_rid 1 0; Mem.slot_rid 1 1]) as (k & s' & tm' & u & m' & bss & E & C & _ & V' & _ & P).
  - exact W.
  - vm_compute. discriminate.
  - exact V.
  - vm_compute. reflexivity.
  - apply (bool_decide_unpack _). vm_compute. exact I.
  - vm_compute in V. injection V as <-. repeat constructor; by eexists.
  - exists m, k, s', tm', u, m', bss. split; [reflexivity|]. split; [exact E|]. split; [exact C|]. split; [exact V'|exact P].
Defined.
