(* ===== verification/QueryTestutil.v ===== *)
(** * Test fixtures of the query engine

    [src/src/queryexe/src/testutil.rs]: running an operator to the end with an
    optional sort of its tuples, the three test tables, and the managers and the
    catalog that hold them. *)

From S2P Require Import Prelude Bytes Common Types TypesProofs Expr Storage MemStore MemStoreProofs MemStoreTheorems.
From S2P Require Import OpIter OpIterProofs OpIterTheorems Catalog Stats Mutator MutatorProofs MutatorTheorems.

Open Scope Z_scope.

(** ** [execute_iter] *)

(** The order of [Vec<Field>]: by the first difference, then by length. *)
Fixpoint fields_compare (l r : list Field) : comparison :=
  match l, r with
  | [], [] => Datatypes.Eq
  | [], _ :: _ => Datatypes.Lt
  | _ :: _, [] => Datatypes.Gt
  | x :: l, y :: r => match Field_compare x y with Datatypes.Eq => fields_compare l r | c => c end
  end.

(** [tuples.sort_by(..)] is stable; stable sorts agree, so this is insertion sort. *)
Fixpoint insert_tuple (t : Tuple) (l : list Tuple) : list Tuple :=
  match l with
  | [] => [t]
  | u :: l' => if is_gt (fields_compare (field_vals t) (field_vals u)) then u :: insert_tuple t l' else t :: l
  end.

Definition sort_tuples (l : list Tuple) : list Tuple := foldr insert_tuple [] l.

Definition execute_iter `{Profile, Cbor} {St It : Type} `{!StorageTrait St It} (fuel : nat) (s : St)
  (iter : Op It) (sorted : bool) : result (list Tuple) :=
  iter ← open fuel s iter;
  '(_, tuples) ← drain_op fuel s iter [];
  Ok (if sorted then sort_tuples tuples else tuples).

(** ** The test tables *)

Record TestTuples := mkTestTuples { tt_schema : TableSchema; tt_tuples : list Tuple }.

Definition TestTuples_new (table_name : string) : TestTuples :=
  mkTestTuples
    (TableSchema_new
       [Attribute_new (table_name +:+ "." +:+ "a") TInt; Attribute_new (table_name +:+ "." +:+ "b") TInt;
        Attribute_new (table_name +:+ "." +:+ "c") TInt; Attribute_new (table_name +:+ "." +:+ "d") TString])
    [Tuple_new [FInt 1; FInt 1; FInt 3; FString "E"]; Tuple_new [FInt 2; FInt 1; FInt 3; FString "G"];
     Tuple_new [FInt 3; FInt 1; FInt 4; FString "A"]; Tuple_new [FInt 4; FInt 2; FInt 4; FString "G"];
     Tuple_new [FInt 5; FInt 2; FInt 5; FString "G"]; Tuple_new [FInt 6; FInt 2; FInt 5; FString "G"]].

(** ** The fixture *)

Section Setup.
Context `{Profile, Cbor} {St It Dir G : Type} `{!StorageTrait St It, !StorageLifecycle St Dir}.

Record TestSetup := mkTestSetup { ts_catalog : Catalog; ts_managers : Managers St G }.

(** [StorageManager::new_test_sm] and a new statistics manager; the transaction
    manager and the index manager keep no state. *)
Definition new_test_managers (seed : G) : Managers St G := mkManagers sm_new_test (Stats_new seed).

(** One turn of the loop of [new_with_content]. *)
Definition add_test_table (setup : TestSetup) (i : Z) : result TestSetup :=
  let name := "table" +:+ pretty i in
  let test_tuples := TestTuples_new name in
  '(catalog, c_id) ← get_table_id (ts_catalog setup) name;
  let table := mkTableInfo c_id name (tt_schema test_tuples) in
  let '(catalog, added) := add_table catalog table in
  _ ← unwrap_opt added;
  let '(s, created) := create_table (sm (ts_managers setup)) c_id in
  _ ← unwrap created;
  let '(st, registered) := register_container (stats (ts_managers setup)) c_id (schema table) in
  _ ← unwrap registered;
  inserting_values ← mapM_o Tuple_to_bytes (tt_tuples test_tuples);
  '(s, _) ← insert_values s c_id inserting_values;
  Ok (mkTestSetup catalog (mkManagers s st)).

Definition new_empty (seed : G) : TestSetup := mkTestSetup Catalog_new (new_test_managers seed).

Definition new_with_content (seed : G) : result TestSetup :=
  foldM add_test_table (new_empty seed) (seqZ 0 3).
End Setup.
Arguments TestSetup St G : clear implicits.

(** ** Sorting *)

Definition fields_le (l r : list Field) : Prop := fields_compare l r <> Datatypes.Gt.

Lemma fields_compare_eq l : forall r, fields_compare l r = Datatypes.Eq <-> l = r.
Proof.
  destruct field_order_total as (E & _ & _).
  induction l as [|x l IH]; intros [|y r]; cbn [fields_compare]; [done..|]. split.
  - destruct (Field_compare x y) eqn:Exy; [|done..]. apply E in Exy as ->. intros ->%IH. done.
  - intros [= -> ->]. rewrite (proj2 (E y y)) by done. by apply IH.
Qed.

Lemma fields_compare_opp l : forall r, fields_compare r l = CompOpp (fields_compare l r).
Proof.
  destruct field_order_total as (_ & O & _). induction l as [|x l IH]; intros [|y r]; cbn [fields_compare]; [done..|].
  rewrite (O x y). destruct (Field_compare x y); cbn; [apply IH|done..].
Qed.

Lemma fields_compare_trans a : forall b c,
  fields_compare a b = Datatypes.Lt -> fields_compare b c = Datatypes.Lt -> fields_compare a c = Datatypes.Lt.
Proof.
  destruct field_order_total as (E & _ & T).
  induction a as [|x a IH]; intros [|y b] [|z c]; cbn [fields_compare]; try done.
  destruct (Field_compare x y) eqn:Exy; [apply E in Exy as ->| |done].
  - destruct (Field_compare y z); [apply IH|done..].
  - intros _. destruct (Field_compare y z) eqn:Eyz; [apply E in Eyz as <-| |done].
    + by rewrite Exy.
    + by rewrite (T _ _ _ Exy Eyz).
Qed.

#[export] Instance fields_le_trans : Transitive fields_le.
Proof.
  intros a b c. unfold fields_le. intros Hab Hbc.
  destruct (fields_compare a b) eqn:E1; [apply fields_compare_eq in E1 as ->; done| |done].
  destruct (fields_compare b c) eqn:E2; [apply fields_compare_eq in E2 as ->; by rewrite E1| |done].
  by rewrite (fields_compare_trans _ _ _ E1 E2).
Qed.

#[export] Instance fields_le_antisymm : AntiSymm (=) fields_le.
Proof.
  intros a b. unfold fields_le. rewrite (fields_compare_opp a b).
  destruct (fields_compare a b) eqn:E; [by apply fields_compare_eq in E|done..].
Qed.

Lemma insert_tuple_perm t l : insert_tuple t l ≡ₚ t :: l.
Proof. induction l as [|u l IH]; cbn; [done|]. case_match; [|done]. by rewrite IH, Permutation_swap. Qed.

Lemma sort_tuples_perm l : sort_tuples l ≡ₚ l.
Proof. induction l as [|t l IH]; [done|]. cbn. rewrite insert_tuple_perm. by apply Permutation_skip. Qed.

Lemma insert_tuple_sorted t l : Sorted fields_le (field_vals <$> l) -> Sorted fields_le (field_vals <$> insert_tuple t l).
Proof.
  intros Hs. apply StronglySorted_Sorted. apply (Sorted_StronglySorted _) in Hs.
  induction l as [|u l IH]; cbn [insert_tuple fmap list_fmap] in *; [by repeat constructor|].
  apply StronglySorted_inv in Hs as [Hs Hu]. destruct (fields_compare (field_vals t) (field_vals u)) eqn:E; cbn [is_gt].
  1,2: constructor; [by constructor|]; assert (fields_le (field_vals t) (field_vals u)) as Htu by (unfold fields_le; by rewrite E);
    constructor; [done|]; eapply Forall_impl; [exact Hu|]; intros x; by apply fields_le_trans.
  constructor; [by apply IH|].
  assert (field_vals <$> insert_tuple t l ≡ₚ field_vals <$> t :: l) as -> by (apply fmap_Permutation, insert_tuple_perm).
  constructor; [|done]. unfold fields_le. rewrite (fields_compare_opp (field_vals t)), E. done.
Qed.

Lemma sort_tuples_sorted l : Sorted fields_le (field_vals <$> sort_tuples l).
Proof. induction l as [|t l IH]; cbn; [constructor|]. by apply insert_tuple_sorted. Qed.

(** An operator that needs no configuration is run to its relational meaning,
    sorted on demand. *)
Lemma execute_iter_den `{Profile, Cbor} {St It : Type} `{!StorageTrait St It} (s : St) (op : Op It) full sorted :
  den s op full -> configure op true = op ->
  exists n, forall fuel, (n <= fuel)%nat ->
    execute_iter fuel s op sorted = Ok (if sorted then sort_tuples full else full).
Proof.
  intros D Hc. destruct (den_open s op full D true) as (n1 & op1 & E1 & R1). rewrite Hc in E1.
  destruct (run_drain s true full full op1 R1) as (n2 & op2 & E2).
  exists (max n1 n2). intros fuel Hf. unfold execute_iter. rewrite E1 by lia. mstep.
  by rewrite (E2 fuel []) by lia.
Qed.

(** ** The fixture holds the test tables *)

Section Content.
Context `{Profile, Cbor, !CborLaws} {St It Dir G : Type}.
Context `{!StorageTrait St It, !StorageLaws (St := St) (It := It), !StorageLifecycle St Dir}.
Context `{!LifecycleLaws (St := St) (It := It) (Dir := Dir)}.

Definition test_table (i : Z) : TestTuples := TestTuples_new ("table" +:+ pretty i).

(** Container [c] of [s] holds exactly the test tuples, and can be scanned. *)
Definition holds_test_tuples (s : St) (c : Z) : Prop :=
  room s c 1%nat /\ exists m, view s !! c = Some m /\ appended ∅ (tt_tuples (test_table c)) m.

(** The state after the tables below [i] were added. *)
Record setup_ok (i : Z) (setup : TestSetup St G) : Prop := {
  so_ok : ok (sm (ts_managers setup));
  so_next : next_id (container_id_generator (ts_catalog setup)) = i;
  so_ids : forall j, i <= j < 3 -> table_to_id (container_id_generator (ts_catalog setup)) !! ("table" +:+ pretty j) = None;
  so_new : forall j, i <= j -> tables (ts_catalog setup) !! j = None /\ view (sm (ts_managers setup)) !! j = None;
  so_room : forall j, i <= j -> room (sm (ts_managers setup)) j 7%nat;
  so_old : forall j, 0 <= j < i ->
    get_table (ts_catalog setup) j = Some (mkTableInfo j ("table" +:+ pretty j) (tt_schema (test_table j))) /\
    holds_test_tuples (sm (ts_managers setup)) j;
}.

Lemma table_name_inj (i j : Z) : "table" +:+ pretty i = "table" +:+ pretty j -> i = j.
Proof. intros E. apply (inj (String.append "table")) in E. by apply (inj pretty) in E. Qed.

(** The storage side of one turn: the new container is filled, others stay. *)
Lemma fill_container (s : St) c tuples : ok s -> view s !! c = None -> room s c (length tuples + 1) ->
  exists s1 bss s2 ids m, create_table s c = (s1, Ok tt) /\ mapM_o Tuple_to_bytes tuples = Ok bss /\
    insert_values s1 c bss = Ok (s2, ids) /\ ok s2 /\ room s2 c 1 /\ appended ∅ tuples m /\
    view s2 = <[c := m]> (view s) /\ (forall c' n, c' <> c -> room s c' n -> room s2 c' n).
Proof.
  intros W V R. destruct (law_create s c W) as (s1 & E1 & W1 & V1 & _ & R1).
  rewrite V, decide_False in V1 by (by intros [? ?]).
  destruct (encode_all tuples) as (bss & Eb & HF). pose proof (Forall2_length _ _ _ HF) as Hl. rewrite Hl in R.
  destruct (insert_values_ok c bss s1 ∅ 1 W1) as (s2 & ids & E2 & W2 & R2 & Hi & Hnd & Hids & V2);
    [by apply R1|by rewrite V1, lookup_insert_eq|].
  destruct (insert_values_frame c bss _ _ _ E2) as [_ R3].
  exists s1, bss, s2, ids, (list_to_map (zip ids bss) ∪ ∅). split_and!; [done..| |by rewrite V2, V1, insert_insert_eq|].
  - apply appended_union; [done|exact Hi|done|]. intros id Hid. apply lookup_empty.
  - intros c' n Hc Hr. by apply R3, R1.
Qed.

Lemma add_test_table_ok i setup : 0 <= i < 3 -> setup_ok i setup ->
  exists setup', add_test_table (It := It) setup i = Ok setup' /\ setup_ok (i + 1) setup'.
Proof.
  intros Hi [W N Ids New Room Old]. destruct setup as [[[nx t2i] tabs] [s st]]. cbn in *. subst nx.
  unfold add_test_table, get_table_id, generator_get. cbn [ts_catalog ts_managers container_id_generator table_to_id next_id sm stats].
  rewrite (Ids i) by lia. rewrite arith_u_ok by (unfold in_u; lia). mstep.
  unfold add_table. cbn [tables c_id container_id_generator schema]. destruct (New i) as [Ht Hv]; [lia|]. rewrite Ht. cbn [unwrap_opt]. mstep.
  destruct (fill_container s i (tt_tuples (test_table i)) W Hv) as (s1 & bss & s2 & ids & m & E1 & Eb & E2 & W2 & R2 & A & V2 & R3).
  { apply Room. lia. }
  rewrite E1. cbn [unwrap]. mstep.
  assert (exists st', register_container st i (tt_schema (test_table i)) = (st', Ok tt)) as [st' Er].
  { unfold register_container. destruct (st_samples st !! i); by eexists. }
  unfold test_table in Er, Eb. rewrite Er. cbn [unwrap]. mstep. rewrite Eb. mstep. rewrite E2. mstep.
  eexists. split; [done|]. split; cbn [ts_catalog ts_managers container_id_generator next_id table_to_id tables sm].
  - done.
  - done.
  - intros j Hj. rewrite lookup_insert_ne; [apply Ids; lia|]. intros Ej%table_name_inj. lia.
  - intros j Hj. rewrite V2, !lookup_insert_ne by lia. apply New. lia.
  - intros j Hj. apply R3; [lia|]. apply Room. lia.
  - intros j Hj. unfold get_table, holds_test_tuples. cbn [tables]. rewrite V2. destruct (decide (j = i)) as [->|Hne].
    + rewrite !lookup_insert_eq. split; [done|]. split; [done|]. by exists m.
    + rewrite !lookup_insert_ne by lia. destruct (Old j) as [O1 [O2 O3]]; [lia|]. split; [done|]. split; [|done]. by apply R3.
Qed.

Lemma new_with_content_ok (seed : G) : (forall c, room sm_new_test c 7%nat) ->
  exists setup, new_with_content (It := It) (St := St) seed = Ok setup /\ setup_ok 3 setup.
Proof.
  intros Hroom. destruct law_new_test as (W & V & _).
  assert (setup_ok 0 (new_empty seed)) as S0.
  { split; cbn; [done|done|..].
    - intros j _. apply lookup_empty.
    - intros j _. rewrite V. split; apply lookup_empty.
    - intros j _. apply Hroom.
    - lia. }
  destruct (add_test_table_ok 0 _ ltac:(lia) S0) as (s1 & E1 & S1).
  destruct (add_test_table_ok 1 _ ltac:(lia) S1) as (s2 & E2 & S2).
  destruct (add_test_table_ok 2 _ ltac:(lia) S2) as (s3 & E3 & S3).
  exists s3. split; [|done]. unfold new_with_content. change (seqZ 0 3) with [0; 1; 2]. cbn [foldM].
  rewrite E1. mstep. rewrite E2. mstep. by rewrite E3.
Qed.
End Content.

Lemma test_tuples_sorted nm : Sorted fields_le (field_vals <$> tt_tuples (TestTuples_new nm)).
Proof. by repeat constructor. Qed.

(** The test fixture is what its comments say.  Over any storage manager that
    keeps the promises of the storage interface and has room for six values per
    table, [new_with_content] succeeds, its catalog has the three tables, and
    running a scan of any of them with [execute_iter], sorted, ends and returns
    exactly the six test tuples in the order of the comment, whatever order the
    storage manager iterates in. *)
Theorem test_setup_scans `{Profile, Cbor, !CborLaws} {St It Dir G : Type}
  `{!StorageTrait St It, !StorageLaws (St := St) (It := It), !StorageLifecycle St Dir}
  `{!LifecycleLaws (St := St) (It := It) (Dir := Dir)} (seed : G) :
  (forall c, room sm_new_test c 7%nat) ->
  exists setup : TestSetup St G, new_with_content (It := It) seed = Ok setup /\ forall i, 0 <= i < 3 ->
    get_table (ts_catalog setup) i = Some (mkTableInfo i ("table" +:+ pretty i) (tt_schema (test_table i))) /\
    exists n ts, (forall fuel, (n <= fuel)%nat ->
        execute_iter fuel (sm (ts_managers setup)) (SeqScan_new (tt_schema (test_table i)) i None None) true = Ok ts) /\
      field_vals <$> ts = field_vals <$> tt_tuples (test_table i).
Proof.
  intros Hroom. destruct (new_with_content_ok seed Hroom) as (setup & E & S). exists setup. split; [done|].
  intros i Hi. destruct (so_old _ _ S i Hi) as (T & R & m & V & A). split; [done|].
  destruct (appended_den (sm (ts_managers setup)) (tt_schema (test_table i)) i ∅ m [] (tt_tuples (test_table i)))
    as (res & D & P); [apply S|done|done|done|by rewrite map_to_list_empty; constructor|].
  destruct (execute_iter_den _ _ _ true D eq_refl) as (n & En). exists n, (sort_tuples res). split; [done|].
  apply (Sorted_unique fields_le); [apply sort_tuples_sorted|apply test_tuples_sorted|].
  rewrite app_nil_r in P. rewrite <- P. apply fmap_Permutation, sort_tuples_perm.
Qed.

Definition mem_setup : result (TestSetup Mem.StorageManager unit) :=
  new_with_content (H := true) (H0 := bit_cbor) (StorageTrait0 := MemStore_trait (H := true))
    (StorageLifecycle0 := MemStore_lifecycle (ContainerCodec := bit_codec)) tt.

Lemma test_setup_scans_witness :
  exists setup, mem_setup = Ok setup /\ exists n ts, (forall fuel, (n <= fuel)%nat ->
      execute_iter (H := true) (H0 := bit_cbor) (StorageTrait0 := MemStore_trait (H := true)) fuel
        (sm (ts_managers setup)) (SeqScan_new (tt_schema (test_table 2)) 2 None None) true = Ok ts) /\
    field_vals <$> ts =
      [[FInt 1; FInt 1; FInt 3; FString "E"]; [FInt 2; FInt 1; FInt 3; FString "G"]; [FInt 3; FInt 1; FInt 4; FString "A"];
       [FInt 4; FInt 2; FInt 4; FString "G"]; [FInt 5; FInt 2; FInt 5; FString "G"]; [FInt 6; FInt 2; FInt 5; FString "G"]].
Proof.
  destruct (@test_setup_scans true bit_cbor bit_cbor_laws _ _ _ _ (MemStore_trait (H := true)) (MemStore_laws (H := true))
    (MemStore_lifecycle (ContainerCodec := bit_codec))
    (MemStore_lifecycle_laws (H := true) (H0 := bit_codec) (H1 := bit_codec_laws)) tt) as (setup & E & HS).
  - intros c. vm_compute. discriminate.
  - exists setup. split; [exact E|]. destruct (HS 2 ltac:(lia)) as (_ & n & ts & En & Et). exists n, ts.
    split; [exact En|]. exact Et.
Defined.
