(* ===== verification/TestUtil.v ===== *)
(** * Test data

    [src/src/common/src/testutil.rs], [src/src/utilities/src/random.rs] and the
    page builders of [src/src/storage/heapstore/src/testutil.rs]: the generators
    that the tests and benchmarks of the repository draw their data from, and the
    comparison of unordered byte vectors.  The thread's generator of the [rand]
    crate is a parameter with a state of its own. *)

From Stdlib Require Import Strings.Ascii.
From S2P Require Import Prelude Bytes Common HeapPage Types Catalog.

Open Scope Z_scope.

(** ** The [rand] crate *)

(** A draw from an inclusive range of integers, and one alphanumeric character. *)
Class ThreadRng (G : Type) := {
  draw_inclusive : G -> Z -> Z -> Z * G;
  draw_alphanumeric : G -> ascii * G;
}.

Definition is_alphanumeric (c : ascii) : bool :=
  let n := nat_of_ascii c in
  ((48 <=? n)%nat && (n <=? 57)%nat) || ((65 <=? n)%nat && (n <=? 90)%nat) || ((97 <=? n)%nat && (n <=? 122)%nat).

Class ThreadRngLaws {G} `{ThreadRng G} : Prop := {
  draw_inclusive_bound g lo hi : lo <= hi -> lo <= (draw_inclusive g lo hi).1 <= hi;
  draw_alphanumeric_ok g : is_alphanumeric (draw_alphanumeric g).1 = true;
}.

(** [Uniform::new] and [Uniform::new_inclusive] panic on an empty range. *)
Record Uniform := mkUniform { u_low : Z; u_high : Z }.

Definition Uniform_new_inclusive (low high : Z) : result Uniform :=
  if low <=? high then Ok (mkUniform low high) else Panic.

Definition Uniform_new (low high : Z) : result Uniform :=
  if low <? high then Ok (mkUniform low (high - 1)) else Panic.

Definition I64_MIN : Z := - 2 ^ 63.
Definition I64_MAX : Z := 2 ^ 63 - 1.
Definition I32_MAX : Z := 2 ^ 31 - 1.

(** The iterations of [for _ in 0..n]. *)
Definition times (n : Z) : list Z := seqZ 0 n.

Section Generators.
Context `{Profile} {G : Type} `{!ThreadRng G}.

Definition sample (u : Uniform) : stm G Z := fun g =>
  let '(z, g) := draw_inclusive g (u_low u) (u_high u) in (g, Ok z).

(** [rng.gen_range(low..high)] *)
Definition gen_range_of (low high : Z) : stm G Z := u ← lift (Uniform_new low high); sample u.

(** [rand::random::<u8>()] *)
Definition random_u8 : stm G byte := z ← sample (mkUniform 0 255); mret (byte_of_Z z).

(** [thread_rng().sample_iter(Alphanumeric).take(n)], collected. *)
Definition sample_string (n : Z) : stm G string :=
  cs ← mapS (fun _ => (fun g => let '(c, g) := draw_alphanumeric g in (g, Ok c)) : stm G ascii) (times n);
  mret (String.string_of_list_ascii cs).

(** ** [utilities/src/random.rs] *)

Definition gen_random_string (length : Z) : stm G string := sample_string length.

Definition gen_random_int (min max : Z) : stm G Z := u ← lift (Uniform_new_inclusive min max); sample u.

Definition gen_random_byte_vec (length : Z) : stm G (list byte) :=
  range ← lift (Uniform_new_inclusive 0 255);
  mapS (fun _ => z ← sample range; mret (byte_of_Z z)) (times length).

(** ** Strings, fields and tuples *)

Definition gen_rand_string (n : Z) : stm G string := sample_string n.

Definition gen_rand_string_range (min max : Z) : stm G string :=
  if max <=? min then gen_rand_string min
  else size ← gen_range_of min max; sample_string size.

Definition gen_uniform_strings (n : Z) (cardinality : option Z) (min max : Z) : stm G (list Field) :=
  match cardinality with
  | Some card =>
      values ← mapS (fun _ => s ← gen_rand_string_range min max; mret (FString s)) (times card);
      uniform ← lift (if lenZ values =? card then Uniform_new 0 (lenZ values) else Panic);
      mapS (fun _ =>
        idx ← sample uniform;
        if idx <? card then lift (unwrap_opt (values !! Z.to_nat idx)) else lift Panic) (times n)
  | None => mapS (fun _ => s ← gen_rand_string_range min max; mret (FString s)) (times n)
  end.

Definition gen_uniform_ints (n : Z) (cardinality : option Z) : stm G (list Field) :=
  match cardinality with
  | Some card =>
      if I32_MAX <? card then lift Panic
      else if n =? card then
        if n <? I32_MAX / 2 then mret (FInt <$> seqZ 0 card)
        else _ ← lift (arith_i 64 (I64_MIN + card)); mret (FInt <$> seqZ I64_MIN card)
      else
        a ← lift (arith_i 64 (I64_MIN + card));
        b ← lift (arith_i 64 (a - 1));
        range ← lift (Uniform_new_inclusive I64_MIN b);
        range ← (if card <? I32_MAX / 2
                 then c ← lift (arith_i 64 (card - 1)); lift (Uniform_new_inclusive 0 c)
                 else mret range);
        mapS (fun _ => z ← sample range; mret (FInt z)) (times n)
  | None => mapS (fun _ => z ← sample (mkUniform I64_MIN I64_MAX); mret (FInt z)) (times n)
  end.

(** [izip!] of columns: the rows, as many as the shortest column has entries. *)
Fixpoint izip {A} (columns : list (list A)) : list (list A) :=
  match columns with
  | [] => []
  | [l] => (fun x => [x]) <$> l
  | l :: ls => zip_with cons l (izip ls)
  end.

Definition gen_test_tuples (n : Z) : stm G (list Tuple) :=
  keys ← gen_uniform_ints n (Some n);
  i1 ← gen_uniform_ints n (Some 10);
  i2 ← gen_uniform_ints n (Some 100);
  i3 ← gen_uniform_ints n (Some 1000);
  i4 ← gen_uniform_ints n (Some 10000);
  s1 ← gen_uniform_strings n (Some 10) 10 20;
  s2 ← gen_uniform_strings n (Some 100) 10 20;
  s3 ← gen_uniform_strings n (Some 1000) 10 20;
  s4 ← gen_uniform_strings n (Some 10000) 10 30;
  mret (Tuple_new <$> izip [keys; i1; i2; i3; i4; s1; s2; s3; s4]).

Definition gen_table_for_test_tuples (c_id : ContainerId) (table_name : string) : TableInfo :=
  let pk_attr := mkAttribute "id" TInt PrimaryKey in
  let ints := (fun n : Z => mkAttribute ("ia" +:+ pretty n) TInt CNone) <$> seqZ 1 4 in
  let strings := (fun n : Z => mkAttribute ("sa" +:+ pretty n) TString CNone) <$> seqZ 1 4 in
  mkTableInfo c_id table_name (TableSchema_new (pk_attr :: ints ++ strings)).

Definition gen_test_table_and_tuples (c_id : ContainerId) (n : Z) : stm G (TableInfo * list Tuple) :=
  let table_name := "test_table_" +:+ pretty c_id in
  let table := gen_table_for_test_tuples c_id table_name in
  tuples ← gen_test_tuples n;
  mret (table, tuples).

Definition int_vec_to_tuple (data : list Z) : Tuple := Tuple_new (FInt <$> data).

Definition create_tuple_list (tuple_data : list (list Z)) : list Tuple :=
  (fun item => Tuple_new (FInt <$> item)) <$> tuple_data.

Definition get_int_table_schema (width : nat) : TableSchema :=
  TableSchema_new (replicate width (Attribute_new "" TInt)).

(** ** Byte vectors *)

Definition get_random_byte_vec (n : Z) : stm G (list byte) := mapS (fun _ => random_u8) (times n).

(** The size of one vector: [min_size], or a draw below [max_size]. *)
Definition draw_size (min_size size_diff : Z) : stm G Z :=
  if size_diff =? 0 then mret min_size else gen_range_of min_size (size_diff + min_size).

Definition get_random_vec_of_byte_vec (n min_size max_size : Z) : stm G (list (list byte)) :=
  if max_size <? min_size then lift Panic
  else
    let size_diff := max_size - min_size in
    mapS (fun _ => size ← draw_size min_size size_diff; mapS (fun _ => random_u8) (times size)) (times n).

(** One turn of the ascending generators: [next] is what [elements] becomes. *)
Definition ascending_turn (next : Z -> result Z) (min_size size_diff : Z) (st : list (list byte) * Z)
  : stm G (list (list byte) * Z) :=
  let '(res, elements) := st in
  size ← draw_size min_size size_diff;
  let res := res ++ [replicate (Z.to_nat size) (byte_of_Z elements)] in
  elements ← lift (next elements);
  mret (res, elements).

Definition get_ascending_vec_of_byte_vec_0x (n min_size max_size : Z) : stm G (list (list byte)) :=
  if max_size <? min_size then lift Panic
  else
    let next elements := e ← arith_u 8 (elements + 1); Ok (if 16 <=? e then 1 else e) in
    '(res, _) ← foldS (fun st _ => ascending_turn next min_size (max_size - min_size) st) ([], 1) (times n);
    mret res.

Definition get_ascending_vec_of_byte_vec_02x (n min_size max_size : Z) : stm G (list (list byte)) :=
  if max_size <? min_size then lift Panic
  else
    let next elements := if elements =? 255 then Ok 1 else arith_u 8 (elements + 1) in
    '(res, _) ← foldS (fun st _ => ascending_turn next min_size (max_size - min_size) st) ([], 1) (times n);
    mret res.

(** ** Pages of random records ([heapstore/src/testutil.rs]) *)

(** [page.add_value(&i).unwrap()] for each value, with the slots. *)
Definition add_values_unwrap (page : Page) (vals : list (list byte)) : result (Page * list SlotId) :=
  foldM (fun '(page, res) i =>
    '(page, slot) ← add_value page i;
    slot ← unwrap_opt slot;
    Ok (page, res ++ [slot])) (page, []) vals.

Definition get_random_page (id vals_per_page min_size max_size : Z) : stm G (Page * list SlotId) :=
  to_insert ← get_random_vec_of_byte_vec vals_per_page min_size max_size;
  page ← lift (Page_new id);
  lift (add_values_unwrap page to_insert).

Definition bench_page_insert (vals : list (list byte)) : result unit :=
  p ← Page_new 0;
  '(_, _) ← add_values_unwrap p vals;
  Ok tt.

(** ** The directory of a test *)

(** A path is its components; [set_file_name] replaces the last one unless it is
    [..] or there is none. *)
Definition set_file_name (path : list string) (file_name : string) : list string :=
  match last path with
  | None | Some ".." => path ++ [file_name]
  | Some _ => removelast path ++ [file_name]
  end.

(** The loop over [found_root], which says whether the path with [.CRUSTYROOT] for
    its file name exists. *)
Fixpoint climb (exists_path : list string -> bool) (fuel : nat) (dir : list string) : result (list string) :=
  if exists_path (set_file_name dir ".CRUSTYROOT") then
    match fuel with
    | O => Panic
    | S fuel' => climb exists_path fuel' (dir ++ [".."])
    end
  else Ok dir.

Definition gen_random_test_sm_dir (exists_path : list string -> bool) (fuel : nat)
  (cargo_manifest_dir : list string) : stm G (list string) :=
  dir ← lift (climb exists_path fuel cargo_manifest_dir);
  rand_string ← gen_rand_string 10;
  mret (dir ++ ["crusty_data"; "temp"; rand_string]).
End Generators.

(** ** Comparison of unordered byte vectors *)

(** [Vec::swap_remove]: the last element takes the place of the removed one. *)
Definition swap_remove {A} (b : list A) (idx : nat) : result (list A) :=
  match last b with
  | Some x => if (idx <? length b)%nat then Ok (removelast (<[idx := x]> b)) else Panic
  | None => Panic
  end.

(** The loop that looks every vector of [a] up in [b]; [None] is its early
    [return false]. *)
Fixpoint match_each (a b : list (list byte)) : result (option (list (list byte))) :=
  match a with
  | [] => Ok (Some b)
  | x :: a' =>
      match list_find (fun y => y = x) b with
      | None => Ok None
      | Some (idx, _) => b ← swap_remove b idx; match_each a' b
      end
  end.

Definition compare_unordered_byte_vecs (a b : list (list byte)) : result bool :=
  if negb (lenZ a =? lenZ b) then Ok false
  else
    let non_match_count := length (filter (fun '(j, k) => j <> k) (zip a b)) in
    if (non_match_count =? 0)%nat then Ok true
    else
      r ← match_each a b;
      match r with
      | None => Ok false
      | Some b => Ok (bool_decide (b = []))
      end.
