(* ===== verification/TestUtilTheorems.v ===== *)
(** * Test data: the theorems

    What the generators promise to the tests that use them, whatever the random
    generator draws: they do not panic, and their data has the sizes, ranges and
    types they are named for.  The comparison of unordered byte vectors decides
    permutation. *)

From Stdlib Require Import Strings.Ascii.
From S2P Require Import Prelude Bytes Common HeapPage HeapPageProofs HeapPageSpec HeapPageRefine Types Catalog.
From S2P Require Import Mutator MutatorProofs TestUtil.

Open Scope Z_scope.

(** ** Unordered comparison *)

Lemma swap_remove_perm {A} (l : list A) i x : l !! i = Some x ->
  exists l', swap_remove l i = Ok l' /\ l ≡ₚ x :: l'.
Proof.
  intros Hi. destruct l as [|y l _] using rev_ind; [done|]. unfold swap_remove.
  rewrite last_snoc. pose proof (lookup_lt_Some _ _ _ Hi) as Hlt.
  rewrite (proj2 (Nat.ltb_lt _ _)) by done. eexists. split; [done|].
  rewrite length_app in Hlt. cbn in Hlt. destruct (decide (i = length l)) as [->|Hne].
  - rewrite list_lookup_middle in Hi by done. injection Hi as ->.
    rewrite insert_app_r_alt, Nat.sub_diag by lia. cbn. rewrite removelast_last. by rewrite Permutation_app_comm.
  - rewrite lookup_app_l in Hi by lia. rewrite insert_app_l, removelast_last by lia.
    rewrite insert_take_drop by lia. rewrite <- (take_drop_middle l i x) at 1 by done.
    rewrite Permutation_app_comm. cbn. by rewrite <- !Permutation_middle, Permutation_swap.
Qed.

Lemma match_each_spec a : forall b, length a = length b ->
  exists r, match_each a b = Ok r /\ (a ≡ₚ b <-> r = Some []) /\ (is_Some r -> r = Some []).
Proof.
  induction a as [|x a IH]; intros b Hl; cbn [match_each].
  { destruct b; [|done]. by exists (Some []). }
  destruct (list_find (fun y => y = x) b) as [[idx y]|] eqn:E.
  - apply list_find_Some in E as (Hi & -> & _). destruct (swap_remove_perm b idx x Hi) as (b' & Eb & Hp).
    destruct (IH b') as (r & Er & Hr & Hs).
    { apply Permutation_length in Hp. cbn in *. lia. }
    exists r. rewrite Eb. mstep. split; [done|]. split; [|done]. rewrite <- Hr, Hp. split; [apply Permutation_cons_inv|by intros ->].
  - exists None. split; [done|]. split; [|by intros [??]]. split; [|done]. intros Hp. exfalso.
    apply list_find_None in E. rewrite Forall_forall in E. apply (E x); [|done]. rewrite <- Hp. left.
Qed.

Lemma zip_matches {A} `{EqDecision A} (a : list A) : forall b, length a = length b ->
  length (filter (fun '(j, k) => j <> k) (zip a b)) = 0%nat -> a = b.
Proof.
  induction a as [|x a IH]; intros [|y b] Hl Hz; try done. cbn [zip_with] in Hz.
  rewrite filter_cons in Hz. destruct (decide (x = y)) as [->|Hd]; [|by rewrite decide_True in Hz]. rewrite decide_False in Hz by auto.
  f_equal. apply IH; [by injection Hl|done].
Qed.

(** [compare_unordered_byte_vecs] never panics and decides whether its
    arguments are permutations of each other, multiplicities included. *)
Theorem compare_unordered_decides (a b : list (list byte)) :
  exists r, compare_unordered_byte_vecs a b = Ok r /\ (r = true <-> a ≡ₚ b).
Proof.
  unfold compare_unordered_byte_vecs, lenZ. destruct (Z.eqb_spec (Z.of_nat (length a)) (Z.of_nat (length b))) as [Hl|Hl]; cbn [negb].
  2:{ exists false. split; [done|]. split; [done|]. intros Hp. apply Permutation_length in Hp. lia. }
  apply Nat2Z.inj in Hl. case_match eqn:E.
  - apply Nat.eqb_eq, zip_matches in E as ->; [|done]. by exists true.
  - destruct (match_each_spec a b Hl) as (r & -> & Hp & Hs). mstep. destruct r as [b'|].
    + specialize (Hs ltac:(done)). injection Hs as ->. exists true. split; [done|]. rewrite Hp. done.
    + exists false. split; [done|]. rewrite Hp. done.
Qed.

(** ** Generators

    [draws m P]: whatever the state of the generator, [m] ends without a panic in
    a result that satisfies [P]. *)

Section Draws.
Context {G : Type}.

Definition draws {A} (m : stm G A) (P : A -> Prop) : Prop := forall g, exists g' a, m g = (g', Ok a) /\ P a.

Lemma draws_ret {A} (a : A) (P : A -> Prop) : P a -> draws (mret a) P.
Proof. intros HP g. by exists g, a. Qed.

Lemma draws_lift {A} (r : result A) a (P : A -> Prop) : r = Ok a -> P a -> draws (lift r) P.
Proof. intros -> HP g. by exists g, a. Qed.

Lemma draws_bind {A B} (m : stm G A) (f : A -> stm G B) P Q :
  draws m P -> (forall a, P a -> draws (f a) Q) -> draws (m ≫= f) Q.
Proof.
  intros Hm Hf g. destruct (Hm g) as (g1 & a & E & HP). destruct (Hf a HP g1) as (g2 & b & E2 & HQ).
  exists g2, b. unfold mbind, stm_bind. by rewrite E.
Qed.

Lemma draws_weaken {A} (m : stm G A) (P Q : A -> Prop) : draws m P -> (forall a, P a -> Q a) -> draws m Q.
Proof. intros Hm HPQ g. destruct (Hm g) as (g' & a & E & HP). exists g', a. auto. Qed.

Lemma draws_mapS {A B} (f : A -> stm G B) (P : B -> Prop) l : (forall a, draws (f a) P) ->
  draws (mapS f l) (fun bs => length bs = length l /\ Forall P bs).
Proof.
  intros Hf. induction l as [|a l IH]; cbn [mapS]; [by apply draws_ret|].
  eapply draws_bind; [apply Hf|]. intros b Hb. eapply draws_bind; [exact IH|]. intros bs [Hl Hbs].
  apply draws_ret. split; [cbn; by rewrite Hl|by constructor].
Qed.
End Draws.

(** A run of [m ≫= f] from a run of [m]. *)
Ltac draw P := eapply (draws_bind _ _ P).

Section Generated.
Context `{Profile} {G : Type} `{!ThreadRng G, !ThreadRngLaws}.

Lemma length_times n : length (times n) = Z.to_nat n.
Proof. apply length_seqZ. Qed.

Lemma sample_ok u : u_low u <= u_high u -> draws (sample u) (fun z => u_low u <= z <= u_high u).
Proof.
  intros Hu g. unfold sample. pose proof (draw_inclusive_bound g _ _ Hu) as Hb.
  destruct (draw_inclusive g (u_low u) (u_high u)) as [z g']. by exists g', z.
Qed.

Lemma gen_range_of_ok low high : low < high -> draws (gen_range_of low high) (fun z => low <= z < high).
Proof.
  intros Hl. unfold gen_range_of, Uniform_new. rewrite (proj2 (Z.ltb_lt _ _)) by done.
  draw (eq (mkUniform low (high - 1))); [by eapply draws_lift|]. intros u <-.
  eapply draws_weaken; [apply sample_ok; cbn; lia|]. cbn. lia.
Qed.

Lemma random_u8_ok : draws random_u8 (fun _ => True).
Proof. unfold random_u8. eapply draws_bind; [apply sample_ok; cbn; lia|]. intros z _. by apply draws_ret. Qed.

(** Alphanumeric strings of [n] characters. *)
Definition alnum_string (n : Z) (s : string) : Prop :=
  slen_s s = n /\ Forall (fun c => is_alphanumeric c = true) (String.list_ascii_of_string s).

Lemma sample_string_ok n : 0 <= n -> draws (sample_string n) (alnum_string n).
Proof.
  intros Hn. unfold sample_string.
  draw (fun cs => length cs = length (times n) /\ Forall (fun c => is_alphanumeric c = true) cs).
  - apply draws_mapS. intros _ g. pose proof (draw_alphanumeric_ok g) as Hc.
    destruct (draw_alphanumeric g) as [c g']. by exists g', c.
  - intros cs [Hl Hcs]. apply draws_ret. rewrite length_times in Hl. split.
    + unfold slen_s. rewrite <- (Z2Nat.id n), <- Hl by done. f_equal. clear. induction cs; cbn; congruence.
    + by rewrite String.list_ascii_of_string_of_list_ascii.
Qed.

Lemma gen_rand_string_range_ok min max : 0 <= min ->
  draws (gen_rand_string_range min max) (fun s => exists n, alnum_string n s /\ min <= n /\ (n < max \/ n = min)).
Proof.
  intros Hm. unfold gen_rand_string_range, gen_rand_string. case_Z_bool.
  - eapply draws_weaken; [by apply sample_string_ok|]. intros s Hs. exists min. split; [done|]. lia.
  - eapply draws_bind; [apply gen_range_of_ok; lia|]. intros n Hn. cbn beta in Hn.
    eapply draws_weaken; [apply sample_string_ok; lia|]. intros s Hs. exists n. split; [done|]. lia.
Qed.

Definition is_string_field (f : Field) : Prop := exists s, f = FString s.

Lemma gen_string_field_ok min max : 0 <= min ->
  draws (s ← gen_rand_string_range min max; mret (FString s)) is_string_field.
Proof. intros Hm. eapply draws_bind; [by apply gen_rand_string_range_ok|]. intros s _. apply draws_ret. by eexists. Qed.

Lemma gen_uniform_strings_ok n card min max : 0 <= min -> 0 < card ->
  draws (gen_uniform_strings n (Some card) min max) (fun l => length l = Z.to_nat n /\ Forall is_string_field l).
Proof.
  intros Hm Hc. unfold gen_uniform_strings.
  eapply draws_bind; [apply (draws_mapS _ is_string_field); intros _; by apply gen_string_field_ok|].
  intros values [Hl Hv]. rewrite length_times in Hl. assert (lenZ values = card) as Hlc by (unfold lenZ; lia).
  rewrite Hlc, Z.eqb_refl. draw (eq (mkUniform 0 (card - 1))).
  { eapply draws_lift; [|done]. unfold Uniform_new. by rewrite (proj2 (Z.ltb_lt _ _)). }
  intros u <-. rewrite <- (length_times n). apply draws_mapS. intros _.
  eapply draws_bind; [apply sample_ok; cbn; lia|]. cbn [u_low u_high]. intros idx Hi.
  rewrite (proj2 (Z.ltb_lt _ _)) by lia.
  destruct (lookup_lt_is_Some_2 values (Z.to_nat idx)) as [f Ef]; [lia|]. rewrite Ef.
  eapply draws_lift; [done|]. rewrite Forall_forall in Hv. by eapply Hv, list_elem_of_lookup_2.
Qed.

(** The integers that a cardinality stands for. *)
Definition int_low (card : Z) : Z := if card <? I32_MAX / 2 then 0 else I64_MIN.
Definition int_field_of (card : Z) (f : Field) : Prop := exists z, f = FInt z /\ int_low card <= z < int_low card + card.

Lemma seq_fields_ok card : 0 <= card ->
  length (FInt <$> seqZ (int_low card) card) = Z.to_nat card /\
  Forall (int_field_of card) (FInt <$> seqZ (int_low card) card) /\ NoDup (FInt <$> seqZ (int_low card) card).
Proof.
  intros Hc. split; [by rewrite length_fmap, length_seqZ|]. split.
  - apply Forall_fmap, Forall_forall. intros z Hz%elem_of_seqZ. exists z. split; [done|]. lia.
  - apply NoDup_fmap_2; [by intros ?? [= ->]|apply NoDup_seqZ].
Qed.

(** As many integers as asked for, from the range of the cardinality, and all of
    them when as many as the cardinality are asked for. *)
Lemma gen_uniform_ints_ok n card : 0 <= n -> 0 < card <= I32_MAX \/ n = card /\ n <= I32_MAX ->
  draws (gen_uniform_ints n (Some card))
    (fun l => length l = Z.to_nat n /\ Forall (int_field_of card) l /\ (n = card -> l = FInt <$> seqZ (int_low card) card)).
Proof.
  intros Hn Hc. unfold gen_uniform_ints. assert (card <= I32_MAX) as Hc1 by lia.
  rewrite (proj2 (Z.ltb_ge _ _)) by lia. destruct (Z.eqb_spec n card) as [->|Hne].
  - destruct (seq_fields_ok card ltac:(lia)) as (L & F & _). unfold int_low in *.
    destruct (Z.ltb_spec card (I32_MAX / 2)); [by apply draws_ret|].
    draw (fun _ : Z => True); [|intros ? _; by apply draws_ret].
    eapply draws_lift; [|done]. apply arith_i_ok. unfold in_i, I64_MIN, I32_MAX in *. lia.
  - draw (eq (I64_MIN + card)); [eapply draws_lift; [|done]; apply arith_i_ok; unfold in_i, I64_MIN, I32_MAX in *; lia|].
    intros a <-. draw (eq (I64_MIN + card - 1)); [eapply draws_lift; [|done]; apply arith_i_ok; unfold in_i, I64_MIN, I32_MAX in *; lia|].
    intros b <-. draw (eq (mkUniform I64_MIN (I64_MIN + card - 1))).
    { eapply draws_lift; [|done]. unfold Uniform_new_inclusive. rewrite (proj2 (Z.leb_le _ _)) by lia. done. }
    intros u <-. draw (eq (mkUniform (int_low card) (int_low card + card - 1))).
    { unfold int_low. destruct (Z.ltb_spec card (I32_MAX / 2)) as [Hs|Hs]; [|by apply draws_ret].
      draw (eq (card - 1)); [eapply draws_lift; [|done]; apply arith_i_ok; unfold in_i, I32_MAX in *; lia|].
      intros c <-. eapply draws_lift; [|done]. unfold Uniform_new_inclusive. rewrite (proj2 (Z.leb_le _ _)) by lia. done. }
    intros u <-. eapply draws_weaken.
    + apply (draws_mapS _ (int_field_of card)). intros _. eapply draws_bind; [apply sample_ok; cbn; lia|].
      cbn. intros z Hz. apply draws_ret. exists z. split; [done|]. lia.
    + intros l [Hl Hf]. rewrite length_times in Hl. by split_and!.
Qed.

(** Asking for values of a cardinality of zero panics, in either build. *)
Lemma gen_uniform_ints_zero n g : n <> 0 -> (gen_uniform_ints n (Some 0) g).2 = Panic.
Proof.
  intros Hn. unfold gen_uniform_ints. rewrite (proj2 (Z.ltb_ge I32_MAX 0)) by (unfold I32_MAX; lia).
  destruct (Z.eqb_spec n 0) as [->|_]; [done|]. destruct H eqn:E; vm_compute; reflexivity.
Qed.

(** ** Tuples *)

Lemma filter_Forall {A} (P : A -> Prop) `{forall x, Decision (P x)} l : Forall P l -> filter P l = l.
Proof. induction 1 as [|x l Hx Hl IH]; [done|]. by rewrite filter_cons, decide_True, IH. Qed.

Lemma izip_length {A} (ls : list (list A)) k : ls <> [] -> Forall (fun l => length l = k) ls -> length (izip ls) = k.
Proof.
  intros Hne Hl. induction Hl as [|l ls Hl Hls IH]; [done|]. destruct ls as [|l' ls].
  - cbn. by rewrite length_fmap.
  - change (izip (l :: l' :: ls)) with (zip_with cons l (izip (l' :: ls))).
    rewrite length_zip_with, Hl, IH by done. lia.
Qed.

(** A row of the zipped columns has one entry of each column. *)
Lemma izip_row {A} (ls : list (list A)) (Ps : list (A -> Prop)) : ls <> [] -> Forall2 (fun l P => Forall P l) ls Ps ->
  Forall (fun row => Forall2 (fun x (P : A -> Prop) => P x) row Ps) (izip ls).
Proof.
  intros Hne HP. induction HP as [|l P ls Ps Hl HP IH]; [done|]. destruct ls as [|l' ls].
  - apply Forall2_nil_inv_l in HP as ->. cbn. apply Forall_fmap. eapply Forall_impl; [exact Hl|].
    intros x Hx. by repeat constructor.
  - change (izip (l :: l' :: ls)) with (zip_with cons l (izip (l' :: ls))).
    specialize (IH ltac:(done)). apply Forall_lookup. intros i row Hi.
    apply lookup_zip_with_Some in Hi as (x & r & -> & Hx & Hr). constructor.
    + exact (Forall_lookup_1 _ _ _ _ Hl Hx).
    + exact (Forall_lookup_1 _ _ _ _ IH Hr).
Qed.

Lemma izip_heads {A} (l : list A) ls : ls <> [] -> Forall (fun l' => length l' = length l) ls ->
  head <$> izip (l :: ls) = Some <$> l.
Proof.
  intros Hne Hl. destruct ls as [|l' ls]; [done|].
  change (izip (l :: l' :: ls)) with (zip_with cons l (izip (l' :: ls))).
  pose proof (izip_length (l' :: ls) (length l) ltac:(done) Hl) as Hz. revert Hz.
  generalize (izip (l' :: ls)). clear. induction l as [|x l IH]; intros [|r rs] Hz; try done.
  cbn. f_equal. apply IH. by injection Hz.
Qed.

(** The columns of a generated table. *)
Definition test_columns (n : Z) : list (Field -> Prop) :=
  [int_field_of n; int_field_of 10; int_field_of 100; int_field_of 1000; int_field_of 10000;
   is_string_field; is_string_field; is_string_field; is_string_field].

Lemma test_row_valid c nm n fs : Forall2 (fun f (P : Field -> Prop) => P f) fs (test_columns n) ->
  row_valid (schema (gen_table_for_test_tuples c nm)) (Tuple_new fs).
Proof.
  unfold test_columns. intros HF.
  repeat match goal with
  | F : Forall2 _ _ (is_string_field :: _) |- _ => apply Forall2_cons_inv_r in F as (? & ? & [? ->] & ? & ->)
  | F : Forall2 _ _ (_ :: _) |- _ => apply Forall2_cons_inv_r in F as (? & ? & [? [-> ?]] & ? & ->)
  | F : Forall2 _ _ [] |- _ => apply Forall2_nil_inv_r in F as ->
  end.
  reflexivity.
Qed.

Lemma gen_test_tuples_ok n : 0 <= n <= I32_MAX ->
  draws (gen_test_tuples n) (fun ts => exists rows, ts = Tuple_new <$> rows /\ length rows = Z.to_nat n /\
    head <$> rows = Some ∘ FInt <$> seqZ (int_low n) n /\
    Forall (fun row => Forall2 (fun f (P : Field -> Prop) => P f) row (test_columns n)) rows).
Proof.
  intros Hn. unfold gen_test_tuples.
  eapply draws_bind; [apply gen_uniform_ints_ok; lia|]. intros keys (Lk & Fk & Ek).
  do 4 (eapply draws_bind; [apply gen_uniform_ints_ok; unfold I32_MAX; lia|]; intros ? (? & ? & _)).
  do 4 (eapply draws_bind; [apply gen_uniform_strings_ok; lia|]; intros ? (? & ?)).
  apply draws_ret. eexists. split; [done|]. split_and!.
  - apply izip_length; [done|]. by repeat constructor.
  - rewrite izip_heads; [|done|repeat constructor; congruence]. rewrite Ek by done. by rewrite list_fmap_compose.
  - apply izip_row; [done|]. by repeat constructor.
Qed.
End Generated.

(** The generated test table fits its generated tuples.  For any number of
    tuples up to [i32::MAX] and any random draws, [gen_test_table_and_tuples]
    returns a table under the given id and that many tuples, whose keys are all
    different and whose every field passes the validation of the table's schema. *)
Theorem gen_test_table_valid `{Profile} {G : Type} `{!ThreadRng G, !ThreadRngLaws} (c n : Z) (g : G) :
  0 <= n <= I32_MAX ->
  exists g' table tuples, gen_test_table_and_tuples c n g = (g', Ok (table, tuples)) /\
    c_id table = c /\ Z.of_nat (length tuples) = n /\ NoDup ((fun t => get_field t 0) <$> tuples) /\
    validate_tuples (schema table) None (mkConverted tuples []) = Ok (mkConverted tuples []).
Proof.
  intros Hn. destruct (gen_test_tuples_ok n Hn g) as (g' & ts & E & rows & -> & Hl & Hk & Hr).
  exists g', (gen_table_for_test_tuples c ("test_table_" +:+ pretty c)), (Tuple_new <$> rows). split_and!.
  - unfold gen_test_table_and_tuples, mbind, stm_bind. by rewrite E.
  - done.
  - rewrite length_fmap. lia.
  - rewrite <- list_fmap_compose.
    rewrite (list_fmap_ext _ head) by (intros ? [|??] _; done).
    rewrite Hk. apply NoDup_fmap_2; [by intros ?? [= ->]|apply NoDup_seqZ].
  - set (sc := schema _). assert (Forall (row_valid sc) (Tuple_new <$> rows)) as Hv.
    { apply Forall_fmap. eapply Forall_impl; [exact Hr|]. intros row. apply test_row_valid. }
    rewrite validate_tuples_ok.
    + by rewrite filter_Forall.
    + eapply Forall_impl; [exact Hv|]. unfold row_valid. intros t ->. cbn. lia.
Qed.

(** A generator that always draws the middle of the range, for the witnesses. *)
#[export] Instance middle_rng : ThreadRng unit := {|
  draw_inclusive _ lo hi := ((lo + hi) / 2, tt);
  draw_alphanumeric _ := ("x"%char, tt);
|}.

#[export] Instance middle_rng_laws : ThreadRngLaws (G := unit).
Proof. split; [|done]. cbn. intros _ lo hi Hl. split; [apply Z.div_le_lower_bound|apply Z.div_le_upper_bound]; lia. Qed.

Lemma gen_test_table_valid_witness :
  exists g' table tuples, gen_test_table_and_tuples (H := true) 5 3 tt = (g', Ok (table, tuples)) /\
    length tuples = 3%nat /\ NoDup ((fun t => get_field t 0) <$> tuples) /\
    validate_tuples (schema table) None (mkConverted tuples []) = Ok (mkConverted tuples []).
Proof.
  destruct (@gen_test_table_valid true unit _ _ 5 3 tt ltac:(unfold I32_MAX; lia)) as (g' & table & ts & E & _ & L & N & V).
  exists g', table, ts. split; [exact E|]. split; [lia|]. split; [exact N|exact V].
Defined.

(** ** Byte vectors *)

Section Bytes.
Context `{Profile} {G : Type} `{!ThreadRng G, !ThreadRngLaws}.

(** A size between [min_size] and [max_size]; the upper bound is only reached
    when both are equal. *)
Definition size_ok (min_size max_size size : Z) : Prop :=
  min_size <= size /\ (size < max_size \/ min_size = max_size /\ size = max_size).

Lemma draw_size_ok lo hi : lo <= hi -> draws (draw_size lo (hi - lo)) (size_ok lo hi).
Proof.
  intros Hl. unfold draw_size, size_ok. destruct (Z.eqb_spec (hi - lo) 0).
  - apply draws_ret. lia.
  - eapply draws_weaken; [apply gen_range_of_ok; lia|]. cbn. lia.
Qed.

Lemma get_random_vec_of_byte_vec_ok n lo hi : 0 <= lo <= hi ->
  draws (get_random_vec_of_byte_vec n lo hi)
    (fun l => length l = Z.to_nat n /\ Forall (fun v => size_ok lo hi (lenZ v)) l).
Proof.
  intros Hl. unfold get_random_vec_of_byte_vec. rewrite (proj2 (Z.ltb_ge _ _)) by lia.
  rewrite <- (length_times n). apply draws_mapS. intros _.
  eapply draws_bind; [apply draw_size_ok; lia|]. intros size Hs.
  eapply draws_weaken; [apply (draws_mapS _ (fun _ => True)); intros _; apply random_u8_ok|].
  intros v [Hv _]. rewrite length_times in Hv. unfold size_ok, lenZ in *. lia.
Qed.

(** The vectors of an ascending generator: the [i]-th repeats [1 + i mod period]. *)
Definition ascending (period lo hi : Z) (l : list (list byte)) : Prop :=
  forall i v, l !! i = Some v ->
    exists size, size_ok lo hi size /\ v = replicate (Z.to_nat size) (byte_of_Z (1 + Z.of_nat i mod period)).

Lemma ascending_loop (next : Z -> result Z) period lo hi n : lo <= hi -> 0 < period ->
  (forall i, 0 <= i -> next (1 + i mod period) = Ok (1 + (i + 1) mod period)) ->
  draws ('(res, _) ← foldS (fun st _ => ascending_turn next lo (hi - lo) st) ([], 1) (times n); mret res)
    (fun l => length l = Z.to_nat n /\ ascending period lo hi l).
Proof.
  intros Hl Hp Hnext.
  assert (forall (k : list Z) res e, ascending period lo hi res -> e = 1 + Z.of_nat (length res) mod period ->
    draws (foldS (fun st _ => ascending_turn next lo (hi - lo) st) (res, e) k)
      (fun '(l, _) => length l = (length res + length k)%nat /\ ascending period lo hi l)) as Hloop.
  { induction k as [|x k IH]; intros res e Hres ->; cbn [foldS].
    { apply draws_ret. cbn. split; [lia|done]. }
    draw (fun '(l, e) => length l = S (length res) /\ ascending period lo hi l /\ e = 1 + Z.of_nat (length l) mod period).
    - unfold ascending_turn. eapply draws_bind; [by apply draw_size_ok|]. intros size Hs.
      draw (eq (1 + (Z.of_nat (length res) + 1) mod period)); [eapply draws_lift; [apply Hnext; lia|done]|].
      intros e <-. apply draws_ret. rewrite length_app. cbn. split_and!; [lia| |do 2 f_equal; lia].
      intros i v Hi. apply lookup_snoc_Some in Hi as [[_ Hi]|[-> <-]]; [by apply Hres|by exists size].
    - intros [l e] (Ll & Al & El). eapply draws_weaken; [by apply IH|]. intros [l' e']. rewrite Ll. cbn. intros [-> ?]. split; [lia|done]. }
  eapply draws_bind; [apply Hloop; [by intros ?? ?|cbn; by rewrite Z.mod_0_l by lia]|].
  intros [l e] [Ll Al]. apply draws_ret. split; [|done]. rewrite Ll, length_times. done.
Qed.

(** The value grows by one from one vector to the next and starts over at one:
    after fifteen, and after two hundred and fifty-five. *)
Theorem ascending_vecs n lo hi : lo <= hi ->
  draws (get_ascending_vec_of_byte_vec_0x n lo hi) (fun l => length l = Z.to_nat n /\ ascending 15 lo hi l) /\
  draws (get_ascending_vec_of_byte_vec_02x n lo hi) (fun l => length l = Z.to_nat n /\ ascending 255 lo hi l).
Proof.
  intros Hl. unfold get_ascending_vec_of_byte_vec_0x, get_ascending_vec_of_byte_vec_02x.
  rewrite (proj2 (Z.ltb_ge _ _)) by lia.
  split; apply ascending_loop; try done; intros i Hi; rewrite <- Zplus_mod_idemp_l.
  - pose proof (Z.mod_pos_bound i 15 ltac:(lia)). set (k := i mod 15) in *. clearbody k.
    rewrite arith_u_ok by (unfold in_u; lia). mstep. f_equal. destruct (Z.leb_spec 16 (1 + k + 1)).
    + by replace k with 14 by lia.
    + rewrite Z.mod_small by lia. lia.
  - pose proof (Z.mod_pos_bound i 255 ltac:(lia)). set (k := i mod 255) in *. clearbody k.
    destruct (Z.eqb_spec (1 + k) 255).
    + by replace k with 254 by lia.
    + rewrite arith_u_ok by (unfold in_u; lia). f_equal. rewrite Z.mod_small by lia. lia.
Qed.
End Bytes.

(** ** Pages of random records *)

Section Pages.
Context `{Profile}.

(** The page holds exactly [vs], in the slots from zero on. *)
Definition records_of (vs : list (list byte)) : gmap Z (list byte) :=
  list_to_map (zip (seqZ 0 (lenZ vs)) vs).

Definition filled (id : Z) (p : Page) (vs : list (list byte)) : Prop :=
  page_wf p /\ abs p = mkAPage (lenZ vs) (records_of vs) /\ get_page_id p = Ok id.

Definition payload (vs : list (list byte)) : Z := sumZ (lenZ <$> vs).

Lemma zip_seqZ_fst (vs : list (list byte)) : (zip (seqZ 0 (lenZ vs)) vs).*1 = seqZ 0 (lenZ vs).
Proof. apply fst_zip. rewrite length_seqZ. unfold lenZ. lia. Qed.

Lemma records_of_lookup vs i : 0 <= i -> records_of vs !! i = vs !! Z.to_nat i.
Proof.
  intros Hi. unfold records_of. destruct (vs !! Z.to_nat i) as [v|] eqn:E.
  - pose proof (lookup_lt_Some _ _ _ E). apply elem_of_list_to_map_1; [rewrite zip_seqZ_fst; apply NoDup_seqZ|].
    apply list_elem_of_lookup. exists (Z.to_nat i). rewrite lookup_zip_with, E, lookup_seqZ_lt by (unfold lenZ; lia).
    cbn. do 2 f_equal. lia.
  - apply lookup_ge_None in E. apply not_elem_of_list_to_map_1. rewrite zip_seqZ_fst, elem_of_seqZ. unfold lenZ. lia.
Qed.

Lemma records_of_snoc vs v : records_of (vs ++ [v]) = <[lenZ vs := v]> (records_of vs).
Proof.
  apply map_eq. intros i. destruct (decide (0 <= i)) as [Hi|Hi].
  - rewrite records_of_lookup by done. destruct (decide (i = lenZ vs)) as [->|Hne].
    + rewrite lookup_insert_eq. unfold lenZ. by rewrite Nat2Z.id, list_lookup_middle.
    + rewrite lookup_insert_ne, records_of_lookup by done. unfold lenZ in Hne.
      destruct (decide (Z.to_nat i < length vs)%nat); [by rewrite lookup_app_l|].
      rewrite !lookup_ge_None_2; [done|lia|rewrite length_app; cbn; lia].
  - rewrite lookup_insert_ne by (unfold lenZ; lia). unfold records_of.
    rewrite !not_elem_of_list_to_map_1; [done|rewrite zip_seqZ_fst, elem_of_seqZ; lia..].
Qed.

Lemma a_used_records vs : a_used (records_of vs) = payload vs.
Proof.
  unfold a_used, payload, records_of. rewrite <- sumZ_perm with (l1 := (lenZ ∘ snd) <$> zip (seqZ 0 (lenZ vs)) vs).
  - rewrite list_fmap_compose, snd_zip; [done|]. rewrite length_seqZ. unfold lenZ. lia.
  - apply fmap_Permutation. symmetry. apply map_to_list_to_map. rewrite zip_seqZ_fst. apply NoDup_seqZ.
Qed.

Lemma filled_add id p vs v : filled id p vs -> v <> [] ->
  8 + 6 * (lenZ vs + 1) + payload vs + lenZ v <= PAGE_SIZE ->
  exists p', add_value p v = Ok (p', Some (lenZ vs)) /\ filled id p' (vs ++ [v]).
Proof.
  intros (W & A & I) Hv Hroom.
  destruct (add_value_refines_aux p v W) as (p' & E & W' & A' & I').
  { unfold lenZ. destruct v; [done|cbn; lia]. }
  assert (a_lowest (abs p) = lenZ vs) as El.
  { unfold a_lowest. rewrite A. cbn [a_recs a_slots]. rewrite (proj2 (list_find_None _ _)); [done|].
    apply Forall_forall. intros i Hi%elem_of_seqZ. unfold lenZ in Hi. rewrite records_of_lookup by lia.
    destruct (lookup_lt_is_Some_2 vs (Z.to_nat i)) as [x ->]; [lia|done]. }
  assert (a_add (abs p) v = (mkAPage (lenZ (vs ++ [v])) (records_of (vs ++ [v])), Some (lenZ vs))) as Ea.
  { unfold a_add. rewrite El. unfold a_free. rewrite A. cbn [a_slots a_recs]. rewrite a_used_records, Z.leb_refl.
    rewrite (proj2 (Z.ltb_ge _ _)) by lia. rewrite records_of_snoc. unfold lenZ. rewrite length_app. cbn.
    do 2 f_equal. lia. }
  exists p'. rewrite Ea in *. split; [done|]. split; [done|]. split; [done|]. congruence.
Qed.

Lemma payload_app l1 l2 : payload (l1 ++ l2) = payload l1 + payload l2.
Proof. unfold payload. by rewrite fmap_app, sumZ_app. Qed.

Lemma add_values_ok id vals : forall p vs, filled id p vs -> Forall (fun v => v <> []) vals ->
  8 + 6 * lenZ (vs ++ vals) + payload (vs ++ vals) <= PAGE_SIZE ->
  exists p', foldM (fun '(page, res) i =>
      '(page, slot) ← add_value page i; slot ← unwrap_opt slot; Ok (page, res ++ [slot])) (p, seqZ 0 (lenZ vs)) vals =
    Ok (p', seqZ 0 (lenZ (vs ++ vals))) /\ filled id p' (vs ++ vals).
Proof.
  induction vals as [|v vals IH]; intros p vs HF Hne Hroom; cbn [foldM].
  { rewrite app_nil_r. by exists p. }
  apply Forall_cons in Hne as [Hv Hne].
  assert (0 <= payload vals) as Hp by (apply sumZ_nonneg, Forall_fmap, Forall_true; unfold lenZ; cbn; lia).
  rewrite payload_app in Hroom. unfold lenZ in Hroom. rewrite length_app in Hroom.
  cbn [length] in Hroom. change (payload (v :: vals)) with (lenZ v + payload vals) in Hroom.
  destruct (filled_add id p vs v HF Hv) as (p1 & -> & HF1); [unfold lenZ in *; lia|]. mstep. cbn [unwrap_opt]. mstep.
  assert (seqZ 0 (lenZ vs) ++ [lenZ vs] = seqZ 0 (lenZ (vs ++ [v]))) as ->.
  { unfold lenZ. rewrite length_app, Nat.add_1_r. by rewrite seqZ_S. }
  destruct (IH p1 (vs ++ [v]) HF1 Hne) as (p2 & E2 & HF2).
  { rewrite <- app_assoc. cbn [app]. rewrite payload_app. unfold lenZ. rewrite length_app. cbn [length].
    change (payload (v :: vals)) with (lenZ v + payload vals). unfold lenZ in *. lia. }
  exists p2. rewrite <- app_assoc in *. cbn [app] in *. done.
Qed.

Lemma payload_bound hi vs : Forall (fun v => lenZ v <= hi) vs -> payload vs <= hi * lenZ vs.
Proof. unfold payload, lenZ. induction 1; cbn [fmap list_fmap sumZ foldr length]; [lia|]. unfold sumZ in *. lia. Qed.

(** A page of random records: the records fit, sit in the slots from zero on, and
    come back. *)
Theorem get_random_page_ok {G : Type} `{!ThreadRng G, !ThreadRngLaws} id n lo hi :
  in_u 16 id -> 0 <= n -> 0 < lo <= hi -> 8 + n * (6 + hi) <= PAGE_SIZE ->
  draws (G := G) (get_random_page id n lo hi) (fun '(page, slots) =>
    page_wf page /\ get_page_id page = Ok id /\ slots = seqZ 0 n /\
    exists vals, lenZ vals = n /\ Forall (fun v => size_ok lo hi (lenZ v)) vals /\
      forall i, 0 <= i -> get_value page i = Ok (vals !! Z.to_nat i)).
Proof.
  intros Hid Hn Hl Hroom. unfold get_random_page.
  eapply draws_bind; [apply get_random_vec_of_byte_vec_ok; lia|]. intros vals [Lv Sv].
  destruct (Page_new_aux id Hid) as (p0 & E0 & W0 & A0 & I0).
  draw (eq p0); [by eapply draws_lift|]. intros p <-.
  destruct (add_values_ok id vals p0 []) as (p' & E & W & A & I).
  - split_and!; [done|by rewrite A0|done].
  - eapply Forall_impl; [exact Sv|]. intros v Hs ->. unfold size_ok, lenZ in Hs. cbn in Hs. lia.
  - cbn [app]. assert (payload vals <= hi * lenZ vals).
    { apply payload_bound. eapply Forall_impl; [exact Sv|]. intros v. unfold size_ok. lia. }
    unfold lenZ in *. rewrite Lv in *. rewrite Z2Nat.id in * by done. lia.
  - eapply draws_lift; [exact E|]. cbn [app] in *. assert (lenZ vals = n) as Hv by (unfold lenZ; lia).
    split_and!; [done..|by rewrite Hv|]. exists vals. split; [done|]. split; [done|]. intros i Hi.
    rewrite get_value_refines_aux, A by done. cbn [a_recs]. by rewrite records_of_lookup.
Qed.
End Pages.

(** ** The directory of a test *)

(** [..] resolved, as the file system does. *)
Definition resolve (path : list string) : list string :=
  foldl (fun acc c => if String.eqb c ".." then removelast acc else acc ++ [c]) [] path.

(** The loop climbs as long as it finds the marker of the root: a crate right
    below a marked root gets a directory outside of the root, next to it. *)
Theorem test_dir_leaves_root {G : Type} `{!ThreadRng G, !ThreadRngLaws} (g : G) :
  let exists_path p := bool_decide (resolve p = ["home"; "crustydb"; ".CRUSTYROOT"]) in
  exists g' s, gen_random_test_sm_dir exists_path 5 ["home"; "crustydb"; "common"] g = (g', Ok s) /\
    take 3 (resolve s) = ["home"; "crusty_data"; "temp"].
Proof.
  intros ex. assert (draws (G := G) (gen_random_test_sm_dir ex 5 ["home"; "crustydb"; "common"])
    (fun s => take 3 (resolve s) = ["home"; "crusty_data"; "temp"])) as Hd; [|exact (Hd g)].
  unfold gen_random_test_sm_dir. draw (eq ["home"; "crustydb"; "common"; ".."; ".."]);
    [by eapply draws_lift|]. intros dir <-.
  eapply draws_bind; [apply sample_string_ok; lia|]. intros r Hr. apply draws_ret.
  unfold resolve. cbn [foldl app String.eqb]. cbn. destruct (String.eqb_spec r "..") as [->|_]; [|done].
  destruct Hr as [Hr _]. discriminate Hr.
Qed.
