(* ===== verification/Plan.v ===== *)
(** * Query plans

    [src/src/common/src/logical_plan/] and [physical_plan/]: the operators of a
    plan, and plans as graphs with a root.  An edge goes from the consumer to
    the producer; the children of a node are listed latest edge first.
    Their JSON forms are in [PlanJson]. *)

From S2P Require Import Prelude Common Types Expr Graph.

(** ** Operators *)

Inductive LogicalOp :=
| LScan (container_id : ContainerId) (filter : option AstExpr) (projection : option (list AstExpr))
| LProject (identifiers : list AstExpr)
| LFilter (predicate : AstExpr)
| LAggregate (fields group_by : list AstExpr) (having : option AstExpr)
| LJoin (eqs : list (AstExpr * AstExpr)) (filter : option AstExpr)
| LCrossProduct (filter : option AstExpr)
| LSort (fields : list (AstExpr * bool))
| LReadDeltas (object_id : ContainerId)
| LWriteDeltas (object_id : ContainerId)
| LUpdate (alias : string) (container_id : ContainerId) (assignments : list (AstExpr * Field)).

Inductive PhysicalOp :=
| PScan (container_id : ContainerId) (filter : option AstExpr) (projection : option (list AstExpr))
| PProject (identifiers : list AstExpr)
| PHashAggregate (fields group_by : list AstExpr)
| PCrossProduct
| PNestedLoopJoin (left right : AstExpr) (op : BooleanOp)
| PHashJoin (left right : AstExpr) (op : BooleanOp)
| PFilter (predicate : AstExpr)
| PMaterializedView (materialized_view_state_id : ContainerId)
| PUpdate (alias : string) (container_id : ContainerId) (assignments : list (AstExpr * Field))
| PSort (fields : list (AstExpr * bool))
| PSortMergeJoin (left_expr right_expr : list (AstExpr * bool)).

(** ** Logical plans *)

Record LogicalPlan := mkLP { dataflow : CrustyGraph LogicalOp; root : option NodeIndex }.

Definition LP_new : LogicalPlan := mkLP graph_new None.

(** [if self.root.is_none() { self.root = Some(index) }] *)
Definition root_or (r : option NodeIndex) (index : NodeIndex) : option NodeIndex :=
  match r with Some _ => r | None => Some index end.

(** An edge into the root moves the root to its source. *)
Definition root_after_edge (r : option NodeIndex) (src tgt : NodeIndex) : option NodeIndex :=
  match r with
  | Some index => if decide (index = tgt) then Some src else r
  | None => None
  end.

Definition LP_add_node (lp : LogicalPlan) (op : LogicalOp) : LogicalPlan * NodeIndex :=
  let '(g, index) := add_node (dataflow lp) op in (mkLP g (root_or (root lp) index), index).

Definition LP_add_edge (lp : LogicalPlan) (src tgt : NodeIndex) : result LogicalPlan :=
  if decide (src = tgt) then Panic
  else g ← add_edge (dataflow lp) src tgt; Ok (mkLP g (root_after_edge (root lp) src tgt)).

Definition LP_edges (lp : LogicalPlan) (from : NodeIndex) : result (list NodeIndex) :=
  edges (dataflow lp) from.

Definition get_operator (lp : LogicalPlan) (i : NodeIndex) : option LogicalOp := node_data (dataflow lp) i.

Definition LP_all_reachable_from_root (lp : LogicalPlan) : result bool :=
  match root lp with
  | Some node => all_reachable_from_node (dataflow lp) node
  | None => Err (CrustyErr "Logical plan loaded from json has no root")
  end.

(** [merge]: copies of the other plan's nodes and edges, then the new root over
    both; the right child's edge is added first. *)
Definition merge_node (st : LogicalPlan * gmap nat nat) (x : NodeIndex * Node LogicalOp)
  : LogicalPlan * gmap nat nat :=
  let '(lp, node_map) := st in
  let '(i, node) := x in
  let '(lp, new_node) := LP_add_node lp (data node) in
  (lp, <[i := new_node]> node_map).

Definition merge_edge (node_map : gmap nat nat) (lp : LogicalPlan) (e : Edge) : result LogicalPlan :=
  new_source ← unwrap_opt (node_map !! source e);
  new_target ← unwrap_opt (node_map !! target e);
  LP_add_edge lp new_source new_target.

Definition is_join_op (op : LogicalOp) : bool :=
  match op with LJoin _ _ | LCrossProduct _ => true | _ => false end.

Definition merge (lp : LogicalPlan) (new_root : LogicalOp) (other : LogicalPlan) : result LogicalPlan :=
  if negb (is_join_op new_root) then Panic
  else
    root_left ← unwrap_opt (root lp);
    root_right ← unwrap_opt (root other);
    let '(lp, node_map) := foldl merge_node (lp, ∅) (node_references (dataflow other)) in
    lp ← foldM (merge_edge node_map) lp (edge_references (dataflow other));
    let '(lp, new_root_idx) := LP_add_node lp new_root in
    right ← unwrap_opt (node_map !! root_right);
    lp ← LP_add_edge lp new_root_idx right;
    LP_add_edge lp new_root_idx root_left.

(** The builders that work on the graph directly and set the root themselves. *)
Definition add_scan_node (lp : LogicalPlan) (c : ContainerId) (filter : option AstExpr)
  (projection : option (list AstExpr)) : LogicalPlan * NodeIndex :=
  let '(g, i) := add_node (dataflow lp) (LScan c filter projection) in (mkLP g (root_or (root lp) i), i).

(** A node over a given child, or else over the root, which it replaces. *)
Definition add_unary (lp : LogicalPlan) (op : LogicalOp) (child_idx : option NodeIndex)
  : result (LogicalPlan * NodeIndex) :=
  let '(g, i) := add_node (dataflow lp) op in
  match child_idx, root lp with
  | Some child_index, r => g ← add_edge g i child_index; Ok (mkLP g r, i)
  | None, Some root_idx => g ← add_edge g i root_idx; Ok (mkLP g (Some i), i)
  | None, None => Ok (mkLP g None, i)
  end.

Definition add_filter_node (lp : LogicalPlan) (predicate : AstExpr) (child_idx : option NodeIndex)
  : result (LogicalPlan * NodeIndex) := add_unary lp (LFilter predicate) child_idx.

Definition add_projection_node (lp : LogicalPlan) (identifiers : list AstExpr)
  (child_idx : option NodeIndex) : result (LogicalPlan * NodeIndex) :=
  add_unary lp (LProject identifiers) child_idx.

Definition add_agg_node (lp : LogicalPlan) (fields group_by : list AstExpr) (having : option AstExpr)
  (child_idx : option NodeIndex) : result (LogicalPlan * NodeIndex) :=
  add_unary lp (LAggregate fields group_by having) child_idx.

Definition add_binary (lp : LogicalPlan) (op : LogicalOp) (left_idx right_idx : NodeIndex)
  : result (LogicalPlan * NodeIndex) :=
  let '(g, i) := add_node (dataflow lp) op in
  g ← add_edge g i left_idx;
  g ← add_edge g i right_idx;
  Ok (mkLP g (Some i), i).

Definition add_join_node (lp : LogicalPlan) (eqs : list (AstExpr * AstExpr)) (filter : option AstExpr)
  (left_idx right_idx : NodeIndex) : result (LogicalPlan * NodeIndex) :=
  add_binary lp (LJoin eqs filter) left_idx right_idx.

Definition add_cross_product_node (lp : LogicalPlan) (filter : option AstExpr)
  (left_idx right_idx : NodeIndex) : result (LogicalPlan * NodeIndex) :=
  add_binary lp (LCrossProduct filter) left_idx right_idx.

(** ** Physical plans *)

Record PhysicalPlan := mkPP {
  p_dataflow : CrustyGraph PhysicalOp;
  p_root : option NodeIndex;
  base_tables : list ContainerId;
  hash_tables : list ContainerId;
}.

Definition PP_new : PhysicalPlan := mkPP graph_new None [] [].

Definition add_base_table (pp : PhysicalPlan) (c : ContainerId) : PhysicalPlan :=
  mkPP (p_dataflow pp) (p_root pp) (base_tables pp ++ [c]) (hash_tables pp).

Definition add_hash_table (pp : PhysicalPlan) (c : ContainerId) : PhysicalPlan :=
  mkPP (p_dataflow pp) (p_root pp) (base_tables pp) (hash_tables pp ++ [c]).

Definition PP_add_node (pp : PhysicalPlan) (op : PhysicalOp) : PhysicalPlan * NodeIndex :=
  let '(g, index) := add_node (p_dataflow pp) op in
  (mkPP g (root_or (p_root pp) index) (base_tables pp) (hash_tables pp), index).

Definition PP_add_edge (pp : PhysicalPlan) (src tgt : NodeIndex) : result PhysicalPlan :=
  if decide (src = tgt) then Panic
  else
    g ← add_edge (p_dataflow pp) src tgt;
    Ok (mkPP g (root_after_edge (p_root pp) src tgt) (base_tables pp) (hash_tables pp)).

Definition PP_edges (pp : PhysicalPlan) (from : NodeIndex) : result (list NodeIndex) :=
  edges (p_dataflow pp) from.

Definition PP_get_operator (pp : PhysicalPlan) (i : NodeIndex) : option PhysicalOp :=
  node_data (p_dataflow pp) i.

Definition get_container_id (pp : PhysicalPlan) (i : NodeIndex) : option ContainerId :=
  match PP_get_operator pp i with
  | Some (PMaterializedView id) => Some id
  | Some (PScan c _ _) => Some c
  | _ => None
  end.

Definition get_output_container_id (pp : PhysicalPlan) : result ContainerId :=
  match p_root pp with
  | Some root_index =>
      op ← unwrap_opt (PP_get_operator pp root_index);
      match op with
      | PMaterializedView id => Ok id
      | _ => Err (CrustyErr "root of physical plan is not a materialized view node")
      end
  | None => Err (CrustyErr "attempted to get output containter id of physical plan with no root")
  end.
