(* ===== verification/Planner.v ===== *)
(** * The planner

    [src/src/queryexe/src/query/planner.rs]: logical plans to physical plans,
    and physical plans to operator trees.  [Aggregate], [NestedLoopJoin] and
    [HashEqJoin] have no body in the repository: their constructors panic. *)

From S2P Require Import Prelude Bytes Common Types Expr Storage OpIter Catalog Graph Plan.

(** ** Logical to physical *)

Definition is_ident (e : AstExpr) : bool := match e with EIdent _ => true | _ => false end.

Definition logical_op_to_physical_op (op : LogicalOp) (pp : PhysicalPlan)
  : result (PhysicalPlan * PhysicalOp) :=
  match op with
  | LReadDeltas _ | LWriteDeltas _ | LUpdate _ _ _ => Panic
  | LScan c filter projection => Ok (add_base_table pp c, PScan c filter projection)
  | LProject identifiers => Ok (pp, PProject identifiers)
  | LAggregate fields group_by _ => Ok (pp, PHashAggregate fields group_by)
  | LCrossProduct _ => Ok (pp, PCrossProduct)
  | LJoin eqs _ =>
      eq0 ← unwrap_opt (eqs !! 0%nat);
      let '(l, r) := (eq0 : AstExpr * AstExpr) in
      let op := BEq in
      Ok (pp, if is_ident l && is_ident r then PHashJoin l r op else PNestedLoopJoin l r op)
  | LFilter predicate => Ok (pp, PFilter predicate)
  | LSort fields => Ok (pp, PSort fields)
  end.

Definition plan_node (pp : PhysicalPlan) (x : NodeIndex * Node LogicalOp) : result PhysicalPlan :=
  '(pp, physical_op) ← logical_op_to_physical_op (data x.2) pp;
  Ok (PP_add_node pp physical_op).1.

Definition plan_edge (pp : PhysicalPlan) (e : Edge) : result PhysicalPlan :=
  PP_add_edge pp (source e) (target e).

Definition logical_plan_to_physical_plan (lp : LogicalPlan) : result PhysicalPlan :=
  pp ← foldM plan_node PP_new (node_references (dataflow lp));
  foldM plan_edge pp (edge_references (dataflow lp)).

(** ** Physical to operators *)

(** [&&] evaluates its right operand only if needed. *)
Definition and_then (a : result bool) (b : result bool) : result bool :=
  x ← a; if (x : bool) then b else Ok false.

Fixpoint is_computed_from (e : AstExpr) (schema : TableSchema) : result bool :=
  match e with
  | EIdent n => Ok (schema_contains schema n)
  | EAlias _ child => is_computed_from child schema
  | ELiteral _ => Ok true
  | EMath _ l r | EBoolean _ l r => and_then (is_computed_from l schema) (is_computed_from r schema)
  | EAgg _ e => is_computed_from e schema
  | EColIdx _ => Panic
  end.

(** [Option::map(..).transpose()?] *)
Definition map_transpose {A B} (f : A -> result B) (o : option A) : result (option B) :=
  match o with
  | Some a => b ← f a; Ok (Some b)
  | None => Ok None
  end.

Definition err_malformed : CrustyError := ExecutionError "Malformed logical plan".

Section Build.
Context `{Chrono} {It : Type}.
Context (catalog : Catalog) (pp : PhysicalPlan).

(** [helper] converts a child; children are converted on demand, in order. *)
Section Node.
Context (helper : NodeIndex -> result (Op It)).

(** [children.next().ok_or_else(..)??] *)
Definition next_child (children : list NodeIndex) : result (Op It * list NodeIndex) :=
  match children with
  | n :: rest => op ← helper n; Ok (op, rest)
  | [] => Err err_malformed
  end.

Definition scan_schema (in_schema : TableSchema) (projection : option (list AstExpr))
  : result TableSchema :=
  match projection with
  | Some p => attrs ← mapM_o (fun e => to_attr e in_schema) p; Ok (TableSchema_new attrs)
  | None => Ok in_schema
  end.

Definition build_scan (c : ContainerId) (filter : option AstExpr) (projection : option (list AstExpr))
  : result (Op It) :=
  in_schema ← unwrap_opt (get_table_schema catalog c);
  out_schema ← scan_schema in_schema projection;
  filter ← map_transpose (fun f => convert_ast_to_bytecode f in_schema) filter;
  projection ← map_transpose (mapM_o (fun e => convert_ast_to_bytecode e in_schema)) projection;
  Ok (SeqScan_new out_schema c filter projection).

Definition build_project (identifiers : list AstExpr) (child : Op It) : result (Op It) :=
  let input_schema := get_schema child in
  attrs ← mapM_o (fun i => to_attr i input_schema) identifiers;
  exprs ← mapM_o (fun e => unwrap (convert_ast_to_bytecode e input_schema)) identifiers;
  Ok (Project_new exprs (TableSchema_new attrs) child).

(** The loops over the group-by and the aggregate expressions; then
    [Aggregate::new], which is [todo!()]. *)
Definition build_aggregate (fields group_by : list AstExpr) (child : Op It) : result (Op It) :=
  let input_schema := get_schema child in
  _ ← mapM_o (fun e => bc ← convert_ast_to_bytecode e input_schema;
                       a ← to_attr e input_schema; Ok (bc, a)) group_by;
  _ ← mapM_o (fun e =>
        a ← to_attr e input_schema;
        match e with
        | EAgg op e => bc ← convert_ast_to_bytecode e input_schema; Ok (op, bc, a)
        | _ => Err (c_err "Unexpected expression in HashAggregateNode")
        end) fields;
  Panic.

(** Which side a join expression is computed from decides the order of the
    expressions; the constructors of the joins are [todo!()]. *)
Definition build_join (msg : string) (left right : AstExpr) (left_child right_child : Op It)
  : result (Op It) :=
  let left_schema := get_schema left_child in
  let right_schema := get_schema right_child in
  b ← and_then (is_computed_from left left_schema) (is_computed_from right right_schema);
  if (b : bool) then
    _ ← convert_ast_to_bytecode left left_schema;
    _ ← convert_ast_to_bytecode right right_schema;
    Panic
  else
    b ← and_then (is_computed_from right left_schema) (is_computed_from left right_schema);
    if (b : bool) then
      _ ← convert_ast_to_bytecode right left_schema;
      _ ← convert_ast_to_bytecode left right_schema;
      Panic
    else Err (c_err msg).

Definition build_filter (predicate : AstExpr) (child : Op It) : result (Op It) :=
  let input_schema := get_schema child in
  bc ← convert_ast_to_bytecode predicate input_schema;
  Ok (Filter_new bc input_schema child).

Definition build_op (op : PhysicalOp) (children : list NodeIndex) : result (Op It * list NodeIndex) :=
  match op with
  | PScan c filter projection => o ← build_scan c filter projection; Ok (o, children)
  | PProject identifiers =>
      '(child, children) ← next_child children;
      o ← build_project identifiers child; Ok (o, children)
  | PHashAggregate fields group_by =>
      '(child, children) ← next_child children;
      o ← build_aggregate fields group_by child; Ok (o, children)
  | PCrossProduct =>
      '(left_child, children) ← next_child children;
      '(right_child, children) ← next_child children;
      let schema := schema_merge (get_schema left_child) (get_schema right_child) in
      Ok (CrossJoin_new schema left_child right_child, children)
  | PNestedLoopJoin l r _ =>
      '(left_child, children) ← next_child children;
      '(right_child, children) ← next_child children;
      o ← build_join "NestedLoopJoin failed to find a joinable expression" l r left_child right_child;
      Ok (o, children)
  | PHashJoin l r _ =>
      '(left_child, children) ← next_child children;
      '(right_child, children) ← next_child children;
      o ← build_join "HashJoin failed to find a joinable expression" l r left_child right_child;
      Ok (o, children)
  | PFilter predicate =>
      '(child, children) ← next_child children;
      o ← build_filter predicate child; Ok (o, children)
  | PSort _ | PSortMergeJoin _ _ | PMaterializedView _ | PUpdate _ _ _ => Panic
  end.

(** [if children.next().is_some() { Err(err) } else { result }]: a child that is
    left over is converted before it is refused. *)
Definition refuse_extra (op : Op It) (children : list NodeIndex) : result (Op It) :=
  match children with
  | [] => Ok op
  | n :: _ => match helper n with Panic => Panic | _ => Err err_malformed end
  end.
End Node.

(** [fuel] bounds the depth of the plan. *)
Fixpoint physical_plan_to_op_iterator_helper (fuel : nat) (start : NodeIndex) : result (Op It) :=
  match fuel with
  | O => Panic
  | S fuel' =>
      let helper := physical_plan_to_op_iterator_helper fuel' in
      children ← PP_edges pp start;
      op ← ok_or (PP_get_operator pp start) err_malformed;
      '(o, children) ← build_op helper op children;
      refuse_extra helper o children
  end.

Definition physical_plan_to_op_iterator (fuel : nat) : result (Op It) :=
  start ← ok_or (p_root pp) (ExecutionError "No root node");
  physical_plan_to_op_iterator_helper fuel start.
End Build.
