(* ===== verification/PlannerProofs.v ===== *)
(** * The planner: plans keep their shape, operators compute their meaning *)

From S2P Require Import Prelude Bytes Common Types Expr ExprProofs Storage OpIter OpIterProofs.
From S2P Require Import Catalog Graph GraphProofs Plan Planner.

(** ** Graph shapes *)

Definition endpoints {T} (g : CrustyGraph T) : list (nat * nat) :=
  (fun e => (source e, target e)) <$> edge_list g.

Lemma out_endpoints {T U} (g : CrustyGraph T) (h : CrustyGraph U) s :
  endpoints g = endpoints h -> out (edge_list g) s = out (edge_list h) s.
Proof.
  unfold endpoints, out. intros E. f_equal. revert E. generalize (edge_list g) as l, (edge_list h) as k.
  induction l as [|a l IH]; intros [|b k] E; try done. cbn in E. injection E as E1 E2 E3.
  cbn [omap list_omap]. rewrite E1, E2. by rewrite (IH k).
Qed.

(** The children of a node, as a function of the endpoints. *)
Lemma add_edge_shape {T} (g g' : CrustyGraph T) u v :
  add_edge g u v = Ok g' ->
  endpoints g' = endpoints g ++ [(u, v)] /\ length (nodes g') = length (nodes g) /\
  forall i, node_data g' i = node_data g i.
Proof.
  unfold add_edge. destruct (node_index_exists g u); [|done]. destruct (node_index_exists g v); [|done].
  cbn [negb]. destruct (nodes g !! u) as [nd|] eqn:E; [|done]. cbn [unwrap_opt]. mstep. intros [= <-].
  unfold endpoints, node_data. cbn [edge_list nodes]. rewrite fmap_app, length_insert.
  split; [done|]. split; [done|]. intros i. destruct (decide (i = u)) as [->|].
  - rewrite list_lookup_insert_eq by (by eapply lookup_lt_Some). by rewrite E.
  - by rewrite list_lookup_insert_ne.
Qed.

(** The root after the edges: edges into it move it up. *)
Definition climb (r : option nat) (l : list (nat * nat)) : option nat :=
  foldl (fun r '(u, v) => root_after_edge r u v) r l.

Definition first_root {T} (g : CrustyGraph T) : option nat :=
  match nodes g with [] => None | _ => Some 0%nat end.

(** The root is the one the order of the edges determines. *)
Definition plan_rooted (lp : LogicalPlan) : Prop :=
  root lp = climb (first_root (dataflow lp)) (endpoints (dataflow lp)).

Record plan_wf (lp : LogicalPlan) : Prop := {
  pw_graph : graph_wf (dataflow lp);
  pw_root : plan_rooted lp;
  pw_loops : forall u v, (u, v) ∈ endpoints (dataflow lp) -> u <> v;
}.

Lemma climb_None l : climb None l = None.
Proof. induction l as [|[u v] l IH]; [done|exact IH]. Qed.

Lemma wf_no_nodes {T} (g : CrustyGraph T) : graph_wf g -> nodes g = [] -> edge_list g = [].
Proof.
  intros W E. apply elem_of_nil_inv. intros e He. apply (gw_edges g W) in He. rewrite E in He. cbn in He. lia.
Qed.

Lemma LP_new_wf : plan_wf LP_new.
Proof. split; [apply graph_new_wf|done|]. by intros u v ?%not_elem_of_nil. Qed.

Lemma LP_add_node_wf lp op : plan_wf lp -> plan_wf (LP_add_node lp op).1.
Proof.
  intros [W R L]. unfold LP_add_node. cbn [add_node fst]. split; cbn [dataflow]; [| |exact L].
  - apply (add_node_wf (dataflow lp) op W).
  - unfold plan_rooted in *. cbn [root dataflow]. rewrite R. unfold first_root. cbn [nodes].
    unfold endpoints. cbn [edge_list]. destruct (nodes (dataflow lp)) as [|nd l] eqn:E.
    + rewrite (wf_no_nodes _ W E). done.
    + cbn [app]. fold (endpoints (dataflow lp)).
      assert (forall es r, climb (Some r) es <> None) as Hc.
      { induction es as [|[u v] es IH]; intros r; [done|]. cbn. case_decide; apply IH. }
      specialize (Hc (endpoints (dataflow lp)) 0%nat).
      destruct (climb (Some 0%nat) (endpoints (dataflow lp))); [done|]. by destruct Hc.
Qed.

Lemma LP_add_edge_wf lp u v :
  plan_wf lp -> (u < length (nodes (dataflow lp)))%nat -> (v < length (nodes (dataflow lp)))%nat -> u <> v ->
  exists lp', LP_add_edge lp u v = Ok lp' /\ plan_wf lp' /\
    endpoints (dataflow lp') = endpoints (dataflow lp) ++ [(u, v)] /\
    length (nodes (dataflow lp')) = length (nodes (dataflow lp)) /\
    (forall i, get_operator lp' i = get_operator lp i) /\
    root lp' = root_after_edge (root lp) u v.
Proof.
  intros [W R L] Hu Hv Hne. unfold LP_add_edge. rewrite decide_False by done.
  destruct (add_edge_ok (dataflow lp) u v W Hu Hv) as (g' & E & W' & Hl & _). rewrite E. mstep.
  destruct (add_edge_shape _ _ _ _ E) as (Ee & _ & Ed).
  eexists. split; [done|]. split_and!; [|done|done|done|done].
  split; [done| |cbn [dataflow]; rewrite Ee; intros a b [Hin|Hin%list_elem_of_singleton]%elem_of_app;
                 [by apply L|by injection Hin as -> ->]].
  unfold plan_rooted in *. cbn [root dataflow]. rewrite Ee. unfold climb at 1. rewrite foldl_app.
  cbn [foldl]. fold (climb (first_root g') (endpoints (dataflow lp))). rewrite R. do 2 f_equal.
  unfold first_root. destruct (nodes (dataflow lp)), (nodes g'); done.
Qed.

(** ** Logical to physical *)

(** The physical operator of a logical one. *)
Definition phys (op : LogicalOp) : option PhysicalOp :=
  match logical_op_to_physical_op op PP_new with Ok (_, o) => Some o | _ => None end.

Lemma phys_ok op o pp : phys op = Some o ->
  exists pp', logical_op_to_physical_op op pp = Ok (pp', o) /\ p_dataflow pp' = p_dataflow pp /\
    p_root pp' = p_root pp.
Proof.
  unfold phys. destruct op; cbn; try done; intros E; simplify_eq; try (by eexists).
  destruct (_ !! 0%nat) as [[l r]|]; [|done]. cbn in *. simplify_eq. by eexists.
Qed.

Lemma plan_nodes_ok (l : list (Node LogicalOp)) : forall k pp,
  (forall nd, nd ∈ l -> is_Some (phys (data nd))) ->
  exists pp', foldM plan_node pp (zip (seq k (length l)) l) = Ok pp' /\
    nodes (p_dataflow pp') = nodes (p_dataflow pp) ++
      omap (fun nd => o ← phys (data nd); Some (mkNode o None)) l /\
    edge_list (p_dataflow pp') = edge_list (p_dataflow pp) /\
    p_root pp' = (match l with [] => p_root pp | _ => root_or (p_root pp) (length (nodes (p_dataflow pp))) end).
Proof.
  induction l as [|nd l IH]; intros k pp Hl; cbn [length seq zip zip_with foldM].
  - exists pp. by rewrite app_nil_r.
  - destruct (Hl nd) as [o Eo]; [by apply list_elem_of_here|].
    destruct (phys_ok _ o pp Eo) as (pp1 & E1 & D1 & R1).
    assert (plan_node pp (k, nd) = Ok (PP_add_node pp1 o).1) as ->
      by (unfold plan_node; cbn [snd]; by rewrite E1).
    mstep. unfold PP_add_node. cbn [add_node fst].
    destruct (IH (S k) (mkPP (mkGraph (nodes (p_dataflow pp1) ++ [mkNode o None]) (edge_list (p_dataflow pp1)))
       (root_or (p_root pp1) (length (nodes (p_dataflow pp1)))) (base_tables pp1) (hash_tables pp1)))
      as (pp2 & E2 & N2 & G2 & R2).
    { intros nd' Hn. apply Hl. by apply list_elem_of_further. }
    exists pp2. split; [exact E2|]. cbn [p_dataflow p_root nodes edge_list] in *. rewrite D1, R1 in *.
    split; [|split; [done|]].
    + rewrite N2, <- app_assoc. do 2 f_equal. cbn [omap list_omap]. by rewrite Eo.
    + rewrite R2. destruct l; [done|]. by destruct (p_root pp).
Qed.

Lemma plan_edges_ok (l : list Edge) : forall pp,
  graph_wf (p_dataflow pp) ->
  (forall e, e ∈ l -> (source e < length (nodes (p_dataflow pp)))%nat /\
                      (target e < length (nodes (p_dataflow pp)))%nat /\ source e <> target e) ->
  exists pp', foldM plan_edge pp l = Ok pp' /\ graph_wf (p_dataflow pp') /\
    endpoints (p_dataflow pp') = endpoints (p_dataflow pp) ++ ((fun e => (source e, target e)) <$> l) /\
    (forall i, PP_get_operator pp' i = PP_get_operator pp i) /\
    length (nodes (p_dataflow pp')) = length (nodes (p_dataflow pp)) /\
    p_root pp' = climb (p_root pp) ((fun e => (source e, target e)) <$> l).
Proof.
  induction l as [|e l IH]; intros pp W Hl; cbn [foldM fmap list_fmap].
  - exists pp. by rewrite app_nil_r.
  - destruct (Hl e) as (Hs & Ht & Hne); [by apply list_elem_of_here|].
    destruct (add_edge_ok (p_dataflow pp) _ _ W Hs Ht) as (g' & E & W' & Hlen & _).
    assert (plan_edge pp e = Ok (mkPP g' (root_after_edge (p_root pp) (source e) (target e))
                                   (base_tables pp) (hash_tables pp))) as ->.
    { unfold plan_edge, PP_add_edge. rewrite decide_False by done. by rewrite E. }
    mstep.
    destruct (add_edge_shape _ _ _ _ E) as (Ee & _ & Ed).
    destruct (IH (mkPP g' (root_after_edge (p_root pp) (source e) (target e)) (base_tables pp) (hash_tables pp)))
      as (pp2 & E2 & W2 & G2 & D2 & L2 & R2); cbn [p_dataflow p_root] in *.
    { done. } { intros e' He'. rewrite Hlen. apply Hl. by apply list_elem_of_further. }
    exists pp2. split; [exact E2|]. split; [done|]. split; [by rewrite G2, Ee, <- app_assoc|].
    split; [|split; [lia|done]]. intros i. rewrite D2. unfold PP_get_operator. cbn [p_dataflow]. apply Ed.
Qed.

(** The physical plan has the logical plan's nodes, children and root. *)
Lemma physical_plan_ok lp :
  plan_wf lp -> (forall i op, get_operator lp i = Some op -> is_Some (phys op)) ->
  exists pp, logical_plan_to_physical_plan lp = Ok pp /\ graph_wf (p_dataflow pp) /\
    (forall i, PP_get_operator pp i = get_operator lp i ≫= phys) /\
    (forall i, out (edge_list (p_dataflow pp)) i = out (edge_list (dataflow lp)) i) /\
    length (nodes (p_dataflow pp)) = length (nodes (dataflow lp)) /\ p_root pp = root lp.
Proof.
  intros [W R L] Hp. unfold logical_plan_to_physical_plan, node_references, edge_references.
  assert (forall nd, nd ∈ nodes (dataflow lp) -> is_Some (phys (data nd))) as Hn.
  { intros nd [i Hi]%list_elem_of_lookup. apply (Hp i). unfold get_operator, node_data. by rewrite Hi. }
  destruct (plan_nodes_ok (nodes (dataflow lp)) 0 PP_new Hn) as (pp1 & E1 & N1 & G1 & R1).
  rewrite E1. mstep. cbn [PP_new p_dataflow p_root graph_new nodes edge_list app] in *.
  assert (forall i, nodes (p_dataflow pp1) !! i =
            nd ← nodes (dataflow lp) !! i; o ← phys (data nd); Some (mkNode o None)) as Hlk.
  { rewrite N1. clear -Hn. induction (nodes (dataflow lp)) as [|nd l IH]; intros i; [by destruct i|].
    destruct (Hn nd) as [o Eo]; [by apply list_elem_of_here|]. cbn [omap list_omap]. rewrite Eo. cbn.
    destruct i as [|i]; cbn; [by rewrite Eo|]. apply IH. intros nd' Hn'. apply Hn. by apply list_elem_of_further. }
  assert (length (nodes (p_dataflow pp1)) = length (nodes (dataflow lp))) as Hlen.
  { rewrite N1. clear -Hn. induction (nodes (dataflow lp)) as [|nd l IH]; [done|].
    destruct (Hn nd) as [o Eo]; [by apply list_elem_of_here|]. cbn [omap list_omap]. rewrite Eo. cbn.
    f_equal. apply IH. intros nd' Hn'. apply Hn. by apply list_elem_of_further. }
  assert (graph_wf (p_dataflow pp1)) as W1.
  { split; rewrite G1; [|by intros e ?%not_elem_of_nil]. intros s nd. rewrite Hlk.
    destruct (nodes (dataflow lp) !! s); [|done]. cbn. destruct (phys _); [|done]. cbn.
    intros [= <-]. constructor. }
  destruct (plan_edges_ok (edge_list (dataflow lp)) pp1 W1) as (pp & E2 & W2 & G2 & D2 & L2 & R2).
  { intros e He. rewrite Hlen. destruct (gw_edges _ W e He) as [Hs Ht]. split_and!; [done..|].
    apply L. apply list_elem_of_fmap. by exists e. }
  exists pp. split; [exact E2|]. split; [done|]. split_and!.
  - intros i. rewrite D2. unfold PP_get_operator, get_operator, node_data. rewrite Hlk.
    destruct (nodes (dataflow lp) !! i); [|done]. cbn. by destruct (phys _).
  - intros i. apply out_endpoints. rewrite G2. unfold endpoints at 1. rewrite G1. done.
  - lia.
  - rewrite R2, R1, R. unfold first_root. by destruct (nodes (dataflow lp)).
Qed.

(** ** The meaning of a plan *)

(** Plans as trees of operators. *)
Inductive ltree :=
| T0 (op : LogicalOp)
| T1 (op : LogicalOp) (t : ltree)
| T2 (op : LogicalOp) (l r : ltree).

Abbreviation TScan c flt prj := (T0 (LScan c flt prj)).
Abbreviation TFilter p t := (T1 (LFilter p) t).
Abbreviation TProject es t := (T1 (LProject es) t).
Abbreviation TCross l r := (T2 (LCrossProduct None) l r).

Inductive represents (lp : LogicalPlan) : nat -> ltree -> Prop :=
| rep0 i op : get_operator lp i = Some op ->
    out (edge_list (dataflow lp)) i = [] -> represents lp i (T0 op)
| rep1 i j op t : get_operator lp i = Some op ->
    out (edge_list (dataflow lp)) i = [j] -> represents lp j t -> represents lp i (T1 op t)
| rep2 i j k op l r : get_operator lp i = Some op ->
    out (edge_list (dataflow lp)) i = [j; k] -> represents lp j l -> represents lp k r ->
    represents lp i (T2 op l r).

Fixpoint height (t : ltree) : nat :=
  match t with
  | T0 _ => 1
  | T1 _ t => S (height t)
  | T2 _ l r => S (max (height l) (height r))
  end.

Section Meaning.
Context `{Profile, Chrono} (catalog : Catalog) (table : ContainerId -> option (list Tuple)).

(** Whether a tuple satisfies a predicate, by attribute names. *)
Definition satisfies (sc : TableSchema) (p : AstExpr) (t : Tuple) : result bool :=
  f ← eval_named sc p t; match f with FBool b => Ok b | _ => Panic end.

Definition select (sc : TableSchema) (p : AstExpr) (ts : list Tuple) : result (list Tuple) :=
  if bindable sc p then filterM_o (satisfies sc p) ts else Panic.

Definition image (sc : TableSchema) (es : list AstExpr) (t : Tuple) : result Tuple :=
  fs ← mapM_o (fun e => eval_named sc e t) es; Ok (Tuple_new fs).

Definition project (sc : TableSchema) (es : list AstExpr) (ts : list Tuple) : result (list Tuple) :=
  if forallb (bindable sc) es then mapM_o (image sc es) ts else Panic.

(** The schema and the tuples of a plan of scans, selections, projections and
    plain products, in order. *)
Fixpoint meaning (t : ltree) : result (TableSchema * list Tuple) :=
  match t with
  | TScan c flt prj =>
      sc ← unwrap_opt (get_table_schema catalog c);
      ts ← unwrap_opt (table c);
      ts ← match flt with Some p => select sc p ts | None => Ok ts end;
      ts ← match prj with Some es => project sc es ts | None => Ok ts end;
      out ← scan_schema sc prj;
      Ok (out, ts)
  | TFilter p t => '(sc, ts) ← meaning t; ts ← select sc p ts; Ok (sc, ts)
  | TProject es t =>
      '(sc, ts) ← meaning t;
      attrs ← mapM_o (fun e => to_attr e sc) es;
      ts ← project sc es ts;
      Ok (TableSchema_new attrs, ts)
  | TCross l r =>
      '(sl, tl) ← meaning l;
      '(sr, tr) ← meaning r;
      Ok (schema_merge sl sr, cross tl tr)
  | _ => Panic
  end.
End Meaning.

(** ** Operators compute the meaning *)

Section Operators.
Context `{Profile, Chrono, Cbor} {St It : Type} `{!StorageTrait St It} (s : St) (catalog : Catalog).

(** The stored tuples of a container, in the order of its iterator. *)
Definition holds_table (c : ContainerId) (ts : list Tuple) : Prop :=
  exists it items, get_iterator s c = Ok it /\ yields s it items /\ scan_items None None items = Ok ts.

Context (table : ContainerId -> option (list Tuple))
        (Htable : forall c ts, table c = Some ts -> holds_table c ts).

Lemma filter_select (keeps : ByteCodeExpr -> Tuple -> result bool) sc p bc :
  (forall t b, bc_eval bc t = Ok (FBool b) -> keeps bc t = Ok b) ->
  (forall t, bc_eval bc t = unwrap (eval_named sc p t)) ->
  forall ts full, filterM_o (satisfies sc p) ts = Ok full -> filterM_o (keeps bc) ts = Ok full.
Proof.
  intros Hk He. induction ts as [|t ts IH]; intros full E; cbn [filterM_o] in *; [done|].
  apply bind_Ok_inv in E as (b & Eb & E). apply bind_Ok_inv in E as (r & Er & [= <-]).
  unfold satisfies in Eb. apply bind_Ok_inv in Eb as (f & Ef & Eb).
  destruct f; try done. injection Eb as ->.
  rewrite (Hk t b) by (by rewrite He, Ef). mstep. by rewrite (IH r Er).
Qed.

Lemma select_ok (keeps : ByteCodeExpr -> Tuple -> result bool) sc p ts full :
  (forall bc t b, bc_eval bc t = Ok (FBool b) -> keeps bc t = Ok b) ->
  select sc p ts = Ok full ->
  exists bc, convert_ast_to_bytecode p sc = Ok bc /\ filterM_o (keeps bc) ts = Ok full.
Proof.
  unfold select. intros Hk. destruct (bindable sc p) eqn:Hb; [|done]. intros E.
  destruct (compile_named sc p Hb) as (bc & Ec & He). exists bc. split; [done|].
  exact (filter_select keeps sc p bc (Hk bc) He ts full E).
Qed.

Lemma compile_all sc es : forallb (bindable sc) es = true ->
  exists bcs, mapM_o (fun e => convert_ast_to_bytecode e sc) es = Ok bcs /\
    mapM_o (fun e => unwrap (convert_ast_to_bytecode e sc)) es = Ok bcs /\
    forall t fs, mapM_o (fun e => eval_named sc e t) es = Ok fs -> mapM_o (fun b => bc_eval b t) bcs = Ok fs.
Proof.
  induction es as [|e es IH]; cbn [forallb mapM_o].
  - intros _. exists []. split_and!; try done.
  - intros [He Hes]%andb_true_iff. destruct (compile_named sc e He) as (bc & Ec & Ev).
    destruct (IH Hes) as (bcs & E1 & E2 & E3). exists (bc :: bcs). rewrite Ec, E1, E2.
    split_and!; [done..|]. intros t fs E. apply bind_Ok_inv in E as (f & Ef & E).
    apply bind_Ok_inv in E as (fs' & Efs & [= <-]). cbn [mapM_o]. rewrite Ev, Ef. cbn [unwrap]. mstep.
    by rewrite (E3 t fs' Efs).
Qed.

Lemma project_ok sc es ts full : project sc es ts = Ok full ->
  exists bcs, mapM_o (fun e => convert_ast_to_bytecode e sc) es = Ok bcs /\
    mapM_o (fun e => unwrap (convert_ast_to_bytecode e sc)) es = Ok bcs /\
    mapM_o (project_tuple bcs) ts = Ok full.
Proof.
  unfold project. destruct (forallb (bindable sc) es) eqn:Hb; [|done]. intros E.
  destruct (compile_all sc es Hb) as (bcs & E1 & E2 & E3). exists bcs. split_and!; [done..|].
  revert full E. induction ts as [|t ts IH]; intros full E; cbn [mapM_o] in *; [done|].
  apply bind_Ok_inv in E as (t' & Et & E). apply bind_Ok_inv in E as (r & Er & [= <-]).
  unfold image in Et. apply bind_Ok_inv in Et as (fs & Efs & [= <-]).
  assert (project_tuple bcs t = Ok (Tuple_new fs)) as -> by (unfold project_tuple; by rewrite (E3 t fs Efs)).
  mstep. by rewrite (IH r Er).
Qed.

(** A scan's own filter and projection act on the scanned tuples. *)
Lemma scan_items_filter flt prj items : forall ts ts1 full,
  scan_items None None items = Ok ts -> filterM_o (scan_keeps flt) ts = Ok ts1 ->
  mapM_o (scan_project prj) ts1 = Ok full -> scan_items flt prj items = Ok full.
Proof.
  induction items as [|[bs id] items IH]; intros ts ts1 full E1 E2 E3; cbn [scan_items] in *.
  - injection E1 as <-. injection E2 as <-. by injection E3 as <-.
  - apply bind_Ok_inv in E1 as (t & Et & E1). cbn in E1. apply bind_Ok_inv in E1 as (r & Er & [= <-]).
    rewrite Et. mstep. cbn [filterM_o] in E2. apply bind_Ok_inv in E2 as (b & Eb & E2).
    apply bind_Ok_inv in E2 as (r1 & Er1 & [= <-]). rewrite Eb. mstep. destruct b.
    + cbn [mapM_o] in E3. apply bind_Ok_inv in E3 as (t' & Et' & E3).
      apply bind_Ok_inv in E3 as (r2 & Er2 & [= <-]). rewrite Et'. mstep. by rewrite (IH r r1 r2).
    + by apply (IH r r1 full).
Qed.

Lemma mapM_o_id {A} (l : list A) : mapM_o (fun a => Ok a) l = (Ok l : result (list A)).
Proof. induction l as [|a l IH]; cbn [mapM_o]; [done|]. mstep. by rewrite IH. Qed.

Lemma filterM_o_true {A} (l : list A) : filterM_o (fun _ => Ok true) l = (Ok l : result (list A)).
Proof. induction l as [|a l IH]; cbn [filterM_o]; [done|]. mstep. by rewrite IH. Qed.

Lemma build_scan_ok c flt prj sc full :
  meaning catalog table (TScan c flt prj) = Ok (sc, full) ->
  exists op, build_scan (It := It) catalog c flt prj = Ok op /\ get_schema op = sc /\ den s op full.
Proof.
  cbn [meaning]. intros E. apply bind_Ok_inv in E as (in_sc & Esc & E).
  apply bind_Ok_inv in E as (ts & Ets & E). apply bind_Ok_inv in E as (ts1 & Ef & E).
  apply bind_Ok_inv in E as (ts2 & Ep & E). apply bind_Ok_inv in E as (out_sc & Eo & [= <- <-]).
  destruct (table c) as [ts0|] eqn:Et; [|done]. injection Ets as ->.
  destruct (Htable c ts Et) as (it & items & Eg & Y & Ei).
  unfold build_scan. rewrite Esc. mstep. rewrite Eo. mstep.
  assert (exists f, map_transpose (fun f => convert_ast_to_bytecode f in_sc) flt = Ok f /\
            filterM_o (scan_keeps f) ts = Ok ts1) as (f & -> & Hf).
  { destruct flt as [p|]; cbn [map_transpose].
    - destruct (select_ok (fun bc => scan_keeps (Some bc)) in_sc p ts ts1) as (bc & -> & Hb); [|done|by exists (Some bc)].
      intros bc t b E. cbn [scan_keeps]. by rewrite E.
    - injection Ef as <-. exists None. split; [done|]. apply filterM_o_true. }
  mstep.
  assert (exists q, map_transpose (mapM_o (fun e => convert_ast_to_bytecode e in_sc)) prj = Ok q /\
            mapM_o (scan_project q) ts1 = Ok ts2) as (q & -> & Hq).
  { destruct prj as [es|]; cbn [map_transpose].
    - destruct (project_ok in_sc es ts1 ts2 Ep) as (bcs & -> & _ & Hb). by exists (Some bcs).
    - injection Ep as <-. exists None. split; [done|]. apply mapM_o_id. }
  mstep. eexists. split; [done|]. split; [done|]. eapply den_scan; [done|done|].
  by eapply scan_items_filter.
Qed.

(** Building the operators of a represented plan. *)
Lemma build_ok lp pp t i sc full fuel :
  graph_wf (p_dataflow pp) ->
  (forall i, PP_get_operator pp i = get_operator lp i ≫= phys) ->
  (forall i, out (edge_list (p_dataflow pp)) i = out (edge_list (dataflow lp)) i) ->
  represents lp i t -> meaning catalog table t = Ok (sc, full) -> (height t <= fuel)%nat ->
  exists op, physical_plan_to_op_iterator_helper (It := It) catalog pp fuel i = Ok op /\
    get_schema op = sc /\ den s op full.
Proof.
  intros W Hop Hout R. revert sc full fuel.
  assert (forall i op, PP_get_operator pp i = Some op ->
            PP_edges pp i = Ok (out (edge_list (dataflow lp)) i)) as He.
  { intros j op E. unfold PP_edges. rewrite edges_ok, Hout; [done|done|].
    unfold PP_get_operator, node_data in E. destruct (nodes (p_dataflow pp) !! j) eqn:En; [|done].
    by eapply lookup_lt_Some. }
  induction R as [i op E O|i j op t E O R IH|i j k op l r E O Rl IHl Rr IHr];
    intros sc full [|fuel] M Hf; try (cbn [height] in Hf; lia); cbn [physical_plan_to_op_iterator_helper];
    pose proof (Hop i) as Ei; rewrite E in Ei;
    [destruct op as [c flt prj| | | | | | | | |]; try done
    |destruct op as [|es|p| | | | | | |]; try done
    |destruct op as [| | | | |[?|]| | | |]; try done]; cbn in Ei;
    rewrite (He i _ Ei), O; mstep; rewrite Ei; cbn [ok_or]; mstep; cbn [build_op next_child].
  - destruct (build_scan_ok c flt prj sc full M) as (op & -> & Hs & D). mstep. eauto.
  - cbn [meaning] in M. apply bind_Ok_inv in M as ([sc1 ts] & M & E1).
    apply bind_Ok_inv in E1 as (attrs & Ea & E1). apply bind_Ok_inv in E1 as (ts' & Es & [= <- <-]).
    cbn [height] in Hf. destruct (IH sc1 ts fuel M) as (op & -> & <- & D); [lia|]. mstep.
    unfold build_project. rewrite Ea. mstep.
    destruct (project_ok (get_schema op) es ts ts' Es) as (bcs & _ & -> & Hb).
    mstep. eexists. split; [done|]. split; [done|]. by eapply den_project.
  - cbn [meaning] in M. apply bind_Ok_inv in M as ([sc1 ts] & M & E1).
    apply bind_Ok_inv in E1 as (ts' & Es & [= <- <-]). cbn [height] in Hf.
    destruct (IH sc1 ts fuel M) as (op & -> & <- & D); [lia|]. mstep.
    unfold build_filter. destruct (select_ok filter_keeps (get_schema op) p ts ts') as (bc & -> & Hb); [|done|].
    { intros bc t' b Eb. unfold filter_keeps. by rewrite Eb. }
    mstep. eexists. split; [done|]. split; [done|]. by eapply den_filter.
  - cbn [meaning] in M. apply bind_Ok_inv in M as ([sl tl] & Ml & E1).
    apply bind_Ok_inv in E1 as ([sr tr] & Mr & [= <- <-]). cbn [height] in Hf.
    destruct (IHl sl tl fuel Ml) as (opl & -> & <- & Dl); [lia|]. mstep. cbn [next_child].
    destruct (IHr sr tr fuel Mr) as (opr & -> & <- & Dr); [lia|]. mstep.
    eexists. split; [done|]. split; [done|]. by apply den_cross.
Qed.
End Operators.

(** ** More fuel builds the same operators *)

Section Fuel.
Context `{Chrono} {It : Type} (catalog : Catalog) (pp : PhysicalPlan).

Lemma next_child_mono (h h' : NodeIndex -> result (Op It)) ch x :
  (forall i o, h i = Ok o -> h' i = Ok o) -> next_child h ch = Ok x -> next_child h' ch = Ok x.
Proof.
  intros Hh. destruct ch as [|n ch]; cbn [next_child]; [done|]. intros (o & E & [= <-])%bind_Ok_inv.
  by rewrite (Hh n o E).
Qed.

Lemma build_op_mono (h h' : NodeIndex -> result (Op It)) op ch x :
  (forall i o, h i = Ok o -> h' i = Ok o) -> build_op catalog h op ch = Ok x -> build_op catalog h' op ch = Ok x.
Proof.
  intros Hh. pose proof (fun c y => next_child_mono h h' c y Hh) as Hn.
  destruct op; cbn [build_op]; try done; intros (y & E & Ey)%bind_Ok_inv; rewrite (Hn _ _ E); destruct y as [o c];
    mstep; try exact Ey; apply bind_Ok_inv in Ey as ([o2 c2] & E2 & Ey); rewrite (Hn _ _ E2); exact Ey.
Qed.

Lemma helper_mono fuel : forall fuel' i op, (fuel <= fuel')%nat ->
  physical_plan_to_op_iterator_helper (It := It) catalog pp fuel i = Ok op ->
  physical_plan_to_op_iterator_helper (It := It) catalog pp fuel' i = Ok op.
Proof.
  induction fuel as [|fuel IH]; intros [|fuel'] i op Hf; try done; [lia|]. cbn [physical_plan_to_op_iterator_helper].
  intros (ch & -> & (o & -> & ([o' c] & E & Er)%bind_Ok_inv)%bind_Ok_inv)%bind_Ok_inv. mstep.
  rewrite (build_op_mono _ (physical_plan_to_op_iterator_helper catalog pp fuel') _ _ _
             (fun j o2 => IH fuel' j o2 ltac:(lia)) E). mstep.
  destruct c as [|n c]; cbn [refuse_extra] in *; [done|].
  destruct (physical_plan_to_op_iterator_helper catalog pp fuel n); done.
Qed.
End Fuel.
