(* ===== verification/PlanMerge.v ===== *)
(** * Merging plans

    [LogicalPlan::merge] puts a new root over a plan and a copy of another one. *)

From S2P Require Import Prelude Common Types Expr Graph GraphProofs Plan PlannerProofs.

(** Children as a function of the endpoints. *)
Definition outp (l : list (nat * nat)) (s : nat) : list nat :=
  rev (omap (fun p => if decide (p.1 = s) then Some p.2 else None) l).

Lemma out_outp {T} (g : CrustyGraph T) s : out (edge_list g) s = outp (endpoints g) s.
Proof.
  unfold out, outp, endpoints. f_equal. induction (edge_list g) as [|e l IH]; [done|].
  cbn [omap list_omap fmap list_fmap fst snd]. by rewrite IH.
Qed.

Lemma outp_app l1 l2 s : outp (l1 ++ l2) s = outp l2 s ++ outp l1 s.
Proof. unfold outp. by rewrite omap_app, rev_app_distr. Qed.

Lemma outp_nil l s : (forall u v, (u, v) ∈ l -> u <> s) -> outp l s = [].
Proof.
  intros Hl. unfold outp. induction l as [|[u v] l IH]; [done|]. cbn [omap list_omap fst].
  rewrite decide_False by (apply (Hl u v); by apply list_elem_of_here).
  apply IH. intros u' v' Hin. apply (Hl u' v'). by apply list_elem_of_further.
Qed.

Definition shift (n : nat) (p : nat * nat) : nat * nat := (n + p.1, n + p.2)%nat.

Lemma fmap_rev {A B} (f : A -> B) (l : list A) : f <$> rev l = rev (f <$> l).
Proof. induction l as [|a l IH]; [done|]. cbn. by rewrite fmap_app, IH. Qed.

Lemma outp_shift n l s : outp (shift n <$> l) (n + s) = Nat.add n <$> outp l s.
Proof.
  unfold outp. rewrite fmap_rev. f_equal. induction l as [|[u v] l IH]; [done|].
  cbn [omap list_omap fmap list_fmap shift fst snd].
  destruct (decide (u = s)) as [->|Hne].
  - rewrite decide_True by done. cbn [fmap list_fmap]. by rewrite IH.
  - rewrite decide_False by lia. done.
Qed.

Lemma endpoints_bound {T} (g : CrustyGraph T) u v : graph_wf g -> (u, v) ∈ endpoints g ->
  (u < length (nodes g) /\ v < length (nodes g))%nat.
Proof. intros W (e & [= -> ->] & He)%list_elem_of_fmap. by apply (gw_edges g W). Qed.

Lemma get_operator_lt lp i op : get_operator lp i = Some op -> (i < length (nodes (dataflow lp)))%nat.
Proof.
  unfold get_operator, node_data. destruct (nodes (dataflow lp) !! i) eqn:E; [|done]. intros _.
  by eapply lookup_lt_Some.
Qed.

(** ** Copying the nodes *)

(** [lp'] is [lp] with the operators [ops] added and the same edges. *)
Record extends (lp lp' : LogicalPlan) (ops : list LogicalOp) : Prop := {
  ex_wf : plan_wf lp';
  ex_len : length (nodes (dataflow lp')) = (length (nodes (dataflow lp)) + length ops)%nat;
  ex_ends : endpoints (dataflow lp') = endpoints (dataflow lp);
  ex_root : is_Some (root lp) -> root lp' = root lp;
  ex_old : forall i, (i < length (nodes (dataflow lp)))%nat -> get_operator lp' i = get_operator lp i;
  ex_new : forall j, get_operator lp' (length (nodes (dataflow lp)) + j) = ops !! j;
}.

Lemma extends_refl lp : plan_wf lp -> extends lp lp [].
Proof.
  intros W. split; [done|cbn; lia|done..|]. intros j. rewrite lookup_nil.
  unfold get_operator, node_data. rewrite lookup_ge_None_2 by lia. done.
Qed.

Lemma extends_node lp lp' ops op : extends lp lp' ops ->
  extends lp (LP_add_node lp' op).1 (ops ++ [op]) /\
  (LP_add_node lp' op).2 = (length (nodes (dataflow lp)) + length ops)%nat.
Proof.
  intros [W L En R O N]. split; [|unfold LP_add_node; cbn [add_node snd]; exact L].
  split.
  - by apply LP_add_node_wf.
  - unfold LP_add_node. cbn [add_node fst dataflow nodes]. rewrite !length_app, L. cbn. lia.
  - exact En.
  - intros Hr. specialize (R Hr). unfold LP_add_node. cbn [add_node fst root]. rewrite R.
    destruct Hr as [r ->]. done.
  - intros i Hi. rewrite <- (O i Hi). unfold LP_add_node, get_operator, node_data.
    cbn [add_node fst dataflow nodes]. by rewrite lookup_app_l by lia.
  - intros j. unfold LP_add_node, get_operator, node_data. cbn [add_node fst dataflow nodes].
    specialize (N j). unfold get_operator, node_data in N.
    destruct (decide (j < length ops)%nat) as [Hj|Hj].
    + rewrite lookup_app_l by lia. rewrite lookup_app_l by done. exact N.
    + rewrite lookup_app_r by lia. rewrite lookup_app_r by lia. rewrite L.
      replace (length (nodes (dataflow lp)) + j - (length (nodes (dataflow lp)) + length ops))%nat
        with (j - length ops)%nat by lia.
      by destruct (j - length ops)%nat.
Qed.

Lemma merge_nodes_ok lp (l : list (Node LogicalOp)) : forall lp' (m : gmap nat nat) ops,
  extends lp lp' ops ->
  (forall j, (j < length ops)%nat -> m !! j = Some (length (nodes (dataflow lp)) + j)%nat) ->
  exists lp2 m2, foldl merge_node (lp', m) (zip (seq (length ops) (length l)) l) = (lp2, m2) /\
    extends lp lp2 (ops ++ (data <$> l)) /\
    (forall j, (j < length ops + length l)%nat -> m2 !! j = Some (length (nodes (dataflow lp)) + j)%nat).
Proof.
  induction l as [|nd l IH]; intros lp' m ops X Hm; cbn [length seq zip zip_with foldl fmap list_fmap].
  - exists lp', m. rewrite app_nil_r. split_and!; [done..|]. intros j Hj. apply Hm. lia.
  - destruct (extends_node lp lp' ops (data nd) X) as [X' Hi].
    assert (merge_node (lp', m) (length ops, nd) =
      ((LP_add_node lp' (data nd)).1,
       <[length ops := (length (nodes (dataflow lp)) + length ops)%nat]> m)) as ->.
    { unfold merge_node. rewrite <- Hi. by destruct (LP_add_node lp' (data nd)). }
    destruct (IH (LP_add_node lp' (data nd)).1
                (<[length ops := (length (nodes (dataflow lp)) + length ops)%nat]> m)
                (ops ++ [data nd]) X') as (lp2 & m2 & E & X2 & Hm2).
    { intros j Hj. rewrite length_app in Hj. cbn in Hj. destruct (decide (j = length ops)) as [->|].
      - by rewrite lookup_insert_eq.
      - rewrite lookup_insert_ne by done. apply Hm. lia. }
    rewrite length_app in E, Hm2. cbn [length] in E, Hm2. rewrite Nat.add_1_r in E.
    exists lp2, m2. split; [exact E|]. rewrite <- app_assoc in X2. split; [exact X2|].
    intros j Hj. apply Hm2. lia.
Qed.

(** ** Copying the edges *)

Lemma merge_edges_ok n k (m : gmap nat nat) (l : list Edge) : forall lp r,
  plan_wf lp -> length (nodes (dataflow lp)) = (n + k)%nat ->
  (forall j, (j < k)%nat -> m !! j = Some (n + j)%nat) ->
  (forall e, e ∈ l -> (source e < k /\ target e < k)%nat /\ source e <> target e) ->
  root lp = Some r -> (r < n)%nat ->
  exists lp', foldM (merge_edge m) lp l = Ok lp' /\ plan_wf lp' /\ root lp' = Some r /\
    length (nodes (dataflow lp')) = (n + k)%nat /\
    (forall i, get_operator lp' i = get_operator lp i) /\
    endpoints (dataflow lp') = endpoints (dataflow lp) ++ (shift n <$> ((fun e => (source e, target e)) <$> l)).
Proof.
  induction l as [|e l IH]; intros lp r W L Hm Hl Hr Hrn; cbn [foldM fmap list_fmap].
  - exists lp. by rewrite app_nil_r.
  - destruct (Hl e) as [[Hs Ht] Hne]; [by apply list_elem_of_here|].
    destruct (LP_add_edge_wf lp (n + source e) (n + target e) W) as (lp1 & E1 & W1 & N1 & L1 & O1 & R1);
      [lia..|].
    assert (merge_edge m lp e = Ok lp1) as ->.
    { unfold merge_edge. rewrite (Hm _ Hs), (Hm _ Ht). exact E1. }
    mstep. destruct (IH lp1 r W1) as (lp2 & E2 & W2 & R2 & L2 & O2 & N2); [lia|done| | |done|].
    { intros e' He'. apply Hl. by apply list_elem_of_further. }
    { rewrite R1, Hr. cbn. by rewrite decide_False by lia. }
    exists lp2. split_and!; [done..| |].
    + intros i. by rewrite O2.
    + rewrite N2, N1, <- app_assoc. done.
Qed.

(** ** The merged plan *)

Record merged (lp other lp' : LogicalPlan) (op : LogicalOp) (rl rr : nat) : Prop := {
  mg_wf : plan_wf lp';
  mg_len : length (nodes (dataflow lp')) = S (length (nodes (dataflow lp)) + length (nodes (dataflow other)));
  mg_root : root lp' = Some (length (nodes (dataflow lp)) + length (nodes (dataflow other)))%nat;
  mg_op : get_operator lp' (length (nodes (dataflow lp)) + length (nodes (dataflow other))) = Some op;
  mg_children : out (edge_list (dataflow lp')) (length (nodes (dataflow lp)) + length (nodes (dataflow other)))
                = [rl; (length (nodes (dataflow lp)) + rr)%nat];
  mg_left : forall i, (i < length (nodes (dataflow lp)))%nat ->
    get_operator lp' i = get_operator lp i /\
    out (edge_list (dataflow lp')) i = out (edge_list (dataflow lp)) i;
  mg_right : forall j, (j < length (nodes (dataflow other)))%nat ->
    get_operator lp' (length (nodes (dataflow lp)) + j) = get_operator other j /\
    out (edge_list (dataflow lp')) (length (nodes (dataflow lp)) + j) =
      Nat.add (length (nodes (dataflow lp))) <$> out (edge_list (dataflow other)) j;
}.

(** The children follow from the endpoints of the edges. *)
Lemma merged_shape lp other lp' op rl rr :
  let n := length (nodes (dataflow lp)) in
  let k := length (nodes (dataflow other)) in
  plan_wf lp -> plan_wf other -> plan_wf lp' -> length (nodes (dataflow lp')) = S (n + k) ->
  (rl < n)%nat -> (rr < k)%nat -> is_join_op op = true ->
  root lp' = Some (n + k)%nat ->
  endpoints (dataflow lp') =
    ((endpoints (dataflow lp) ++ (shift n <$> endpoints (dataflow other))) ++ [((n + k)%nat, (n + rr)%nat)])
    ++ [((n + k)%nat, rl)] ->
  get_operator lp' (n + k) = Some op ->
  (forall i, (i < n)%nat -> get_operator lp' i = get_operator lp i) ->
  (forall j, (j < k)%nat -> get_operator lp' (n + j) = get_operator other j) ->
  merged lp other lp' op rl rr.
Proof.
  intros n k Wl Wo W' Hlen Hl Hr Hj R N Hop Hold Hnew.
  assert (forall i, outp (endpoints (dataflow lp')) i =
            (if decide (i = (n + k)%nat) then [rl; (n + rr)%nat] else []) ++
            outp (shift n <$> endpoints (dataflow other)) i ++ outp (endpoints (dataflow lp)) i) as Hout.
  { intros i. rewrite N, !outp_app. unfold outp at 1 2. cbn [omap list_omap fst snd].
    destruct (decide (i = (n + k)%nat)) as [->|Hne]; [by rewrite !decide_True by done|].
    by rewrite !decide_False by lia. }
  assert (forall i, (n <= i)%nat -> outp (endpoints (dataflow lp)) i = []) as Hlow.
  { intros i Hi. apply outp_nil. intros u v Hin. apply endpoints_bound in Hin; [fold n in Hin; lia|apply Wl]. }
  assert (forall i, (i < n \/ n + k <= i)%nat -> outp (shift n <$> endpoints (dataflow other)) i = []) as Hhigh.
  { intros i Hi. apply outp_nil. intros u v ([u' v'] & [= -> ->] & Hin)%list_elem_of_fmap.
    apply endpoints_bound in Hin; [|apply Wo]. fold k in Hin. cbn [fst snd]. lia. }
  split; fold n; fold k; [done..| | |].
  - rewrite out_outp, Hout, decide_True, Hhigh, Hlow by lia. done.
  - intros i Hi. split; [by apply Hold|]. rewrite !out_outp, Hout, decide_False, Hhigh by lia. done.
  - intros j Hj'. split; [by apply Hnew|].
    rewrite !out_outp, Hout, decide_False, (Hlow (n + j)%nat) by lia. by rewrite outp_shift, app_nil_r.
Qed.

Lemma merge_ok lp other op rl rr :
  plan_wf lp -> plan_wf other -> is_join_op op = true -> root lp = Some rl -> root other = Some rr ->
  (rl < length (nodes (dataflow lp)))%nat -> (rr < length (nodes (dataflow other)))%nat ->
  exists lp', merge lp op other = Ok lp' /\ merged lp other lp' op rl rr.
Proof.
  intros Wl Wo Hj Rl Rr Hl Hr. unfold merge. rewrite Hj, Rl, Rr. cbn [negb unwrap_opt]. mstep.
  unfold node_references, edge_references.
  destruct (merge_nodes_ok lp (nodes (dataflow other)) lp ∅ [] (extends_refl lp Wl)) as (lp1 & m & E1 & X1 & Hm);
    [cbn; lia|]. cbn [length app] in *. rewrite E1. rewrite Nat.add_0_l in Hm.
  pose proof X1 as [W1 L1 N1 R1 O1 New1]. rewrite length_fmap in L1.
  destruct (merge_edges_ok (length (nodes (dataflow lp))) (length (nodes (dataflow other))) m
              (edge_list (dataflow other)) lp1 rl W1 L1 Hm) as (lp2 & E2 & W2 & R2 & L2 & O2 & N2).
  { intros e He. split; [by apply (gw_edges _ (pw_graph _ Wo))|]. apply (pw_loops _ Wo).
    apply list_elem_of_fmap. by exists e. }
  { rewrite R1; [done|by eexists]. } { done. }
  rewrite E2. mstep. destruct (extends_node lp2 lp2 [] op (extends_refl lp2 W2)) as [X3 I3].
  cbn [length app] in X3, I3. rewrite Nat.add_0_r in I3.
  destruct (LP_add_node lp2 op) as [lp3 k]. cbn [fst snd] in *. subst k.
  pose proof X3 as [W3 L3 N3 R3 O3 New3]. cbn [length] in L3. rewrite L2 in *.
  rewrite (Hm rr Hr). cbn [unwrap_opt]. mstep.
  destruct (LP_add_edge_wf lp3 (length (nodes (dataflow lp)) + length (nodes (dataflow other)))
              (length (nodes (dataflow lp)) + rr) W3) as (lp4 & E4 & W4 & N4 & L4 & O4 & R4); [lia..|].
  rewrite E4. mstep.
  destruct (LP_add_edge_wf lp4 (length (nodes (dataflow lp)) + length (nodes (dataflow other)))
              rl W4) as (lp5 & E5 & W5 & N5 & L5 & O5 & R5); [lia..|].
  rewrite E5. exists lp5. split; [done|].
  rewrite R3 in R4 by (by eexists). rewrite R2 in R4. cbn in R4. rewrite decide_False in R4 by lia.
  rewrite R4 in R5. cbn in R5. rewrite decide_True in R5 by done.
  rewrite N4, N3, N2, N1 in N5. fold (endpoints (dataflow other)) in N5.
  assert (forall i, (i < length (nodes (dataflow lp)) + length (nodes (dataflow other)))%nat ->
            get_operator lp5 i = get_operator lp1 i) as Hget.
  { intros i Hi. by rewrite O5, O4, O3, O2. }
  apply merged_shape; [done|done|done|lia|lia|lia|done|exact R5|exact N5| | |].
  - rewrite O5, O4. specialize (New3 0%nat). by rewrite Nat.add_0_r in New3.
  - intros i Hi. rewrite Hget by lia. by apply O1.
  - intros j Hj'. rewrite Hget by lia. by rewrite New1, list_lookup_fmap.
Qed.

(** Growing a plan without new edges out of its nodes keeps what they represent. *)
Lemma represents_mono lp lp' i t :
  (forall i, (i < length (nodes (dataflow lp)))%nat -> get_operator lp' i = get_operator lp i /\
     out (edge_list (dataflow lp')) i = out (edge_list (dataflow lp)) i) ->
  represents lp i t -> represents lp' i t.
Proof.
  intros Hs. induction 1 as [i o E O|i j o t E O R IH|i j k o l r E O Rl IHl Rr IHr];
    destruct (Hs i (get_operator_lt _ _ _ E)) as [E' O']; rewrite E in E'; rewrite O in O'.
  - by apply rep0.
  - by eapply rep1.
  - by eapply rep2.
Qed.

(** A merged plan represents the product of what the parts represent. *)
Lemma merged_left lp other lp' op rl rr i t :
  plan_wf lp -> merged lp other lp' op rl rr -> represents lp i t -> represents lp' i t.
Proof. intros W M. apply represents_mono, (mg_left _ _ _ _ _ _ M). Qed.

Lemma merged_right lp other lp' op rl rr i t :
  merged lp other lp' op rl rr -> represents other i t ->
  represents lp' (length (nodes (dataflow lp)) + i) t.
Proof.
  intros M. induction 1 as [i o E O|i j o t E O R IH|i j k o l r E O Rl IHl Rr IHr];
    destruct (mg_right _ _ _ _ _ _ M i (get_operator_lt _ _ _ E)) as [E' O']; rewrite E in E'; rewrite O in O'.
  - by apply rep0.
  - by apply (rep1 _ _ _ _ _ E' O').
  - by apply (rep2 _ _ _ _ _ _ _ E' O').
Qed.

Lemma represents_lt lp i t : represents lp i t -> (i < length (nodes (dataflow lp)))%nat.
Proof. destruct 1; by eapply get_operator_lt. Qed.

(** The operators of a tree, and plans without other operators. *)
Fixpoint tree_ops (t : ltree) : list LogicalOp :=
  match t with
  | T0 op => [op]
  | T1 op t => op :: tree_ops t
  | T2 op l r => op :: tree_ops l ++ tree_ops r
  end.

Definition ops_in (lp : LogicalPlan) (l : list LogicalOp) : Prop := forall i op, get_operator lp i = Some op -> op ∈ l.

Lemma merged_ops lp other lp' op rl rr l r : merged lp other lp' op rl rr -> ops_in lp l -> ops_in other r ->
  ops_in lp' (op :: l ++ r).
Proof.
  intros M Hl Hr i o E. pose proof (get_operator_lt _ _ _ E) as Hi. rewrite (mg_len _ _ _ _ _ _ M) in Hi.
  rewrite elem_of_cons, elem_of_app.
  destruct (decide (i < length (nodes (dataflow lp)))%nat) as [Hlt|Hge].
  { rewrite (proj1 (mg_left _ _ _ _ _ _ M i Hlt)) in E. right; left. by eapply Hl. }
  destruct (decide (i = length (nodes (dataflow lp)) + length (nodes (dataflow other)))%nat) as [->|Hne].
  { rewrite (mg_op _ _ _ _ _ _ M) in E. injection E as <-. by left. }
  right; right. apply (Hr (i - length (nodes (dataflow lp)))%nat).
  rewrite <- (proj1 (mg_right _ _ _ _ _ _ M (i - length (nodes (dataflow lp)))%nat ltac:(lia))).
  by replace (length (nodes (dataflow lp)) + (i - length (nodes (dataflow lp))))%nat with i by lia.
Qed.

(** [merge] under a join operator stands for that operator over both plans. *)
Lemma merge_represents lp other op rl rr l r :
  plan_wf lp -> plan_wf other -> is_join_op op = true -> root lp = Some rl -> root other = Some rr ->
  represents lp rl l -> represents other rr r ->
  exists lp' k, merge lp op other = Ok lp' /\ plan_wf lp' /\ root lp' = Some k /\ represents lp' k (T2 op l r) /\
    forall a b, ops_in lp a -> ops_in other b -> ops_in lp' (op :: a ++ b).
Proof.
  intros Wl Wo Hj Rl Rr Pl Pr.
  destruct (merge_ok lp other op rl rr Wl Wo Hj Rl Rr (represents_lt _ _ _ Pl)
              (represents_lt _ _ _ Pr)) as (lp' & E & M).
  exists lp'. eexists. split; [done|]. split; [apply (mg_wf _ _ _ _ _ _ M)|].
  split; [apply (mg_root _ _ _ _ _ _ M)|]. split; [|intros a b; by apply (merged_ops lp other lp' op rl rr)].
  eapply rep2; [apply (mg_op _ _ _ _ _ _ M)|apply (mg_children _ _ _ _ _ _ M)| |].
  - exact (merged_left _ _ _ _ _ _ _ _ Wl M Pl).
  - exact (merged_right _ _ _ _ _ _ _ _ M Pr).
Qed.

(** A node over the root. *)
Lemma over_root_represents lp op r t :
  plan_wf lp -> root lp = Some r -> represents lp r t ->
  exists lp' k, (let '(lp, i) := LP_add_node lp op in LP_add_edge lp i r) = Ok lp' /\ plan_wf lp' /\
    root lp' = Some k /\ represents lp' k (T1 op t) /\ forall a, ops_in lp a -> ops_in lp' (op :: a).
Proof.
  intros W Hr R. pose proof (represents_lt _ _ _ R) as Hlt.
  destruct (extends_node lp lp [] op (extends_refl lp W)) as [X Hi].
  destruct (LP_add_node lp op) as [lp1 k]. cbn [fst snd app length] in *. rewrite Nat.add_0_r in Hi. subst k.
  destruct X as [W1 L1 N1 R1 O1 New1]. cbn [length] in L1.
  destruct (LP_add_edge_wf lp1 (length (nodes (dataflow lp))) r W1) as (lp2 & E2 & W2 & N2 & L2 & O2 & R2); [lia..|].
  exists lp2. eexists. split; [exact E2|]. split; [exact W2|].
  split; [rewrite R2, R1 by (by eexists); rewrite Hr; cbn; by rewrite decide_True by done|].
  assert (forall i, out (edge_list (dataflow lp2)) i =
            (if decide (length (nodes (dataflow lp)) = i) then [r] else []) ++ out (edge_list (dataflow lp)) i) as Ho.
  { intros i. rewrite !out_outp, N2, outp_app, N1. unfold outp at 1. cbn [omap list_omap fst snd].
    by destruct (decide _). }
  pose proof (New1 0%nat) as Hop. rewrite Nat.add_0_r in Hop. cbn [lookup list_lookup] in Hop.
  split; [|intros a Ha i o E; rewrite O2 in E; apply elem_of_cons; pose proof (get_operator_lt _ _ _ E) as Hi;
           destruct (decide (i = length (nodes (dataflow lp)))) as [->|];
           [left; congruence|right; rewrite O1 in E by lia; by eapply Ha]].
  eapply rep1.
  - by rewrite O2.
  - rewrite Ho, decide_True by done. cbn [app]. f_equal. rewrite out_outp. apply outp_nil.
    intros u v Hin. apply endpoints_bound in Hin; [lia|apply W].
  - eapply represents_mono; [|exact R]. intros i Hlti. rewrite Ho, decide_False by lia. split; [|done].
    rewrite O2. by apply O1.
Qed.
