(* ===== verification/PlanBuilder.v ===== *)
(** * Plans for tests

    [src/src/optimizer/src/testutil.rs]: builders that write a plan node from
    strings, over the node builders of [src/src/common/src/logical_plan/mod.rs].
    A plan built bottom-up represents the tree it was written as, with the
    operands of joins and products in the opposite order. *)

From S2P Require Import Prelude Common Types Expr Graph GraphProofs Plan PlannerProofs PlanMerge.

(** ** The builders *)

(** [match s.parse::<i64>()]: a number is a literal, anything else a column. *)
Definition operand (s : string) : AstExpr :=
  match parse_i64 s with Some val => ELiteral (FInt val) | None => EIdent s end.

Definition comparison_of (operator : string) : result BooleanOp :=
  match operator with
  | ">=" => Ok BGte
  | "<=" => Ok BLte
  | ">" => Ok BGt
  | "<" => Ok BLt
  | "==" => Ok BEq
  | "!=" => Ok BNeq
  | _ => Panic
  end.

Definition simple_comparison (x : string * string * string) : result AstExpr :=
  let '(lhs, operator, rhs) := x in
  op ← comparison_of operator;
  Ok (EBoolean op (operand lhs) (operand rhs)).

(** [.map(..).reduce(..)]: the conjunction, or nothing for no filters. *)
Definition conjunction (filters : list (string * string * string)) : result (option AstExpr) :=
  es ← mapM_o simple_comparison filters;
  Ok (match es with [] => None | e :: es => Some (foldl (EBoolean BAnd) e es) end).

Definition idents (l : list string) : list AstExpr := EIdent <$> l.

Definition add_simple_scan_node (lp : LogicalPlan) (container_id : ContainerId)
  (filter_strs : option (list (string * string * string))) (projection : option (list string))
  : result (LogicalPlan * NodeIndex) :=
  filter ← match filter_strs with
           | Some filters => o ← conjunction filters; e ← unwrap_opt o; Ok (Some e)
           | None => Ok None
           end;
  Ok (add_scan_node lp container_id filter (idents <$> projection)).

Definition add_simple_filter_node (lp : LogicalPlan) (lhs operator rhs : string) (child_idx : option NodeIndex)
  : result (LogicalPlan * NodeIndex) :=
  filter_predicate ← simple_comparison (lhs, operator, rhs);
  add_filter_node lp filter_predicate child_idx.

Definition add_simple_projection_node (lp : LogicalPlan) (identifiers : list string) (child_idx : option NodeIndex)
  : result (LogicalPlan * NodeIndex) :=
  add_projection_node lp (idents identifiers) child_idx.

(** The filter of a join or a product: [Literal(Null)] for an empty list. *)
Definition join_filter (filter_strs : option (list (string * string * string))) : result (option AstExpr) :=
  match filter_strs with
  | Some filters => o ← conjunction filters; Ok (Some (default (ELiteral FNull) o))
  | None => Ok None
  end.

Definition join_eqs (eqs : list (string * string)) : list (AstExpr * AstExpr) := prod_map EIdent EIdent <$> eqs.

Definition add_simple_join_node (lp : LogicalPlan) (eqs : list (string * string))
  (filter_strs : option (list (string * string * string))) (left_idx right_idx : NodeIndex)
  : result (LogicalPlan * NodeIndex) :=
  filter ← join_filter filter_strs;
  add_join_node lp (join_eqs eqs) filter left_idx right_idx.

Definition add_simple_cross_product_node (lp : LogicalPlan)
  (filter_strs : option (list (string * string * string))) (left_idx right_idx : NodeIndex)
  : result (LogicalPlan * NodeIndex) :=
  filter ← join_filter filter_strs;
  add_cross_product_node lp filter left_idx right_idx.

(** ** One node over its children *)

(** [lp'] is [lp] with one node for [op] at index [k] whose edges go to [cs],
    listed latest first; the rest is as it was. *)
Record grown (lp lp' : LogicalPlan) (op : LogicalOp) (cs : list nat) : Prop := {
  gr_wf : graph_wf (dataflow lp');
  gr_len : length (nodes (dataflow lp')) = S (length (nodes (dataflow lp)));
  gr_op : get_operator lp' (length (nodes (dataflow lp))) = Some op;
  gr_out : out (edge_list (dataflow lp')) (length (nodes (dataflow lp))) = cs;
  gr_old : forall i, (i < length (nodes (dataflow lp)))%nat -> get_operator lp' i = get_operator lp i /\
    out (edge_list (dataflow lp')) i = out (edge_list (dataflow lp)) i;
}.

Lemma grown_node lp op r : graph_wf (dataflow lp) ->
  grown lp (mkLP (add_node (dataflow lp) op).1 r) op [].
Proof.
  intros W. split; unfold get_operator, node_data; cbn [dataflow].
  - by apply add_node_wf.
  - cbn. rewrite length_app. cbn. lia.
  - cbn. by rewrite list_lookup_middle.
  - cbn. apply elem_of_nil_inv. intros v (e & He & Hs & _)%elem_of_out. apply (gw_edges _ W) in He. lia.
  - intros i Hi. cbn. by rewrite lookup_app_l.
Qed.

Lemma grown_edge lp lp' op cs c : grown lp lp' op cs -> (c < length (nodes (dataflow lp)))%nat ->
  exists g, add_edge (dataflow lp') (length (nodes (dataflow lp))) c = Ok g /\
    forall r, grown lp (mkLP g r) op (c :: cs).
Proof.
  intros [W L O Out Old] Hc.
  destruct (add_edge_ok (dataflow lp') (length (nodes (dataflow lp))) c W) as (g & E & W' & L' & _); [lia..|].
  destruct (add_edge_shape _ _ _ _ E) as (Ee & _ & Ed). exists g. split; [done|]. intros r.
  assert (forall i, out (edge_list g) i =
    (if decide (length (nodes (dataflow lp)) = i) then [c] else []) ++ out (edge_list (dataflow lp')) i) as Ho.
  { intros i. rewrite !out_outp, Ee, outp_app. unfold outp at 1. cbn. by destruct (decide _). }
  split; unfold get_operator; cbn [dataflow].
  - done.
  - congruence.
  - by rewrite Ed.
  - by rewrite Ho, decide_True, Out.
  - intros i Hi. rewrite Ed, Ho, decide_False by lia. cbn [app]. by apply Old.
Qed.

Lemma grown_represents lp lp' op cs i t : grown lp lp' op cs -> represents lp i t -> represents lp' i t.
Proof. intros Gr. apply represents_mono, (gr_old _ _ _ _ Gr). Qed.

(** A plan that holds the tree [t] at node [i] and everything [lp] held. *)
Definition built (lp lp' : LogicalPlan) (i : nat) (t : ltree) : Prop :=
  graph_wf (dataflow lp') /\ represents lp' i t /\ forall j u, represents lp j u -> represents lp' j u.

Lemma add_scan_built lp c flt prj : graph_wf (dataflow lp) ->
  exists lp' i, add_scan_node lp c flt prj = (lp', i) /\ built lp lp' i (T0 (LScan c flt prj)).
Proof.
  intros W. unfold add_scan_node. pose proof (fun r => grown_node lp (LScan c flt prj) r W) as Gr.
  destruct (add_node (dataflow lp) (LScan c flt prj)) as [g k] eqn:E. injection E as _ <-.
  eexists _, _. split; [done|]. specialize (Gr (root_or (root lp) (length (nodes (dataflow lp))))).
  split; [apply Gr|]. split; [by apply rep0; apply Gr|]. intros j u. by apply (grown_represents _ _ _ _ _ _ Gr).
Qed.

Lemma add_unary_built lp op i t : graph_wf (dataflow lp) -> represents lp i t ->
  exists lp' k, add_unary lp op (Some i) = Ok (lp', k) /\ built lp lp' k (T1 op t).
Proof.
  intros W R. unfold add_unary. pose proof (grown_node lp op None W) as G0.
  destruct (add_node (dataflow lp) op) as [g k] eqn:E. injection E as _ <-.
  destruct (grown_edge _ _ _ _ i G0 (represents_lt _ _ _ R)) as (g' & E & Gr). cbn [dataflow] in E.
  cbn in E |- *. rewrite E. mstep. eexists _, _. split; [done|]. specialize (Gr (root lp)).
  split; [apply Gr|]. split; [|intros j u; by apply (grown_represents _ _ _ _ _ _ Gr)].
  eapply rep1; [apply Gr|apply Gr|by apply (grown_represents _ _ _ _ _ _ Gr)].
Qed.

(** Over the root of the plan: the new node becomes the root. *)
Lemma add_unary_root lp op i t : graph_wf (dataflow lp) -> root lp = Some i -> represents lp i t ->
  exists lp' k, add_unary lp op None = Ok (lp', k) /\ root lp' = Some k /\ built lp lp' k (T1 op t).
Proof.
  intros W Hr R. unfold add_unary. pose proof (grown_node lp op None W) as G0.
  destruct (add_node (dataflow lp) op) as [g k] eqn:E. injection E as _ <-. rewrite Hr.
  destruct (grown_edge _ _ _ _ i G0 (represents_lt _ _ _ R)) as (g' & E & Gr). cbn [dataflow] in E.
  cbn in E |- *. rewrite E. mstep. eexists _, _. split; [done|]. split; [done|].
  specialize (Gr (Some (length (nodes (dataflow lp))))).
  split; [apply Gr|]. split; [|intros j u; by apply (grown_represents _ _ _ _ _ _ Gr)].
  eapply rep1; [apply Gr|apply Gr|by apply (grown_represents _ _ _ _ _ _ Gr)].
Qed.

(** The edge to the right operand is added last and listed first. *)
Lemma add_binary_built lp op i j l r : graph_wf (dataflow lp) -> represents lp i l -> represents lp j r ->
  exists lp' k, add_binary lp op i j = Ok (lp', k) /\ root lp' = Some k /\ built lp lp' k (T2 op r l).
Proof.
  intros W Rl Rr. unfold add_binary. pose proof (grown_node lp op None W) as G0.
  destruct (add_node (dataflow lp) op) as [g k] eqn:E. injection E as _ <-.
  destruct (grown_edge _ _ _ _ i G0 (represents_lt _ _ _ Rl)) as (g1 & E1 & G1).
  destruct (grown_edge _ _ _ _ j (G1 None) (represents_lt _ _ _ Rr)) as (g2 & E2 & Gr).
  cbn [dataflow] in E1, E2. cbn in E1 |- *. rewrite E1. mstep. rewrite E2. mstep.
  eexists _, _. split; [done|]. split; [done|]. specialize (Gr (Some (length (nodes (dataflow lp))))).
  split; [apply Gr|]. split; [|intros m u; by apply (grown_represents _ _ _ _ _ _ Gr)].
  eapply rep2; [apply Gr|apply Gr|by apply (grown_represents _ _ _ _ _ _ Gr)..].
Qed.

(** ** Whole plans *)

(** A plan as a test writes it. *)
Inductive written :=
| WScan (c : ContainerId) (filters : option (list (string * string * string))) (projection : option (list string))
| WFilter (lhs operator rhs : string) (w : written)
| WProject (identifiers : list string) (w : written)
| WJoin (eqs : list (string * string)) (filters : option (list (string * string * string))) (l r : written)
| WCross (filters : option (list (string * string * string))) (l r : written).

(** Built bottom-up, the left operand first. *)
Fixpoint build (w : written) (lp : LogicalPlan) : result (LogicalPlan * NodeIndex) :=
  match w with
  | WScan c filters projection => add_simple_scan_node lp c filters projection
  | WFilter a op b w => '(lp, i) ← build w lp; add_simple_filter_node lp a op b (Some i)
  | WProject ids w => '(lp, i) ← build w lp; add_simple_projection_node lp ids (Some i)
  | WJoin eqs filters l r =>
      '(lp, i) ← build l lp; '(lp, j) ← build r lp; add_simple_join_node lp eqs filters i j
  | WCross filters l r =>
      '(lp, i) ← build l lp; '(lp, j) ← build r lp; add_simple_cross_product_node lp filters i j
  end.

(** The tree it stands for; no tree for an unknown operator or an empty list of
    filters on a scan. *)
Fixpoint written_tree (w : written) : result ltree :=
  match w with
  | WScan c filters projection =>
      flt ← match filters with
            | Some fs => o ← conjunction fs; e ← unwrap_opt o; Ok (Some e)
            | None => Ok None
            end;
      Ok (T0 (LScan c flt (idents <$> projection)))
  | WFilter a op b w => t ← written_tree w; e ← simple_comparison (a, op, b); Ok (T1 (LFilter e) t)
  | WProject ids w => t ← written_tree w; Ok (T1 (LProject (idents ids)) t)
  | WJoin eqs filters l r =>
      l ← written_tree l; r ← written_tree r; flt ← join_filter filters; Ok (T2 (LJoin (join_eqs eqs) flt) r l)
  | WCross filters l r =>
      l ← written_tree l; r ← written_tree r; flt ← join_filter filters; Ok (T2 (LCrossProduct flt) r l)
  end.

(** [m] builds the tree [t] on top of [lp], or panics when there is none. *)
Definition builds (lp : LogicalPlan) (m : result (LogicalPlan * NodeIndex)) (t : result ltree) : Prop :=
  match t with
  | Ok t => exists lp' i, m = Ok (lp', i) /\ built lp lp' i t
  | Err e => m = Err e
  | Panic => m = Panic
  end.

Lemma built_trans lp lp1 lp2 i j t u : built lp lp1 i t -> built lp1 lp2 j u -> built lp lp2 j u.
Proof. intros (_ & _ & M1) (W & R & M2). split_and!; [done..|]. intros k v Hk. by apply M2, M1. Qed.

Lemma builds_binary lp w1 w2 lp1 (f : LogicalPlan -> nat -> nat -> result (LogicalPlan * nat)) flt (op : option AstExpr -> LogicalOp) :
  (forall lp, graph_wf (dataflow lp) -> builds lp (build w1 lp) (written_tree w1)) ->
  (forall lp, graph_wf (dataflow lp) -> builds lp (build w2 lp) (written_tree w2)) ->
  (forall lp i j, f lp i j = (o ← flt; add_binary lp (op o) i j)) -> graph_wf (dataflow lp) -> lp1 = lp ->
  builds lp ('(lp, i) ← build w1 lp1; '(lp, j) ← build w2 lp; f lp i j)
    (l ← written_tree w1; r ← written_tree w2; o ← flt; Ok (T2 (op o) r l)).
Proof.
  intros IH1 IH2 Hf W ->. specialize (IH1 lp W). destruct (written_tree w1) as [l| |]; cbn in IH1 |- *; [|by rewrite IH1..].
  destruct IH1 as (lp1 & i & -> & B1). mstep. pose proof B1 as (W1 & R1 & _). specialize (IH2 lp1 W1).
  destruct (written_tree w2) as [r| |]; cbn in IH2 |- *; [|by rewrite IH2..].
  destruct IH2 as (lp2 & j & -> & B2). mstep. rewrite Hf. pose proof B2 as (W2 & R2 & M2).
  destruct flt as [o| |]; cbn; [|done..].
  destruct (add_binary_built lp2 (op o) i j l r W2 (M2 _ _ R1) R2) as (lp3 & k & E & _ & B3).
  exists lp3, k. split; [done|]. eauto using built_trans.
Qed.

Lemma written_build_ok w : forall lp, graph_wf (dataflow lp) -> builds lp (build w lp) (written_tree w).
Proof.
  induction w as [c filters prj|a op b w IH|ids w IH|eqs filters l IHl r IHr|filters l IHl r IHr];
    intros lp W; cbn [build written_tree].
  - unfold add_simple_scan_node. destruct (match filters with Some _ => _ | None => _ end) as [flt| |]; mstep; cbn [builds]; [|done..].
    destruct (add_scan_built lp c flt (idents <$> prj) W) as (lp' & i & -> & B). by exists lp', i.
  - specialize (IH lp W). destruct (written_tree w) as [t| |]; mstep; cbn [builds] in IH |- *; [|by rewrite IH..].
    destruct IH as (lp1 & i & -> & B1). mstep. unfold add_simple_filter_node, add_filter_node.
    destruct (simple_comparison (a, op, b)) as [e| |]; mstep; cbn [builds]; [|done..]. pose proof B1 as (W1 & R1 & _).
    destruct (add_unary_built lp1 (LFilter e) i t W1 R1) as (lp2 & k & E & B2). exists lp2, k. eauto using built_trans.
  - specialize (IH lp W). destruct (written_tree w) as [t| |]; mstep; cbn [builds] in IH |- *; [|by rewrite IH..].
    destruct IH as (lp1 & i & -> & B1). mstep. pose proof B1 as (W1 & R1 & _).
    destruct (add_unary_built lp1 (LProject (idents ids)) i t W1 R1) as (lp2 & k & E & B2).
    exists lp2, k. eauto using built_trans.
  - by apply builds_binary.
  - by apply builds_binary.
Qed.

(** The plan builders of the tests build the tree they are asked for: a plan
    of scans, selections, projections, joins and products written with strings
    and built bottom-up holds exactly the tree of its parsed operands and
    operators at the node that is returned (operands of joins and products in the
    opposite order), and it panics when there is no such tree. *)
Theorem written_plan_built w :
  match written_tree w with
  | Ok t => exists lp i, build w LP_new = Ok (lp, i) /\ graph_wf (dataflow lp) /\ represents lp i t
  | Err e => build w LP_new = Err e
  | Panic => build w LP_new = Panic
  end.
Proof.
  pose proof (written_build_ok w LP_new graph_new_wf) as B. destruct (written_tree w) as [t| |]; cbn in B; [|done..].
  destruct B as (lp & i & E & W & R & _). by exists lp, i.
Qed.

(** A product that is added with [left_idx] and [right_idx] lists its right
    operand first, where [merge] lists the left one first. *)
Lemma cross_product_swapped :
  exists lp i, build (WCross None (WScan 1 None None) (WScan 2 None None)) LP_new = Ok (lp, i) /\
    represents lp i (TCross (TScan 2 None None) (TScan 1 None None)).
Proof.
  destruct (written_build_ok (WCross None (WScan 1 None None) (WScan 2 None None)) LP_new graph_new_wf) as (lp & i & E & _ & R & _).
  by exists lp, i.
Qed.

(** An empty list of filters is a panic on a scan and NULL on a product. *)
Lemma empty_filters_differ :
  build (WScan 1 (Some []) None) LP_new = Panic /\ join_filter (Some []) = Ok (Some (ELiteral FNull)).
Proof. done. Qed.
