(* ===== verification/PlannerTheorems.v ===== *)
(** * The planner: the theorems

    From a logical plan to the result of its execution, and merging plans. *)

From S2P Require Import Prelude Bytes Common Types Expr ExprProofs Storage OpIter OpIterProofs OpIterTheorems.
From S2P Require Import Catalog Graph GraphProofs Plan Planner PlannerProofs PlanMerge.
From S2P Require Import MemStore MemStoreProofs MemStoreTheorems.

(** Planning keeps the plan: [logical_plan_to_physical_plan] of a plan whose
    operators the planner supports succeeds, and the physical plan has the same
    nodes with their physical operators, the same children in the same order and
    the same root. *)
Theorem physical_plan_faithful lp :
  plan_wf lp -> (forall i op, get_operator lp i = Some op -> is_Some (phys op)) ->
  exists pp, logical_plan_to_physical_plan lp = Ok pp /\
    (forall i, PP_get_operator pp i = get_operator lp i ≫= phys) /\
    (forall i, (i < node_count (dataflow lp))%nat -> PP_edges pp i = LP_edges lp i) /\
    p_root pp = root lp.
Proof.
  intros W Hp. destruct (physical_plan_ok lp W Hp) as (pp & E & Wp & Hop & Hout & Hl & Hr).
  exists pp. split_and!; [done..| |done]. intros i Hi. unfold PP_edges, LP_edges, node_count in *.
  rewrite !edges_ok by (done || lia || apply W). by rewrite Hout.
Qed.

(** C6: query processing is correct from the logical plan on.  For a plan of
    scans (with filters and projections), selections, projections and products,
    whose expressions bind and evaluate without error on the rows they meet,
    planning and building the operators succeeds, and executing them ends and
    returns the schema and exactly the tuples of the relational expression the
    plan stands for, with attributes looked up by name. *)
Theorem plan_execution_correct `{Profile, Chrono, Cbor} {St It : Type} `{!StorageTrait St It}
  (s : St) catalog table lp r t sc full fuel :
  plan_wf lp -> (forall i op, get_operator lp i = Some op -> is_Some (phys op)) ->
  root lp = Some r -> represents lp r t -> (height t <= fuel)%nat ->
  (forall c ts, table c = Some ts -> holds_table s c ts) ->
  meaning catalog table t = Ok (sc, full) ->
  exists op n,
    (pp ← logical_plan_to_physical_plan lp; physical_plan_to_op_iterator (It := It) catalog pp fuel) = Ok op /\
    forall fuel', (n <= fuel')%nat -> execute fuel' s op = Ok (sc, full).
Proof.
  intros W Hp Hr R Hf Ht M. destruct (physical_plan_ok lp W Hp) as (pp & -> & Wp & Hop & Hout & _ & Hroot).
  mstep. unfold physical_plan_to_op_iterator. rewrite Hroot, Hr. cbn [ok_or]. mstep.
  destruct (build_ok s catalog table Ht lp pp t r sc full fuel Wp Hop Hout R M Hf) as (op & -> & <- & D).
  destruct (execute_den s op full D) as [n E]. by exists op, n.
Qed.

(** A calendar that knows no dates. *)
Definition no_calendar : Chrono := {| parse_date _ := None; format_date _ := None |}.

(** ** A plan for the witnesses: [SELECT a FROM t WHERE a > 4] *)

Definition demo_predicate : AstExpr := EBoolean BGt (EIdent "a") (ELiteral (FInt 4)).
Definition demo_projection : list AstExpr := [EAlias "b" (EMath MAdd (EIdent "a") (ELiteral (FInt 1)))].

Definition scan_plan : LogicalPlan := (LP_add_node LP_new (LScan 1%Z None None)).1.

Lemma scan_plan_ok : plan_wf scan_plan /\ represents scan_plan 0 (TScan 1%Z None None).
Proof. split; [apply LP_add_node_wf, LP_new_wf|by apply rep0]. Qed.

Definition demo_plan : result LogicalPlan :=
  let lp := (LP_add_node scan_plan (LFilter demo_predicate)).1 in
  lp ← LP_add_edge lp 1 0;
  let lp := (LP_add_node lp (LProject demo_projection)).1 in
  LP_add_edge lp 2 1.

Definition demo_tree : ltree := TProject demo_projection (TFilter demo_predicate (TScan 1%Z None None)).

Lemma demo_plan_ok : exists lp, demo_plan = Ok lp /\ plan_wf lp /\ root lp = Some 2%nat /\
  represents lp 2 demo_tree /\ forall i op, get_operator lp i = Some op -> is_Some (phys op).
Proof.
  unfold demo_plan.
  set (lp1 := (LP_add_node scan_plan (LFilter demo_predicate)).1).
  assert (plan_wf lp1) as W1 by (apply LP_add_node_wf, scan_plan_ok).
  destruct (LP_add_edge_wf lp1 1 0 W1) as (lp2 & E2 & W2 & _); [cbn; lia..|done|].
  rewrite E2. mstep. set (lp3 := (LP_add_node lp2 (LProject demo_projection)).1).
  assert (plan_wf lp3) as W3 by (by apply LP_add_node_wf).
  vm_compute in E2. injection E2 as <-.
  destruct (LP_add_edge_wf lp3 2 1 W3) as (lp4 & E4 & W4 & _); [cbn; lia..|done|].
  exists lp4. split; [exact E4|]. split; [exact W4|]. vm_compute in E4. injection E4 as <-.
  split; [done|]. split.
  - apply (rep1 _ _ 1%nat); [done|done|]. apply (rep1 _ _ 0%nat); [done|done|]. by apply rep0.
  - intros [|[|[|i]]] op; vm_compute; intros [= <-]; by eexists.
Qed.

Lemma physical_plan_faithful_witness :
  exists lp pp, demo_plan = Ok lp /\ logical_plan_to_physical_plan lp = Ok pp /\
    p_root pp = Some 2%nat /\ PP_get_operator pp 1 = Some (PFilter demo_predicate).
Proof.
  destruct demo_plan_ok as (lp & E & W & R & _ & Hp).
  destruct (physical_plan_faithful lp W Hp) as (pp & Ep & Hop & _ & Hr).
  exists lp, pp. split; [exact E|]. split; [exact Ep|]. split; [by rewrite Hr|].
  rewrite Hop. vm_compute in E. injection E as <-. reflexivity.
Defined.

Definition demo_catalog : Catalog := (add_table Catalog_new (mkTableInfo 1 "t" demo_schema)).1.

(** The rows 4 and 5, as the scan decodes them. *)
Definition demo_table (c : ContainerId) : option (list Tuple) :=
  if decide (c = 1%Z)
  then Some [mkTuple 0 (Some (Mem.slot_rid 1 1)) [FInt 4]; mkTuple 0 (Some (Mem.slot_rid 1 2)) [FInt 5]]
  else None.

Lemma demo_table_ok c ts : demo_table c = Some ts ->
  holds_table (H := true) (H1 := bit_cbor) (StorageTrait0 := MemStore_trait (H := true)) stored_tuples c ts.
Proof.
  unfold demo_table. case_decide as E; [|done]. subst c. intros [= <-].
  eexists _, _. split; [vm_compute; reflexivity|]. split.
  - eapply yields_cons; [vm_compute; reflexivity|]. eapply yields_cons; [vm_compute; reflexivity|].
    eapply yields_nil; vm_compute; reflexivity.
  - vm_compute. reflexivity.
Qed.

Lemma plan_execution_correct_witness :
  exists lp op n, demo_plan = Ok lp /\
    (pp ← logical_plan_to_physical_plan lp;
     physical_plan_to_op_iterator (H := no_calendar) (It := Mem.ValueIterator) demo_catalog pp 3) = Ok op /\
    forall fuel', (n <= fuel')%nat ->
      execute (H := true) (H0 := bit_cbor) (StorageTrait0 := MemStore_trait (H := true)) fuel' stored_tuples op =
      Ok (TableSchema_new [Attribute_new "b" TInt], [Tuple_new [FInt 6]]).
Proof.
  destruct demo_plan_ok as (lp & E & W & R & T & Hp). exists lp.
  destruct (@plan_execution_correct true no_calendar bit_cbor _ _ (MemStore_trait (H := true)) stored_tuples
              demo_catalog demo_table lp 2 demo_tree (TableSchema_new [Attribute_new "b" TInt])
              [Tuple_new [FInt 6]] 3 W Hp R T) as (op & n & Eo & Ex).
  - cbn. lia.
  - apply demo_table_ok.
  - vm_compute. reflexivity.
  - exists op, n. split; [exact E|]. split; [exact Eo|exact Ex].
Defined.
