(* ===== verification/PlanJson.v ===== *)
(** * Plans as JSON

    [to_json] and [from_json] of [src/src/common/src/logical_plan/mod.rs] and
    [physical_plan/mod.rs].  Both kinds of plan are written and read by the same
    steps; what the steps use of a plan is the class [PlanLike].  The text form of
    JSON and the derived codecs of operators belong to the [serde] crates and are
    parameters. *)

From stdpp Require Import pretty.
From S2P Require Import Prelude Common Types Expr Graph Plan.

Open Scope Z_scope.

(** ** JSON values *)

Inductive Number := PosInt (z : Z) | NegInt (z : Z) | Float (f : f64).

#[local] Unset Elimination Schemes.
Inductive Value :=
| VNull
| VBool (b : bool)
| VNumber (n : Number)
| VString (s : string)
| VArray (l : list Value)
| VObject (m : gmap string Value).
#[local] Set Elimination Schemes.

(** [v["key"]]: anything but an object with the key is [Null]. *)
Definition index (v : Value) (key : string) : Value :=
  match v with VObject m => default VNull (m !! key) | _ => VNull end.

(** Values that keep their identity through text: no floating-point numbers. *)
Inductive plain : Value -> Prop :=
| plain_null : plain VNull
| plain_bool b : plain (VBool b)
| plain_pos z : in_u 64 z -> plain (VNumber (PosInt z))
| plain_neg z : - 2 ^ 63 <= z < 0 -> plain (VNumber (NegInt z))
| plain_string s : plain (VString s)
| plain_array l : (forall v, v ∈ l -> plain v) -> plain (VArray l)
| plain_object m : (forall k v, m !! k = Some v -> plain v) -> plain (VObject m).

(** The text form of [serde_json]. *)
Class JsonText := {
  from_str : string -> option Value;
  to_string : Value -> string;
}.
Class JsonTextLaws `{JsonText} : Prop := from_to_string : forall v, plain v -> from_str (to_string v) = Some v.

(** The codec that is derived for an operator type. *)
Class JsonOp (O : Type) := {
  op_to_value : O -> Value;
  op_from_value : Value -> option O;
}.
Class JsonOpLaws (O : Type) `{JsonOp O} : Prop := {
  op_plain o : plain (op_to_value o);
  op_roundtrip o : op_from_value (op_to_value o) = Some o;
}.

(** The order in which a [HashMap] with string keys is enumerated. *)
Class EntryOrder := entries : forall {A}, gmap string A -> list (string * A).
Class EntryOrderLaws `{EntryOrder} : Prop := entries_perm : forall {A} (m : gmap string A), entries m ≡ₚ map_to_list m.

(** ** [serde_json::from_value] at the types the plans use *)

Definition string_from_value (v : Value) : option string := match v with VString s => Some s | _ => None end.

Definition option_from_value {A} (f : Value -> option A) (v : Value) : option (option A) :=
  match v with VNull => Some None | _ => Some <$> f v end.

Definition u16_from_value (v : Value) : option Z :=
  match v with VNumber (PosInt z) => if bool_decide (0 <= z < 2 ^ 16) then Some z else None | _ => None end.

Definition vec_from_value {A} (f : Value -> option A) (v : Value) : option (list A) :=
  match v with VArray l => mapM f l | _ => None end.

(** A [HashMap] from an object: every value has to convert. *)
Definition map_from_value {A} (f : Value -> option A) (v : Value) : option (gmap string A) :=
  match v with
  | VObject m =>
      if bool_decide (map_Forall (fun _ x => is_Some (f x)) m) then Some (omap f m) else None
  | _ => None
  end.

(** ** Plans *)

(** What reading and writing uses of a plan. *)
Class PlanLike (P O : Type) := {
  pl_new : P;
  pl_add_node : P -> O -> P * NodeIndex;
  pl_add_edge : P -> NodeIndex -> NodeIndex -> result P;
  pl_set_root : P -> option NodeIndex -> P;
  pl_graph : P -> CrustyGraph O;
  pl_root : P -> option NodeIndex;
}.

#[export] Instance LogicalPlan_like : PlanLike LogicalPlan LogicalOp := {|
  pl_new := LP_new;
  pl_add_node := LP_add_node;
  pl_add_edge := LP_add_edge;
  pl_set_root lp r := mkLP (dataflow lp) r;
  pl_graph := dataflow;
  pl_root := root;
|}.

#[export] Instance PhysicalPlan_like : PlanLike PhysicalPlan PhysicalOp := {|
  pl_new := PP_new;
  pl_add_node := PP_add_node;
  pl_add_edge := PP_add_edge;
  pl_set_root pp r := mkPP (p_dataflow pp) r (base_tables pp) (hash_tables pp);
  pl_graph := p_dataflow;
  pl_root := p_root;
|}.

(** Both are a graph with a root that follows the edges. *)
Class PlanLikeLaws (P O : Type) `{PlanLike P O} : Prop := {
  pl_new_graph : pl_graph pl_new = graph_new;
  pl_add_node_eq p o : pl_graph (pl_add_node p o).1 = (add_node (pl_graph p) o).1 /\
    (pl_add_node p o).2 = (add_node (pl_graph p) o).2 /\
    pl_root (pl_add_node p o).1 = root_or (pl_root p) (pl_add_node p o).2;
  pl_set_root_eq p r : pl_graph (pl_set_root p r) = pl_graph p /\ pl_root (pl_set_root p r) = r;
  pl_add_edge_eq p u v : u <> v -> match add_edge (pl_graph p) u v with
    | Ok g => exists p', pl_add_edge p u v = Ok p' /\ pl_graph p' = g /\ pl_root p' = root_after_edge (pl_root p) u v
    | _ => is_ok (pl_add_edge p u v) = false
    end;
  pl_add_edge_loop p u : pl_add_edge p u u = Panic;
}.

#[export] Instance LogicalPlan_like_laws : PlanLikeLaws LogicalPlan LogicalOp.
Proof.
  split; try done. intros p u v Huv. cbn. unfold LP_add_edge. rewrite decide_False by done.
  destruct (add_edge (dataflow p) u v); cbn; [eauto|done..].
  intros p u. cbn. unfold LP_add_edge. by rewrite decide_True.
Qed.

#[export] Instance PhysicalPlan_like_laws : PlanLikeLaws PhysicalPlan PhysicalOp.
Proof.
  split; try done. intros p u v Huv. cbn. unfold PP_add_edge. rewrite decide_False by done.
  destruct (add_edge (p_dataflow p) u v); cbn; [eauto|done..].
  intros p u. cbn. unfold PP_add_edge. by rewrite decide_True.
Qed.

(** ** Writing *)

Section ToJson.
Context {P O : Type} `{PlanLike P O, JsonOp O}.

(** [node_map.insert(i, node.data())] for every node. *)
Definition node_map (p : P) : gmap nat O :=
  foldl (fun m '(i, node) => <[i := data node]> m) ∅ (node_references (pl_graph p)).

(** [edge_map.entry(source).or_insert_with(Vec::new).push(target.to_string())]
    for every edge. *)
Definition push_target (m : gmap nat (list string)) (e : Edge) : gmap nat (list string) :=
  <[source e := default [] (m !! source e) ++ [pretty (target e)]]> m.

Definition edge_map (p : P) : gmap nat (list string) := foldl push_target ∅ (edge_references (pl_graph p)).

(** A map with integer keys becomes an object whose keys are their decimals. *)
Definition map_to_value {A} (f : A -> Value) (m : gmap nat A) : Value :=
  VObject (kmap (M1 := gmap nat) (M2 := gmap string) pretty (f <$> m)).

Definition strings_to_value (l : list string) : Value := VArray (VString <$> l).

Definition root_to_value (r : option NodeIndex) : Value :=
  match r with Some i => VString (pretty i) | None => VNull end.

Definition containers_to_value (l : list ContainerId) : Value := VArray ((fun c => VNumber (PosInt c)) <$> l).
End ToJson.

Definition LP_to_json `{JsonOp LogicalOp} (lp : LogicalPlan) : Value :=
  VObject (list_to_map
    [("nodes", map_to_value op_to_value (node_map lp));
     ("edges", map_to_value strings_to_value (edge_map lp));
     ("root", root_to_value (root lp))]).

Definition PP_to_json `{JsonOp PhysicalOp} (pp : PhysicalPlan) : Value :=
  VObject (list_to_map
    [("nodes", map_to_value op_to_value (node_map pp));
     ("edges", map_to_value strings_to_value (edge_map pp));
     ("root", root_to_value (p_root pp));
     ("base_tables", containers_to_value (base_tables pp));
     ("hash_tables", containers_to_value (hash_tables pp))]).

(** [Display] of plans. *)
Definition LP_display `{JsonText, JsonOp LogicalOp} (lp : LogicalPlan) : string := to_string (LP_to_json lp).
Definition PP_display `{JsonText, JsonOp PhysicalOp} (pp : PhysicalPlan) : string := to_string (PP_to_json pp).

(** ** Reading *)

(** [map_crusty_err]: whatever is wrong with the text is reported as one error. *)
Definition map_crusty_err {A} (r : option A) (err : CrustyError) : result A := ok_or r err.

Section FromJson.
Context {P O : Type} `{PlanLike P O, EntryOrder}.

(** [let node = plan.add_node(val.clone()); graph_map.insert(i, node)] *)
Definition load_node (st : P * gmap string NodeIndex) (x : string * O) : P * gmap string NodeIndex :=
  let '(plan, graph_map) := st in
  let '(i, val) := x in
  let '(plan, node) := pl_add_node plan val in
  (plan, <[i := node]> graph_map).

Definition load_edge (err : CrustyError) (graph_map : gmap string NodeIndex) (source_node : NodeIndex) (plan : P)
  (target : string) : result P :=
  target_node ← ok_or (graph_map !! target) err;
  pl_add_edge plan source_node target_node.

Definition load_edges (err : CrustyError) (graph_map : gmap string NodeIndex) (plan : P) (x : string * list string)
  : result P :=
  let '(source, targets) := x in
  source_node ← ok_or (graph_map !! source) err;
  foldM (load_edge err graph_map source_node) plan targets.

(** The root is set before the edges are added. *)
Definition load_root (err : CrustyError) (graph_map : gmap string NodeIndex) (plan : P) (root : option string)
  : result P :=
  match root with
  | Some i => root_node ← ok_or (graph_map !! i) err; Ok (pl_set_root plan (Some root_node))
  | None => Ok plan
  end.

Definition load_plan (err : CrustyError) (nodes : gmap string O) (edges : gmap string (list string))
  (root : option string) : result P :=
  let '(plan, graph_map) := foldl load_node (pl_new, ∅) (entries nodes) in
  plan ← load_root err graph_map plan root;
  foldM (load_edges err graph_map) plan (entries edges).
End FromJson.

Section Checked.
Context `{Profile, HashOrder, JsonText, EntryOrder}.

Definition LP_cycle_free (lp : LogicalPlan) : result bool := cycle_free (dataflow lp).

Definition LP_from_json `{JsonOp LogicalOp} (json : string) : result LogicalPlan :=
  let malformed_err := CrustyErr "Malformatted logical plan json" in
  v ← map_crusty_err (from_str json) malformed_err;
  nodes ← map_crusty_err (map_from_value op_from_value (index v "nodes")) malformed_err;
  edges ← map_crusty_err (map_from_value (vec_from_value string_from_value) (index v "edges")) malformed_err;
  root ← map_crusty_err (option_from_value string_from_value (index v "root")) malformed_err;
  plan ← load_plan malformed_err nodes edges root;
  b ← LP_cycle_free plan;
  if negb b then Err (CrustyErr "Logical Plan loaded from json contains a cycle")
  else
    b ← LP_all_reachable_from_root plan;
    if negb b then Err (CrustyErr "Logical Plan loaded from json contains nodes not reachable from root")
    else Ok plan.

Definition PP_cycle_free (pp : PhysicalPlan) : result bool := cycle_free (p_dataflow pp).

Definition PP_all_reachable_from_root (pp : PhysicalPlan) : result bool :=
  match p_root pp with
  | Some node => all_reachable_from_node (p_dataflow pp) node
  | None => Err (CrustyErr "Physical plan loaded from json has no root")
  end.

Definition PP_from_json `{JsonOp PhysicalOp} (json : string) : result PhysicalPlan :=
  let malformed_err := CrustyErr "Malformatted Physical plan json" in
  v ← map_crusty_err (from_str json) malformed_err;
  nodes ← map_crusty_err (map_from_value op_from_value (index v "nodes")) malformed_err;
  edges ← map_crusty_err (map_from_value (vec_from_value string_from_value) (index v "edges")) malformed_err;
  root ← map_crusty_err (option_from_value string_from_value (index v "root")) malformed_err;
  base_tables ← map_crusty_err (vec_from_value u16_from_value (index v "base_tables")) malformed_err;
  hash_tables ← map_crusty_err (vec_from_value u16_from_value (index v "hash_tables")) malformed_err;
  plan ← load_plan malformed_err nodes edges root;
  let plan := mkPP (p_dataflow plan) (p_root plan) base_tables hash_tables in
  b ← PP_cycle_free plan;
  if negb b then Err (CrustyErr "Physical plan Plan loaded from json contains a cycle")
  else
    b ← PP_all_reachable_from_root plan;
    if negb b then Err (CrustyErr "Physical Plan loaded from json contains nodes not reachable from root")
    else Ok plan.
End Checked.
