(* ===== verification/PlanJsonProofs.v ===== *)
(** * Plans as JSON: renamings, loading nodes and edges *)

From stdpp Require Import pretty.
From S2P Require Import Prelude Common Types Expr Graph GraphProofs GraphTheorems Plan PlannerProofs PlanMerge PlanJson.

(** ** The same graph up to the names of its nodes *)

Record graph_iso {O} (f : nat -> nat) (g h : CrustyGraph O) : Prop := {
  gi_len : length (nodes h) = length (nodes g);
  gi_range : forall i, (i < length (nodes g))%nat -> (f i < length (nodes g))%nat;
  gi_inj : forall i j, (i < length (nodes g))%nat -> (j < length (nodes g))%nat -> f i = f j -> i = j;
  gi_data : forall i, (i < length (nodes g))%nat -> node_data h (f i) = node_data g i;
  gi_out : forall i, (i < length (nodes g))%nat -> out (edge_list h) (f i) = f <$> out (edge_list g) i;
}.

Section Iso.
Context {O : Type} (f : nat -> nat) (g h : CrustyGraph O).
Context (Wg : graph_wf g) (Wh : graph_wf h) (I : graph_iso f g h).

Lemma iso_perm : f <$> seq 0 (length (nodes g)) ≡ₚ seq 0 (length (nodes g)).
Proof.
  apply submseteq_length_Permutation; [|by rewrite length_fmap].
  apply NoDup_submseteq.
  - apply NoDup_fmap_2_strong; [|apply NoDup_seq]. intros i j Hi%elem_of_seq Hj%elem_of_seq.
    apply (gi_inj f g h I); lia.
  - intros v (i & -> & Hi%elem_of_seq)%list_elem_of_fmap. apply elem_of_seq.
    pose proof (gi_range f g h I i). lia.
Qed.

Lemma iso_surj v : (v < length (nodes g))%nat -> exists i, (i < length (nodes g))%nat /\ v = f i.
Proof.
  intros Hv. assert (v ∈ f <$> seq 0 (length (nodes g))) as (i & -> & Hi%elem_of_seq)%list_elem_of_fmap
    by (rewrite iso_perm; apply elem_of_seq; lia).
  exists i. split; [lia|done].
Qed.

Lemma iso_edge i j : (i < length (nodes g))%nat -> edge_rel g i j -> edge_rel h (f i) (f j).
Proof.
  intros Hi He%edge_rel_out. apply edge_rel_out. rewrite (gi_out f g h I i Hi). by apply list_elem_of_fmap_2.
Qed.

Lemma edge_bound (k : CrustyGraph O) u v : graph_wf k -> edge_rel k u v ->
  (u < length (nodes k))%nat /\ (v < length (nodes k))%nat.
Proof. intros W (e & He & <- & <-). by apply (gw_edges k W). Qed.

Lemma iso_edge_inv u v : edge_rel h u v -> exists i j, u = f i /\ v = f j /\ edge_rel g i j.
Proof.
  intros He. destruct (edge_bound h u v Wh He) as [Hu _]. rewrite (gi_len f g h I) in Hu.
  destruct (iso_surj u Hu) as (i & Hi & ->). exists i.
  apply edge_rel_out in He. rewrite (gi_out f g h I i Hi) in He.
  apply list_elem_of_fmap in He as (j & -> & Hj). exists j. by rewrite edge_rel_out.
Qed.

Lemma iso_rtc i j : (i < length (nodes g))%nat -> rtc (edge_rel g) i j -> rtc (edge_rel h) (f i) (f j).
Proof.
  intros Hi R. revert Hi. induction R as [i|i k j E R IH]; intros Hi; [done|].
  eapply rtc_l; [by apply iso_edge|]. apply IH. by apply (edge_bound g i k).
Qed.

Lemma iso_topo l : is_topo g l -> is_topo h (f <$> l).
Proof.
  intros [P R]. split; [by rewrite P, (gi_len f g h I), iso_perm|].
  intros k v u Ev (i & j & -> & -> & E)%iso_edge_inv.
  apply list_lookup_fmap_Some in Ev as (j' & Ej & Ek).
  assert (j' = j) as ->.
  { destruct (edge_bound g i j Wg E). apply (gi_inj f g h I); [|done|done].
    assert (j' ∈ seq 0 (length (nodes g))) as ?%elem_of_seq; [|lia].
    rewrite <- P. by eapply list_elem_of_lookup_2. }
  rewrite <- fmap_take. apply list_elem_of_fmap_2. by eapply R.
Qed.
End Iso.

(** ** Acyclic graphs *)

Lemma cycle_free_topo {O} `{Profile, HashOrder, !HashOrderLaws} (g : CrustyGraph O) :
  graph_wf g -> (Z.of_nat (length (edge_list g)) < 2 ^ 32)%Z ->
  exists b, cycle_free g = Ok b /\ (b = true <-> exists l, is_topo g l).
Proof.
  intros W L. unfold cycle_free. destruct (topological_order_ok g W L) as (o & -> & Ho). mstep.
  eexists. split; [done|]. rewrite bool_decide_eq_true. destruct o as [l|].
  - split; [by exists l|by eexists].
  - split; [by intros [? ?]|]. intros [l Hl]. by destruct (Ho l).
Qed.

(** A path goes forward in the order. *)
Lemma topo_tc {O} (g : CrustyGraph O) l u v : is_topo g l -> graph_wf g -> tc (edge_rel g) u v ->
  exists i j, l !! i = Some u /\ l !! j = Some v /\ (i < j)%nat.
Proof.
  intros [P R] W. 
  assert (forall a b, edge_rel g a b -> forall j, l !! j = Some b -> exists i, l !! i = Some a /\ (i < j)%nat) as Hs.
  { intros a b E j Hj. pose proof (R j b a Hj E) as Ha. apply list_elem_of_lookup in Ha as [i Hi].
    apply lookup_take_Some in Hi as [Hi Hlt]. eauto. }
  assert (forall b, (b < length (nodes g))%nat -> exists j, l !! j = Some b) as Hb.
  { intros b Hb. apply list_elem_of_lookup. rewrite P. apply elem_of_seq. lia. }
  induction 1 as [u v E|u w v E T IH].
  - destruct (Hb v) as [j Hj]; [by apply (edge_bound g u v)|].
    destruct (Hs u v E j Hj) as (i & Hi & Hlt). eauto 6.
  - destruct IH as (k & j & Hk & Hj & Hlt). destruct (Hs u w E k Hk) as (i & Hi & Hik).
    exists i, j. split_and!; [done..|lia].
Qed.

Lemma topo_acyclic {O} (g : CrustyGraph O) l u : is_topo g l -> graph_wf g -> ~ tc (edge_rel g) u u.
Proof.
  intros T W C. destruct (topo_tc g l u u T W C) as (i & j & Hi & Hj & Hlt).
  destruct T as [P _]. assert (NoDup l) as N by (rewrite P; apply NoDup_seq).
  pose proof (proj1 (NoDup_alt l) N i j u Hi Hj). lia.
Qed.

(** ** Loading nodes *)

Section Load.
Context {P O : Type} `{PlanLike P O, !PlanLikeLaws P O}.

Lemma load_nodes_ok (l : list (string * O)) : forall (p : P) gm p' gm', NoDup l.*1 ->
  foldl load_node (p, gm) l = (p', gm') ->
  pl_graph p' = mkGraph (nodes (pl_graph p) ++ ((fun x => mkNode x None) <$> l.*2)) (edge_list (pl_graph p)) /\
  (forall k, k ∉ l.*1 -> gm' !! k = gm !! k) /\
  (forall j k x, l !! j = Some (k, x) -> gm' !! k = Some (length (nodes (pl_graph p)) + j)%nat).
Proof.
  induction l as [|[k x] l IH]; intros p gm p' gm' N; cbn [foldl fmap list_fmap fst snd].
  - intros [= <- <-]. rewrite app_nil_r. split; [by destruct (pl_graph p)|]. split; [done|]. by intros j k x.
  - apply NoDup_cons in N as [Hk N]. destruct (pl_add_node_eq p x) as (Eg & Ei & _).
    unfold load_node at 2. destruct (pl_add_node p x) as [p1 i] eqn:Ea. cbn [fst snd add_node] in Eg, Ei. subst i.
    intros E. apply IH in E as (G & F & L); [|done]. rewrite Eg in *. cbn [nodes edge_list] in *.
    split; [by rewrite G, <- app_assoc|]. split.
    + intros k' Hk'. apply not_elem_of_cons in Hk' as [? ?]. rewrite F by done. by rewrite lookup_insert_ne.
    + intros [|j] k' x' Ej; cbn in Ej.
      * injection Ej as <- <-. rewrite F by done. rewrite lookup_insert_eq. f_equal. lia.
      * rewrite (L j k' x' Ej), length_app. cbn. f_equal. lia.
Qed.

Lemma add_nodes_wf (xs : list O) : graph_wf (mkGraph ((fun x => mkNode x None) <$> xs) []).
Proof.
  split; cbn; [|by intros e ?%not_elem_of_nil].
  intros s nd (x & -> & _)%list_lookup_fmap_Some. constructor.
Qed.

(** ** Loading edges *)

Lemma pl_add_edge_ok p u v :
  graph_wf (pl_graph p) -> (u < length (nodes (pl_graph p)))%nat -> (v < length (nodes (pl_graph p)))%nat -> u <> v ->
  exists p', pl_add_edge p u v = Ok p' /\ graph_wf (pl_graph p') /\
    length (nodes (pl_graph p')) = length (nodes (pl_graph p)) /\
    endpoints (pl_graph p') = endpoints (pl_graph p) ++ [(u, v)] /\
    (forall i, node_data (pl_graph p') i = node_data (pl_graph p) i) /\
    pl_root p' = root_after_edge (pl_root p) u v.
Proof.
  intros W Hu Hv Hne. pose proof (pl_add_edge_eq p u v Hne) as L.
  destruct (add_edge_ok (pl_graph p) u v W Hu Hv) as (g' & E & W' & Hl & _). rewrite E in L.
  destruct L as (p' & Ep & Eg & Er). destruct (add_edge_shape _ _ _ _ E) as (Ee & _ & Ed).
  exists p'. rewrite Eg. done.
Qed.

(** The edges [es], in order, were added to [p]. *)
Record edges_added (p p' : P) (es : list (nat * nat)) : Prop := {
  ea_wf : graph_wf (pl_graph p');
  ea_len : length (nodes (pl_graph p')) = length (nodes (pl_graph p));
  ea_ends : endpoints (pl_graph p') = endpoints (pl_graph p) ++ es;
  ea_data : forall i, node_data (pl_graph p') i = node_data (pl_graph p) i;
  ea_root : pl_root p' = climb (pl_root p) es;
}.

Lemma edges_added_nil p : graph_wf (pl_graph p) -> edges_added p p [].
Proof. intros W. split; [done..|by rewrite app_nil_r|done|done]. Qed.

Lemma edges_added_app p p1 p2 es es' : edges_added p p1 es -> edges_added p1 p2 es' -> edges_added p p2 (es ++ es').
Proof.
  intros [W L E D R] [W' L' E' D' R']. split; [done|congruence| | |].
  - by rewrite E', E, <- app_assoc.
  - intros i. by rewrite D'.
  - unfold climb in *. by rewrite foldl_app, <- R.
Qed.

Context (err : CrustyError) (gm : gmap string nat) (f : nat -> nat).

Lemma load_targets_ok s (us : list nat) : forall p,
  graph_wf (pl_graph p) -> (f s < length (nodes (pl_graph p)))%nat ->
  (forall u, u ∈ us -> gm !! (pretty u : string) = Some (f u) /\
     (f u < length (nodes (pl_graph p)))%nat /\ f u <> f s) ->
  exists p', foldM (load_edge err gm (f s)) p (pretty <$> us) = Ok p' /\
    edges_added p p' ((fun u => (f s, f u)) <$> us).
Proof.
  induction us as [|u us IH]; intros p W Hs Hu; cbn [fmap list_fmap foldM].
  - exists p. split; [done|]. by apply edges_added_nil.
  - destruct (Hu u) as (Eu & Hlu & Hne); [by apply list_elem_of_here|].
    assert (load_edge err gm (f s) p (pretty u) = pl_add_edge p (f s) (f u)) as -> by (unfold load_edge; by rewrite Eu).
    destruct (pl_add_edge_ok p (f s) (f u) W Hs Hlu ltac:(done)) as (p1 & -> & W1 & L1 & E1 & D1 & R1). mstep.
    destruct (IH p1 W1) as (p2 & E2 & A2); [by rewrite L1| |].
    { intros u' Hu'. rewrite L1. apply Hu. by apply list_elem_of_further. }
    exists p2. split; [done|]. apply (edges_added_app p p1 p2 [_]); [|done]. by split.
Qed.

(** An entry of the edge map, as it is written. *)
Definition written (x : nat * list nat) : string * list string := (pretty x.1, pretty <$> x.2).

(** The edges of the sources in [l], under the new names. *)
Definition renamed (l : list (nat * list nat)) : list (nat * nat) :=
  l ≫= fun '(s, us) => (fun u => (f s, f u)) <$> us.

Lemma load_edges_ok (l : list (nat * list nat)) : forall p,
  graph_wf (pl_graph p) ->
  (forall s us, (s, us) ∈ l -> gm !! (pretty s : string) = Some (f s) /\ (f s < length (nodes (pl_graph p)))%nat /\
     forall u, u ∈ us -> gm !! (pretty u : string) = Some (f u) /\
       (f u < length (nodes (pl_graph p)))%nat /\ f u <> f s) ->
  exists p', foldM (load_edges err gm) p (written <$> l) = Ok p' /\
    edges_added p p' (renamed l).
Proof.
  induction l as [|[s us] l IH]; intros p W Hl; cbn [fmap list_fmap foldM].
  - exists p. split; [done|]. by apply edges_added_nil.
  - destruct (Hl s us) as (Es & Hs & Hu); [by apply list_elem_of_here|].

    destruct (load_targets_ok s us p W Hs Hu) as (p1 & E1 & A1).
    assert (load_edges err gm p (written (s, us)) = Ok p1) as -> by (unfold load_edges, written; cbn [fst snd]; by rewrite Es). mstep.
    destruct (IH p1 (ea_wf _ _ _ A1)) as (p2 & E2 & A2).
    { intros s' us' Hin. rewrite (ea_len _ _ _ A1). apply Hl. by apply list_elem_of_further. }
    exists p2. split; [done|]. by apply (edges_added_app p p1 p2).
Qed.
End Load.

(** ** What is written *)

Section Written.
Context {P O : Type} `{PlanLike P O}.

Lemma insert_nodes_lookup (l : list (Node O)) : forall (m : gmap nat O) k i,
  foldl (fun m '(i, node) => <[i := data node]> m) m (zip (seq k (length l)) l) !! i =
    if decide (k <= i < k + length l)%nat then data <$> l !! (i - k)%nat else m !! i.
Proof.
  induction l as [|nd l IH]; intros m k i; cbn [length seq zip zip_with foldl].
  - by rewrite decide_False by lia.
  - rewrite IH. destruct (decide (i = k)) as [->|Hne].
    + rewrite decide_False, decide_True by lia. rewrite lookup_insert_eq, Nat.sub_diag. done.
    + rewrite lookup_insert_ne by done. repeat case_decide; try lia; [|done].
      replace (i - k)%nat with (S (i - S k)) by lia. done.
Qed.

Lemma node_map_lookup (p : P) i : node_map p !! i = node_data (pl_graph p) i.
Proof.
  unfold node_map, node_references, node_data. rewrite insert_nodes_lookup, lookup_empty, Nat.sub_0_r.
  case_decide; [done|]. by rewrite lookup_ge_None_2 by lia.
Qed.

Lemma push_targets_lookup es s :
  foldl push_target ∅ es !! s = match rev (out es s) with [] => None | ts => Some (pretty <$> ts) end.
Proof.
  induction es as [|e es IH] using rev_ind; [done|]. rewrite foldl_app, out_app. cbn [foldl].
  rewrite rev_app_distr. unfold push_target at 1. destruct (decide (source e = s)) as [<-|Hne].
  - rewrite lookup_insert_eq, IH. cbn [rev app]. destruct (rev (out es (source e))); [done|].
    cbn. by rewrite fmap_app.
  - rewrite lookup_insert_ne by done. cbn [rev app]. by rewrite app_nil_r.
Qed.

(** The targets of every source that has some, in the order of the edges. *)
Definition add_target (m : gmap nat (list nat)) (e : Edge) : gmap nat (list nat) :=
  <[source e := default [] (m !! source e) ++ [target e]]> m.

Definition targets_map (p : P) : gmap nat (list nat) := foldl add_target ∅ (edge_list (pl_graph p)).

Lemma add_targets_lookup es s :
  foldl add_target ∅ es !! s = match rev (out es s) with [] => None | ts => Some ts end.
Proof.
  induction es as [|e es IH] using rev_ind; [done|]. rewrite foldl_app, out_app. cbn [foldl].
  rewrite rev_app_distr. unfold add_target at 1. destruct (decide (source e = s)) as [<-|Hne].
  - rewrite lookup_insert_eq, IH. cbn [rev app]. by destruct (rev (out es (source e))).
  - rewrite lookup_insert_ne by done. cbn [rev app]. by rewrite app_nil_r.
Qed.

Lemma edge_map_targets p : edge_map p = (fun us : list nat => pretty <$> us) <$> targets_map p.
Proof.
  apply map_eq. intros s. rewrite lookup_fmap. unfold targets_map. rewrite add_targets_lookup.
  unfold edge_map, edge_references. rewrite push_targets_lookup. by destruct (rev (out _ s)).
Qed.

Lemma add_targets_length es : sum_list (length <$> (map_to_list (foldl add_target ∅ es)).*2) = length es.
Proof.
  induction es as [|e es IH] using rev_ind; [done|]. rewrite foldl_app, length_app. cbn [foldl length].
  rewrite <- IH. generalize (foldl add_target ∅ es) as m. clear. intros m. unfold add_target.
  rewrite <- insert_delete_eq, map_to_list_insert by apply lookup_delete_eq. cbn [fmap list_fmap snd sum_list].
  rewrite length_app. cbn [length]. destruct (m !! source e) as [us|] eqn:E; cbn [default].
  - rewrite <- (map_to_list_delete m (source e) us E). cbn. lia.
  - rewrite delete_id by done. cbn. lia.
Qed.
End Written.

(** Reading a map that was written, in the order of its enumeration. *)
Lemma map_value_roundtrip {A B} (f : A -> Value) (g : Value -> option B) (h : A -> B) (m : gmap nat A) :
  (forall a, g (f a) = Some (h a)) ->
  map_from_value g (map_to_value f m) = Some (kmap (M2 := gmap string) pretty (h <$> m)).
Proof.
  intros Hg. unfold map_from_value, map_to_value. rewrite bool_decide_true.
  - f_equal. apply map_eq. intros k. rewrite lookup_omap.
    destruct (kmap pretty (f <$> m) !! k) as [v|] eqn:E; cbn.
    + apply lookup_kmap_Some in E as (i & -> & E); [|apply _].
      rewrite lookup_kmap by apply _. rewrite lookup_fmap. rewrite lookup_fmap in E.
      destruct (m !! i); [|done]. cbn in E. injection E as <-. cbn. apply Hg.
    + symmetry. apply lookup_kmap_None; [apply _|]. intros i ->.
      rewrite lookup_kmap in E by apply _. rewrite lookup_fmap. rewrite lookup_fmap in E. by destruct (m !! i).
  - intros k v E. apply lookup_kmap_Some in E as (i & _ & E); [|apply _].
    rewrite lookup_fmap in E. destruct (m !! i); [|done]. injection E as <-. by rewrite Hg.
Qed.

Lemma entries_kmap `{EntryOrder, !EntryOrderLaws} {A} (m : gmap nat A) :
  exists l, entries (kmap (M2 := gmap string) pretty m) = prod_map pretty id <$> l /\ l ≡ₚ map_to_list m.
Proof.
  pose proof (entries_perm (kmap (M2 := gmap string) pretty m)) as E.
  rewrite map_to_list_kmap in E by apply _.
  apply Permutation_map_inv in E as (l & E1 & E2). by exists l.
Qed.

(** ** Reading what was written *)

Lemma climb_stay r l : (forall u v, (u, v) ∈ l -> v <> r) -> climb (Some r) l = Some r.
Proof.
  induction l as [|[u v] l IH]; intros Hl; [done|]. unfold climb. cbn.
  rewrite decide_False by (intros ->; eapply (Hl u v); [by apply list_elem_of_here|done]).
  apply IH. intros u' v' Hin. apply (Hl u' v'). by apply list_elem_of_further.
Qed.

(** The children of a node, from the entries of its edge map. *)
Lemma outp_renamed f (l : list (nat * list nat)) n s :
  (forall i j, (i < n)%nat -> (j < n)%nat -> f i = f j -> i = j) -> (s < n)%nat ->
  (forall s' us, (s', us) ∈ l -> (s' < n)%nat) -> NoDup l.*1 ->
  outp (renamed f l) (f s) = match list_find (fun x => x.1 = s) l with
    | Some (_, x) => rev (f <$> x.2)
    | None => []
    end.
Proof.
  intros Hinj Hs. induction l as [|[s' us] l IH]; intros Hl N; [done|].
  cbn [fmap list_fmap fst] in N. apply NoDup_cons in N as [Hn N].
  unfold renamed. cbn [mbind list_bind]. rewrite outp_app.
  fold (renamed f l). cbn [list_find fst]. destruct (decide (s' = s)) as [->|Hne].
  - assert (outp (renamed f l) (f s) = []) as ->.
    { apply outp_nil. intros u v Hin. apply list_elem_of_bind in Hin as ([s1 us1] & Hv & Hin).
      apply list_elem_of_fmap in Hv as (w & [= -> ->] & _). intros E.
      apply Hinj in E as ->; [|by apply (Hl s1 us1); apply list_elem_of_further|done].
      apply Hn. apply list_elem_of_fmap. by exists (s, us1). }
    cbn [app snd]. unfold outp. f_equal. clear.
    assert (omap (fun p : nat * nat => if decide (p.1 = f s) then Some p.2 else None)
              ((fun u => (f s, f u)) <$> us) = f <$> us) as ->; [|done].
    induction us as [|u us IH]; [done|]. cbn [fmap list_fmap omap list_omap fst snd].
    rewrite decide_True by done. by rewrite IH.
  - rewrite (outp_nil ((fun u => (f s', f u)) <$> us) (f s)).
    + rewrite app_nil_r, IH; [|intros s1 us1 Hin; apply (Hl s1 us1); by apply list_elem_of_further|done].
      by destruct (list_find _ l) as [[??]|].
    + intros u v (w & [= -> ->] & _)%list_elem_of_fmap E. apply Hne.
      apply Hinj; [|done|done]. apply (Hl s' us). by apply list_elem_of_here.
Qed.

Lemma length_renamed f l : length (renamed f l) = sum_list (length <$> l.*2).
Proof.
  induction l as [|[s us] l IH]; [done|]. unfold renamed. cbn [mbind list_bind fmap list_fmap snd sum_list].
  rewrite length_app, length_fmap. by rewrite <- IH.
Qed.

Section RoundTrip.
Context {P O : Type} `{PlanLike P O, !PlanLikeLaws P O, EntryOrder, !EntryOrderLaws}.

(** A plan that can be read back: acyclic, and all of it below its root. *)
Record rooted_dag (p : P) (r : nat) (l : list nat) : Prop := {
  rd_wf : graph_wf (pl_graph p);
  rd_topo : is_topo (pl_graph p) l;
  rd_root : pl_root p = Some r;
  rd_lt : (r < length (nodes (pl_graph p)))%nat;
  rd_reach : forall i, (i < length (nodes (pl_graph p)))%nat -> rtc (edge_rel (pl_graph p)) r i;
}.

Context (err : CrustyError) (p : P) (r : nat) (order : list nat) (D : rooted_dag p r order).
Abbreviation g := (pl_graph p).

Lemma no_loop u v : edge_rel g u v -> u <> v.
Proof. intros E ->. eapply topo_acyclic; [apply D|apply D|by apply tc_once]. Qed.

Lemma root_no_incoming u : ~ edge_rel g u r.
Proof.
  intros E. eapply (topo_acyclic g order r); [apply D|apply D|].
  eapply tc_rtc_l; [|by apply tc_once]. apply (rd_reach p r order D). by apply (edge_bound g u r); [apply D|].
Qed.

(** The nodes in the order in which they are loaded. *)
Lemma loaded_nodes : exists (ln : list (nat * O)) (f : nat -> nat) p1 gm,
  foldl load_node (pl_new, ∅) (entries (kmap (M2 := gmap string) pretty (node_map p))) = (p1, gm) /\
  pl_graph p1 = mkGraph ((fun x => mkNode x None) <$> ln.*2) [] /\ length ln = length (nodes g) /\
  (forall i, (i < length (nodes g))%nat ->
     gm !! (pretty i : string) = Some (f i) /\ (f i < length (nodes g))%nat /\ ln.*2 !! f i = node_data g i) /\
  (forall i j, (i < length (nodes g))%nat -> (j < length (nodes g))%nat -> f i = f j -> i = j).
Proof.
  destruct (entries_kmap (node_map p)) as (ln & En & Pn). rewrite En.
  destruct (foldl load_node (pl_new, ∅) (prod_map pretty id <$> ln)) as [p1 gm] eqn:E.
  assert (NoDup ln.*1) as N by (rewrite Pn; apply NoDup_fst_map_to_list).
  assert (forall i x, (i, x) ∈ ln <-> node_data g i = Some x) as Hin.
  { intros i x. rewrite Pn, elem_of_map_to_list. by rewrite node_map_lookup. }
  apply load_nodes_ok in E as (G & _ & L);
    [|rewrite <- list_fmap_compose; cbn; change (NoDup (pretty ∘ fst <$> ln));
      rewrite list_fmap_compose; apply NoDup_fmap_2; [apply _|done]].
  rewrite pl_new_graph in G, L. cbn [graph_new nodes edge_list app length] in G, L.
  set (f := fun i : nat => default 0%nat (gm !! (pretty i : string))).
  assert (forall i, (i < length (nodes g))%nat -> exists j x, ln !! j = Some (i, x) /\ f i = j /\
            gm !! (pretty i : string) = Some (f i) /\ node_data g i = Some x) as Hf.
  { intros i Hi. apply lookup_lt_is_Some in Hi as [nd Hnd].
    assert (node_data g i = Some (data nd)) as Ed by (unfold node_data; by rewrite Hnd).
    apply Hin, list_elem_of_lookup in Ed as [j Hj]. exists j, (data nd).
    assert (gm !! (pretty i : string) = Some j) as Eg.
    { apply (L j (pretty i) (data nd)). rewrite list_lookup_fmap, Hj. done. }
    unfold f. rewrite Eg. split_and!; [done..|]. unfold node_data. by rewrite Hnd. }
  exists ln, f, p1, gm. split; [done|].
  assert (length ln = length (nodes g)) as Hlen.
  { rewrite <- (length_fmap fst ln), <- (length_seq (length (nodes g)) 0). apply Permutation_length.
    apply NoDup_Permutation; [done|apply NoDup_seq|]. intros i. rewrite list_elem_of_fmap, elem_of_seq. split.
    - intros ([i' x] & -> & Hx%Hin). cbn. unfold node_data in Hx.
      destruct (nodes g !! i') eqn:El; [|done]. apply lookup_lt_Some in El. lia.
    - intros [_ Hi]. destruct (Hf i ltac:(lia)) as (j & x & Hj & _). exists (i, x). split; [done|].
      by eapply list_elem_of_lookup_2. }
  split_and!; [|done| |].
  - rewrite G. f_equal. rewrite <- !list_fmap_compose. done.
  - intros i Hi. destruct (Hf i Hi) as (j & x & Hj & <- & Eg & Ed). split_and!; [done| |].
    + rewrite <- Hlen. by eapply lookup_lt_Some.
    + by rewrite list_lookup_fmap, Hj, Ed.
  - intros i j Hi Hj. destruct (Hf i Hi) as (a & x & Ha & <- & _), (Hf j Hj) as (b & y & Hb & <- & _).
    intros E. rewrite E in Ha. by simplify_eq.
Qed.

(** The entries of the edge map in the order in which they are loaded. *)
Lemma loaded_entries : exists le : list (nat * list nat),
  entries (kmap (M2 := gmap string) pretty (edge_map p)) = written <$> le /\ le ≡ₚ map_to_list (targets_map p).
Proof.
  destruct (entries_kmap (edge_map p)) as (l & El & Pl).
  rewrite edge_map_targets, map_to_list_fmap in Pl. apply Permutation_map_inv in Pl as (le & -> & Pe).
  exists le. split; [|done]. rewrite El. rewrite <- (list_fmap_compose (prod_map id _) (prod_map pretty id)). 
  apply list_fmap_ext. by intros i [s us] _.
Qed.

Lemma entry_edge (le : list (nat * list nat)) s us : le ≡ₚ map_to_list (targets_map p) -> (s, us) ∈ le ->
  us = rev (out (edge_list g) s) /\ us <> [].
Proof.
  intros Pe. rewrite Pe, elem_of_map_to_list. unfold targets_map. rewrite add_targets_lookup.
  destruct (rev (out (edge_list g) s)); [done|]. by intros [= <-].
Qed.

(** What the entries of the edge map mention are edges of the graph. *)
Lemma entry_edges (le : list (nat * list nat)) s us : le ≡ₚ map_to_list (targets_map p) -> (s, us) ∈ le ->
  (s < length (nodes g))%nat /\ forall u, u ∈ us -> edge_rel g s u.
Proof.
  intros Pe Hin. destruct (entry_edge le s us Pe Hin) as [-> Hne].
  assert (forall u, u ∈ rev (out (edge_list g) s) -> edge_rel g s u) as Hu.
  { intros u Hu. apply edge_rel_out. by apply list_elem_of_In, in_rev, list_elem_of_In. }
  split; [|done]. destruct (rev (out (edge_list g) s)) as [|u l]; [done|].
  apply (edge_bound g s u); [apply D|]. apply Hu. by apply list_elem_of_here.
Qed.

(** The children of a node after the entries were read, under a renaming. *)
Lemma entries_children (le : list (nat * list nat)) (f : nat -> nat) i : le ≡ₚ map_to_list (targets_map p) ->
  (forall a b, (a < length (nodes g))%nat -> (b < length (nodes g))%nat -> f a = f b -> a = b) ->
  (i < length (nodes g))%nat -> outp (renamed f le) (f i) = f <$> out (edge_list g) i.
Proof.
  intros Pe Hinj Hi. assert (NoDup le.*1) as Ne by (rewrite Pe; apply NoDup_fst_map_to_list).
  rewrite (outp_renamed f le (length (nodes g)) i Hinj Hi); [|intros s us Hin; by apply (entry_edges le s us)|done].
  destruct (list_find (fun x => x.1 = i) le) as [[k [s us]]|] eqn:Ef.
  - apply list_find_Some in Ef as (Ek & Es & _). cbn in Es. subst s. apply list_elem_of_lookup_2 in Ek.
    destruct (entry_edge le i us Pe Ek) as [-> _]. cbn [snd]. by rewrite fmap_rev, rev_involutive.
  - apply list_find_None in Ef. destruct (out (edge_list g) i) as [|u l] eqn:Eo; [done|]. exfalso.
    assert (exists us, (i, us) ∈ le) as [us Hin].
    { setoid_rewrite Pe. setoid_rewrite elem_of_map_to_list. unfold targets_map. rewrite add_targets_lookup, Eo.
      cbn [rev]. destruct (rev l); cbn; eauto. }
    eapply Forall_forall in Ef; [|done]. by apply Ef.
Qed.

Lemma load_written : exists f p', 
  load_plan err (kmap (M2 := gmap string) pretty (node_map p)) (kmap (M2 := gmap string) pretty (edge_map p))
    (Some (pretty r)) = Ok p' /\
  graph_wf (pl_graph p') /\ graph_iso f g (pl_graph p') /\ pl_root p' = Some (f r) /\
  length (edge_list (pl_graph p')) = length (edge_list g).
Proof.
  destruct loaded_nodes as (ln & f & p1 & gm & E1 & G1 & Ll & Hf & Hinj).
  destruct loaded_entries as (le & Ee & Pe).
  unfold load_plan. rewrite E1, Ee. destruct (Hf r (rd_lt p r order D)) as (Er & Hr & _).
  cbn [load_root]. rewrite Er. cbn [ok_or]. mstep.
  destruct (pl_set_root_eq p1 (Some (f r))) as [Sg Sr]. rewrite G1 in Sg.
  pose proof (fun s us => entry_edges le s us Pe) as Hle.
  destruct (load_edges_ok err gm f le (pl_set_root p1 (Some (f r)))) as (p2 & E2 & A).
  { rewrite Sg. apply add_nodes_wf. }
  { rewrite Sg. cbn [nodes]. rewrite !length_fmap, Ll. intros s us Hin. destruct (Hle s us Hin) as [Hs Hu].
    destruct (Hf s Hs) as (Es & Hfs & _). split_and!; [done..|]. intros u Hu'. specialize (Hu u Hu').
    destruct (edge_bound g s u (rd_wf p r order D) Hu) as [_ Hub]. destruct (Hf u Hub) as (Eu & Hfu & _).
    split_and!; [done..|]. intros E. apply Hinj in E as ->; [|done..]. by apply (no_loop s s). }
  exists f, p2. split; [done|]. split; [apply A|].
  assert (endpoints (pl_graph p2) = renamed f le) as En.
  { rewrite (ea_ends _ _ _ A), Sg. done. }
  split_and!.
  - split.
    + rewrite (ea_len _ _ _ A), Sg. cbn [nodes]. by rewrite !length_fmap.
    + intros i Hi. apply (Hf i Hi).
    + done.
    + intros i Hi. rewrite (ea_data _ _ _ A), Sg. unfold node_data at 1. cbn [nodes].
      destruct (Hf i Hi) as (_ & _ & Ed). rewrite list_lookup_fmap, Ed. by destruct (node_data g i).
    + intros i Hi. rewrite out_outp, En. by apply entries_children.
  - rewrite (ea_root _ _ _ A), Sr. apply climb_stay. intros u v Hin.
    apply list_elem_of_bind in Hin as ([s us] & Hv & Hin). apply list_elem_of_fmap in Hv as (w & [= -> ->] & Hw).
    destruct (Hle s us Hin) as [_ Hu]. specialize (Hu w Hw). intros E.
    apply Hinj in E as ->; [by apply (root_no_incoming s)|by apply (edge_bound g s w); [apply D|]|apply D].
  - rewrite <- (length_fmap (fun e => (source e, target e)) (edge_list (pl_graph p2))).
    fold (endpoints (pl_graph p2)). rewrite En, length_renamed, Pe. unfold targets_map. apply add_targets_length.
Qed.
End RoundTrip.

(** The graph of one node over another. *)
Lemma pair_graph_wf {O} (a b : O) : graph_wf (mkGraph [mkNode a None; mkNode b (Some 0%nat)] [mkEdge 1 0 None]).
Proof.
  split; cbn.
  - intros [|[|s]] nd; cbn; intros [= <-]; cbn; [constructor|].
    apply (chain_cons _ 0 (mkEdge 1 0 None)); [done|by intros j|constructor].
  - intros e ->%list_elem_of_singleton. cbn. lia.
Qed.
