(* ===== verification/PlanJsonCodec.v ===== *)
(** * A concrete JSON codec

    Witnesses need the text form of JSON and the codecs of operators: text is a
    sequence of bits, an operator is a string. *)

From stdpp Require Import countable pretty.
From S2P Require Import Prelude Common Types Expr OpIterTheorems Graph Plan PlanJson.

(** ** Bits *)

Fixpoint pos_string (p : positive) : string :=
  match p with
  | xH => EmptyString
  | xO p => String "0" (pos_string p)
  | xI p => String "1" (pos_string p)
  end.

Fixpoint string_pos (s : string) : option positive :=
  match s with
  | EmptyString => Some xH
  | String "0" s => xO <$> string_pos s
  | String "1" s => xI <$> string_pos s
  | _ => None
  end.

Lemma string_pos_string p : string_pos (pos_string p) = Some p.
Proof. induction p as [p IH|p IH|]; cbn; [by rewrite IH..|done]. Qed.

(** ** Values as trees *)

Abbreviation jtree := (gen_tree (string + Z + bool)).

Fixpoint value_tree (v : Value) : jtree :=
  match v with
  | VNull | VNumber (Float _) => GenNode 0 []
  | VBool b => GenNode 1 [GenLeaf (inr b)]
  | VNumber (PosInt z) => GenNode 2 [GenLeaf (inl (inr z))]
  | VNumber (NegInt z) => GenNode 3 [GenLeaf (inl (inr z))]
  | VString s => GenNode 4 [GenLeaf (inl (inl s))]
  | VArray l => GenNode 5 (value_tree <$> l)
  | VObject m => GenNode 6 (map_fold (fun k v acc => GenNode 7 [GenLeaf (inl (inl k)); value_tree v] :: acc) [] m)
  end.

Fixpoint tree_value (t : jtree) : Value :=
  match t with
  | GenNode 1 [GenLeaf (inr b)] => VBool b
  | GenNode 2 [GenLeaf (inl (inr z))] => VNumber (PosInt z)
  | GenNode 3 [GenLeaf (inl (inr z))] => VNumber (NegInt z)
  | GenNode 4 [GenLeaf (inl (inl s))] => VString s
  | GenNode 5 l => VArray (tree_value <$> l)
  | GenNode 6 l =>
      VObject (list_to_map (omap (fun t =>
        match t with GenNode 7 [GenLeaf (inl (inl k)); t] => Some (k, tree_value t) | _ => None end) l))
  | _ => VNull
  end.

Lemma tree_value_tree v : plain v -> tree_value (value_tree v) = v.
Proof.
  induction 1 as [|b|z Hz|z Hz|s|l _ IH|m _ IH]; cbn [value_tree tree_value]; try done.
  - f_equal. induction l as [|v l IHl]; [done|]. cbn [fmap list_fmap]. rewrite IH by apply list_elem_of_here.
    f_equal. apply IHl. intros v' Hv. apply IH. by apply list_elem_of_further.
  - f_equal. rewrite map_fold_foldr. rewrite <- (list_to_map_to_list m) at 2. f_equal.
    assert (forall k v, (k, v) ∈ map_to_list m -> tree_value (value_tree v) = v) as Hl
      by (intros k v Hin%elem_of_map_to_list; by eapply IH).
    induction (map_to_list m) as [|[k v] l IHl]; [done|]. cbn [foldr uncurry omap list_omap].
    rewrite (Hl k v) by apply list_elem_of_here. f_equal. apply IHl. intros k' v' Hv.
    apply (Hl k'). by apply list_elem_of_further.
Qed.

Definition bit_json : JsonText := {|
  from_str s := tree_value <$> (string_pos s ≫= decode);
  to_string v := pos_string (encode (value_tree v));
|}.

#[export] Instance bit_json_laws : JsonTextLaws (H := bit_json).
Proof.
  intros v Hv. cbn. rewrite string_pos_string. cbn. rewrite decode_encode. cbn. by rewrite tree_value_tree.
Qed.

(** ** Operators as strings *)

Definition MathOp_code (o : MathOp) : nat := match o with MAdd => 0 | MSub => 1 | MMul => 2 | MDiv => 3 end.
Definition MathOp_of (n : nat) : MathOp := match n with 0 => MAdd | 1 => MSub | 2 => MMul | _ => MDiv end%nat.

Definition BooleanOp_code (o : BooleanOp) : nat :=
  match o with BEq => 0 | BNeq => 1 | BGt => 2 | BGte => 3 | BLt => 4 | BLte => 5 | BAnd => 6 | BOr => 7 end.
Definition BooleanOp_of (n : nat) : BooleanOp :=
  match n with 0 => BEq | 1 => BNeq | 2 => BGt | 3 => BGte | 4 => BLt | 5 => BLte | 6 => BAnd | _ => BOr end%nat.

Definition AggOp_code (o : AggOp) : nat := match o with AAvg => 0 | ACount => 1 | AMax => 2 | AMin => 3 | ASum => 4 end.
Definition AggOp_of (n : nat) : AggOp := match n with 0 => AAvg | 1 => ACount | 2 => AMax | 3 => AMin | _ => ASum end%nat.

Abbreviation etree := (gen_tree (Field + string + nat)).

Fixpoint expr_tree (e : AstExpr) : etree :=
  match e with
  | ELiteral f => GenNode 0 [GenLeaf (inl (inl f))]
  | EIdent s => GenNode 1 [GenLeaf (inl (inr s))]
  | EAlias s e => GenNode 2 [GenLeaf (inl (inr s)); expr_tree e]
  | EMath o l r => GenNode 3 [GenLeaf (inr (MathOp_code o)); expr_tree l; expr_tree r]
  | EBoolean o l r => GenNode 4 [GenLeaf (inr (BooleanOp_code o)); expr_tree l; expr_tree r]
  | EAgg o e => GenNode 5 [GenLeaf (inr (AggOp_code o)); expr_tree e]
  | EColIdx i => GenNode 6 [GenLeaf (inr i)]
  end.

Fixpoint tree_expr (t : etree) : AstExpr :=
  match t with
  | GenNode 0 [GenLeaf (inl (inl f))] => ELiteral f
  | GenNode 1 [GenLeaf (inl (inr s))] => EIdent s
  | GenNode 2 [GenLeaf (inl (inr s)); e] => EAlias s (tree_expr e)
  | GenNode 3 [GenLeaf (inr o); l; r] => EMath (MathOp_of o) (tree_expr l) (tree_expr r)
  | GenNode 4 [GenLeaf (inr o); l; r] => EBoolean (BooleanOp_of o) (tree_expr l) (tree_expr r)
  | GenNode 5 [GenLeaf (inr o); e] => EAgg (AggOp_of o) (tree_expr e)
  | GenNode 6 [GenLeaf (inr i)] => EColIdx i
  | _ => EColIdx 0
  end.

Lemma tree_expr_tree e : tree_expr (expr_tree e) = e.
Proof. induction e; cbn; try (match goal with o : MathOp |- _ => destruct o | o : BooleanOp |- _ => destruct o | o : AggOp |- _ => destruct o end); cbn; congruence. Qed.

#[export] Instance AstExpr_countable : Countable AstExpr := inj_countable' expr_tree tree_expr tree_expr_tree.

#[export] Instance BooleanOp_countable : Countable BooleanOp :=
  inj_countable' BooleanOp_code BooleanOp_of (fun o => ltac:(by destruct o)).

Abbreviation op_code :=
  (Z * option AstExpr * option (list AstExpr) + (list AstExpr * list AstExpr * option AstExpr)
   + (list (AstExpr * AstExpr) * option AstExpr) + (list (AstExpr * bool) * list (AstExpr * bool))
   + (nat * Z) + (string * Z * list (AstExpr * Field)) + (nat * AstExpr * AstExpr * BooleanOp))%type.

Definition PhysicalOp_code (o : PhysicalOp) : nat * op_code :=
  match o with
  | PScan c f p => (0%nat, inl (inl (inl (inl (inl (inl (c, f, p)))))))
  | PProject l => (1%nat, inl (inl (inl (inl (inl (inr (l, [], None)))))))
  | PHashAggregate l g => (2%nat, inl (inl (inl (inl (inl (inr (l, g, None)))))))
  | PCrossProduct => (3%nat, inl (inl (inr (0%nat, 0))))
  | PNestedLoopJoin l r o => (4%nat, inr (0%nat, l, r, o))
  | PHashJoin l r o => (5%nat, inr (0%nat, l, r, o))
  | PFilter p => (6%nat, inl (inl (inl (inl (inl (inr ([], [], Some p)))))))
  | PMaterializedView c => (7%nat, inl (inl (inr (0%nat, c))))
  | PUpdate a c l => (8%nat, inl (inr (a, c, l)))
  | PSort l => (9%nat, inl (inl (inl (inr (l, [])))))
  | PSortMergeJoin l r => (10%nat, inl (inl (inl (inr (l, r)))))
  end.

Definition PhysicalOp_of (x : nat * op_code) : PhysicalOp :=
  match x with
  | (0%nat, inl (inl (inl (inl (inl (inl (c, f, p))))))) => PScan c f p
  | (1%nat, inl (inl (inl (inl (inl (inr (l, _, _))))))) => PProject l
  | (2%nat, inl (inl (inl (inl (inl (inr (l, g, _))))))) => PHashAggregate l g
  | (4%nat, inr (_, l, r, o)) => PNestedLoopJoin l r o
  | (5%nat, inr (_, l, r, o)) => PHashJoin l r o
  | (6%nat, inl (inl (inl (inl (inl (inr (_, _, Some p))))))) => PFilter p
  | (7%nat, inl (inl (inr (_, c)))) => PMaterializedView c
  | (8%nat, inl (inr (a, c, l))) => PUpdate a c l
  | (9%nat, inl (inl (inl (inr (l, _))))) => PSort l
  | (10%nat, inl (inl (inl (inr (l, r))))) => PSortMergeJoin l r
  | _ => PCrossProduct
  end.

Definition LogicalOp_code (o : LogicalOp) : nat * op_code :=
  match o with
  | LScan c f p => (0%nat, inl (inl (inl (inl (inl (inl (c, f, p)))))))
  | LProject l => (1%nat, inl (inl (inl (inl (inl (inr (l, [], None)))))))
  | LFilter p => (2%nat, inl (inl (inl (inl (inl (inr ([], [], Some p)))))))
  | LAggregate l g h => (3%nat, inl (inl (inl (inl (inl (inr (l, g, h)))))))
  | LJoin l f => (4%nat, inl (inl (inl (inl (inr (l, f))))))
  | LCrossProduct f => (5%nat, inl (inl (inl (inl (inr ([], f))))))
  | LSort l => (6%nat, inl (inl (inl (inr (l, [])))))
  | LReadDeltas c => (7%nat, inl (inl (inr (0%nat, c))))
  | LWriteDeltas c => (8%nat, inl (inl (inr (0%nat, c))))
  | LUpdate a c l => (9%nat, inl (inr (a, c, l)))
  end.

Definition LogicalOp_of (x : nat * op_code) : LogicalOp :=
  match x with
  | (0%nat, inl (inl (inl (inl (inl (inl (c, f, p))))))) => LScan c f p
  | (1%nat, inl (inl (inl (inl (inl (inr (l, _, _))))))) => LProject l
  | (2%nat, inl (inl (inl (inl (inl (inr (_, _, Some p))))))) => LFilter p
  | (3%nat, inl (inl (inl (inl (inl (inr (l, g, h))))))) => LAggregate l g h
  | (4%nat, inl (inl (inl (inl (inr (l, f)))))) => LJoin l f
  | (5%nat, inl (inl (inl (inl (inr (_, f)))))) => LCrossProduct f
  | (6%nat, inl (inl (inl (inr (l, _))))) => LSort l
  | (7%nat, inl (inl (inr (_, c)))) => LReadDeltas c
  | (8%nat, inl (inl (inr (_, c)))) => LWriteDeltas c
  | (9%nat, inl (inr (a, c, l))) => LUpdate a c l
  | _ => LProject []
  end.

Definition bit_op {O} (code : O -> nat * op_code) (of_code : nat * op_code -> O) : JsonOp O := {|
  op_to_value o := VString (pos_string (encode (code o)));
  op_from_value v := match v with VString s => of_code <$> (string_pos s ≫= decode) | _ => None end;
|}.

Lemma bit_op_laws {O} (code : O -> nat * op_code) of_code :
  (forall o, of_code (code o) = o) -> JsonOpLaws O (H := bit_op code of_code).
Proof.
  intros Ho. split; [constructor|]. intros o. cbn. rewrite string_pos_string. cbn. rewrite decode_encode. cbn.
  by rewrite Ho.
Qed.

Definition bit_physical : JsonOp PhysicalOp := bit_op PhysicalOp_code PhysicalOp_of.
Definition bit_logical : JsonOp LogicalOp := bit_op LogicalOp_code LogicalOp_of.

#[export] Instance bit_physical_laws : JsonOpLaws PhysicalOp (H := bit_physical).
Proof. apply bit_op_laws. by intros []. Qed.

#[export] Instance bit_logical_laws : JsonOpLaws LogicalOp (H := bit_logical).
Proof. apply bit_op_laws. by intros []. Qed.

(** The order of the keys as the model of maps has it. *)
Definition plain_entries : EntryOrder := fun A m => map_to_list m.
#[export] Instance plain_entries_laws : EntryOrderLaws (H := plain_entries).
Proof. by intros A m. Qed.
