(* ===== verification/PlanJsonTheorems.v ===== *)
(** * Plans as JSON: the theorems

    A plan that is written and read again is the same plan up to the names of its
    nodes, and is run the same way; a plan that is read is acyclic and all of it is
    below its root. *)

From stdpp Require Import pretty.
From S2P Require Import Prelude Common Types Expr Catalog Storage OpIter OpIterTheorems Graph GraphProofs GraphTheorems.
From S2P Require Import Plan Planner PlannerProofs PlanMerge PlanJson PlanJsonProofs PlanJsonCodec.

(** ** Values that were written *)

Lemma option_string_roundtrip (r : nat) :
  option_from_value string_from_value (root_to_value (Some r)) = Some (Some (pretty r)).
Proof. done. Qed.

Lemma strings_roundtrip (l : list string) : vec_from_value string_from_value (strings_to_value l) = Some l.
Proof.
  cbn. apply mapM_Some. induction l as [|s l IH]; cbn; by constructor.
Qed.

Lemma containers_roundtrip (l : list ContainerId) : Forall (in_u 16) l ->
  vec_from_value u16_from_value (containers_to_value l) = Some l.
Proof.
  intros Hl. cbn. apply mapM_Some. induction Hl as [|c l Hc Hl IH]; cbn [fmap list_fmap]; constructor; [|done].
  unfold in_u in Hc. unfold u16_from_value. by rewrite bool_decide_true.
Qed.

Lemma plain_map {A} (f : A -> Value) (m : gmap nat A) : (forall a, plain (f a)) -> plain (map_to_value f m).
Proof.
  intros Hf. constructor. intros k v E. apply lookup_kmap_Some in E as (i & _ & E); [|apply _].
  rewrite lookup_fmap in E. destruct (m !! i); [|done]. by injection E as <-.
Qed.

Lemma plain_strings l : plain (strings_to_value l).
Proof. constructor. intros v (s & -> & _)%list_elem_of_fmap. constructor. Qed.

Lemma plain_root r : plain (root_to_value r).
Proof. destruct r; constructor. Qed.

Lemma plain_containers l : Forall (in_u 16) l -> plain (containers_to_value l).
Proof.
  intros Hl. constructor. intros v (c & -> & Hc)%list_elem_of_fmap. constructor.
  eapply Forall_forall in Hl; [|done]. unfold in_u in *. lia.
Qed.

#[local] Hint Resolve plain_map plain_strings plain_root plain_containers op_plain Forall_nil_2 : core.

Lemma plain_fields (l : list (string * Value)) : Forall (fun x => plain x.2) l -> plain (VObject (list_to_map l)).
Proof.
  intros Hl. constructor. intros k v E%elem_of_list_to_map_2. by eapply Forall_forall in Hl; [|done].
Qed.

(** ** Round trip *)

Lemma nodes_roundtrip {P O} `{PlanLike P O, JsonOp O, !JsonOpLaws O} (p : P) :
  map_from_value op_from_value (map_to_value op_to_value (node_map p)) =
    Some (kmap (M2 := gmap string) pretty (node_map p)).
Proof. rewrite (map_value_roundtrip _ _ id); [by rewrite map_fmap_id|apply op_roundtrip]. Qed.

Lemma edges_roundtrip {P O} `{PlanLike P O} (p : P) :
  map_from_value (vec_from_value string_from_value) (map_to_value strings_to_value (edge_map p)) =
    Some (kmap (M2 := gmap string) pretty (edge_map p)).
Proof. rewrite (map_value_roundtrip _ _ id); [by rewrite map_fmap_id|apply strings_roundtrip]. Qed.

Section Checks.
Context {P O : Type} `{PlanLike P O, !PlanLikeLaws P O, EntryOrder, !EntryOrderLaws}.
Context `{Profile, HashOrder, !HashOrderLaws}.

(** The checks of [from_json] decide whether the plan is a rooted acyclic graph. *)
Lemma checks_rooted_dag (p : P) (r : nat) :
  graph_wf (pl_graph p) -> (Z.of_nat (edge_count (pl_graph p)) < 2 ^ 32)%Z -> pl_root p = Some r ->
  cycle_free (pl_graph p) = Ok true -> all_reachable_from_node (pl_graph p) r = Ok true ->
  exists l, rooted_dag p r l.
Proof.
  intros W L R C A. destruct (cycle_free_topo (pl_graph p) W L) as (b & Eb & Hb).
  assert (b = true) as -> by congruence. destruct (proj1 Hb eq_refl) as [l Hl].
  assert (r < length (nodes (pl_graph p)))%nat as Hr.
  { apply node_index_exists_iff. unfold all_reachable_from_node in A.
    by destruct (node_index_exists (pl_graph p) r). }
  destruct (all_reachable_ok (pl_graph p) W r Hr) as (b & Er & Hrb). assert (b = true) as -> by congruence.
  exists l. split; [done..|]. by apply Hrb.
Qed.

Lemma rooted_dag_checks (p : P) (r : nat) l :
  (Z.of_nat (edge_count (pl_graph p)) < 2 ^ 32)%Z -> rooted_dag p r l ->
  cycle_free (pl_graph p) = Ok true /\ all_reachable_from_node (pl_graph p) r = Ok true.
Proof.
  intros L [W T R Hr Hreach]. split.
  - destruct (cycle_free_topo (pl_graph p) W L) as (b & -> & Hb). f_equal. apply Hb. by exists l.
  - destruct (all_reachable_ok (pl_graph p) W r Hr) as (b & -> & Hb). f_equal. apply Hb. done.
Qed.

(** The plan that is read is rooted where the written one is. *)
Lemma iso_rooted_dag (p p' : P) f r l : rooted_dag p r l -> graph_wf (pl_graph p') ->
  graph_iso f (pl_graph p) (pl_graph p') -> pl_root p' = Some (f r) -> rooted_dag p' (f r) (f <$> l).
Proof.
  intros [W T R Hr Hreach] W' I R'. split; [done|by apply (iso_topo f (pl_graph p) (pl_graph p') W W' I)|done| |].
  - rewrite (gi_len f _ _ I). by apply (gi_range f _ _ I).
  - intros v Hv. rewrite (gi_len f _ _ I) in Hv.
    destruct (iso_surj f (pl_graph p) (pl_graph p') I v Hv) as (i & Hi & ->).
    apply (iso_rtc f (pl_graph p) (pl_graph p') W I r i Hr). by apply Hreach.
Qed.

Lemma load_written_checks err (p : P) r l :
  (Z.of_nat (edge_count (pl_graph p)) < 2 ^ 32)%Z -> rooted_dag p r l ->
  exists f p', load_plan err (kmap (M2 := gmap string) pretty (node_map p))
                 (kmap (M2 := gmap string) pretty (edge_map p)) (Some (pretty r)) = Ok p' /\
    graph_wf (pl_graph p') /\ graph_iso f (pl_graph p) (pl_graph p') /\ pl_root p' = Some (f r) /\
    cycle_free (pl_graph p') = Ok true /\ all_reachable_from_node (pl_graph p') (f r) = Ok true.
Proof.
  intros L D. destruct (load_written err p r l D) as (f & p' & E & W & I & R & Hl).
  exists f, p'. split_and!; [done..| |]; eapply rooted_dag_checks;
    first [by eapply iso_rooted_dag | unfold edge_count; by rewrite Hl].
Qed.
End Checks.

(** ** Running the plan that was read *)

Section SameRun.
Context `{Chrono} {It : Type} (catalog : Catalog).

(** A result whose remaining children are renamed. *)
Definition renamed_rest (f : nat -> nat) (x : result (Op It * list nat)) : result (Op It * list nat) :=
  y ← x; Ok (y.1, @fmap list _ nat nat f y.2).

Lemma next_child_renamed f (h h' : nat -> result (Op It)) cs : (forall n, n ∈ cs -> h' (f n) = h n) ->
  next_child h' (f <$> cs) = renamed_rest f (next_child h cs).
Proof.
  intros Hh. destruct cs as [|n cs]; [done|]. unfold next_child. cbn [fmap list_fmap].
  rewrite Hh by apply list_elem_of_here. by destruct (h n).
Qed.

Lemma next_child_rest (h : nat -> result (Op It)) cs o cs' : next_child h cs = Ok (o, cs') ->
  forall n, n ∈ cs' -> n ∈ cs.
Proof.
  destruct cs as [|c cs]; [done|]. cbn. destruct (h c); [|done..]. cbn. intros [= <- <-] n.
  apply list_elem_of_further.
Qed.

Ltac child_step Hh :=
  rewrite (next_child_renamed _ _ _ _ Hh); unfold renamed_rest at 1; cbn [build_op];
  match goal with
  | |- context [next_child ?h ?cs] =>
      let E := fresh "E" in destruct (next_child h cs) as [[? ?]| |] eqn:E; mstep; [|done..];
      pose proof (next_child_rest _ _ _ _ E)
  end.

Lemma build_op_renamed f (h h' : nat -> result (Op It)) op cs : (forall n, n ∈ cs -> h' (f n) = h n) ->
  build_op catalog h' op (f <$> cs) = renamed_rest f (build_op catalog h op cs).
Proof.
  intros Hh. destruct op; cbn [build_op]; try done.
  - unfold renamed_rest. rewrite bind_assoc. done.
  - child_step Hh. unfold renamed_rest. by rewrite bind_assoc.
  - child_step Hh. unfold renamed_rest. by rewrite bind_assoc.
  - child_step Hh. assert (forall n, n ∈ l -> h' (f n) = h n) as Hh2 by eauto. child_step Hh2. done.
  - child_step Hh. assert (forall n, n ∈ l -> h' (f n) = h n) as Hh2 by eauto. child_step Hh2.
    unfold renamed_rest. by rewrite bind_assoc.
  - child_step Hh. assert (forall n, n ∈ l -> h' (f n) = h n) as Hh2 by eauto. child_step Hh2.
    unfold renamed_rest. by rewrite bind_assoc.
  - child_step Hh. unfold renamed_rest. by rewrite bind_assoc.
Qed.

Lemma build_op_rest (h : nat -> result (Op It)) op cs o cs' : build_op catalog h op cs = Ok (o, cs') ->
  forall n, n ∈ cs' -> n ∈ cs.
Proof.
  destruct op; cbn [build_op]; try done; intros E;
    repeat (let y := fresh in let E1 := fresh "E" in
            apply bind_Ok_inv in E as (y & E1 & E); try (destruct y; pose proof (next_child_rest _ _ _ _ E1)));
    simplify_eq; eauto.
Qed.
End SameRun.

Section SamePlan.
Context `{Chrono} {It : Type} (catalog : Catalog) (pp pp' : PhysicalPlan) (f : nat -> nat).
Context (W : graph_wf (p_dataflow pp)) (W' : graph_wf (p_dataflow pp')).
Context (I : graph_iso f (p_dataflow pp) (p_dataflow pp')).

Lemma helper_iso fuel : forall i, (i < length (nodes (p_dataflow pp)))%nat ->
  physical_plan_to_op_iterator_helper (It := It) catalog pp' fuel (f i) =
  physical_plan_to_op_iterator_helper catalog pp fuel i.
Proof.
  induction fuel as [|fuel IH]; intros i Hi; [done|]. cbn [physical_plan_to_op_iterator_helper].
  unfold PP_edges. rewrite !edges_ok; [|done..|by rewrite (gi_len f _ _ I); apply (gi_range f _ _ I)].
  mstep. unfold PP_get_operator. rewrite (gi_data f _ _ I i Hi), (gi_out f _ _ I i Hi).
  destruct (node_data (p_dataflow pp) i) as [op|]; [|done]. cbn [ok_or]. mstep.
  assert (forall n, n ∈ out (edge_list (p_dataflow pp)) i ->
    physical_plan_to_op_iterator_helper (It := It) catalog pp' fuel (f n) =
    physical_plan_to_op_iterator_helper catalog pp fuel n) as Hh.
  { intros n Hn. apply IH. apply (edge_bound (p_dataflow pp) i n W). by apply edge_rel_out. }
  rewrite (build_op_renamed catalog f _ _ op _ Hh). unfold renamed_rest. rewrite bind_assoc.
  destruct (build_op _ _ op _) as [[o cs]| |] eqn:E; mstep; [|done..].
  destruct cs as [|n cs]; [done|]. unfold refuse_extra. cbn [fmap list_fmap]. rewrite IH; [done|].
  apply (edge_bound (p_dataflow pp) i n W). apply edge_rel_out. by eapply build_op_rest; [done|apply list_elem_of_here].
Qed.

Lemma op_iterator_iso fuel r : p_root pp = Some r -> p_root pp' = Some (f r) ->
  (r < length (nodes (p_dataflow pp)))%nat ->
  physical_plan_to_op_iterator (It := It) catalog pp' fuel = physical_plan_to_op_iterator catalog pp fuel.
Proof.
  intros R R' Hr. unfold physical_plan_to_op_iterator. rewrite R, R'. cbn [ok_or]. mstep. by apply helper_iso.
Qed.
End SamePlan.

Lemma represents_iso lp lp' f i t : graph_wf (dataflow lp) ->
  graph_iso f (dataflow lp) (dataflow lp') -> represents lp i t -> represents lp' (f i) t.
Proof.
  intros W I. induction 1 as [i op O E|i j op t O E R IH|i j k op l r O E R1 IH1 R2 IH2];
    pose proof (get_operator_lt _ _ _ O) as Hi;
    (econstructor; [unfold get_operator; by rewrite (gi_data f _ _ I i Hi)| |..]);
    first [done | rewrite (gi_out f _ _ I i Hi), E; done].
Qed.

(** ** The theorems *)

Section Theorems.
Context `{Profile, HashOrder, !HashOrderLaws, JsonText, !JsonTextLaws, EntryOrder, !EntryOrderLaws}.

Section Physical.
Context `{JsonOp PhysicalOp, !JsonOpLaws PhysicalOp}.

Lemma PP_to_json_plain pp : Forall (in_u 16) (base_tables pp) -> Forall (in_u 16) (hash_tables pp) ->
  plain (PP_to_json pp).
Proof. intros B T. apply plain_fields. rewrite !Forall_cons. cbn [snd]. split_and!; auto. Qed.

End Physical.

Section Logical.
Context `{JsonOp LogicalOp, !JsonOpLaws LogicalOp}.

Lemma LP_to_json_plain lp : plain (LP_to_json lp).
Proof. apply plain_fields. rewrite !Forall_cons. cbn [snd]. split_and!; auto. Qed.

(** A logical plan that is acyclic and entirely below its root survives
    [to_json] and [from_json] up to a renaming of its nodes, and the root of the
    plan that is read represents the same tree of operators. *)
Theorem logical_json_roundtrip (lp : LogicalPlan) (r : nat) :
  graph_wf (dataflow lp) -> (Z.of_nat (edge_count (dataflow lp)) < 2 ^ 32)%Z -> root lp = Some r ->
  LP_cycle_free lp = Ok true -> LP_all_reachable_from_root lp = Ok true ->
  exists lp' f, LP_from_json (to_string (LP_to_json lp)) = Ok lp' /\
    graph_iso f (dataflow lp) (dataflow lp') /\ root lp' = Some (f r) /\
    forall t, represents lp r t -> represents lp' (f r) t.
Proof.
  intros W L R C A. unfold LP_all_reachable_from_root in A. rewrite R in A.
  destruct (checks_rooted_dag (H := LogicalPlan_like) lp r W L R C A) as [l D].
  unfold LP_from_json. rewrite from_to_string by apply LP_to_json_plain. cbn [map_crusty_err ok_or]. mstep.
  change (index (LP_to_json lp) "nodes") with (map_to_value op_to_value (node_map lp)).
  change (index (LP_to_json lp) "edges") with (map_to_value strings_to_value (edge_map lp)).
  change (index (LP_to_json lp) "root") with (root_to_value (root lp)).
  rewrite nodes_roundtrip, edges_roundtrip, R, option_string_roundtrip by done.
  cbn [map_crusty_err ok_or]. mstep.
  destruct (load_written_checks (H := LogicalPlan_like) (CrustyErr "Malformatted logical plan json") lp r l L D)
    as (f & p' & E & W' & I & R' & C' & A').
  rewrite E. mstep. unfold LP_cycle_free, LP_all_reachable_from_root.
  cbn [pl_graph pl_root LogicalPlan_like] in *. rewrite C'. mstep. rewrite R', A'. mstep. cbn [negb].
  exists p', f. split_and!; [done..|]. intros t. by apply represents_iso.
Qed.
End Logical.
End Theorems.

(** ** What is accepted *)

Section Accepted.
Context {P O : Type} `{PlanLike P O, !PlanLikeLaws P O, EntryOrder}.

Lemma load_nodes_wf (l : list (string * O)) : forall (p : P) gm,
  graph_wf (pl_graph p) -> graph_wf (pl_graph (foldl load_node (p, gm) l).1).
Proof.
  induction l as [|[k x] l IH]; intros p gm W; [done|]. cbn [foldl load_node].
  destruct (pl_add_node_eq p x) as (Eg & _). destruct (pl_add_node p x) as [p1 i]. cbn [fst] in Eg.
  apply IH. rewrite Eg. by apply add_node_wf.
Qed.

Lemma pl_add_edge_wf (p p' : P) u v : graph_wf (pl_graph p) -> pl_add_edge p u v = Ok p' -> graph_wf (pl_graph p').
Proof.
  intros W E. destruct (decide (u = v)) as [->|Hne]; [by rewrite pl_add_edge_loop in E|].
  pose proof (pl_add_edge_eq p u v Hne) as L.
  destruct (add_edge (pl_graph p) u v) as [g| |] eqn:Ea; [|rewrite E in L; cbn in L; discriminate..].
  destruct L as (p1 & E1 & <- & _). assert (p1 = p') as -> by congruence. unfold add_edge in Ea.
  destruct (node_index_exists (pl_graph p) u) eqn:Eu; [|done].
  destruct (node_index_exists (pl_graph p) v) eqn:Ev; [|done].
  destruct (add_edge_ok (pl_graph p) u v W) as (g' & Eg & Wg & _); [by apply node_index_exists_iff..|].
  unfold add_edge in Eg. rewrite Eu, Ev in Eg. rewrite Eg in Ea. by injection Ea as <-.
Qed.

Lemma foldM_preserves {E A S} (Q : S -> Prop) (f : S -> A -> outcome E S) l :
  (forall s a s', Q s -> f s a = Ok s' -> Q s') -> forall s s', Q s -> foldM f s l = Ok s' -> Q s'.
Proof.
  intros Hf. induction l as [|a l IH]; intros s s' Hs; cbn [foldM]; [by intros [= <-]|].
  intros (s1 & E1 & E2)%bind_Ok_inv. eauto.
Qed.

Lemma load_plan_wf err nodes edges root (p : P) : load_plan err nodes edges root = Ok p -> graph_wf (pl_graph p).
Proof.
  unfold load_plan. pose proof (load_nodes_wf (entries nodes) pl_new ∅) as W.
  rewrite pl_new_graph in W. specialize (W graph_new_wf).
  destruct (foldl load_node (pl_new, ∅) (entries nodes)) as [p0 gm]. cbn [fst] in W.
  intros (p1 & E1 & E2)%bind_Ok_inv.
  assert (graph_wf (pl_graph p1)) as W1.
  { destruct root as [i|]; cbn [load_root] in E1; [|by simplify_eq].
    apply bind_Ok_inv in E1 as (r & _ & [= <-]). by rewrite (proj1 (pl_set_root_eq p0 (Some r))). }
  revert E2. apply (foldM_preserves (fun p => graph_wf (pl_graph p))); [|done].
  intros q [s ts] q' Wq. unfold load_edges. intros (sn & _ & E)%bind_Ok_inv. revert E.
  apply (foldM_preserves (fun p => graph_wf (pl_graph p))); [|done].
  intros a t a' Wa. unfold load_edge. intros (tn & _ & E)%bind_Ok_inv. by eapply pl_add_edge_wf.
Qed.
End Accepted.

(** C24: whatever text [from_json] accepts, the plan it returns, of fewer than 2^32
    edges, is acyclic, has a root, and every node is reachable from the root, for both kinds of plan. *)
Theorem from_json_accepts `{Profile, HashOrder, !HashOrderLaws, JsonText, EntryOrder}
    `{JsonOp LogicalOp, JsonOp PhysicalOp} (json : string) :
  (forall lp, LP_from_json json = Ok lp -> (Z.of_nat (edge_count (dataflow lp)) < 2 ^ 32)%Z ->
     exists r l, rooted_dag lp r l) /\
  (forall pp, PP_from_json json = Ok pp -> (Z.of_nat (edge_count (p_dataflow pp)) < 2 ^ 32)%Z ->
     exists r l, rooted_dag pp r l).
Proof.
  split; [intros lp E L|intros pp E L].
  - unfold LP_from_json in E. do 4 apply bind_Ok_inv in E as (? & _ & E).
    apply bind_Ok_inv in E as (p & Ep & E). apply load_plan_wf in Ep.
    apply bind_Ok_inv in E as (b & Ec & E). destruct b; [|done]. cbn [negb] in E.
    apply bind_Ok_inv in E as (b & Er & E). destruct b; [|done]. injection E as <-.
    unfold LP_all_reachable_from_root in Er. destruct (root p) as [r|] eqn:R; [|done].
    exists r. by apply (checks_rooted_dag (H := LogicalPlan_like)).
  - unfold PP_from_json in E. do 6 apply bind_Ok_inv in E as (? & _ & E).
    apply bind_Ok_inv in E as (p & Ep & E). apply load_plan_wf in Ep.
    apply bind_Ok_inv in E as (b & Ec & E). destruct b; [|done]. cbn [negb] in E.
    apply bind_Ok_inv in E as (b & Er & E). destruct b; [|done]. injection E as <-.
    unfold PP_all_reachable_from_root in Er. cbn [p_root p_dataflow] in *.
    destruct (p_root p) as [r|] eqn:R; [|done].
    exists r. by apply (checks_rooted_dag (H := PhysicalPlan_like)).
Qed.

(** ** Witnesses *)

Definition same_order : HashOrder := fun l => l.
#[local] Instance same_order_laws : HashOrderLaws (H := same_order).
Proof. by intros l. Qed.

(** A selection over a scan. *)
Definition demo_logical : LogicalPlan :=
  mkLP (mkGraph [mkNode (LScan 3 None None) None; mkNode (LFilter (EIdent "t.b")) (Some 0%nat)] [mkEdge 1 0 None])
    (Some 1%nat).

Definition demo_physical : PhysicalPlan :=
  mkPP (mkGraph [mkNode (PScan 3 None None) None; mkNode (PFilter (EIdent "t.b")) (Some 0%nat)] [mkEdge 1 0 None])
    (Some 1%nat) [3] [].

#[local] Instance demo_profile : Profile := true.
#[local] Existing Instances same_order bit_json plain_entries bit_physical bit_logical.


Lemma logical_json_roundtrip_witness :
  exists lp' f, LP_from_json (to_string (LP_to_json demo_logical)) = Ok lp' /\ root lp' = Some (f 1%nat) /\
    represents lp' (f 1%nat) (TFilter (EIdent "t.b") (TScan 3 None None)).
Proof.
  destruct (logical_json_roundtrip demo_logical 1) as (lp' & f & E & _ & R & T);
    [apply pair_graph_wf|vm_compute; reflexivity..|].
  exists lp', f. refine (conj E (conj R (T _ _))). by repeat econstructor.
Defined.

(** A plan as JSON: a scan "0", a projection "1", the given edges and root. *)
Definition demo_json (edges : list (string * list string)) (root : string) : Value :=
  VObject (list_to_map
    [("nodes", VObject (list_to_map [("0", op_to_value (LScan 3 None None)); ("1", op_to_value (LProject []))]));
     ("edges", VObject (list_to_map (prod_map id strings_to_value <$> edges)));
     ("root", VString root)]).

Lemma from_json_accepts_witness :
  exists lp r l, LP_from_json (to_string (demo_json [("1", ["0"])] "1")) = Ok lp /\ rooted_dag lp r l.
Proof.
  destruct (from_json_accepts (to_string (demo_json [("1", ["0"])] "1"))) as [A _].
  destruct (LP_from_json (to_string (demo_json [("1", ["0"])] "1"))) as [lp|e|] eqn:E;
    [|exfalso; revert E; vm_compute; discriminate..].
  destruct (A lp eq_refl) as (r & l & D); [vm_compute in E; by injection E as <-|].
  exists lp, r, l. exact (conj eq_refl D).
Defined.

(** ** Behaviour to know about *)

(** An edge from a node to itself is a panic, not the error for cycles. *)
Lemma from_json_self_edge_panics : LP_from_json (to_string (demo_json [("1", ["0"; "1"])] "1")) = Panic.
Proof. vm_compute. reflexivity. Qed.

(** A longer cycle is reported. *)
Lemma from_json_cycle_refused :
  LP_from_json (to_string (demo_json [("0", ["1"]); ("1", ["0"])] "1"))
    = Err (CrustyErr "Logical Plan loaded from json contains a cycle").
Proof. vm_compute. reflexivity. Qed.

(** The root of the text is replaced by a node above it: a text whose root "0" is
    below "1" is accepted with the root "1". *)
Lemma from_json_root_replaced :
  exists lp, LP_from_json (to_string (demo_json [("1", ["0"])] "0")) = Ok lp /\
    (root lp ≫= get_operator lp) = Some (LProject []).
Proof. eexists. split; vm_compute; reflexivity. Qed.
