(* ===== verification/PlanDeps.v ===== *)
(** * Dependencies between containers

    [get_dependencies] of [src/src/common/src/physical_plan/mod.rs]: the containers
    that a materialised view is computed from.  The recursions end because plans
    are acyclic; [fuel] bounds their depth, and running out of it is the overflow of
    the stack. *)

From S2P Require Import Prelude Common Types Expr Graph GraphProofs GraphTheorems Plan PlannerProofs.
From S2P Require Import PlanJson PlanJsonProofs.

(** The order in which a [HashSet] is enumerated. *)
Class SetOrder := set_order : gset Z -> list Z.
Class SetOrderLaws `{SetOrder} : Prop := set_order_perm : forall s, set_order s ≡ₚ elements s.

Section Deps.
Context (pp : PhysicalPlan).

(** [res.extend(..)] of the results for the children. *)
Definition extend_with (f : NodeIndex -> result (gset Z)) (res : gset Z) (child : NodeIndex) : result (gset Z) :=
  child_containers ← f child; Ok (res ∪ child_containers).

Fixpoint get_containers_in_children (fuel : nat) (op_index : NodeIndex) : result (gset Z) :=
  match fuel with
  | O => Panic
  | S fuel' =>
      let res := match get_container_id pp op_index with Some c => {[c]} | None => ∅ end in
      children ← PP_edges pp op_index;
      foldM (extend_with (get_containers_in_children fuel')) res children
  end.

Fixpoint get_dependencies_helper (fuel : nat) (container_id : ContainerId) (op_index : NodeIndex) : result (gset Z) :=
  match fuel with
  | O => Panic
  | S fuel' =>
      children ← PP_edges pp op_index;
      if decide (get_container_id pp op_index = Some container_id)
      then foldM (extend_with (get_containers_in_children fuel')) ∅ children
      else foldM (extend_with (get_dependencies_helper fuel' container_id)) ∅ children
  end.

(** A path visits every node at most once. *)
Definition get_dependencies `{SetOrder} (container_id : ContainerId) : result (option (list ContainerId)) :=
  match p_root pp with
  | Some root_index =>
      dependencies ← get_dependencies_helper (S (node_count (p_dataflow pp))) container_id root_index;
      if decide (container_id ∈ dependencies) then Err (CrustyErr "container is dependent on itself")
      else
        let res := set_order dependencies in
        match res with [] => Ok None | _ => Ok (Some res) end
  | None => Err (CrustyErr "attempted to get dependencies of physical plan with no root")
  end.
End Deps.

(** ** What is collected *)

(** A node below another one. *)
Abbreviation below pp := (tc (edge_rel (p_dataflow pp))).
Abbreviation at_or_below pp := (rtc (edge_rel (p_dataflow pp))).

(** The container [d] is read below a node that stands for [c]. *)
Definition depends_on (pp : PhysicalPlan) (from : NodeIndex) (c d : ContainerId) : Prop :=
  exists n m, at_or_below pp from n /\ get_container_id pp n = Some c /\
    below pp n m /\ get_container_id pp m = Some d.

Lemma extend_all (f : nat -> result (gset Z)) (Q : nat -> Z -> Prop) cs : forall res,
  (forall c, c ∈ cs -> exists s, f c = Ok s /\ forall x, x ∈ s <-> Q c x) ->
  exists s, foldM (extend_with f) res cs = Ok s /\ forall x, x ∈ s <-> x ∈ res \/ exists c, c ∈ cs /\ Q c x.
Proof.
  induction cs as [|c cs IH]; intros res Hf; cbn [foldM].
  - exists res. split; [done|]. set_solver.
  - destruct (Hf c) as (s & E & Hs); [apply list_elem_of_here|]. 
    assert (extend_with f res c = Ok (res ∪ s)) as -> by (unfold extend_with; by rewrite E). mstep.
    destruct (IH (res ∪ s)) as (s' & E' & Hs'); [set_solver|]. exists s'. split; [done|].
    intros x. rewrite Hs', elem_of_union, Hs. set_solver.
Qed.

Section Acyclic.
Context (pp : PhysicalPlan) (l : list nat).
Context (W : graph_wf (p_dataflow pp)) (T : is_topo (p_dataflow pp) l).
Abbreviation g := (p_dataflow pp).

(** A child comes later in the order. *)
Lemma child_later i c pos : l !! pos = Some i -> edge_rel g i c ->
  exists pos', l !! pos' = Some c /\ (pos < pos')%nat /\ (pos' < length l)%nat.
Proof.
  intros Hi E. destruct (topo_tc g l i c T W) as (a & b & Ha & Hb & Hlt); [by apply tc_once|].
  destruct T as [P _]. assert (NoDup l) as N by (rewrite P; apply NoDup_seq).
  assert (a = pos) as -> by (by apply (proj1 (NoDup_alt l) N a pos i)).
  exists b. split_and!; [done..|]. by eapply lookup_lt_Some.
Qed.

Lemma node_edges i pos : l !! pos = Some i -> PP_edges pp i = Ok (out (edge_list g) i).
Proof.
  intros Hi. apply edges_ok; [done|]. destruct T as [P _]. apply list_elem_of_lookup_2 in Hi.
  rewrite P, elem_of_seq in Hi. lia.
Qed.

Lemma containers_ok fuel : forall i pos, l !! pos = Some i -> (length l - pos <= fuel)%nat ->
  exists s, get_containers_in_children pp fuel i = Ok s /\
    forall d, d ∈ s <-> exists m, at_or_below pp i m /\ get_container_id pp m = Some d.
Proof.
  induction fuel as [|fuel IH]; intros i pos Hi Hf; [apply lookup_lt_Some in Hi; lia|].
  cbn [get_containers_in_children]. rewrite (node_edges i pos Hi). mstep.
  destruct (extend_all (get_containers_in_children pp fuel)
              (fun c d => exists m, at_or_below pp c m /\ get_container_id pp m = Some d)
              (out (edge_list g) i) match get_container_id pp i with Some c => {[c]} | None => ∅ end)
    as (s & E & Hs).
  { intros c Hc%edge_rel_out. destruct (child_later i c pos Hi Hc) as (pos' & Hp & Hlt & Hl).
    apply (IH c pos'); [done|lia]. }
  exists s. split; [done|]. intros d. rewrite Hs. setoid_rewrite <- edge_rel_out. split.
  - intros [Hd|(c & Hc & m & Hm & Ed)].
    + exists i. split; [done|]. destruct (get_container_id pp i); set_solver.
    + exists m. split; [by eapply rtc_l|done].
  - intros (m & Hm & Ed). apply rtc_inv in Hm as [<-|(c & Hc & Hm)]; [left; rewrite Ed; set_solver|].
    right. eauto.
Qed.

Lemma helper_ok fuel c : forall i pos, l !! pos = Some i -> (length l - pos <= fuel)%nat ->
  exists s, get_dependencies_helper pp fuel c i = Ok s /\ forall d, d ∈ s <-> depends_on pp i c d.
Proof.
  induction fuel as [|fuel IH]; intros i pos Hi Hf; [apply lookup_lt_Some in Hi; lia|].
  cbn [get_dependencies_helper]. rewrite (node_edges i pos Hi). mstep. case_decide as Hc.
  - destruct (extend_all (get_containers_in_children pp fuel)
                (fun k d => exists m, at_or_below pp k m /\ get_container_id pp m = Some d)
                (out (edge_list g) i) ∅) as (s & E & Hs).
    { intros k Hk%edge_rel_out. destruct (child_later i k pos Hi Hk) as (pos' & Hp & Hlt & Hl).
      apply (containers_ok fuel k pos'); [done|lia]. }
    exists s. split; [done|]. intros d. rewrite Hs. setoid_rewrite <- edge_rel_out. split.
    + intros [?|(k & Hk & m & Hm & Ed)]; [set_solver|]. exists i, m. split_and!; [done..| |done].
      by eapply tc_rtc_r; [apply tc_once|].
    + intros (n & m & Hn & _ & Hm & Ed). right.
      assert (below pp i m) as Hb by (by eapply tc_rtc_l).
      inversion Hb as [? ? Hk|? k ? Hk Hb']; subst; [by exists m; eauto using rtc_refl|]. exists k. split; [done|].
      exists m. split; [by apply tc_rtc|done].
  - destruct (extend_all (get_dependencies_helper pp fuel c) (fun k d => depends_on pp k c d)
                (out (edge_list g) i) ∅) as (s & E & Hs).
    { intros k Hk%edge_rel_out. destruct (child_later i k pos Hi Hk) as (pos' & Hp & Hlt & Hl).
      apply (IH k pos'); [done|lia]. }
    exists s. split; [done|]. intros d. rewrite Hs. setoid_rewrite <- edge_rel_out. split.
    + intros [?|(k & Hk & n & m & Hn & R)]; [set_solver|]. exists n, m. split; [by eapply rtc_l|done].
    + intros (n & m & Hn & En & R). right. apply rtc_inv in Hn as [->|(k & Hk & Hn)]; [done|].
      exists k. split; [done|]. by exists n, m.
Qed.
End Acyclic.

(** C25: on a plan of fewer than 2^32 edges that is acyclic and has a root, [get_dependencies] ends; it fails
    exactly when the container is read below a node that stands for itself, and
    otherwise lists, without repetition, exactly the containers read below a node
    that stands for it, and [None] when there are none. *)
Theorem get_dependencies_correct `{SetOrder, !SetOrderLaws} `{Profile, HashOrder, !HashOrderLaws}
    (pp : PhysicalPlan) (r : nat) (c : ContainerId) :
  graph_wf (p_dataflow pp) -> (Z.of_nat (edge_count (p_dataflow pp)) < 2 ^ 32)%Z ->
  p_root pp = Some r -> (r < node_count (p_dataflow pp))%nat -> PP_cycle_free pp = Ok true ->
  match get_dependencies pp c with
  | Ok o => ~ depends_on pp r c c /\ NoDup (default [] o) /\ o <> Some [] /\
            forall d, d ∈ default [] o <-> depends_on pp r c d
  | Err e => e = CrustyErr "container is dependent on itself" /\ depends_on pp r c c
  | Panic => False
  end.
Proof.
  intros W L R Hr C. destruct (cycle_free_topo (p_dataflow pp) W L) as (b & Eb & Hb).
  unfold PP_cycle_free in C. assert (b = true) as -> by congruence. destruct (proj1 Hb eq_refl) as [l T].
  assert (exists pos, l !! pos = Some r) as [pos Hpos].
  { apply list_elem_of_lookup. destruct T as [P _]. rewrite P. apply elem_of_seq. unfold node_count in Hr. lia. }
  destruct (helper_ok pp l W T (S (node_count (p_dataflow pp))) c r pos Hpos) as (s & E & Hs).
  { destruct T as [P _]. apply Permutation_length in P. rewrite length_seq in P. unfold node_count. lia. }
  unfold get_dependencies. rewrite R, E. mstep. pose proof (set_order_perm s) as P. case_decide as Hc.
  { split; [done|]. by apply Hs. }
  assert (forall d, d ∈ set_order s <-> depends_on pp r c d) as Hd.
  { intros d. rewrite P, elem_of_elements. apply Hs. }
  assert (NoDup (set_order s)) as N by (rewrite P; apply NoDup_elements).
  rewrite Hs in Hc. by destruct (set_order s).
Qed.

(** A view 9 over a scan of the container 3. *)
Definition view_plan : PhysicalPlan :=
  mkPP (mkGraph [mkNode (PScan 3 None None) None; mkNode (PMaterializedView 9) (Some 0%nat)] [mkEdge 1 0 None])
    (Some 1%nat) [3%Z] [].

Definition element_order : SetOrder := elements.
#[local] Instance element_order_laws : SetOrderLaws (H := element_order).
Proof. by intros s. Qed.

Definition id_order : HashOrder := fun l => l.
#[local] Instance id_order_laws : HashOrderLaws (H := id_order).
Proof. by intros l. Qed.

Lemma get_dependencies_correct_witness :
  get_dependencies (H := element_order) view_plan 9%Z = Ok (Some [3%Z]) /\
  forall d, d = 3%Z <-> depends_on view_plan 1 9 d.
Proof.
  pose proof (get_dependencies_correct (H := element_order) (H1 := true) (H2 := id_order) view_plan 1 9%Z) as C.
  assert (get_dependencies (H := element_order) view_plan 9%Z = Ok (Some [3%Z])) as E by (vm_compute; reflexivity).
  split; [exact E|]. rewrite E in C. cbn [default] in C.
  destruct C as (_ & _ & _ & C); [apply pair_graph_wf|vm_compute; reflexivity|reflexivity|cbn; lia|vm_compute; reflexivity|].
  intros d. rewrite <- C. symmetry. apply list_elem_of_singleton.
Defined.
