(* ===== verification/Optimizer.v ===== *)
(** * The optimizer

    [src/src/optimizer/src/]: the columns of expressions ([optimizer.rs]) and
    the rules that push predicates ([pushdown_predicate.rs]) and projections
    ([pushdown_projection.rs]) towards the scans.  A rule walks the plan from
    its root and builds a new plan; [fuel] bounds the depth of the walk. *)

From S2P Require Import Prelude Common Types Expr Graph Catalog Plan Planner.

(** ** [BTreeSet<String>]: the elements in ascending order of their bytes *)

Definition BTreeSet : Type := list string.

Fixpoint bt_insert (x : string) (l : BTreeSet) : BTreeSet :=
  match l with
  | [] => [x]
  | y :: l' =>
      match String.compare x y with
      | Datatypes.Lt => x :: l
      | Datatypes.Eq => l
      | Datatypes.Gt => y :: bt_insert x l'
      end
  end.

Definition bt_extend (l other : BTreeSet) : BTreeSet := foldl (fun l x => bt_insert x l) l other.

Definition is_subset (l other : BTreeSet) : bool := forallb (fun x => bool_decide (x ∈ other)) l.

(** ** The columns of an expression ([optimizer.rs]) *)

Fixpoint extract_columns (expr : AstExpr) (accum : BTreeSet) : result BTreeSet :=
  match expr with
  | ELiteral _ => Ok accum
  | EIdent idx => Ok (bt_insert idx accum)
  | EAlias _ e => extract_columns e accum
  | EMath _ l r => accum ← extract_columns l accum; extract_columns r accum
  | EBoolean _ l r => accum ← extract_columns l accum; extract_columns r accum
  | EAgg _ e => extract_columns e accum
  | EColIdx _ => Panic
  end.

Definition extract_columns_vec (expr : list AstExpr) (accum : BTreeSet) : result BTreeSet :=
  foldM (fun accum e => extract_columns e accum) accum expr.

(** ** Pushing predicates ([pushdown_predicate.rs]) *)

Definition combine_predicates_with_and (predicates : list AstExpr) : option AstExpr :=
  match predicates with
  | [] => None
  | p :: ps => Some (foldl (fun a b => EBoolean BAnd a b) p ps)
  end.

(** The conjuncts are pushed to the end of [separated_predicates]. *)
Fixpoint separate_predicates_by_and (predicate : AstExpr) (separated_predicates : list AstExpr)
  : list AstExpr :=
  match predicate with
  | EBoolean BAnd l r => separate_predicates_by_and r (separate_predicates_by_and l separated_predicates)
  | _ => separated_predicates ++ [predicate]
  end.

(** [if let Some(filter) = .. { separate(filter, predicates) }] *)
Definition separate_opt (filter : option AstExpr) (predicates : list AstExpr) : list AstExpr :=
  match filter with
  | Some f => separate_predicates_by_and f predicates
  | None => predicates
  end.

Section Predicates.
Context (lp : LogicalPlan) (catalog : Catalog).

(** [lp.edges(i).next().unwrap()] *)
Definition first_child (i : NodeIndex) : result NodeIndex :=
  children ← LP_edges lp i; unwrap_opt (head children).

Fixpoint extract_columns_from_plan (fuel : nat) (index : NodeIndex) : result BTreeSet :=
  match fuel with
  | O => Panic
  | S fuel' =>
      let from_children :=
        children ← LP_edges lp index;
        foldM (fun columns child => c ← extract_columns_from_plan fuel' child; Ok (bt_extend columns c))
          [] children in
      match get_operator lp index with
      | None => Ok []
      | Some (LScan c _ projection) =>
          match projection with
          | Some projection => extract_columns_vec projection []
          | None =>
              schema ← unwrap_opt (get_table_schema catalog c);
              Ok (foldl (fun columns attr => bt_insert (Types.name attr) columns) [] (attributes schema))
          end
      | Some (LProject identifiers) => extract_columns_vec identifiers []
      | Some (LAggregate fields group_by _) =>
          columns ← extract_columns_vec fields []; extract_columns_vec group_by columns
      | Some (LJoin _ _) | Some (LFilter _) | Some (LCrossProduct _) | Some (LSort _) => from_children
      | Some (LReadDeltas _) | Some (LWriteDeltas _) | Some (LUpdate _ _ _) => Panic
      end
  end.

Definition can_be_pushed_down (fuel : nat) (predicate : AstExpr) (child_index : NodeIndex) : result bool :=
  columns ← extract_columns predicate [];
  child_columns ← extract_columns_from_plan fuel child_index;
  Ok (is_subset columns child_columns).

(** The four lists a join sorts its predicates into. *)
Record JoinSplit := mkSplit {
  left_predicates : list AstExpr;
  right_predicates : list AstExpr;
  new_eqs : list (AstExpr * AstExpr);
  remaining_predicates : list AstExpr;
}.

(** One turn of [for predicate in predicates.drain(..)]; [can e child] is
    [can_be_pushed_down]. *)
Definition split_predicate (can : AstExpr -> NodeIndex -> result bool) (left_child right_child : NodeIndex)
  (s : JoinSplit) (predicate : AstExpr) : result JoinSplit :=
  let '(mkSplit lefts rights eqs remaining) := s in
  to_left ← can predicate left_child;
  if (to_left : bool) then Ok (mkSplit (lefts ++ [predicate]) rights eqs remaining)
  else
    to_right ← can predicate right_child;
    if (to_right : bool) then Ok (mkSplit lefts (rights ++ [predicate]) eqs remaining)
    else
      match predicate with
      | EBoolean BEq l r =>
          straight ← and_then (can l left_child) (can r right_child);
          if (straight : bool) then Ok (mkSplit lefts rights (eqs ++ [(l, r)]) remaining)
          else
            crossed ← and_then (can l right_child) (can r left_child);
            if (crossed : bool) then Ok (mkSplit lefts rights (eqs ++ [(r, l)]) remaining)
            else Ok (mkSplit lefts rights eqs (remaining ++ [predicate]))
      | _ => Ok (mkSplit lefts rights eqs (remaining ++ [predicate]))
      end.

Definition split_predicates (fuel : nat) (left_child right_child : NodeIndex) (eqs : list (AstExpr * AstExpr))
  (predicates : list AstExpr) : result JoinSplit :=
  foldM (split_predicate (can_be_pushed_down fuel) left_child right_child) (mkSplit [] [] eqs []) predicates.

(** The turns of the loop of [Aggregate]: (having, pushing). *)
Definition split_having (fuel : nat) (child : NodeIndex) (s : list AstExpr * list AstExpr) (predicate : AstExpr)
  : result (list AstExpr * list AstExpr) :=
  let '(having_predicates, pushing_predicates) := s in
  b ← can_be_pushed_down fuel predicate child;
  Ok (if (b : bool) then (having_predicates, pushing_predicates ++ [predicate])
      else (having_predicates ++ [predicate], pushing_predicates)).

(** A new node over the root of a plan. *)
Definition put_over (new_lp : LogicalPlan) (op : LogicalOp) : result LogicalPlan :=
  old_root ← unwrap_opt (root new_lp);
  let '(new_lp, i) := LP_add_node new_lp op in
  LP_add_edge new_lp i old_root.

Definition two_children (i : NodeIndex) : result (NodeIndex * NodeIndex) :=
  children ← LP_edges lp i;
  match children with
  | [left_child; right_child] => Ok (left_child, right_child)
  | _ => Panic
  end.

(** A scan takes all predicates that reach it. *)
Definition pushed_scan (c : ContainerId) (filter : option AstExpr) (projection : option (list AstExpr))
  (predicates : list AstExpr) : LogicalPlan :=
  let predicates := separate_opt filter predicates in
  (LP_add_node LP_new (LScan c (combine_predicates_with_and predicates) projection)).1.

(** An aggregation keeps the predicates that cannot go below it. *)
Definition put_aggregate (new_lp : LogicalPlan) (fields group_by having_predicates : list AstExpr) : result LogicalPlan :=
  put_over new_lp (LAggregate fields group_by (combine_predicates_with_and having_predicates)).

Fixpoint pushdown (fuel : nat) (start : NodeIndex) (predicates : list AstExpr) : result LogicalPlan :=
  match fuel with
  | O => Panic
  | S fuel' =>
      let pushdown_through_node (new_op : LogicalOp) : result LogicalPlan :=
        child ← first_child start;
        new_lp ← pushdown fuel' child predicates;
        put_over new_lp new_op in
      let push_both (s : JoinSplit) (left_child right_child : NodeIndex) (new_node : LogicalOp) :=
        new_left_lp ← pushdown fuel' left_child (left_predicates s);
        new_right_lp ← pushdown fuel' right_child (right_predicates s);
        merge new_left_lp new_node new_right_lp in
      op ← unwrap_opt (get_operator lp start);
      match op with
      | LProject identifiers => pushdown_through_node (LProject identifiers)
      | LFilter predicate =>
          let predicates := separate_predicates_by_and predicate predicates in
          child_idx ← first_child start;
          pushdown fuel' child_idx predicates
      | LJoin eqs filter =>
          '(left_child, right_child) ← two_children start;
          let predicates := separate_opt filter predicates in
          s ← split_predicates fuel' left_child right_child eqs predicates;
          push_both s left_child right_child
            (LJoin (new_eqs s) (combine_predicates_with_and (remaining_predicates s)))
      | LCrossProduct filter =>
          '(left_child, right_child) ← two_children start;
          let predicates := separate_opt filter predicates in
          s ← split_predicates fuel' left_child right_child [] predicates;
          let filter := combine_predicates_with_and (remaining_predicates s) in
          push_both s left_child right_child
            (match new_eqs s with
             | [] => LCrossProduct filter
             | _ => LJoin (new_eqs s) filter
             end)
      | LScan c filter projection =>
          Ok (pushed_scan c filter projection predicates)
      | LAggregate fields group_by having =>
          child ← first_child start;
          let predicates := separate_opt having predicates in
          '(having_predicates, pushing_predicates) ← foldM (split_having fuel' child) ([], []) predicates;
          new_lp ← pushdown fuel' child pushing_predicates;
          put_aggregate new_lp fields group_by having_predicates
      | LSort fields => pushdown_through_node (LSort fields)
      | LUpdate _ _ _ | LReadDeltas _ | LWriteDeltas _ => Panic
      end
  end.

Definition PredicatePushdown_apply (fuel : nat) : result LogicalPlan :=
  start ← unwrap_opt (root lp);
  pushdown fuel start [].

(** ** Pushing projections ([pushdown_projection.rs]) *)

(** [col_names] is one mutable set for the whole walk: what the left child adds
    is still there for the right one. *)
Definition extract_columns_opt (filter : option AstExpr) (col_names : BTreeSet) : result BTreeSet :=
  match filter with
  | Some f => extract_columns f col_names
  | None => Ok col_names
  end.

(** [lp.edges(i).nth(1).unwrap()] *)
Definition second_child (i : NodeIndex) : result NodeIndex :=
  children ← LP_edges lp i; unwrap_opt (children !! 1%nat).

Definition scan_columns (schema : TableSchema) (col_names : BTreeSet) : list AstExpr :=
  EIdent <$> filter (fun col => schema_contains schema col = true) col_names.

Fixpoint pushdown_proj (fuel : nat) (start : NodeIndex) (col_names : BTreeSet)
  : result (LogicalPlan * BTreeSet) :=
  match fuel with
  | O => Panic
  | S fuel' =>
      let over_child (col_names : BTreeSet) (new_op : LogicalOp) :=
        child ← first_child start;
        '(new_lp, col_names) ← pushdown_proj fuel' child col_names;
        new_lp ← put_over new_lp new_op;
        Ok (new_lp, col_names) in
      let over_children (col_names : BTreeSet) (new_op : LogicalOp) :=
        left ← first_child start;
        right ← second_child start;
        '(new_lp_l, col_names) ← pushdown_proj fuel' left col_names;
        '(new_lp_r, col_names) ← pushdown_proj fuel' right col_names;
        new_lp ← merge new_lp_l new_op new_lp_r;
        Ok (new_lp, col_names) in
      op ← unwrap_opt (get_operator lp start);
      match op with
      | LProject identifiers =>
          col_names ← extract_columns_vec identifiers col_names;
          over_child col_names op
      | LFilter predicate =>
          col_names ← extract_columns predicate col_names;
          over_child col_names op
      | LAggregate fields group_by _ =>
          col_names ← extract_columns_vec fields col_names;
          col_names ← extract_columns_vec group_by col_names;
          over_child col_names op
      | LJoin eqs filter =>
          col_names ← foldM (fun cols (e : AstExpr * AstExpr) =>
                               cols ← extract_columns e.1 cols; extract_columns e.2 cols) col_names eqs;
          col_names ← extract_columns_opt filter col_names;
          over_children col_names op
      | LCrossProduct _ => over_children col_names op
      | LSort fields =>
          col_names ← extract_columns_vec fields.*1 col_names;
          over_child col_names op
      | LScan c filter _ =>
          schema ← unwrap_opt (get_table_schema catalog c);
          Ok ((LP_add_node LP_new (LScan c filter (Some (scan_columns schema col_names)))).1, col_names)
      | LUpdate _ _ _ | LReadDeltas _ | LWriteDeltas _ => Panic
      end
  end.

Definition ProjectionPushdown_apply (fuel : nat) : result LogicalPlan :=
  start ← unwrap_opt (root lp);
  '(new_plan, _) ← pushdown_proj fuel start [];
  Ok new_plan.
End Predicates.
