(* ===== verification/OptimizerProofs.v ===== *)
(** * The optimizer: what the rules do to plans as trees

    The walks over the plan graph of [Optimizer] are refined by functions on
    trees, [push_tree] and [proj_tree]: from a plan that represents a tree they
    build a well-formed plan that represents the tree's image. *)

From S2P Require Import Prelude Common Types Expr ExprProofs Graph GraphProofs Catalog Plan Planner.
From S2P Require Import PlannerProofs PlanMerge Optimizer.

(** ** Columns *)

Lemma elem_of_bt_insert x y l : y ∈ bt_insert x l <-> y = x \/ y ∈ l.
Proof.
  induction l as [|z l IH]; cbn [bt_insert].
  - rewrite list_elem_of_singleton, elem_of_nil. tauto.
  - destruct (String.compare x z) eqn:E; rewrite ?elem_of_cons.
    + apply String.compare_eq_iff in E as ->. tauto.
    + tauto.
    + rewrite IH. tauto.
Qed.

Lemma elem_of_bt_extend y other : forall l, y ∈ bt_extend l other <-> y ∈ l \/ y ∈ other.
Proof.
  unfold bt_extend. induction other as [|x other IH]; intros l; cbn [foldl].
  - rewrite elem_of_nil. tauto.
  - rewrite IH, elem_of_bt_insert, elem_of_cons. tauto.
Qed.

(** Expressions by names only: [bind_expr] has not run on them yet. *)
Fixpoint named (e : AstExpr) : bool :=
  match e with
  | EColIdx _ => false
  | ELiteral _ | EIdent _ => true
  | EAlias _ e | EAgg _ e => named e
  | EMath _ l r | EBoolean _ l r => named l && named r
  end.

(** A computation of columns succeeds and adds exactly [names]. *)
Definition adds (m : BTreeSet -> result BTreeSet) (names : list string) : Prop :=
  forall accum, exists l, m accum = Ok l /\ forall x, x ∈ l <-> x ∈ accum \/ x ∈ names.

Lemma adds_bind m1 m2 n1 n2 :
  adds m1 n1 -> adds m2 n2 -> adds (fun a => a ← m1 a; m2 a) (n1 ++ n2).
Proof.
  intros H1 H2 a. destruct (H1 a) as (l & -> & Hl). mstep. destruct (H2 l) as (k & -> & Hk).
  exists k. split; [done|]. intros x. rewrite Hk, Hl, elem_of_app. tauto.
Qed.

Lemma extract_columns_adds e : named e = true -> adds (extract_columns e) (idents e).
Proof.
  induction e as [f|s|s e IH|op l IHl r IHr|op l IHl r IHr|op e IH|i]; cbn [named]; intros Hn;
    cbn [extract_columns idents]; try apply andb_true_iff in Hn as [Hl Hr]; try by auto using adds_bind.
  - intros a. exists a. split; [done|]. intros x. rewrite elem_of_nil. tauto.
  - intros a. eexists. split; [done|]. intros x. rewrite elem_of_bt_insert, list_elem_of_singleton. tauto.
Qed.

Lemma extract_columns_vec_adds es :
  forallb named es = true -> adds (extract_columns_vec es) (es ≫= idents).
Proof.
  unfold extract_columns_vec. induction es as [|e es IH]; cbn [forallb foldM].
  - intros _ a. exists a. split; [done|]. intros x. rewrite elem_of_nil. tauto.
  - intros [He Hes]%andb_true_iff. exact (adds_bind _ _ _ _ (extract_columns_adds e He) (IH Hes)).
Qed.

(** The columns of a plan, from the operators of its tree. *)
Fixpoint tree_cols (catalog : Catalog) (t : ltree) : list string :=
  match t with
  | T0 (LScan c _ (Some es)) => es ≫= idents
  | T0 (LScan c _ None) =>
      match get_table_schema catalog c with Some sc => Types.name <$> attributes sc | None => [] end
  | T0 _ => []
  | T1 (LProject es) _ => es ≫= idents
  | T1 (LAggregate fields group_by _) _ => (fields ≫= idents) ++ (group_by ≫= idents)
  | T1 _ t => tree_cols catalog t
  | T2 _ l r => tree_cols catalog l ++ tree_cols catalog r
  end.

Definition opt_named (o : option AstExpr) : bool := match o with Some e => named e | None => true end.

(** The trees the rules accept: operators at their arity, expressions by names
    and scans of known tables. *)
Fixpoint optimizable (catalog : Catalog) (t : ltree) : bool :=
  match t with
  | T0 (LScan c flt prj) =>
      bool_decide (is_Some (get_table_schema catalog c)) && opt_named flt &&
      forallb named (default [] prj)
  | T1 (LProject es) t => forallb named es && optimizable catalog t
  | T1 (LFilter p) t => named p && optimizable catalog t
  | T1 (LAggregate fields group_by having) t =>
      forallb named fields && forallb named group_by && opt_named having && optimizable catalog t
  | T1 (LSort fields) t => forallb named fields.*1 && optimizable catalog t
  | T2 (LJoin eqs flt) l r =>
      forallb (fun e => named e.1 && named e.2) eqs && opt_named flt &&
      optimizable catalog l && optimizable catalog r
  | T2 (LCrossProduct flt) l r => opt_named flt && optimizable catalog l && optimizable catalog r
  | _ => false
  end.

(** Destructs the boolean side conditions in the context. *)
Ltac split_bools :=
  repeat match goal with
    | H : _ && _ = true |- _ => apply andb_true_iff in H as [? ?]
    | H : bool_decide _ = true |- _ => apply bool_decide_eq_true_1 in H
    end.

Section Walk.
Context (catalog : Catalog) (lp : LogicalPlan) (W : plan_wf lp).

Lemma LP_edges_ok i op : get_operator lp i = Some op -> LP_edges lp i = Ok (out (edge_list (dataflow lp)) i).
Proof. intros E. apply edges_ok; [apply W|]. by eapply get_operator_lt. Qed.

Lemma attribute_names_adds (l : list Attribute) :
  adds (fun a => Ok (foldl (fun columns attr => bt_insert (Types.name attr) columns) a l)) (Types.name <$> l).
Proof.
  induction l as [|at0 l IH]; intros a; cbn [foldl fmap list_fmap].
  - eexists. split; [done|]. intros x. rewrite elem_of_nil. tauto.
  - destruct (IH (bt_insert (Types.name at0) a)) as (k & E & Hk). exists k. split; [exact E|].
    intros x. rewrite Hk, elem_of_bt_insert, elem_of_cons. tauto.
Qed.

Lemma extract_columns_from_plan_ok t i fuel :
  represents lp i t -> optimizable catalog t = true -> (height t <= fuel)%nat ->
  exists l, extract_columns_from_plan lp catalog fuel i = Ok l /\ forall x, x ∈ l <-> x ∈ tree_cols catalog t.
Proof.
  intros R. revert fuel.
  assert (forall m names, adds m names -> exists l, m [] = Ok l /\ forall x, x ∈ l <-> x ∈ names) as Hadds.
  { intros m names Ha. destruct (Ha []) as (l & E & Hl). exists l. split; [done|]. intros x.
    rewrite Hl, elem_of_nil. tauto. }
  induction R as [i op E O|i j op t E O R IH|i j k op l r E O Rl IHl Rr IHr];
    intros [|fuel] Ho Hf; cbn [height] in Hf; try lia;
    cbn [extract_columns_from_plan]; rewrite E, ?(LP_edges_ok _ _ E), ?O.
  - destruct op as [c flt [es|]| | | | | | | | |]; try done; cbn [optimizable tree_cols] in *; split_bools.
    + by apply Hadds, extract_columns_vec_adds.
    + destruct (get_table_schema catalog c) as [sc|]; [|by destruct H]. cbn [unwrap_opt]. mstep.
      exact (Hadds _ _ (attribute_names_adds (attributes sc))).
  - destruct op; try done; cbn [optimizable tree_cols] in *; split_bools; mstep; cbn [foldM].
    1: by apply Hadds, extract_columns_vec_adds.
    2: by apply (Hadds _ _ (adds_bind _ _ _ _ (extract_columns_vec_adds _ H) (extract_columns_vec_adds _ H2))).
    all: destruct (IH fuel) as (l & -> & Hl); [done|lia|]; mstep; eexists; split; [done|];
      intros x; rewrite elem_of_bt_extend, Hl, elem_of_nil; tauto.
  - destruct op; try done; cbn [optimizable tree_cols] in *; split_bools; mstep; cbn [foldM];
      (destruct (IHl fuel) as (cl & -> & Hl); [done|lia|]); mstep;
      (destruct (IHr fuel) as (cr & -> & Hr); [done|lia|]); mstep; eexists; (split; [done|]);
      intros x; rewrite !elem_of_bt_extend, Hl, Hr, elem_of_nil, elem_of_app; tauto.
Qed.

Definition pushable (p : AstExpr) (t : ltree) : bool :=
  forallb (fun x => bool_decide (x ∈ tree_cols catalog t)) (idents p).

Lemma can_be_pushed_down_ok p t i fuel :
  named p = true -> represents lp i t -> optimizable catalog t = true -> (height t <= fuel)%nat ->
  can_be_pushed_down lp catalog fuel p i = Ok (pushable p t).
Proof.
  intros Hn R Ho Hf. unfold can_be_pushed_down.
  destruct (extract_columns_adds p Hn []) as (cs & -> & Hcs). mstep.
  destruct (extract_columns_from_plan_ok t i fuel R Ho Hf) as (ps & -> & Hps). mstep. f_equal.
  apply eq_bool_prop_intro. unfold is_subset, pushable. rewrite !forallb_True, !Forall_forall.
  split; intros Hx x Hin.
  - apply bool_decide_pack, Hps. apply (bool_decide_unpack (x ∈ ps)), Hx, Hcs. by right.
  - apply bool_decide_pack, Hps. apply Hcs in Hin as [[]%elem_of_nil|Hin].
    by apply (bool_decide_unpack (x ∈ tree_cols catalog t)), Hx.
Qed.
End Walk.

(** ** Predicate pushdown on trees *)

(** Where a join puts a predicate. *)
Definition place (catalog : Catalog) (l r : ltree) (s : JoinSplit) (p : AstExpr) : JoinSplit :=
  let can := pushable catalog in
  let '(mkSplit lefts rights eqs remaining) := s in
  if can p l then mkSplit (lefts ++ [p]) rights eqs remaining
  else if can p r then mkSplit lefts (rights ++ [p]) eqs remaining
  else match p with
       | EBoolean BEq a b =>
           if can a l && can b r then mkSplit lefts rights (eqs ++ [(a, b)]) remaining
           else if can a r && can b l then mkSplit lefts rights (eqs ++ [(b, a)]) remaining
           else mkSplit lefts rights eqs (remaining ++ [p])
       | _ => mkSplit lefts rights eqs (remaining ++ [p])
       end.

Definition place_all (catalog : Catalog) (l r : ltree) (eqs : list (AstExpr * AstExpr)) (ps : list AstExpr)
  : JoinSplit := foldl (place catalog l r) (mkSplit [] [] eqs []) ps.

(** A join with its equalities and what remains of the predicates. *)
Definition join_op (s : JoinSplit) : LogicalOp :=
  LJoin (new_eqs s) (combine_predicates_with_and (remaining_predicates s)).

Definition cross_op (s : JoinSplit) : LogicalOp :=
  match new_eqs s with
  | [] => LCrossProduct (combine_predicates_with_and (remaining_predicates s))
  | _ => join_op s
  end.

Fixpoint push_tree (catalog : Catalog) (t : ltree) (ps : list AstExpr) : ltree :=
  match t with
  | T0 (LScan c flt prj) => T0 (LScan c (combine_predicates_with_and (separate_opt flt ps)) prj)
  | T0 op => T0 op
  | T1 (LFilter p) t => push_tree catalog t (separate_predicates_by_and p ps)
  | T1 (LAggregate fields group_by having) t' =>
      let ps := separate_opt having ps in
      T1 (LAggregate fields group_by
            (combine_predicates_with_and (filter (fun p => pushable catalog p t' = false) ps)))
         (push_tree catalog t' (filter (fun p => pushable catalog p t' = true) ps))
  | T1 op t => T1 op (push_tree catalog t ps)
  | T2 (LJoin eqs flt) l r =>
      let s := place_all catalog l r eqs (separate_opt flt ps) in
      T2 (join_op s) (push_tree catalog l (left_predicates s)) (push_tree catalog r (right_predicates s))
  | T2 (LCrossProduct flt) l r =>
      let s := place_all catalog l r [] (separate_opt flt ps) in
      T2 (cross_op s) (push_tree catalog l (left_predicates s)) (push_tree catalog r (right_predicates s))
  | T2 op l r => T2 op l r
  end.

(** Conjuncts of named predicates are named. *)
Lemma named_separate p : forall ps, named p = true -> forallb named ps = true ->
  forallb named (separate_predicates_by_and p ps) = true.
Proof.
  assert (forall q ps, named q = true -> forallb named ps = true -> forallb named (ps ++ [q]) = true) as Hbase.
  { intros q ps Hq Hps. rewrite forallb_app, Hps. cbn. by rewrite Hq. }
  induction p as [f|s|s e IH|op l IHl r IHr|op l IHl r IHr|op e IH|i]; intros ps Hp Hps; try by apply Hbase.
  destruct op; try by apply Hbase. cbn [separate_predicates_by_and named] in *. split_bools. auto.
Qed.

Lemma named_separate_opt flt ps : opt_named flt = true -> forallb named ps = true ->
  forallb named (separate_opt flt ps) = true.
Proof. destruct flt; [apply named_separate|done]. Qed.

Lemma forallb_filter {A} (P : A -> Prop) `{forall x, Decision (P x)} (f : A -> bool) l :
  forallb f l = true -> forallb f (filter P l) = true.
Proof.
  rewrite !forallb_forall. intros Hl x [_ Hx]%list_elem_of_In%list_elem_of_filter.
  by apply Hl, list_elem_of_In.
Qed.

Record split_named (s : JoinSplit) : Prop := {
  sn_left : forallb named (left_predicates s) = true;
  sn_right : forallb named (right_predicates s) = true;
}.

Lemma place_named catalog l r s p : named p = true -> split_named s -> split_named (place catalog l r s p).
Proof.
  intros Hp [Hl Hr]. destruct s as [lefts rights eqs rem]. unfold place.
  cbn [left_predicates right_predicates] in *.
  repeat (split_match; try (split; cbn [left_predicates right_predicates];
    rewrite ?forallb_app; cbn [forallb]; by rewrite ?Hl, ?Hr, ?Hp)).
Qed.

Section Refine.
Context (catalog : Catalog) (lp : LogicalPlan) (W : plan_wf lp).

Lemma split_predicates_ok l r i j eqs ps fuel :
  forallb named ps = true ->
  represents lp i l -> optimizable catalog l = true -> (height l <= fuel)%nat ->
  represents lp j r -> optimizable catalog r = true -> (height r <= fuel)%nat ->
  split_predicates lp catalog fuel i j eqs ps = Ok (place_all catalog l r eqs ps) /\
  split_named (place_all catalog l r eqs ps).
Proof.
  intros Hps Rl Ol Hl Rr Or Hr. unfold split_predicates, place_all.
  assert (forall s p, named p = true ->
    split_predicate (can_be_pushed_down lp catalog fuel) i j s p = Ok (place catalog l r s p)) as Hstep.
  { intros [lefts rights es rem] p Hp. unfold split_predicate, place.
    rewrite (can_be_pushed_down_ok catalog lp W p l i), (can_be_pushed_down_ok catalog lp W p r j) by done. mstep.
    destruct (pushable catalog p l); [done|]. mstep. destruct (pushable catalog p r); [done|].
    destruct p as [| | | |op a b| |]; try done. destruct op; try done. cbn [named] in Hp. split_bools.
    unfold and_then.
    rewrite (can_be_pushed_down_ok catalog lp W a l i), (can_be_pushed_down_ok catalog lp W b r j),
      (can_be_pushed_down_ok catalog lp W a r j), (can_be_pushed_down_ok catalog lp W b l i) by done. mstep.
    destruct (pushable catalog a l), (pushable catalog b r), (pushable catalog a r),
      (pushable catalog b l); done. }
  assert (split_named (mkSplit [] [] eqs [])) as Hs by (by split).
  revert Hs. generalize (mkSplit [] [] eqs []) as s.
  induction ps as [|p ps IH]; intros s Hs; cbn [foldM foldl]; [done|].
  cbn [forallb] in Hps. split_bools. rewrite Hstep by done. mstep. apply IH; [done|]. by apply place_named.
Qed.

Lemma split_having_ok t i ps fuel : forall acc,
  forallb named ps = true -> represents lp i t -> optimizable catalog t = true -> (height t <= fuel)%nat ->
  foldM (split_having lp catalog fuel i) acc ps =
    Ok (acc.1 ++ filter (fun p => pushable catalog p t = false) ps,
        acc.2 ++ filter (fun p => pushable catalog p t = true) ps).
Proof.
  induction ps as [|p ps IH]; intros [hs qs] Hps R Ho Hf; cbn [foldM fst snd].
  - by rewrite !app_nil_r.
  - cbn [forallb] in Hps. split_bools.
    assert (split_having lp catalog fuel i (hs, qs) p =
      Ok (if pushable catalog p t then (hs, qs ++ [p]) else (hs ++ [p], qs))) as ->.
    { unfold split_having. by rewrite (can_be_pushed_down_ok catalog lp W p t i). }
    mstep. rewrite IH, !filter_cons by done.
    destruct (pushable catalog p t); cbn [fst snd];
      rewrite ?decide_True, ?decide_False by done; by rewrite <- ?app_assoc.
Qed.

(** A plan for a tree, without other nodes. *)
Definition plan_for (lp' : LogicalPlan) (t : ltree) : Prop :=
  plan_wf lp' /\ ops_in lp' (tree_ops t) /\ exists r, root lp' = Some r /\ represents lp' r t.

Lemma put_over_ok new_lp op t : plan_for new_lp t ->
  exists lp', put_over new_lp op = Ok lp' /\ plan_for lp' (T1 op t).
Proof.
  intros (Wn & Ops & r & Hr & R). unfold put_over. rewrite Hr. cbn [unwrap_opt]. mstep.
  destruct (over_root_represents new_lp op r t Wn Hr R) as (lp' & k & -> & W' & Hk & R' & O').
  exists lp'. split; [done|]. split; [done|]. split; [by apply O'|]. by exists k.
Qed.

Lemma merge_plan_for a b op l r : is_join_op op = true -> plan_for a l -> plan_for b r ->
  exists lp', merge a op b = Ok lp' /\ plan_for lp' (T2 op l r).
Proof.
  intros Hj (Wa & Oa & ra & Ha & Ra) (Wb & Ob & rb & Hb & Rb).
  destruct (merge_represents a b op ra rb l r Wa Wb Hj Ha Hb Ra Rb) as (lp' & k & -> & W' & Hk & R' & O').
  exists lp'. split; [done|]. split; [done|]. split; [by apply O'|]. by exists k.
Qed.

Lemma scan_plan_for op : plan_for (LP_add_node LP_new op).1 (T0 op).
Proof.
  split; [apply LP_add_node_wf, LP_new_wf|]. split.
  - intros [|i] o E; [|by destruct i]. injection E as <-. by apply list_elem_of_here.
  - exists 0%nat. split; [done|]. by apply rep0.
Qed.

(** The walk builds a plan for the tree's image. *)
Definition builds (m : result LogicalPlan) (t : ltree) : Prop := exists lp', m = Ok lp' /\ plan_for lp' t.

Lemma builds_over m op t : builds m t -> builds (new_lp ← m; put_over new_lp op) (T1 op t).
Proof. intros (lp' & -> & P). mstep. by apply put_over_ok. Qed.

Lemma builds_merge ml mr op l r : is_join_op op = true -> builds ml l -> builds mr r ->
  builds (a ← ml; b ← mr; merge a op b) (T2 op l r).
Proof. intros Hj (lpl & -> & Pl) (lpr & -> & Pr). mstep. by apply merge_plan_for. Qed.

Lemma first_child_ok i op j js : get_operator lp i = Some op ->
  out (edge_list (dataflow lp)) i = j :: js -> first_child lp i = Ok j.
Proof. intros E O. unfold first_child. by rewrite (LP_edges_ok lp W i op E), O. Qed.

Lemma pushdown_ok t i fuel : forall ps,
  represents lp i t -> optimizable catalog t = true -> forallb named ps = true -> (height t <= fuel)%nat ->
  builds (pushdown lp catalog fuel i ps) (push_tree catalog t ps).
Proof.
  intros ps R. revert ps fuel.
  induction R as [i op E O|i j op t E O R IH|i j k op l r E O Rl IHl Rr IHr];
    intros ps [|fuel] Ho Hps Hf; cbn [height] in Hf; try lia; cbn [pushdown];
    rewrite E; cbn [unwrap_opt]; mstep.
  - destruct op; try done. cbn [push_tree]. eexists. split; [done|]. apply scan_plan_for.
  - assert (height t <= fuel)%nat as Hf' by lia.
    destruct op; try done; cbn [optimizable push_tree] in *; split_bools;
      rewrite (first_child_ok _ _ _ _ E O); mstep.
    + by apply builds_over, IH.
    + apply IH; [done| |done]. by apply named_separate.
    + rewrite (split_having_ok t j) by (done || by apply named_separate_opt). cbn [fst snd app]. mstep.
      apply builds_over, IH; [done| |done]. by apply forallb_filter, named_separate_opt.
    + by apply builds_over, IH.
  - assert (height l <= fuel /\ height r <= fuel)%nat as [Hl Hr] by lia.
    destruct op as [| | | |eqs flt|flt| | | |]; try done; cbn [optimizable push_tree] in *; split_bools;
      unfold two_children; rewrite (LP_edges_ok lp W i _ E), O; mstep.
    + destruct (split_predicates_ok l r j k eqs (separate_opt flt ps) fuel) as [-> [Nl Nr]];
        try done; [by apply named_separate_opt|].
      mstep. apply builds_merge; [done|by apply IHl|by apply IHr].
    + destruct (split_predicates_ok l r j k [] (separate_opt flt ps) fuel) as [-> [Nl Nr]];
        try done; [by apply named_separate_opt|].
      mstep. unfold cross_op. apply builds_merge; [|by apply IHl|by apply IHr].
      by destruct (new_eqs _).
Qed.
End Refine.
