(* ===== verification/OptimizerSem.v ===== *)
(** * The optimizer: the value of a plan

    [evaluate] is the value of a plan of scans, selections, projections, products
    and joins, in which an expression that fails on a row fails the whole plan, as
    it does in the operators.

    Pushing a predicate changes the rows it is evaluated on, so the proof about
    predicate pushdown goes through a second reading, [answer], in which a row is
    selected when the predicate evaluates to true on it and rows that fail have no
    image.  A plan with a value has it as its answer. *)

From S2P Require Import Prelude Common Types Expr ExprProofs OpIterProofs Catalog Plan Planner.
From S2P Require Import PlannerProofs Optimizer OptimizerProofs.

(** ** Values *)

Section Evaluate.
Context `{Profile, Chrono} (catalog : Catalog) (table : ContainerId -> option (list Tuple)).

Definition equality (e : AstExpr * AstExpr) : AstExpr := EBoolean BEq e.1 e.2.

(** A join keeps the pairs that satisfy its equalities and its filter. *)
Definition conditions (eqs : list (AstExpr * AstExpr)) (flt : option AstExpr) : list AstExpr :=
  (equality <$> eqs) ++ option_list flt.

Definition satisfies_all (sc : TableSchema) (ps : list AstExpr) (t : Tuple) : result bool :=
  bs ← mapM_o (fun p => satisfies sc p t) ps; Ok (forallb id bs).

Definition select_all (sc : TableSchema) (ps : list AstExpr) (ts : list Tuple) : result (list Tuple) :=
  if forallb (bindable sc) ps then filterM_o (satisfies_all sc ps) ts else Panic.

Definition project_to (sc : TableSchema) (es : list AstExpr) (ts : list Tuple)
  : result (TableSchema * list Tuple) :=
  attrs ← mapM_o (fun e => to_attr e sc) es;
  ts ← project sc es ts;
  Ok (TableSchema_new attrs, ts).

Definition join_on (eqs : list (AstExpr * AstExpr)) (flt : option AstExpr)
  (l r : TableSchema * list Tuple) : result (TableSchema * list Tuple) :=
  let sc := schema_merge l.1 r.1 in
  ts ← select_all sc (conditions eqs flt) (cross l.2 r.2);
  Ok (sc, ts).

Fixpoint evaluate (t : ltree) : result (TableSchema * list Tuple) :=
  match t with
  | T0 (LScan c flt prj) =>
      sc ← unwrap_opt (get_table_schema catalog c);
      ts ← unwrap_opt (table c);
      ts ← select_all sc (option_list flt) ts;
      match prj with
      | Some es => project_to sc es ts
      | None => Ok (sc, ts)
      end
  | T1 (LFilter p) t => '(sc, ts) ← evaluate t; ts ← select_all sc [p] ts; Ok (sc, ts)
  | T1 (LProject es) t => '(sc, ts) ← evaluate t; project_to sc es ts
  | T2 (LJoin eqs flt) l r => a ← evaluate l; b ← evaluate r; join_on eqs flt a b
  | T2 (LCrossProduct flt) l r => a ← evaluate l; b ← evaluate r; join_on [] flt a b
  | _ => Panic
  end.
End Evaluate.

(** ** Answers *)

Definition to_option {E A} (m : outcome E A) : option A := match m with Ok a => Some a | _ => None end.

Section Answer.
Context `{Profile, Chrono} (catalog : Catalog) (table : ContainerId -> option (list Tuple)).

Definition keeps (sc : TableSchema) (p : AstExpr) (t : Tuple) : bool :=
  match eval_named sc p t with Ok (FBool b) => b | _ => false end.

Definition keeps_all (sc : TableSchema) (ps : list AstExpr) (t : Tuple) : bool :=
  forallb (fun p => keeps sc p t) ps.

Definition selection (sc : TableSchema) (ps : list AstExpr) (ts : list Tuple) : option (list Tuple) :=
  if forallb (bindable sc) ps then Some (List.filter (keeps_all sc ps) ts) else None.

(** Rows a projection cannot be computed for have no image. *)
Definition projection (sc : TableSchema) (es : list AstExpr) (ts : list Tuple)
  : option (TableSchema * list Tuple) :=
  if forallb (bindable sc) es
  then attrs ← to_option (mapM_o (fun e => to_attr e sc) es);
       Some (TableSchema_new attrs, omap (fun t => to_option (image sc es t)) ts)
  else None.

Definition joined (eqs : list (AstExpr * AstExpr)) (flt : option AstExpr)
  (l r : TableSchema * list Tuple) : option (TableSchema * list Tuple) :=
  let sc := schema_merge l.1 r.1 in
  ts ← selection sc (conditions eqs flt) (cross l.2 r.2);
  Some (sc, ts).

Fixpoint answer (t : ltree) : option (TableSchema * list Tuple) :=
  match t with
  | T0 (LScan c flt prj) =>
      sc ← get_table_schema catalog c;
      ts ← table c;
      ts ← selection sc (option_list flt) ts;
      match prj with
      | Some es => projection sc es ts
      | None => Some (sc, ts)
      end
  | T1 (LFilter p) t => '(sc, ts) ← answer t; ts ← selection sc [p] ts; Some (sc, ts)
  | T1 (LProject es) t => '(sc, ts) ← answer t; projection sc es ts
  | T2 (LJoin eqs flt) l r => a ← answer l; b ← answer r; joined eqs flt a b
  | T2 (LCrossProduct flt) l r => a ← answer l; b ← answer r; joined [] flt a b
  | _ => None
  end.
End Answer.

(** Tables have rows of the width of their schema. *)
Definition well_shaped (sc : TableSchema) (t : Tuple) : Prop := length (field_vals t) = schema_size sc.

Definition tables_shaped (catalog : Catalog) (table : ContainerId -> option (list Tuple)) : Prop :=
  forall c sc ts, get_table_schema catalog c = Some sc -> table c = Some ts -> Forall (well_shaped sc) ts.

(** ** Conjunctions *)

Section Conjunctions.
Context `{Profile}.

Lemma bindable_bool sc op (a b : AstExpr) : bindable sc (EBoolean op a b) = bindable sc a && bindable sc b.
Proof. apply bindable_binop. Qed.

Lemma keeps_and sc a b t : keeps sc (EBoolean BAnd a b) t = keeps sc a t && keeps sc b t.
Proof.
  unfold keeps. cbn [eval_named]. destruct (eval_named sc a t) as [[| | | |x|]| |]; mstep;
    destruct (eval_named sc b t) as [[| | | |y|]| |]; mstep; cbn; by rewrite ?andb_false_r.
Qed.

Lemma keeps_eq_comm sc a b t : keeps sc (EBoolean BEq a b) t = keeps sc (EBoolean BEq b a) t.
Proof.
  unfold keeps. cbn [eval_named].
  destruct (eval_named sc a t) as [x| |], (eval_named sc b t) as [y| |]; mstep; try done.
  cbn [eval_bool compare_fields]. mstep. by rewrite (bool_decide_ext (x = y) (y = x)).
Qed.

(** Functions that turn conjunctions of expressions into conjunctions of booleans. *)
Definition conjunctive (f : AstExpr -> bool) : Prop := forall a b, f (EBoolean BAnd a b) = f a && f b.

Lemma separate_conj f p : conjunctive f -> forall ps,
  forallb f (separate_predicates_by_and p ps) = forallb f ps && f p.
Proof.
  intros Hf.
  assert (forall q ps, forallb f (ps ++ [q]) = forallb f ps && f q) as Hbase.
  { intros q ps. rewrite forallb_app. cbn. by rewrite andb_true_r. }
  induction p as [v|s|s e IH|op l IHl r IHr|op l IHl r IHr|op e IH|i]; intros ps; try apply Hbase.
  destruct op; try apply Hbase. cbn [separate_predicates_by_and]. by rewrite IHr, IHl, Hf, andb_assoc.
Qed.

Lemma separate_opt_conj f flt ps : conjunctive f ->
  forallb f (separate_opt flt ps) = forallb f ps && forallb f (option_list flt).
Proof.
  intros Hf. destruct flt as [p|]; cbn; [|by rewrite andb_true_r].
  rewrite (separate_conj f p Hf). by rewrite andb_true_r.
Qed.

Lemma combine_conj f ps : conjunctive f ->
  forallb f (option_list (combine_predicates_with_and ps)) = forallb f ps.
Proof.
  intros Hf. destruct ps as [|p ps]; [done|]. cbn [combine_predicates_with_and option_list option_rect forallb].
  rewrite andb_true_r. revert p. induction ps as [|q ps IH]; intros p; cbn [foldl forallb].
  - by rewrite andb_true_r.
  - by rewrite IH, Hf, andb_assoc.
Qed.

Lemma bindable_conj sc : conjunctive (bindable sc).
Proof. intros a b. apply bindable_bool. Qed.

Lemma keeps_conj sc t : conjunctive (fun p => keeps sc p t).
Proof. intros a b. apply keeps_and. Qed.

Lemma filter_filter_andb {A} (f g : A -> bool) l :
  List.filter f (List.filter g l) = List.filter (fun x => g x && f x) l.
Proof.
  induction l as [|x l IH]; [done|]. cbn. destruct (g x); cbn; [|done]. by rewrite IH.
Qed.

Lemma filter_true {A} (l : list A) : List.filter (fun _ => true) l = l.
Proof. induction l as [|x l IH]; cbn; [done|]. by rewrite IH. Qed.

(** Selections with the same conjuncts. *)
Lemma selection_ext sc ps qs ts :
  (forall f, conjunctive f -> forallb f ps = forallb f qs) -> selection sc ps ts = selection sc qs ts.
Proof.
  intros E. unfold selection. rewrite (E _ (bindable_conj sc)).
  destruct (forallb (bindable sc) qs); [|done]. f_equal. apply List.filter_ext. intros t.
  apply E, keeps_conj.
Qed.

Lemma selection_app sc ps qs ts ts1 : selection sc ps ts = Some ts1 ->
  selection sc (ps ++ qs) ts = selection sc qs ts1.
Proof.
  unfold selection. rewrite forallb_app. destruct (forallb (bindable sc) ps); [|done]. intros [= <-]. cbn.
  destruct (forallb (bindable sc) qs); [|done]. f_equal. rewrite filter_filter_andb.
  apply List.filter_ext. intros t. unfold keeps_all. by rewrite forallb_app.
Qed.
End Conjunctions.

(** ** Evaluation and schemas *)

Section Evaluation.
Context `{Profile}.

(** A column of a row. *)
Definition column (sc : TableSchema) (t : Tuple) (n : string) : result Field := eval_named sc (EIdent n) t.

(** Named expressions depend on their columns only. *)
Lemma eval_named_ext sc sc' t t' e : named e = true ->
  (forall n, n ∈ idents e -> column sc t n = column sc' t' n) -> eval_named sc e t = eval_named sc' e t'.
Proof.
  induction e as [f|s|s e IH|op l IHl r IHr|op l IHl r IHr|op e IH|i]; cbn [named idents]; intros Hn Hc;
    try done.
  - apply Hc. by apply list_elem_of_here.
  - cbn [eval_named]. by apply IH.
  - split_bools. cbn [eval_named]. rewrite IHl, IHr; [done|done| |done|]; intros n Hin; apply Hc, elem_of_app; tauto.
  - split_bools. cbn [eval_named]. rewrite IHl, IHr; [done|done| |done|]; intros n Hin; apply Hc, elem_of_app; tauto.
Qed.

Lemma keeps_all_ext sc sc' t t' ps : forallb named ps = true ->
  (forall p n, p ∈ ps -> n ∈ idents p -> column sc t n = column sc' t' n) ->
  keeps_all sc ps t = keeps_all sc' ps t'.
Proof.
  unfold keeps_all. induction ps as [|p ps IH]; cbn [forallb]; intros Hn Hc; [done|]. split_bools. f_equal.
  - unfold keeps. rewrite (eval_named_ext sc sc' t t' p); [done|done|]. intros n Hin.
    apply (Hc p n); [by apply list_elem_of_here|done].
  - apply IH; [done|]. intros q n Hq. apply Hc. by apply list_elem_of_further.
Qed.

Lemma contains_go_iff l n : schema_contains_go l n = true <-> n ∈ Types.name <$> l.
Proof.
  induction l as [|a l IH]; cbn [schema_contains_go fmap list_fmap].
  - by rewrite elem_of_nil.
  - rewrite elem_of_cons. destruct (String.eqb (Types.name a) n) eqn:E.
    + apply String.eqb_eq in E as <-. tauto.
    + apply String.eqb_neq in E. rewrite IH. split; [tauto|]. intros [->|?]; done.
Qed.

Lemma contains_iff sc n : schema_contains sc n = true <-> n ∈ Types.name <$> attributes sc.
Proof. apply contains_go_iff. Qed.

Lemma field_index_from_app l1 l2 n : forall i,
  field_index_from i (l1 ++ l2) n =
  if schema_contains_go l1 n then field_index_from i l1 n else field_index_from (i + length l1) l2 n.
Proof.
  induction l1 as [|a l1 IH]; intros i; cbn [app field_index_from schema_contains_go length].
  - by rewrite Nat.add_0_r.
  - destruct (String.eqb (Types.name a) n); [done|]. rewrite IH. by rewrite Nat.add_succ_r.
Qed.

Lemma field_index_from_shift l n k : forall i,
  field_index_from (k + i) l n = Nat.add k <$> field_index_from i l n.
Proof.
  induction l as [|a l IH]; intros i; cbn [field_index_from]; [done|].
  destruct (String.eqb (Types.name a) n); [done|]. by rewrite <- IH, Nat.add_succ_r.
Qed.

Lemma column_left sl sr a b n : well_shaped sl a -> schema_contains sl n = true ->
  column (schema_merge sl sr) (tuple_merge a b) n = column sl a n.
Proof.
  intros Hw Hc. unfold column, schema_contains in *. cbn [eval_named].
  unfold get_field_index, schema_merge. cbn [TableSchema_new attributes].
  rewrite field_index_from_app, Hc. destruct (field_index_from 0 (attributes sl) n) as [j|] eqn:Ej; [|done].
  cbn [unwrap_opt]. mstep. destruct (field_index_lookup _ _ _ _ Ej) as (at0 & _ & Hl & _).
  rewrite Nat.sub_0_r in Hl. apply lookup_lt_Some in Hl. unfold get_field, tuple_merge. cbn [Tuple_new field_vals].
  rewrite lookup_app_l; [done|]. unfold well_shaped, schema_size in Hw. lia.
Qed.

Lemma column_right sl sr a b n : well_shaped sl a -> schema_contains sl n = false ->
  column (schema_merge sl sr) (tuple_merge a b) n = column sr b n.
Proof.
  intros Hw Hc. unfold column, schema_contains in *. cbn [eval_named].
  unfold get_field_index, schema_merge. cbn [TableSchema_new attributes].
  rewrite field_index_from_app, Hc, Nat.add_comm, field_index_from_shift.
  destruct (field_index_from 0 (attributes sr) n) as [j|]; [|done]. cbn [fmap option_fmap option_map unwrap_opt].
  mstep. unfold get_field, tuple_merge. cbn [Tuple_new field_vals].
  unfold well_shaped, schema_size in Hw. rewrite lookup_app_r by lia. do 2 f_equal. lia.
Qed.

Lemma bindable_contains sc e n : bindable sc e = true -> n ∈ idents e -> schema_contains sc n = true.
Proof. intros [_ Hb]%andb_true_iff Hn. rewrite forallb_forall in Hb. by apply Hb, list_elem_of_In. Qed.

Lemma contains_column sc t n : well_shaped sc t -> schema_contains sc n = true -> exists v, column sc t n = Ok v.
Proof.
  intros Hw [j Ej]%(field_index_contains _ _ 0). unfold column. cbn [eval_named]. unfold get_field_index.
  rewrite Ej. cbn [unwrap_opt]. mstep. destruct (field_index_lookup _ _ _ _ Ej) as (a & _ & Hl & _).
  rewrite Nat.sub_0_r in Hl. apply lookup_lt_Some in Hl. unfold get_field.
  destruct (lookup_lt_is_Some_2 (field_vals t) j) as [v Ev]; [unfold well_shaped, schema_size in Hw; lia|].
  rewrite Ev. by exists v.
Qed.

Lemma mapM_o_total {E A B} (f : A -> outcome E B) l : (forall x, x ∈ l -> exists y, f x = Ok y) ->
  exists k, mapM_o f l = Ok k.
Proof.
  induction l as [|x l IH]; intros Hl; cbn [mapM_o]; [by exists []|].
  destruct (Hl x) as [y ->]; [apply list_elem_of_here|]. mstep.
  destruct IH as [k ->]; [|by eexists]. intros z Hz. apply Hl. by apply list_elem_of_further.
Qed.

Context `{Chrono}.

Lemma to_attr_name_ident n sc a : to_attr (EIdent n) sc = Ok a -> Types.name a = n.
Proof.
  cbn [to_attr]. unfold get_field_index. destruct (field_index_from 0 _ n) as [j|] eqn:E; [|done].
  destruct (field_index_lookup _ _ _ _ E) as (at0 & _ & Hl & Hn). cbn [unwrap_opt]. mstep.
  unfold get_attribute. rewrite Nat.sub_0_r in Hl. rewrite Hl. by intros [= <-].
Qed.

(** A projection to identifiers has the identifiers as names, and its rows have
    the columns of the rows they come from. *)
Lemma ident_names sc es : forall attrs, forallb is_ident es = true ->
  mapM_o (fun e => to_attr e sc) es = Ok attrs -> Types.name <$> attrs = es ≫= idents.
Proof.
  induction es as [|e es IH]; intros attrs Hi E; cbn [mapM_o forallb] in *; [by injection E as <-|].
  split_bools. destruct e as [|m| | | | |]; try done.
  apply bind_Ok_inv in E as (a & Ea & E). apply bind_Ok_inv in E as (attrs' & Es & [= <-]).
  cbn [fmap list_fmap mbind list_bind idents app]. rewrite (to_attr_name_ident _ _ _ Ea).
  f_equal. by apply IH.
Qed.

Lemma image_column_from sc t n es : forall attrs fs i j, forallb is_ident es = true ->
  mapM_o (fun e => to_attr e sc) es = Ok attrs -> mapM_o (fun e => eval_named sc e t) es = Ok fs ->
  field_index_from i attrs n = Some j ->
  exists v, (i <= j)%nat /\ fs !! (j - i)%nat = Some v /\ column sc t n = Ok v.
Proof.
  induction es as [|e es IH]; intros attrs fs i j Hi Ea Ef Ej; cbn [mapM_o forallb] in *.
  { by injection Ea as <-. }
  split_bools. destruct e as [|m| | | | |]; try done.
  apply bind_Ok_inv in Ea as (a & Ea & E). apply bind_Ok_inv in E as (attrs' & Es & [= <-]).
  apply bind_Ok_inv in Ef as (f & Ef & E). apply bind_Ok_inv in E as (fs' & Efs & [= <-]).
  cbn [field_index_from] in Ej. rewrite (to_attr_name_ident _ _ _ Ea) in Ej.
  destruct (String.eqb m n) eqn:En.
  - injection Ej as <-. apply String.eqb_eq in En as ->. exists f. by rewrite Nat.sub_diag.
  - destruct (IH attrs' fs' (S i) j) as (v & Hj & Hl & Hc); [done..|]. exists v. split; [lia|]. split; [|done].
    by replace (j - i)%nat with (S (j - S i)) by lia.
Qed.

Lemma image_column sc es attrs t t' n : forallb is_ident es = true ->
  mapM_o (fun e => to_attr e sc) es = Ok attrs -> image sc es t = Ok t' ->
  schema_contains (TableSchema_new attrs) n = true ->
  column (TableSchema_new attrs) t' n = column sc t n.
Proof.
  intros Hi Ea Et Hc. unfold image in Et. apply bind_Ok_inv in Et as (fs & Ef & [= <-]).
  apply (field_index_contains _ _ 0) in Hc as [j Ej]. cbn [attributes TableSchema_new] in Ej.
  destruct (image_column_from sc t n es attrs fs 0 j Hi Ea Ef Ej) as (v & _ & Hl & ->).
  unfold column. cbn [eval_named]. unfold get_field_index. cbn [attributes TableSchema_new]. rewrite Ej.
  cbn [unwrap_opt]. mstep. unfold get_field. cbn [Tuple_new field_vals]. rewrite Nat.sub_0_r in Hl. by rewrite Hl.
Qed.
End Evaluation.

(** ** Selections commute with projections and products *)

Section Commute.
Context `{Profile, Chrono}.

Lemma selection_inv sc ps ts full : selection sc ps ts = Some full ->
  forallb (bindable sc) ps = true /\ full = List.filter (keeps_all sc ps) ts.
Proof. unfold selection. destruct (forallb _ ps); [|done]. by intros [= <-]. Qed.

Lemma selection_ok sc ps ts : forallb (bindable sc) ps = true ->
  selection sc ps ts = Some (List.filter (keeps_all sc ps) ts).
Proof. unfold selection. by intros ->. Qed.

Lemma projection_inv sc es ts sc' full : projection sc es ts = Some (sc', full) ->
  exists attrs, forallb (bindable sc) es = true /\ mapM_o (fun e => to_attr e sc) es = Ok attrs /\
    sc' = TableSchema_new attrs /\ full = omap (fun t => to_option (image sc es t)) ts.
Proof.
  unfold projection. destruct (forallb _ es); [|done]. destruct (mapM_o _ es) as [attrs| |]; try done.
  cbn. intros [= <- <-]. by exists attrs.
Qed.

(** Names of a projection to identifiers are names of its input. *)
Lemma ident_bindable sc es attrs p : forallb is_ident es = true -> forallb (bindable sc) es = true ->
  mapM_o (fun e => to_attr e sc) es = Ok attrs ->
  bindable (TableSchema_new attrs) p = true -> bindable sc p = true.
Proof.
  intros Hi Hb Ea [Ha Hp]%andb_true_iff. apply andb_true_iff. split; [done|].
  rewrite forallb_forall in Hp |- *. intros n Hn. specialize (Hp n Hn). apply contains_iff in Hp.
  cbn [attributes TableSchema_new] in Hp. rewrite (ident_names sc es attrs Hi Ea) in Hp.
  apply list_elem_of_bind in Hp as (e & Hne & He). rewrite forallb_forall in Hb.
  apply list_elem_of_In, Hb in He. unfold bindable in He. apply andb_true_iff in He as [_ He].
  rewrite forallb_forall in He. by apply He, list_elem_of_In.
Qed.

Lemma selection_projection sc es attrs ps ts :
  ps = [] \/ forallb is_ident es = true ->
  mapM_o (fun e => to_attr e sc) es = Ok attrs -> forallb named ps = true ->
  forallb (bindable (TableSchema_new attrs)) ps = true ->
  omap (fun t => to_option (image sc es t)) (List.filter (keeps_all sc ps) ts) =
  List.filter (keeps_all (TableSchema_new attrs) ps) (omap (fun t => to_option (image sc es t)) ts).
Proof.
  intros Hor Ea Hn Hb. induction ts as [|t ts IH]; [done|]. cbn [List.filter omap list_omap].
  destruct (image sc es t) as [t'| |] eqn:Et; cbn [to_option].
  - cbn [List.filter].
    assert (keeps_all sc ps t = keeps_all (TableSchema_new attrs) ps t') as ->.
    { destruct Hor as [->|Hi]; [done|]. apply keeps_all_ext; [done|]. intros p n Hp Hin. symmetry.
      apply (image_column sc es attrs); [done..|]. rewrite forallb_forall in Hb.
      apply list_elem_of_In, Hb, andb_true_iff in Hp as [_ Hp]. rewrite forallb_forall in Hp.
      by apply Hp, list_elem_of_In. }
    destruct (keeps_all _ ps t'); [|done]. cbn [omap list_omap]. rewrite Et. cbn [to_option]. by rewrite IH.
  - destruct (keeps_all sc ps t); [|done]. cbn [omap list_omap]. rewrite Et. cbn [to_option]. exact IH.
  - destruct (keeps_all sc ps t); [|done]. cbn [omap list_omap]. rewrite Et. cbn [to_option]. exact IH.
Qed.

(** Conditions on one side of a product select before it. *)
Lemma filter_cross (f g h k : Tuple -> bool) tl tr :
  (forall a b, a ∈ tl -> b ∈ tr -> f (tuple_merge a b) = g a && (h b && k (tuple_merge a b))) ->
  List.filter f (cross tl tr) = List.filter k (cross (List.filter g tl) (List.filter h tr)).
Proof.
  intros Hf. unfold cross. induction tl as [|a tl IH]; [done|]. cbn [mbind list_bind].
  rewrite List.filter_app, IH by (intros x b Hx; apply Hf; by apply list_elem_of_further). clear IH.
  assert (forall b, b ∈ tr -> f (tuple_merge a b) = g a && (h b && k (tuple_merge a b))) as Ha
    by (intros b; apply Hf, list_elem_of_here). clear Hf.
  assert (List.filter f (tuple_merge a <$> tr) =
          if g a then List.filter k (tuple_merge a <$> List.filter h tr) else []) as ->.
  { induction tr as [|b tr IH]; [by destruct (g a)|]. rewrite fmap_cons. cbn [List.filter].
    rewrite (Ha b) by apply list_elem_of_here.
    rewrite IH by (intros x Hx; apply Ha; by apply list_elem_of_further).
    destruct (g a); [|done]. destruct (h b); [|done]. rewrite fmap_cons. cbn. by destruct (k _). }
  cbn [List.filter]. destruct (g a); [|done]. cbn [mbind list_bind]. by rewrite List.filter_app.
Qed.
End Commute.

(** ** Shapes *)

Section Shapes.
Context `{Profile, Chrono} (catalog : Catalog) (table : ContainerId -> option (list Tuple)).

Lemma Forall_list_filter {A} (P : A -> Prop) (f : A -> bool) l : Forall P l -> Forall P (List.filter f l).
Proof.
  rewrite !Forall_forall. intros Hl x Hx%list_elem_of_In%List.filter_In. apply Hl, list_elem_of_In, Hx.
Qed.

Lemma selection_shaped sc ps ts full : Forall (well_shaped sc) ts -> selection sc ps ts = Some full ->
  Forall (well_shaped sc) full.
Proof. intros Hw [_ ->]%selection_inv. by apply Forall_list_filter. Qed.

Lemma projection_shaped sc es ts sc' full : projection sc es ts = Some (sc', full) ->
  Forall (well_shaped sc') full.
Proof.
  intros (attrs & _ & Ea & -> & ->)%projection_inv. apply Forall_forall.
  intros t' (t & _ & Ht)%list_elem_of_omap. destruct (image sc es t) as [x| |] eqn:Et; try done.
  injection Ht as ->. unfold image in Et. apply bind_Ok_inv in Et as (fs & Ef & [= <-]).
  unfold well_shaped, schema_size. cbn. by rewrite (mapM_o_length _ _ _ Ea), (mapM_o_length _ _ _ Ef).
Qed.

Lemma cross_shaped sl sr tl tr : Forall (well_shaped sl) tl -> Forall (well_shaped sr) tr ->
  Forall (well_shaped (schema_merge sl sr)) (cross tl tr).
Proof.
  rewrite !Forall_forall. intros Hl Hr t (a & Ht & Ha)%list_elem_of_bind.
  apply list_elem_of_fmap in Ht as (b & -> & Hb). unfold well_shaped, schema_size in *. cbn.
  rewrite !length_app. by rewrite (Hl a Ha), (Hr b Hb).
Qed.

Lemma answer_shaped (T : tables_shaped catalog table) t : forall sc ts,
  answer catalog table t = Some (sc, ts) -> Forall (well_shaped sc) ts.
Proof.
  induction t as [op|op t IH|op l IHl r IHr]; intros sc ts E; destruct op; try done; cbn [answer] in E.
  - apply bind_Some in E as (sc0 & Es & E). apply bind_Some in E as (ts0 & Et & E).
    apply bind_Some in E as (ts1 & E1 & E). specialize (T _ _ _ Es Et).
    destruct projection0 as [es|]; [by eapply projection_shaped|]. injection E as <- <-.
    by eapply selection_shaped.
  - apply bind_Some in E as ([sc0 ts0] & _ & E). by eapply projection_shaped.
  - apply bind_Some in E as ([sc0 ts0] & E0 & E). apply bind_Some in E as (ts1 & E1 & [= <- <-]).
    eapply selection_shaped; [|done]. by apply IH.
  - apply bind_Some in E as ([sl tl] & El & E). apply bind_Some in E as ([sr tr] & Er & E).
    apply bind_Some in E as (ts1 & E1 & [= <- <-]). eapply selection_shaped; [|done].
    apply cross_shaped; [by apply IHl|by apply IHr].
  - apply bind_Some in E as ([sl tl] & El & E). apply bind_Some in E as ([sr tr] & Er & E).
    apply bind_Some in E as (ts1 & E1 & [= <- <-]). eapply selection_shaped; [|done].
    apply cross_shaped; [by apply IHl|by apply IHr].
Qed.
End Shapes.

(** ** A value is an answer *)

Section Values.
Context `{Profile, Chrono} (catalog : Catalog) (table : ContainerId -> option (list Tuple)).

Lemma satisfies_keeps sc p t b : satisfies sc p t = Ok b -> keeps sc p t = b.
Proof.
  unfold satisfies, keeps. intros (f & -> & E)%bind_Ok_inv. destruct f; try done. by injection E as ->.
Qed.

Lemma satisfies_all_keeps sc ps t : forall b, satisfies_all sc ps t = Ok b -> keeps_all sc ps t = b.
Proof.
  unfold satisfies_all, keeps_all. induction ps as [|p ps IH]; intros b (bs & E & [= <-])%bind_Ok_inv; cbn [mapM_o forallb] in *.
  - by injection E as <-.
  - apply bind_Ok_inv in E as (b & Eb & E). apply bind_Ok_inv in E as (bs' & Es & [= <-]). cbn [forallb].
    rewrite (satisfies_keeps _ _ _ _ Eb), (IH (forallb id bs')) by by rewrite Es. done.
Qed.

Lemma select_all_selection sc ps ts : forall full, select_all sc ps ts = Ok full -> selection sc ps ts = Some full.
Proof.
  unfold select_all, selection. destruct (forallb _ ps); [|done]. induction ts as [|t ts IH]; intros full E; cbn [filterM_o List.filter] in *.
  - by injection E as <-.
  - apply bind_Ok_inv in E as (b & Eb & E). apply bind_Ok_inv in E as (r & Er & [= <-]).
    rewrite (satisfies_all_keeps _ _ _ _ Eb). specialize (IH r Er). injection IH as ->. by destruct b.
Qed.

Lemma images_answer sc es ts : forall full, mapM_o (image sc es) ts = Ok full ->
  omap (fun t => to_option (image sc es t)) ts = full.
Proof.
  induction ts as [|t ts IH]; intros full E; cbn [mapM_o omap list_omap] in *; [by injection E as <-|].
  apply bind_Ok_inv in E as (t' & -> & E). apply bind_Ok_inv in E as (r & Er & [= <-]). cbn [to_option]. by rewrite (IH r Er).
Qed.

Lemma project_to_projection sc es ts out : project_to sc es ts = Ok out -> projection sc es ts = Some out.
Proof.
  unfold project_to, project, projection. intros (attrs & -> & (ts' & E & [= <-])%bind_Ok_inv)%bind_Ok_inv.
  destruct (forallb _ es); [|done]. cbn. by rewrite (images_answer _ _ _ _ E).
Qed.

Lemma join_on_joined eqs flt a b out : join_on eqs flt a b = Ok out -> joined eqs flt a b = Some out.
Proof. unfold join_on, joined. intros (ts & E & [= <-])%bind_Ok_inv. by rewrite (select_all_selection _ _ _ _ E). Qed.

Lemma evaluate_answer t : forall x, evaluate catalog table t = Ok x -> answer catalog table t = Some x.
Proof.
  induction t as [op|op t IH|op l IHl r IHr]; intros x E; destruct op as [c flt prj|es|p| |eqs flt|flt| | | |];
    try done; cbn [evaluate answer] in *.
  - apply bind_Ok_inv in E as (sc0 & Es & E). apply bind_Ok_inv in E as (ts0 & Et & E). apply bind_Ok_inv in E as (ts1 & Ef & E).
    destruct (get_table_schema catalog c) as [sc'|]; [|done]. injection Es as ->.
    destruct (table c) as [ts'|]; [|done]. injection Et as ->. cbn [mbind option_bind].
    rewrite (select_all_selection _ _ _ _ Ef). cbn [mbind option_bind].
    destruct prj as [es|]; [by apply project_to_projection|]. by injection E as <-.
  - apply bind_Ok_inv in E as ([sc0 ts0] & E0 & E). rewrite (IH _ E0). by apply project_to_projection.
  - apply bind_Ok_inv in E as ([sc0 ts0] & E0 & E). apply bind_Ok_inv in E as (ts1 & Es & [= <-]).
    rewrite (IH _ E0). cbn [mbind option_bind]. by rewrite (select_all_selection _ _ _ _ Es).
  - apply bind_Ok_inv in E as (a & El & E). apply bind_Ok_inv in E as (b & Er & E).
    rewrite (IHl _ El), (IHr _ Er). by apply join_on_joined.
  - apply bind_Ok_inv in E as (a & El & E). apply bind_Ok_inv in E as (b & Er & E).
    rewrite (IHl _ El), (IHr _ Er). by apply join_on_joined.
Qed.

Lemma evaluate_shaped (T : tables_shaped catalog table) t sc ts :
  evaluate catalog table t = Ok (sc, ts) -> Forall (well_shaped sc) ts.
Proof. intros E%evaluate_answer. by eapply answer_shaped. Qed.

(** A plan without joins whose meaning the operators compute has it as its value. *)
Lemma filterM_o_ext {E A} (f g : A -> outcome E bool) l : (forall x, f x = g x) -> filterM_o f l = filterM_o g l.
Proof. intros Hf. induction l as [|x l IH]; cbn [filterM_o]; [done|]. by rewrite Hf, IH. Qed.

Lemma satisfies_all_one sc p t : satisfies_all sc [p] t = satisfies sc p t.
Proof. unfold satisfies_all. cbn [mapM_o]. destruct (satisfies sc p t) as [[]| |]; done. Qed.

Lemma select_all_one sc p ts : select_all sc [p] ts = select sc p ts.
Proof.
  unfold select_all, select. cbn [forallb]. rewrite andb_true_r. destruct (bindable sc p); [|done].
  apply filterM_o_ext, satisfies_all_one.
Qed.

Lemma select_all_nil sc ts : select_all sc [] ts = Ok ts.
Proof.
  unfold select_all. cbn [forallb]. induction ts as [|t ts IH]; cbn [filterM_o]; [done|].
  change (satisfies_all sc [] t) with (Ok (E := CrustyError) true). mstep. by rewrite IH.
Qed.

Lemma meaning_evaluate t : forall x, meaning catalog table t = Ok x -> evaluate catalog table t = Ok x.
Proof.
  induction t as [op|op t IH|op l IHl r IHr]; intros x E; destruct op as [c flt prj|es|p| | |flt| | | |];
    try done; cbn [meaning evaluate] in *.
  - apply bind_Ok_inv in E as (sc0 & -> & E). apply bind_Ok_inv in E as (ts0 & -> & E). mstep.
    apply bind_Ok_inv in E as (ts1 & Ef & E).
    assert (select_all sc0 (option_list flt) ts0 = Ok ts1) as ->.
    { destruct flt; [by rewrite <- Ef; apply select_all_one|]. injection Ef as <-. apply select_all_nil. }
    mstep. apply bind_Ok_inv in E as (ts2 & Ep & E). apply bind_Ok_inv in E as (out & Eo & [= <-]).
    destruct prj as [es|]; [|by injection Ep as <-; injection Eo as <-].
    apply bind_Ok_inv in Eo as (attrs & Ea & [= <-]). unfold project_to. rewrite Ea. mstep. by rewrite Ep.
  - apply bind_Ok_inv in E as ([sc0 ts0] & E0 & E). rewrite (IH _ E0). mstep. exact E.
  - apply bind_Ok_inv in E as ([sc0 ts0] & E0 & E). rewrite (IH _ E0). mstep. by rewrite select_all_one.
  - destruct flt; [done|]. apply bind_Ok_inv in E as ([sl tl] & El & E). apply bind_Ok_inv in E as ([sr tr] & Er & [= <-]).
    rewrite (IHl _ El), (IHr _ Er). mstep. unfold join_on. change (conditions [] None) with (@nil AstExpr). by rewrite select_all_nil.
Qed.
End Values.
