(* ===== verification/OptimizerPush.v ===== *)
(** * The optimizer: soundness of predicate pushdown on trees *)

From S2P Require Import Prelude Common Types Expr ExprProofs OpIterProofs Catalog Plan Planner.
From S2P Require Import PlannerProofs Optimizer OptimizerProofs OptimizerSem.

(** Where predicates may travel.  [acc] says that predicates come from above:
    then projections on their way keep plain columns, and the two sides of a join
    have no column name in common. *)
Definition disjoint_names (l r : list string) : bool :=
  forallb (fun x => negb (bool_decide (x ∈ r))) l.

Fixpoint transparent (catalog : Catalog) (acc : bool) (t : ltree) : bool :=
  match t with
  | T0 (LScan _ _ prj) => negb acc || forallb is_ident (default [] prj)
  | T1 (LFilter _) t => transparent catalog true t
  | T1 (LProject es) t => (negb acc || forallb is_ident es) && transparent catalog acc t
  | T2 (LJoin _ flt) l r | T2 (LCrossProduct flt) l r =>
      let acc := acc || bool_decide (is_Some flt) in
      transparent catalog acc l && transparent catalog acc r &&
      (negb acc || disjoint_names (tree_cols catalog l) (tree_cols catalog r))
  | _ => false
  end.

(** No selection is left as a node of its own. *)
Fixpoint filter_free (t : ltree) : bool :=
  match t with
  | T0 _ => true
  | T1 (LFilter _) _ => false
  | T1 _ t => filter_free t
  | T2 _ l r => filter_free l && filter_free r
  end.

(** ** Placement *)

Definition placed (s : JoinSplit) : list AstExpr :=
  left_predicates s ++ right_predicates s ++ (equality <$> new_eqs s) ++ remaining_predicates s.

(** Conjunctive functions that do not see the order of an equality. *)
Definition symmetric_eq (f : AstExpr -> bool) : Prop :=
  forall a b, f (EBoolean BEq a b) = f (EBoolean BEq b a).

Section Placement.
Context (catalog : Catalog) (l r : ltree).

(** The four destinations. *)
Inductive placement (s : JoinSplit) (p : AstExpr) : JoinSplit -> Prop :=
| place_left : pushable catalog p l = true ->
    placement s p (mkSplit (left_predicates s ++ [p]) (right_predicates s) (new_eqs s) (remaining_predicates s))
| place_right : pushable catalog p r = true ->
    placement s p (mkSplit (left_predicates s) (right_predicates s ++ [p]) (new_eqs s) (remaining_predicates s))
| place_eq e : (forall f, symmetric_eq f -> f (equality e) = f p) ->
    placement s p (mkSplit (left_predicates s) (right_predicates s) (new_eqs s ++ [e]) (remaining_predicates s))
| place_remaining :
    placement s p (mkSplit (left_predicates s) (right_predicates s) (new_eqs s) (remaining_predicates s ++ [p])).

Lemma place_placement s p : placement s p (place catalog l r s p).
Proof.
  destruct s as [lefts rights eqs rem]. unfold place.
  destruct (pushable catalog p l) eqn:El; [by apply place_left|].
  destruct (pushable catalog p r) eqn:Er; [by apply place_right|].
  destruct p as [| | | |op a b| |]; try by apply place_remaining.
  destruct op; try by apply place_remaining.
  destruct (pushable catalog a l && pushable catalog b r).
  { apply place_eq. intros f _. done. }
  destruct (pushable catalog a r && pushable catalog b l); [|by apply place_remaining].
  apply place_eq. intros f Hf. apply Hf.
Qed.

Lemma place_conj f s p : symmetric_eq f ->
  forallb f (placed (place catalog l r s p)) = forallb f (placed s) && f p.
Proof.
  intros Hs. destruct (place_placement s p) as [_|_|e He|]; unfold placed;
    cbn [left_predicates right_predicates new_eqs remaining_predicates];
    rewrite ?fmap_app, !forallb_app; cbn [fmap list_fmap forallb]; rewrite ?(He f Hs);
    repeat match goal with |- context [forallb f ?x] => destruct (forallb f x); cbn [andb] end;
    by rewrite ?andb_true_r, ?andb_false_r.
Qed.

Lemma place_all_conj f eqs ps : symmetric_eq f ->
  forallb f (placed (place_all catalog l r eqs ps)) = forallb f (equality <$> eqs) && forallb f ps.
Proof.
  intros Hs. unfold place_all.
  assert (forall s, forallb f (placed (foldl (place catalog l r) s ps)) = forallb f (placed s) && forallb f ps) as ->.
  { induction ps as [|p ps IH]; intros s; cbn [foldl forallb]; [by rewrite andb_true_r|].
    by rewrite IH, place_conj, andb_assoc. }
  f_equal. unfold placed. cbn. by rewrite app_nil_r.
Qed.

(** Predicates end up on a side that has their columns. *)
Definition sided (s : JoinSplit) : Prop :=
  forallb (fun p => named p && pushable catalog p l) (left_predicates s) = true /\
  forallb (fun p => named p && pushable catalog p r) (right_predicates s) = true.

Lemma place_all_sided eqs ps : forallb named ps = true -> sided (place_all catalog l r eqs ps).
Proof.
  unfold place_all. assert (sided (mkSplit [] [] eqs [])) as Hs by done. revert Hs.
  generalize (mkSplit [] [] eqs []) as s. induction ps as [|p ps IH]; intros s Hs Hn; cbn [foldl forallb] in *; [done|].
  split_bools. apply IH; [|done]. destruct Hs as [Hl Hr].
  destruct (place_placement s p) as [Hp|Hp|e _|]; split; cbn [left_predicates right_predicates];
    rewrite ?forallb_app, ?Hl, ?Hr; cbn [forallb andb]; rewrite ?Hp; by rewrite ?H.
Qed.
End Placement.

(** ** Columns are names *)

Section Sound.
Context `{Profile, Chrono} (catalog : Catalog) (table : ContainerId -> option (list Tuple)).

Lemma tree_cols_names t : forall sc ts, transparent catalog true t = true ->
  answer catalog table t = Some (sc, ts) -> forall x, x ∈ tree_cols catalog t <-> schema_contains sc x = true.
Proof.
  induction t as [op|op t IH|op l IHl r IHr]; intros sc ts Ht E x; destruct op as [c flt prj|es|p| |eqs flt|flt| | | |];
    try done; cbn [answer transparent tree_cols negb orb] in *; rewrite contains_iff.
  - apply bind_Some in E as (sc0 & Es & E). apply bind_Some in E as (ts0 & Et & E).
    apply bind_Some in E as (ts1 & E1 & E). destruct prj as [es|]; cbn [default] in Ht.
    + apply projection_inv in E as (attrs & _ & Ea & -> & _). cbn. by rewrite (ident_names sc0 es attrs).
    + injection E as <- <-. by rewrite Es.
  - split_bools. apply bind_Some in E as ([sc0 ts0] & _ & E).
    apply projection_inv in E as (attrs & _ & Ea & -> & _). cbn. by rewrite (ident_names sc0 es attrs).
  - apply bind_Some in E as ([sc0 ts0] & E0 & E). apply bind_Some in E as (ts1 & _ & [= <- <-]).
    rewrite <- contains_iff. by eapply IH.
  - split_bools. apply bind_Some in E as ([sl tl] & El & E). apply bind_Some in E as ([sr tr] & Er & E).
    apply bind_Some in E as (ts1 & _ & [= <- <-]). cbn. rewrite fmap_app, !elem_of_app, <- !contains_iff.
    by rewrite (IHl _ _ H1 El), (IHr _ _ H3 Er).
  - split_bools. apply bind_Some in E as ([sl tl] & El & E). apply bind_Some in E as ([sr tr] & Er & E).
    apply bind_Some in E as (ts1 & _ & [= <- <-]). cbn. rewrite fmap_app, !elem_of_app, <- !contains_iff.
    by rewrite (IHl _ _ H1 El), (IHr _ _ H3 Er).
Qed.

(** A predicate over columns of one side is a predicate on that side's rows. *)
Lemma side_bindable t sc0 ts0 sc p : transparent catalog true t = true ->
  answer catalog table t = Some (sc0, ts0) -> pushable catalog p t = true -> bindable sc p = true ->
  bindable sc0 p = true.
Proof.
  intros Ht E Hp [Ha _]%andb_true_iff. apply andb_true_iff. split; [done|].
  unfold pushable in Hp. rewrite forallb_forall in Hp |- *. intros n Hn. specialize (Hp n Hn). split_bools.
  by apply (tree_cols_names t sc0 ts0 Ht E).
Qed.

(** What a join knows of its sides when predicates reach it. *)
Definition sides_known (l r : ltree) : Prop :=
  transparent catalog true l = true /\ transparent catalog true r = true /\
  disjoint_names (tree_cols catalog l) (tree_cols catalog r) = true.

Lemma keeps_all_left l sl tl sr ps a b : transparent catalog true l = true ->
  answer catalog table l = Some (sl, tl) -> well_shaped sl a ->
  forallb (fun p => named p && pushable catalog p l) ps = true ->
  keeps_all (schema_merge sl sr) ps (tuple_merge a b) = keeps_all sl ps a.
Proof.
  intros Ht E Hw Hps. rewrite forallb_forall in Hps. apply keeps_all_ext.
  - rewrite forallb_forall. intros p Hp. specialize (Hps p Hp). by split_bools.
  - intros p n Hp%list_elem_of_In Hn. apply column_left; [done|]. specialize (Hps p Hp). split_bools.
    unfold pushable in H2. rewrite forallb_forall in H2. apply list_elem_of_In, H2 in Hn. split_bools.
    by apply (tree_cols_names l sl tl Ht E).
Qed.

Lemma keeps_all_right l r sl tl sr tr ps a b : sides_known l r ->
  answer catalog table l = Some (sl, tl) -> answer catalog table r = Some (sr, tr) -> well_shaped sl a ->
  forallb (fun p => named p && pushable catalog p r) ps = true ->
  keeps_all (schema_merge sl sr) ps (tuple_merge a b) = keeps_all sr ps b.
Proof.
  intros (Tl & Tr & D) El Er Hw Hps. rewrite forallb_forall in Hps. apply keeps_all_ext.
  - rewrite forallb_forall. intros p Hp. specialize (Hps p Hp). by split_bools.
  - intros p n Hp%list_elem_of_In Hn. apply column_right; [done|]. specialize (Hps p Hp). split_bools.
    unfold pushable in H2. rewrite forallb_forall in H2. apply list_elem_of_In, H2 in Hn. split_bools.
    apply not_true_is_false. intros Hc. apply (tree_cols_names l sl tl Tl El) in Hc.
    unfold disjoint_names in D. rewrite forallb_forall in D. apply list_elem_of_In, D in Hc.
    by rewrite bool_decide_eq_true_2 in Hc.
Qed.

Lemma equality_symmetric sc : symmetric_eq (bindable sc).
Proof. intros a b. rewrite !bindable_bool. apply andb_comm. Qed.

Lemma keeps_symmetric sc t : symmetric_eq (fun p => keeps sc p t).
Proof. intros a b. apply keeps_eq_comm. Qed.

(** All the conditions of a join, before and after the split. *)
Lemma split_conditions l r eqs flt ps f : conjunctive f -> symmetric_eq f ->
  let s := place_all catalog l r eqs (separate_opt flt ps) in
  forallb f (conditions eqs flt) && forallb f ps =
  forallb f (left_predicates s) && (forallb f (right_predicates s) &&
    forallb f (conditions (new_eqs s) (combine_predicates_with_and (remaining_predicates s)))).
Proof.
  intros Hc Hs s. pose proof (place_all_conj catalog l r f eqs (separate_opt flt ps) Hs) as E.
  fold s in E. unfold placed in E. rewrite !forallb_app, (separate_opt_conj f flt ps Hc) in E.
  unfold conditions. rewrite !forallb_app, (combine_conj f _ Hc), E, <- andb_assoc. f_equal. apply andb_comm.
Qed.

(** A join of sides that were filtered first. *)
Lemma joined_pushed l r sl tl sr tr eqs flt ps sc full :
  let s := place_all catalog l r eqs (separate_opt flt ps) in
  answer catalog table l = Some (sl, tl) -> answer catalog table r = Some (sr, tr) ->
  Forall (well_shaped sl) tl ->
  forallb named ps = true -> opt_named flt = true ->
  joined eqs flt (sl, tl) (sr, tr) = Some (sc, full) -> forallb (bindable sc) ps = true ->
  separate_opt flt ps = [] \/ sides_known l r ->
  forallb (bindable sl) (left_predicates s) = true /\ forallb (bindable sr) (right_predicates s) = true /\
  joined (new_eqs s) (combine_predicates_with_and (remaining_predicates s))
    (sl, List.filter (keeps_all sl (left_predicates s)) tl)
    (sr, List.filter (keeps_all sr (right_predicates s)) tr) =
  Some (sc, List.filter (keeps_all sc ps) full).
Proof.
  intros s El Er Sl Hn Hf E Hb Hor. unfold joined in E. cbn [fst snd] in E.
  apply bind_Some in E as (ts & [Hc ->]%selection_inv & [= <- <-]). set (sc := schema_merge sl sr) in *.
  pose proof (split_conditions l r eqs flt ps _ (bindable_conj sc) (equality_symmetric sc)) as Hbind.
  rewrite Hc, Hb in Hbind. fold s in Hbind. symmetry in Hbind.
  apply andb_true_iff in Hbind as [Bl [Br Bc]%andb_true_iff].
  destruct (place_all_sided catalog l r eqs _ (named_separate_opt flt ps Hf Hn)) as [Hl Hr]. fold s in Hl, Hr.
  assert (left_predicates s = [] /\ right_predicates s = [] \/ sides_known l r) as Hk.
  { destruct Hor as [Hnil|]; [left|by right]. unfold s, place_all. by rewrite Hnil. }
  split_and!.
  - destruct Hk as [[-> _]|(Tl & _)]; [done|]. rewrite forallb_forall in Bl, Hl |- *. intros p Hp.
    specialize (Hl p Hp). split_bools. eapply side_bindable; eauto.
  - destruct Hk as [[_ ->]|(_ & Tr & _)]; [done|]. rewrite forallb_forall in Br, Hr |- *. intros p Hp.
    specialize (Hr p Hp). split_bools. eapply side_bindable; eauto.
  - unfold joined. cbn [fst snd]. fold sc. rewrite selection_ok by done. cbn. do 2 f_equal.
    rewrite filter_filter_andb. symmetry. apply filter_cross. intros a b Ha Hb'.
    etransitivity; [exact (split_conditions l r eqs flt ps (fun p => keeps sc p (tuple_merge a b))
                             (keeps_conj _ _) (keeps_symmetric _ _))|]. fold s.
    rewrite Forall_forall in Sl. specialize (Sl a Ha).
    destruct Hk as [[-> ->]|K]; [done|]. destruct K as (Tl & K).
    f_equal; [|f_equal].
    + exact (keeps_all_left l sl tl sr _ a b Tl El Sl Hl).
    + exact (keeps_all_right l r sl tl sr tr _ a b (conj Tl K) El Er Sl Hr).
Qed.

Lemma answer_cross_op s l r : answer catalog table (T2 (cross_op s) l r) = answer catalog table (T2 (join_op s) l r).
Proof. unfold cross_op, join_op. cbn [answer]. by destruct (new_eqs s). Qed.

Lemma separate_opt_nil flt ps acc : ps = [] \/ acc = true ->
  acc || bool_decide (is_Some flt) = false -> separate_opt flt ps = [].
Proof.
  intros Hor [-> Hf%bool_decide_eq_false_1]%orb_false_iff. destruct Hor as [->|]; [|done].
  destruct flt; [|done]. by destruct Hf.
Qed.

(** Predicates handed to a tree act as a selection on its answer. *)
Definition pushes (t : ltree) : Prop := forall acc ps sc ts,
  answer catalog table t = Some (sc, ts) -> optimizable catalog t = true -> transparent catalog acc t = true ->
  ps = [] \/ acc = true -> forallb named ps = true -> forallb (bindable sc) ps = true ->
  answer catalog table (push_tree catalog t ps) = Some (sc, List.filter (keeps_all sc ps) ts).

Lemma named_sided f ps : forallb (fun p => named p && f p) ps = true -> forallb named ps = true.
Proof. rewrite !forallb_forall. intros Hp p Hin. specialize (Hp p Hin). by split_bools. Qed.

Lemma push_join (T : tables_shaped catalog table) l r eqs flt ps acc sc ts :
  let s := place_all catalog l r eqs (separate_opt flt ps) in
  pushes l -> pushes r ->
  (a ← answer catalog table l; b ← answer catalog table r; joined eqs flt a b) = Some (sc, ts) ->
  optimizable catalog l = true -> optimizable catalog r = true -> opt_named flt = true ->
  transparent catalog acc (T2 (LJoin eqs flt) l r) = true ->
  ps = [] \/ acc = true -> forallb named ps = true -> forallb (bindable sc) ps = true ->
  answer catalog table
    (T2 (join_op s) (push_tree catalog l (left_predicates s)) (push_tree catalog r (right_predicates s)))
  = Some (sc, List.filter (keeps_all sc ps) ts).
Proof.
  intros s Pl Pr E Ol Or Hf Ht Hor Hn Hb. cbn [transparent] in Ht.
  apply andb_true_iff in Ht as [[Tl Tr]%andb_true_iff D].
  apply bind_Some in E as ([sl tl] & El & E). apply bind_Some in E as ([sr tr] & Er & E).
  set (acc' := acc || bool_decide (is_Some flt)) in *.
  assert (separate_opt flt ps = [] \/ acc' = true) as Hor'.
  { destruct acc' eqn:Ea; [by right|left]. by apply (separate_opt_nil flt ps acc). }
  assert (separate_opt flt ps = [] \/ sides_known l r) as Hk.
  { destruct Hor' as [|Ha]; [by left|right]. rewrite Ha in *. done. }
  destruct (place_all_sided catalog l r eqs _ (named_separate_opt flt ps Hf Hn)) as [Nl Nr]. fold s in Nl, Nr.
  assert (left_predicates s = [] /\ right_predicates s = [] \/ acc' = true) as Hs.
  { destruct Hor' as [Hnil|]; [left|by right]. unfold s, place_all. by rewrite Hnil. }
  destruct (joined_pushed l r sl tl sr tr eqs flt ps sc ts El Er (answer_shaped _ _ T l sl tl El) Hn Hf E Hb Hk)
    as (Bl & Br & J). fold s in Bl, Br, J. unfold join_op. cbn [answer].
  rewrite (Pl acc' _ sl tl El Ol Tl) by (done || tauto || exact (named_sided _ _ Nl)).
  rewrite (Pr acc' _ sr tr Er Or Tr) by (done || tauto || exact (named_sided _ _ Nr)). exact J.
Qed.

Lemma push_scan c flt prj : pushes (T0 (LScan c flt prj)).
Proof.
  intros acc ps sc ts E Ho Ht Hor Hn Hb. cbn [answer push_tree transparent] in *.
  apply bind_Some in E as (sc0 & Es & E). apply bind_Some in E as (ts0 & Et & E).
  apply bind_Some in E as (ts1 & E1 & E). rewrite Es, Et. cbn [mbind option_bind].
  rewrite (selection_ext sc0 _ (option_list flt ++ ps)).
  2:{ intros f Hf. rewrite (combine_conj f _ Hf), (separate_opt_conj f flt ps Hf), forallb_app. apply andb_comm. }
  rewrite (selection_app sc0 _ ps _ ts1 E1). destruct prj as [es|].
  - apply projection_inv in E as (attrs & Be & Ea & -> & ->). cbn [default] in Ht.
    assert (ps = [] \/ forallb is_ident es = true) as Hi.
    { destruct Hor as [->| ->]; [by left|by right]. }
    rewrite selection_ok.
    2:{ destruct Hi as [->|Hi]; [done|]. rewrite forallb_forall in Hb |- *. intros p Hp.
        by apply (ident_bindable sc0 es attrs p Hi Be Ea), Hb. }
    cbn [mbind option_bind]. unfold projection. rewrite Be, Ea. cbn. do 2 f_equal.
    by apply selection_projection.
  - injection E as <- <-. by rewrite selection_ok.
Qed.

Lemma push_project es t : pushes t -> pushes (T1 (LProject es) t).
Proof.
  intros IH acc ps sc ts E Ho Ht Hor Hn Hb. cbn [answer push_tree transparent optimizable] in *.
  apply andb_true_iff in Ho as [_ Ho]. apply andb_true_iff in Ht as [Hi Ht].
  apply bind_Some in E as ([sc0 ts0] & E0 & E). apply projection_inv in E as (attrs & Be & Ea & -> & ->).
  assert (ps = [] \/ forallb is_ident es = true) as Hi'.
  { destruct Hor as [->| ->]; [by left|by right]. }
  rewrite (IH acc ps sc0 ts0 E0 Ho Ht Hor Hn).
  2:{ destruct Hi' as [->|Hi']; [done|]. rewrite forallb_forall in Hb |- *. intros p Hp.
      by apply (ident_bindable sc0 es attrs p Hi' Be Ea), Hb. }
  cbn [mbind option_bind]. unfold projection. rewrite Be, Ea. cbn. do 2 f_equal. by apply selection_projection.
Qed.

Lemma push_filter p t : pushes t -> pushes (T1 (LFilter p) t).
Proof.
  intros IH acc ps sc ts E Ho Ht _ Hn Hb. cbn [answer push_tree transparent optimizable] in *.
  apply andb_true_iff in Ho as [Hp Ho].
  apply bind_Some in E as ([sc0 ts0] & E0 & E). apply bind_Some in E as (ts1 & [Bp ->]%selection_inv & [= <- <-]).
  rewrite (IH true _ sc0 ts0 E0 Ho Ht (or_intror eq_refl)).
  - do 2 f_equal. rewrite filter_filter_andb. apply List.filter_ext. intros x. unfold keeps_all.
    rewrite (separate_conj _ p (keeps_conj sc0 x)). cbn [forallb]. by rewrite andb_true_r, andb_comm.
  - by apply named_separate.
  - rewrite (separate_conj _ p (bindable_conj sc0)), Hb. cbn [forallb] in Bp. by rewrite andb_true_r in Bp.
Qed.

Lemma push_tree_sound (T : tables_shaped catalog table) t : pushes t.
Proof.
  induction t as [op|op t IH|op l IHl r IHr]; destruct op as [c flt prj|es|p| |eqs flt|flt| | | |];
    try (intros ? ? ? ? [=]; fail).
  - apply push_scan.
  - by apply push_project.
  - by apply push_filter.
  - intros acc ps sc ts E Ho Ht Hor Hn Hb. cbn [optimizable] in Ho. split_bools.
    exact (push_join T l r eqs flt ps acc sc ts IHl IHr E ltac:(done) ltac:(done) ltac:(done) Ht Hor Hn Hb).
  - intros acc ps sc ts E Ho Ht Hor Hn Hb. cbn [optimizable push_tree] in *. split_bools.
    rewrite answer_cross_op.
    exact (push_join T l r [] flt ps acc sc ts IHl IHr E ltac:(done) ltac:(done) ltac:(done) Ht Hor Hn Hb).
Qed.
End Sound.

Lemma push_tree_filter_free catalog t : optimizable catalog t = true -> forall ps,
  filter_free (push_tree catalog t ps) = true.
Proof.
  induction t as [op|op t IH|op l IHl r IHr]; intros Ho ps; destruct op; try done;
    cbn [optimizable push_tree filter_free] in *; split_bools; auto.
  - by rewrite IHl, IHr.
  - by rewrite IHl, IHr.
Qed.

(** ** Conditions that never fail

    A condition built from comparisons of columns and literals with AND and OR
    evaluates to a boolean on every row, and a projection to columns and literals
    has an image of every row: plans of these have their answer as their value, and
    pushing predicates keeps them so. *)

Fixpoint operand (e : AstExpr) : bool :=
  match e with
  | ELiteral _ | EIdent _ => true
  | EAlias _ e => operand e
  | _ => false
  end.

Fixpoint comparison (e : AstExpr) : bool :=
  match e with
  | EBoolean BAnd a b | EBoolean BOr a b => comparison a && comparison b
  | EBoolean _ a b => operand a && operand b
  | _ => false
  end.

Fixpoint never_fails (t : ltree) : bool :=
  match t with
  | T0 (LScan _ flt prj) => forallb comparison (option_list flt) && forallb operand (default [] prj)
  | T1 (LFilter p) t => comparison p && never_fails t
  | T1 (LProject es) t => forallb operand es && never_fails t
  | T2 (LJoin eqs flt) l r => forallb comparison (conditions eqs flt) && never_fails l && never_fails r
  | T2 (LCrossProduct flt) l r => forallb comparison (option_list flt) && never_fails l && never_fails r
  | _ => false
  end.

Lemma comparison_conj : conjunctive comparison.
Proof. done. Qed.

Lemma comparison_symmetric : symmetric_eq comparison.
Proof. intros a b. apply andb_comm. Qed.

Lemma never_fails_cross s l r : never_fails (T2 (cross_op s) l r) = never_fails (T2 (join_op s) l r).
Proof. unfold cross_op, join_op. by destruct (new_eqs s) as [|e eqs] eqn:E; cbn [never_fails]; rewrite ?E. Qed.

Lemma push_join_never_fails catalog l r eqs flt ps :
  let s := place_all catalog l r eqs (separate_opt flt ps) in
  (forall ps, never_fails l = true -> forallb comparison ps = true -> never_fails (push_tree catalog l ps) = true) ->
  (forall ps, never_fails r = true -> forallb comparison ps = true -> never_fails (push_tree catalog r ps) = true) ->
  never_fails (T2 (LJoin eqs flt) l r) = true -> forallb comparison ps = true ->
  never_fails (T2 (join_op s) (push_tree catalog l (left_predicates s)) (push_tree catalog r (right_predicates s))) = true.
Proof.
  intros s IHl IHr Ht Hps. cbn [never_fails] in Ht. apply andb_true_iff in Ht as [[Hc Hl]%andb_true_iff Hr].
  pose proof (split_conditions catalog l r eqs flt ps comparison comparison_conj comparison_symmetric) as E.
  fold s in E. rewrite Hc, Hps in E. symmetry in E. apply andb_true_iff in E as [El [Er Ec]%andb_true_iff].
  unfold join_op. cbn [never_fails]. by rewrite Ec, IHl, IHr.
Qed.

Lemma push_tree_never_fails catalog t : forall ps, never_fails t = true -> forallb comparison ps = true ->
  never_fails (push_tree catalog t ps) = true.
Proof.
  induction t as [op|op t IH|op l IHl r IHr]; intros ps Ht Hps; destruct op as [c flt prj|es|p| |eqs flt|flt| | | |];
    try done; cbn [push_tree].
  - cbn [never_fails] in *. apply andb_true_iff in Ht as [Hf Hp]. rewrite Hp, andb_true_r.
    rewrite (combine_conj _ _ comparison_conj), (separate_opt_conj _ _ _ comparison_conj). by rewrite Hps, Hf.
  - cbn [never_fails] in *. apply andb_true_iff in Ht as [Hes Ht]. by rewrite Hes, IH.
  - cbn [never_fails] in *. apply andb_true_iff in Ht as [Hp Ht]. apply IH; [done|].
    by rewrite (separate_conj _ _ comparison_conj), Hps, Hp.
  - by apply push_join_never_fails.
  - rewrite never_fails_cross. by apply (push_join_never_fails catalog l r [] flt).
Qed.

Section Total.
Context `{Profile, Chrono} (catalog : Catalog) (table : ContainerId -> option (list Tuple)).

Lemma operand_evaluates sc t e : well_shaped sc t -> bindable sc e = true -> operand e = true ->
  exists v, eval_named sc e t = Ok v.
Proof.
  intros Hw. induction e as [v|n|s e IH|op l IHl r IHr|op l IHl r IHr|op e IH|i]; intros Hb Ho; try done.
  - by exists v.
  - apply (contains_column sc t n Hw). eapply bindable_contains; [done|]. apply list_elem_of_here.
  - by apply IH.
Qed.

Lemma comparison_evaluates sc t p : well_shaped sc t -> bindable sc p = true -> comparison p = true ->
  exists b, eval_named sc p t = Ok (FBool b).
Proof.
  intros Hw. induction p as [v|n|s e IH|op l IHl r IHr|op l IHl r IHr|op e IH|i]; intros Hb Hc; try done.
  rewrite bindable_bool in Hb. apply andb_true_iff in Hb as [Bl Br]. cbn [eval_named].
  assert (operand l && operand r = true -> op <> BAnd -> op <> BOr ->
    exists b, (x ← eval_named sc l t; y ← eval_named sc r t; eval_bool op x y) = Ok (FBool b)) as Hcmp.
  { intros [Ol Or]%andb_true_iff ? ?. destruct (operand_evaluates sc t l Hw Bl Ol) as [x ->].
    destruct (operand_evaluates sc t r Hw Br Or) as [y ->]. mstep. destruct op; try done; by eexists. }
  destruct op; try (by apply Hcmp).
  all: cbn [comparison] in Hc; apply andb_true_iff in Hc as [Cl Cr];
    destruct (IHl Bl Cl) as [x ->], (IHr Br Cr) as [y ->]; by eexists.
Qed.

Lemma filterM_o_filter {E A} (f : A -> outcome E bool) (g : A -> bool) l :
  Forall (fun x => f x = Ok (g x)) l -> filterM_o f l = Ok (List.filter g l).
Proof. induction 1 as [|x l Hx _ IH]; cbn [filterM_o List.filter]; [done|]. rewrite Hx, IH. mstep. by destruct (g x). Qed.

Lemma select_all_total sc ps ts full : Forall (well_shaped sc) ts -> forallb comparison ps = true ->
  selection sc ps ts = Some full -> select_all sc ps ts = Ok full.
Proof.
  intros Hw Hc [Hb ->]%selection_inv. unfold select_all. rewrite Hb. apply filterM_o_filter.
  eapply Forall_impl; [exact Hw|]. intros t Ht. unfold satisfies_all, keeps_all. rewrite forallb_forall in Hc, Hb.
  induction ps as [|p ps IH]; cbn [mapM_o forallb]; [done|].
  destruct (comparison_evaluates sc t p Ht) as [b Eb]; [by apply Hb; left|by apply Hc; left|].
  assert (satisfies sc p t = Ok b) as Es by (unfold satisfies; by rewrite Eb). rewrite (satisfies_keeps _ _ _ _ Es), Es. mstep.
  specialize (IH (fun q Hq => Hc q (or_intror Hq)) (fun q Hq => Hb q (or_intror Hq))).
  apply bind_Ok_inv in IH as (bs & Ebs & [= Ek]). rewrite Ebs. mstep. cbn [forallb id]. by rewrite Ek.
Qed.

Lemma project_to_total sc es ts out : Forall (well_shaped sc) ts -> forallb operand es = true ->
  projection sc es ts = Some out -> project_to sc es ts = Ok out.
Proof.
  intros Hw Ho E. destruct out as [sc' full]. apply projection_inv in E as (attrs & Hb & Ea & -> & ->).
  unfold project_to, project. rewrite Ea, Hb. mstep. rewrite forallb_forall in Ho, Hb.
  enough (mapM_o (image sc es) ts = Ok (omap (fun t => to_option (image sc es t)) ts)) as -> by done.
  induction Hw as [|t ts Ht Hw IH]; cbn [mapM_o omap list_omap]; [done|].
  destruct (mapM_o_total (fun e => eval_named sc e t) es) as [fs Ef].
  { intros e He%list_elem_of_In. apply operand_evaluates; [done|by apply Hb|by apply Ho]. }
  assert (image sc es t = Ok (Tuple_new fs)) as -> by (unfold image; by rewrite Ef). rewrite IH. by mstep.
Qed.

(** Without failures the answer is the value. *)
Lemma never_fails_value (T : tables_shaped catalog table) t : forall x,
  never_fails t = true -> answer catalog table t = Some x -> evaluate catalog table t = Ok x.
Proof.
  induction t as [op|op t IH|op l IHl r IHr]; intros x Ht E; destruct op as [c flt prj|es|p| |eqs flt|flt| | | |];
    try done; cbn [never_fails answer evaluate] in *.
  - apply andb_true_iff in Ht as [Hf Hp]. apply bind_Some in E as (sc & Es & E). apply bind_Some in E as (ts & Et & E).
    apply bind_Some in E as (ts1 & E1 & E). rewrite Es, Et. cbn [unwrap_opt]. mstep.
    rewrite (select_all_total sc _ ts ts1 (T _ _ _ Es Et) Hf E1). mstep. destruct prj as [es|]; [|by injection E as <-].
    apply project_to_total; [|done|done]. eapply selection_shaped; [exact (T _ _ _ Es Et)|done].
  - apply andb_true_iff in Ht as [Hes Ht]. apply bind_Some in E as ([sc ts] & E0 & E). rewrite (IH _ Ht E0). mstep.
    apply project_to_total; [by eapply answer_shaped|done|done].
  - apply andb_true_iff in Ht as [Hp Ht]. apply bind_Some in E as ([sc ts] & E0 & E). apply bind_Some in E as (ts1 & E1 & [= <-]).
    rewrite (IH _ Ht E0). mstep. rewrite (select_all_total sc [p] ts ts1); [done|by eapply answer_shaped| |done].
    cbn. by rewrite Hp.
  - apply andb_true_iff in Ht as [[Hc Hl]%andb_true_iff Hr]. apply bind_Some in E as ([sl tl] & El & E).
    apply bind_Some in E as ([sr tr] & Er & E). apply bind_Some in E as (ts1 & E1 & [= <-]).
    rewrite (IHl _ Hl El), (IHr _ Hr Er). mstep. unfold join_on. rewrite (select_all_total _ _ _ ts1); [done| |done|done].
    apply cross_shaped; by eapply answer_shaped.
  - apply andb_true_iff in Ht as [[Hc Hl]%andb_true_iff Hr]. apply bind_Some in E as ([sl tl] & El & E).
    apply bind_Some in E as ([sr tr] & Er & E). apply bind_Some in E as (ts1 & E1 & [= <-]).
    rewrite (IHl _ Hl El), (IHr _ Hr Er). mstep. unfold join_on. rewrite (select_all_total _ _ _ ts1); [done| |done|done].
    apply cross_shaped; by eapply answer_shaped.
Qed.
End Total.
