(* ===== verification/OptimizerProj.v ===== *)
(** * The optimizer: soundness of projection pushdown

    The rule narrows the scans to the columns that are used above them.  Below a
    projection this keeps the value of the plan. *)

From S2P Require Import Prelude Common Types Expr ExprProofs OpIterProofs Graph Catalog Plan Planner.
From S2P Require Import PlannerProofs PlanMerge Optimizer OptimizerProofs OptimizerSem OptimizerPush.

(** ** On trees *)

(** The columns an operator reads from its children, as the rule collects them. *)
Definition reads (op : LogicalOp) : list string :=
  match op with
  | LProject es => es ≫= idents
  | LFilter p => idents p
  | LAggregate fields group_by _ => (fields ≫= idents) ++ (group_by ≫= idents)
  | LJoin eqs flt => (eqs ≫= fun e => idents e.1 ++ idents e.2) ++ (option_list flt ≫= idents)
  | LSort fields => fields.*1 ≫= idents
  | _ => []
  end.

Fixpoint proj_tree (catalog : Catalog) (t : ltree) (cols : BTreeSet) : ltree * BTreeSet :=
  match t with
  | T0 (LScan c flt _) =>
      (T0 (LScan c flt (Some (match get_table_schema catalog c with
                              | Some sc => scan_columns sc cols
                              | None => [] end))), cols)
  | T0 op => (T0 op, cols)
  | T1 op t => let '(t', cols) := proj_tree catalog t (bt_extend cols (reads op)) in (T1 op t', cols)
  | T2 op l r =>
      let '(l', cols) := proj_tree catalog l (bt_extend cols (reads op)) in
      let '(r', cols) := proj_tree catalog r cols in
      (T2 op l' r', cols)
  end.

Lemma bt_extend_app l xs ys : bt_extend l (xs ++ ys) = bt_extend (bt_extend l xs) ys.
Proof. unfold bt_extend. apply foldl_app. Qed.

Lemma extract_columns_exact e : named e = true -> forall cols,
  extract_columns e cols = Ok (bt_extend cols (idents e)).
Proof.
  induction e as [f|s|s e IH|op l IHl r IHr|op l IHl r IHr|op e IH|i]; cbn [named]; intros Hn cols;
    cbn [extract_columns idents]; try done; auto.
  - split_bools. rewrite IHl by done. mstep. by rewrite IHr, bt_extend_app.
  - split_bools. rewrite IHl by done. mstep. by rewrite IHr, bt_extend_app.
Qed.

Lemma extract_columns_vec_exact es : forallb named es = true -> forall cols,
  extract_columns_vec es cols = Ok (bt_extend cols (es ≫= idents)).
Proof.
  unfold extract_columns_vec. induction es as [|e es IH]; cbn [forallb foldM]; intros Hn cols; [done|].
  split_bools. rewrite extract_columns_exact by done. mstep. rewrite IH by done.
  cbn [mbind list_bind]. by rewrite bt_extend_app.
Qed.

Lemma extract_eqs_exact (eqs : list (AstExpr * AstExpr)) :
  forallb (fun e => named e.1 && named e.2) eqs = true -> forall cols,
  foldM (fun cols (e : AstExpr * AstExpr) => cols ← extract_columns e.1 cols; extract_columns e.2 cols) cols eqs
  = Ok (bt_extend cols (eqs ≫= fun e => idents e.1 ++ idents e.2)).
Proof.
  induction eqs as [|e eqs IH]; cbn [forallb foldM]; intros Hn cols; [done|]. split_bools.
  rewrite !extract_columns_exact by done. mstep. rewrite extract_columns_exact by done. mstep.
  rewrite IH by done. cbn [mbind list_bind]. by rewrite !bt_extend_app.
Qed.

Section Refine.
Context (catalog : Catalog) (lp : LogicalPlan) (W : plan_wf lp).

(** The walk builds the image of the tree and returns its columns. *)
Definition builds_with (m : result (LogicalPlan * BTreeSet)) (x : ltree * BTreeSet) : Prop :=
  exists lp', m = Ok (lp', x.2) /\ plan_for lp' x.1.

Lemma builds_with_over m op t cols : builds_with m (t, cols) ->
  builds_with ('(new_lp, col_names) ← m; new_lp ← put_over new_lp op; Ok (new_lp, col_names)) (T1 op t, cols).
Proof.
  intros (lp' & -> & P). mstep. cbn [fst] in P.
  destruct (put_over_ok lp' op t P) as (lp2 & -> & P2). mstep. by exists lp2.
Qed.

Lemma pushdown_proj_ok t i fuel : forall cols,
  represents lp i t -> optimizable catalog t = true -> (height t <= fuel)%nat ->
  builds_with (pushdown_proj lp catalog fuel i cols) (proj_tree catalog t cols).
Proof.
  intros cols R. revert cols fuel.
  induction R as [i op E O|i j op t E O R IH|i j k op l r E O Rl IHl Rr IHr];
    intros cols [|fuel] Ho Hf; cbn [height] in Hf; try lia; cbn [pushdown_proj];
    rewrite E; cbn [unwrap_opt]; mstep.
  - destruct op; try done. cbn [optimizable proj_tree] in *. split_bools.
    destruct (get_table_schema catalog container_id) as [sc|]; [|by destruct H]. cbn [unwrap_opt]. mstep.
    eexists. split; [done|]. apply scan_plan_for.
  - assert (height t <= fuel)%nat as Hf' by lia.
    assert (forall cs op', optimizable catalog t = true -> builds_with
      (child ← first_child lp i; '(new_lp, col_names) ← pushdown_proj lp catalog fuel child cs;
       new_lp ← put_over new_lp op'; Ok (new_lp, col_names))
      (let '(t', cols) := proj_tree catalog t cs in (T1 op' t', cols))) as Hover.
    { intros cs op' Ho'. rewrite (first_child_ok lp W i op j [] E O). mstep. specialize (IH cs fuel Ho' Hf').
      destruct (proj_tree catalog t cs) as [t' cs']. by apply builds_with_over. }
    destruct op; try done; cbn [optimizable proj_tree reads] in *; split_bools;
      rewrite ?extract_columns_vec_exact, ?extract_columns_exact by done; mstep;
      rewrite ?extract_columns_vec_exact by done; mstep; rewrite ?bt_extend_app; by apply Hover.
  - assert (height l <= fuel /\ height r <= fuel)%nat as [Hl Hr] by lia.
    assert (forall cs op', optimizable catalog l = true -> optimizable catalog r = true ->
      is_join_op op' = true -> builds_with
      (left ← first_child lp i; right ← second_child lp i;
       '(new_lp_l, col_names) ← pushdown_proj lp catalog fuel left cs;
       '(new_lp_r, col_names) ← pushdown_proj lp catalog fuel right col_names;
       new_lp ← merge new_lp_l op' new_lp_r; Ok (new_lp, col_names))
      (let '(l', cols) := proj_tree catalog l cs in let '(r', cols) := proj_tree catalog r cols in
       (T2 op' l' r', cols))) as Hover.
    { intros cs op' Hol Hor Hj. rewrite (first_child_ok lp W i op j [k] E O). unfold second_child.
      rewrite (LP_edges_ok lp W i _ E), O. mstep. cbn [lookup list_lookup unwrap_opt]. mstep.
      specialize (IHl cs fuel Hol Hl). destruct (proj_tree catalog l cs) as [l' cs1].
      destruct IHl as (lpl & -> & Pl). mstep.
      specialize (IHr cs1 fuel Hor Hr). destruct (proj_tree catalog r cs1) as [r' cs2].
      destruct IHr as (lpr & -> & Pr). mstep. cbn [fst snd] in *.
      destruct (merge_plan_for lpl lpr op' l' r' Hj Pl Pr) as (lp' & -> & P). mstep. by exists lp'. }
    destruct op as [| | | |eqs flt|flt| | | |]; try done; cbn [optimizable proj_tree reads] in *; split_bools.
    + rewrite extract_eqs_exact by done. mstep. rewrite bt_extend_app.
      assert (forall cs, extract_columns_opt flt cs = Ok (bt_extend cs (option_list flt ≫= idents))) as ->.
      { intros cs. destruct flt; [|done]. cbn. rewrite extract_columns_exact, app_nil_r; done. }
      mstep. by apply Hover.
    + by apply Hover.
Qed.
End Refine.

(** ** Narrower values *)

(** The attribute under a name. *)
Definition attribute_of (sc : TableSchema) (n : string) : option Attribute :=
  i ← get_field_index sc n; get_attribute sc i.

Section Narrow.
Context `{Profile, Chrono}.

(** [b] has the columns [cols] of [a] and agrees with [a] on the columns it has. *)
Record narrows (cols : list string) (a b : TableSchema * list Tuple) : Prop := {
  nw_has : forall n, n ∈ cols -> schema_contains a.1 n = true -> schema_contains b.1 n = true;
  nw_sub : forall n, schema_contains b.1 n = true -> schema_contains a.1 n = true;
  nw_attr : forall n, schema_contains b.1 n = true -> attribute_of b.1 n = attribute_of a.1 n;
  nw_rows : Forall2 (fun t t' => forall n, schema_contains b.1 n = true -> column a.1 t n = column b.1 t' n) a.2 b.2;
}.

Lemma narrows_refl cols a : narrows cols a a.
Proof. split; try done. apply Forall2_same_length_lookup_2; [done|]. intros i x y -> [= ->]. done. Qed.

Lemma narrows_mono cols cols' a b : (forall n, n ∈ cols' -> n ∈ cols) -> narrows cols a b -> narrows cols' a b.
Proof. intros Hs [H1 H2 H3 H4]. split; auto. Qed.

(** Expressions over the needed columns. *)
Definition covered (cols : list string) (e : AstExpr) : Prop := forall n, n ∈ idents e -> n ∈ cols.

Lemma narrows_bindable cols a b e : narrows cols a b -> covered cols e -> bindable a.1 e = true ->
  bindable b.1 e = true.
Proof.
  intros N Hc [Ha Hb]%andb_true_iff. apply andb_true_iff. split; [done|]. rewrite forallb_forall in Hb |- *.
  intros n Hn. apply (nw_has _ _ _ N); [|by apply Hb]. by apply Hc, list_elem_of_In.
Qed.

Lemma to_attr_ident n sc : to_attr (EIdent n) sc = unwrap_opt (attribute_of sc n).
Proof. cbn [to_attr]. unfold attribute_of. by destruct (get_field_index sc n). Qed.

Lemma to_attr_ext sc sc' e : named e = true ->
  (forall n, n ∈ idents e -> attribute_of sc n = attribute_of sc' n) -> to_attr e sc = to_attr e sc'.
Proof.
  induction e as [f|s|s e IH|op l IHl r IHr|op l IHl r IHr|op e IH|i]; intros Hn Ha; try done.
  - rewrite !to_attr_ident, Ha; [done|]. by apply list_elem_of_here.
  - cbn [to_attr]. by rewrite IH.
  - cbn [named] in Hn. split_bools. cbn [to_attr].
    rewrite IHl, IHr; [done|done| |done|]; intros n Hin; apply Ha; cbn [idents]; apply elem_of_app; tauto.
  - cbn [named] in Hn. split_bools. cbn [to_attr].
    rewrite IHl, IHr; [done|done| |done|]; intros n Hin; apply Ha; cbn [idents]; apply elem_of_app; tauto.
  - cbn [to_attr]. by rewrite IH.
Qed.

Lemma mapM_o_ext {E A B} (f g : A -> outcome E B) l : (forall x, x ∈ l -> f x = g x) -> mapM_o f l = mapM_o g l.
Proof.
  induction l as [|x l IH]; intros Hl; cbn [mapM_o]; [done|].
  rewrite (Hl x), IH; [done| |apply list_elem_of_here]. intros y Hy. apply Hl. by apply list_elem_of_further.
Qed.

(** A selection over the needed columns keeps the same rows, or fails on the same. *)
Lemma narrows_selection cols a b ps ts : narrows cols a b -> forallb named ps = true ->
  Forall (covered cols) ps -> select_all a.1 ps a.2 = Ok ts ->
  exists ts', select_all b.1 ps b.2 = Ok ts' /\ narrows cols (a.1, ts) (b.1, ts').
Proof.
  intros N Hn Hc Es. unfold select_all in *. destruct (forallb (bindable a.1) ps) eqn:Ha; [|done].
  rewrite Forall_forall in Hc.
  assert (forallb (bindable b.1) ps = true) as Hb.
  { rewrite forallb_forall in Ha |- *. intros p Hp. eapply narrows_bindable; [done| |by apply Ha].
    by apply Hc, list_elem_of_In. }
  rewrite Hb. rewrite forallb_forall in Hn, Hb. destruct N as [N1 N2 N3 N4].
  enough (exists ts', filterM_o (satisfies_all b.1 ps) b.2 = Ok ts' /\
    Forall2 (fun t t' => forall n, schema_contains b.1 n = true -> column a.1 t n = column b.1 t' n) ts ts')
    as (ts' & E' & N') by (exists ts'; by repeat split).
  revert ts Es. induction N4 as [|t t' l l' Ht N4 IH]; intros ts Es; cbn [filterM_o] in *.
  { injection Es as <-. exists []. split; [done|constructor]. }
  assert (satisfies_all b.1 ps t' = satisfies_all a.1 ps t) as ->.
  { unfold satisfies_all. f_equal. apply mapM_o_ext. intros p Hp%list_elem_of_In. unfold satisfies. f_equal.
    symmetry. apply eval_named_ext; [by apply Hn|]. intros n Hin. apply Ht.
    eapply bindable_contains; [by apply Hb|done]. }
  apply bind_Ok_inv in Es as (x & -> & E). apply bind_Ok_inv in E as (r & Er & [= <-]).
  destruct (IH r Er) as (r' & -> & Hr). mstep. eexists. split; [done|]. destruct x; [by constructor|done].
Qed.

(** A projection to expressions over the needed columns has the same value. *)
Lemma narrows_projection cols a b es out : narrows cols a b -> forallb named es = true ->
  Forall (covered cols) es -> project_to a.1 es a.2 = Ok out -> project_to b.1 es b.2 = Ok out.
Proof.
  intros N Hn Hc E. unfold project_to, project in *. apply bind_Ok_inv in E as (attrs & Ea & E).
  destruct (forallb (bindable a.1) es) eqn:Ba; [|by apply bind_Ok_inv in E as (? & ? & _)].
  rewrite Forall_forall in Hc.
  assert (forallb (bindable b.1) es = true) as Hb.
  { rewrite forallb_forall in Ba |- *. intros e He. eapply narrows_bindable; [done| |by apply Ba].
    by apply Hc, list_elem_of_In. }
  rewrite Hb. rewrite forallb_forall in Hn, Hb. rewrite (mapM_o_ext _ (fun e => to_attr e a.1)), Ea.
  2:{ intros e He%list_elem_of_In. apply to_attr_ext; [by apply Hn|]. intros n Hin. apply (nw_attr _ _ _ N).
      eapply bindable_contains; [by apply Hb|done]. }
  mstep. rewrite <- E. f_equal. destruct N as [_ _ _ N4]. clear E.
  induction N4 as [|t t' l l' Ht N4 IH]; [done|]. cbn [mapM_o].
  assert (image b.1 es t' = image a.1 es t) as ->; [|by rewrite IH].
  unfold image. f_equal. apply mapM_o_ext. intros e He%list_elem_of_In. symmetry. apply eval_named_ext; [by apply Hn|].
  intros n Hin. apply Ht. eapply bindable_contains; [by apply Hb|done].
Qed.
End Narrow.

(** ** Products and scans *)

Section Products.
Context `{Profile, Chrono}.

Lemma contains_merge sl sr n :
  schema_contains (schema_merge sl sr) n = schema_contains sl n || schema_contains sr n.
Proof.
  apply eq_true_iff_eq. rewrite orb_true_iff, !contains_iff. cbn. by rewrite fmap_app, elem_of_app.
Qed.

Lemma attribute_of_merge sl sr n : attribute_of (schema_merge sl sr) n =
  if schema_contains sl n then attribute_of sl n else attribute_of sr n.
Proof.
  unfold attribute_of, get_field_index, get_attribute, schema_contains, schema_merge.
  cbn [TableSchema_new attributes]. rewrite field_index_from_app. destruct (schema_contains_go _ n).
  - destruct (field_index_from 0 (attributes sl) n) as [j|] eqn:Ej; [|done]. cbn.
    destruct (field_index_lookup _ _ _ _ Ej) as (a & _ & Hl & _). rewrite Nat.sub_0_r in Hl.
    by rewrite lookup_app_l by (by eapply lookup_lt_Some).
  - rewrite Nat.add_comm, field_index_from_shift. destruct (field_index_from 0 (attributes sr) n) as [j|]; [|done].
    cbn. rewrite lookup_app_r by lia. f_equal. lia.
Qed.

Lemma Forall2_cross (P Q R : Tuple -> Tuple -> Prop) tl tl' tr tr' :
  (forall a a' b b', P a a' -> Q b b' -> R (tuple_merge a b) (tuple_merge a' b')) ->
  Forall2 P tl tl' -> Forall2 Q tr tr' -> Forall2 R (cross tl tr) (cross tl' tr').
Proof.
  intros Hm Hl Hr. unfold cross. induction Hl as [|a a' tl tl' Ha Hl IH]; [constructor|].
  cbn [mbind list_bind]. apply Forall2_app; [|exact IH].
  apply Forall2_fmap. eapply Forall2_impl; [exact Hr|]. intros b b' Hb. by apply Hm.
Qed.

Lemma Forall2_add_Forall {A B} (P : A -> B -> Prop) (Q : A -> Prop) (R : B -> Prop) l k :
  Forall2 P l k -> Forall Q l -> Forall R k -> Forall2 (fun a b => P a b /\ Q a /\ R b) l k.
Proof.
  induction 1 as [|a b l k Hab _ IH]; [constructor|]. intros [Ha Hl]%Forall_cons [Hb Hk]%Forall_cons.
  constructor; auto.
Qed.

Lemma narrows_cross cols a a' b b' :
  narrows cols a a' -> narrows cols b b' ->
  (forall n, schema_contains a.1 n = true -> schema_contains b.1 n = false) ->
  Forall (well_shaped a.1) a.2 -> Forall (well_shaped a'.1) a'.2 ->
  narrows cols (schema_merge a.1 b.1, cross a.2 b.2) (schema_merge a'.1 b'.1, cross a'.2 b'.2).
Proof.
  intros [L1 L2 L3 L4] [R1 R2 R3 R4] D Sa Sa'.
  assert (forall n, schema_contains b'.1 n = true -> schema_contains a'.1 n = false /\ schema_contains a.1 n = false) as D'.
  { intros n Hn. apply R2 in Hn. split; apply not_true_is_false; intros Ha; [apply L2 in Ha|];
      apply D in Ha; congruence. }
  split; cbn [fst snd].
  - intros n Hc. rewrite !contains_merge, !orb_true_iff. intros [?|?]; auto.
  - intros n. rewrite !contains_merge, !orb_true_iff. intros [?|?]; auto.
  - intros n. rewrite contains_merge, !attribute_of_merge. intros Hn. destruct (schema_contains a'.1 n) eqn:Ea.
    + rewrite (L2 n Ea). auto.
    + cbn [orb] in Hn. destruct (D' n Hn) as [_ ->]. auto.
  - eapply Forall2_cross; [|exact (Forall2_add_Forall _ _ _ _ _ L4 Sa Sa')|exact R4].
    intros x x' y y' (Hx & Wx & Wx') Hy n. rewrite contains_merge. intros Hn.
    destruct (schema_contains a'.1 n) eqn:Ea.
    + rewrite (column_left a'.1), (column_left a.1) by auto. auto.
    + cbn [orb] in Hn. destruct (D' n Hn) as [? ?]. rewrite (column_right a'.1), (column_right a.1) by done. auto.
Qed.

(** Attributes of a projection to identifiers. *)
Lemma ident_attribute_from sc n ns : forall attrs i j,
  mapM_o (fun e => to_attr e sc) (EIdent <$> ns) = Ok attrs -> field_index_from i attrs n = Some j ->
  (i <= j)%nat /\ attrs !! (j - i)%nat = attribute_of sc n.
Proof.
  induction ns as [|m ns IH]; intros attrs i j E Ej; cbn [fmap list_fmap mapM_o] in E; [by injection E as <-|].
  apply bind_Ok_inv in E as (a & Ea & E). apply bind_Ok_inv in E as (attrs' & Es & [= <-]).
  cbn [field_index_from] in Ej. pose proof (to_attr_name_ident _ _ _ Ea) as Hm. rewrite Hm in Ej.
  rewrite to_attr_ident in Ea. destruct (String.eqb m n) eqn:En.
  - injection Ej as <-. rewrite Nat.sub_diag. apply String.eqb_eq in En as ->. cbn.
    destruct (attribute_of sc n); [|done]. by injection Ea as ->.
  - destruct (IH attrs' (S i) j Es Ej) as [Hj Hl]. split; [lia|].
    by replace (j - i)%nat with (S (j - S i)) by lia.
Qed.

Lemma contains_attribute sc n : schema_contains sc n = true -> is_Some (attribute_of sc n).
Proof.
  intros [j Ej]%(field_index_contains _ _ 0). unfold attribute_of, get_field_index. rewrite Ej. cbn.
  destruct (field_index_lookup _ _ _ _ Ej) as (a & _ & Hl & _). rewrite Nat.sub_0_r in Hl. by exists a.
Qed.

(** A scan narrowed to the columns it has. *)
Lemma narrows_scan sc ts cols : Forall (well_shaped sc) ts ->
  exists b, project_to sc (scan_columns sc cols) ts = Ok b /\ narrows cols (sc, ts) b.
Proof.
  intros Hw. unfold scan_columns. set (ns := filter _ cols).
  assert (forall n, n ∈ ns <-> n ∈ cols /\ schema_contains sc n = true) as Hns.
  { intros n. unfold ns. rewrite list_elem_of_filter. tauto. }
  assert (forall e, e ∈ EIdent <$> ns -> exists n, e = EIdent n /\ schema_contains sc n = true) as He.
  { intros e (n & -> & Hn)%list_elem_of_fmap. exists n. split; [done|]. by apply Hns. }
  assert (forallb is_ident (EIdent <$> ns) = true) as Hi.
  { rewrite forallb_forall. intros e Hin%list_elem_of_In. by destruct (He e Hin) as (n & -> & _). }
  destruct (mapM_o_total (fun e => to_attr e sc) (EIdent <$> ns)) as [attrs Ea].
  { intros e Hin. destruct (He e Hin) as (n & -> & Hn). rewrite to_attr_ident.
    destruct (contains_attribute sc n Hn) as [a ->]. by exists a. }
  assert ((EIdent <$> ns) ≫= idents = ns) as Hnames.
  { clear. induction ns as [|n ns IH]; [done|]. cbn [fmap list_fmap mbind list_bind idents app]. f_equal. exact IH. }
  assert (forall n, schema_contains (TableSchema_new attrs) n = true <-> n ∈ ns) as Hc.
  { intros n. rewrite contains_iff. cbn. by rewrite (ident_names sc _ attrs Hi Ea), Hnames. }
  assert (exists ts', mapM_o (image sc (EIdent <$> ns)) ts = Ok ts' /\
    Forall2 (fun t t' => forall n, schema_contains (TableSchema_new attrs) n = true ->
      column sc t n = column (TableSchema_new attrs) t' n) ts ts') as (ts' & Ets & Hrows).
  { induction Hw as [|t ts Ht Hw (ts' & Ets & IH)]; [exists []; split; [done|constructor]|]. cbn [mapM_o].
    destruct (mapM_o_total (fun e => eval_named sc e t) (EIdent <$> ns)) as [fs Ef].
    { intros e Hin. destruct (He e Hin) as (n & -> & Hn). exact (contains_column sc t n Ht Hn). }
    assert (image sc (EIdent <$> ns) t = Ok (Tuple_new fs)) as Eim by (unfold image; by rewrite Ef).
    rewrite Eim, Ets. mstep. eexists. split; [done|]. constructor; [|exact IH]. intros n Hn. symmetry.
    by apply (image_column sc _ attrs _ _ n Hi Ea Eim). }
  exists (TableSchema_new attrs, ts'). split.
  { unfold project_to, project. rewrite Ea. mstep. replace (forallb (bindable sc) (EIdent <$> ns)) with true; [by rewrite Ets|].
    symmetry. rewrite forallb_forall. intros e Hin%list_elem_of_In. destruct (He e Hin) as (n & -> & Hn).
    unfold bindable. cbn. by rewrite Hn. }
  split; cbn [fst snd].
  - intros n Hin Hs. by apply Hc, Hns.
  - intros n Hn. by apply Hns, Hc.
  - intros n [j Ej]%(field_index_contains _ _ 0). cbn [attributes TableSchema_new] in Ej.
    destruct (ident_attribute_from sc n ns attrs 0 j Ea Ej) as [_ Hl]. rewrite Nat.sub_0_r in Hl.
    rewrite <- Hl. unfold attribute_of, get_field_index. cbn [attributes TableSchema_new]. by rewrite Ej.
  - exact Hrows.
Qed.
End Products.

(** ** Soundness *)

Section Sound.
Context `{Profile, Chrono} (catalog : Catalog) (table : ContainerId -> option (list Tuple)).

(** The sides of a join have no name in common. *)
Definition names_apart (l r : ltree) : bool :=
  match evaluate catalog table l, evaluate catalog table r with
  | Ok (sl, _), Ok (sr, _) => disjoint_names (Types.name <$> attributes sl) (Types.name <$> attributes sr)
  | _, _ => false
  end.

(** Scans without a projection of their own, and products without a filter: the
    rule does not collect the columns of that filter. *)
Fixpoint narrowable (t : ltree) : bool :=
  match t with
  | T0 (LScan _ _ None) => true
  | T1 (LFilter _) t | T1 (LProject _) t => narrowable t
  | T2 (LJoin _ _) l r | T2 (LCrossProduct None) l r => narrowable l && narrowable r && names_apart l r
  | _ => false
  end.

Lemma names_apart_elim l r sl tl sr tr n : names_apart l r = true ->
  evaluate catalog table l = Ok (sl, tl) -> evaluate catalog table r = Ok (sr, tr) ->
  schema_contains sl n = true -> schema_contains sr n = false.
Proof.
  unfold names_apart. intros D El Er Hn. rewrite El, Er in D. apply contains_iff, list_elem_of_In in Hn.
  unfold disjoint_names in D. rewrite forallb_forall in D. apply D, negb_true_iff, bool_decide_eq_false_1 in Hn.
  apply not_true_is_false. by rewrite contains_iff.
Qed.

Lemma proj_tree_cols t : forall cols n, n ∈ cols -> n ∈ (proj_tree catalog t cols).2.
Proof.
  induction t as [op|op t IH|op l IHl r IHr]; intros cols n Hn; cbn [proj_tree].
  - by destruct op.
  - specialize (IH (bt_extend cols (reads op)) n). destruct (proj_tree catalog t _). apply IH, elem_of_bt_extend. tauto.
  - specialize (IHl (bt_extend cols (reads op)) n). destruct (proj_tree catalog l _) as [l' cs].
    specialize (IHr cs n). destruct (proj_tree catalog r cs). apply IHr, IHl, elem_of_bt_extend. tauto.
Qed.

Lemma covered_bind es (cols : list string) : (forall n, n ∈ es ≫= idents -> n ∈ cols) -> Forall (covered cols) es.
Proof. intros Hc. apply Forall_forall. intros e He n Hn. apply Hc, list_elem_of_bind. by exists e. Qed.

Definition narrowed (t : ltree) : Prop := forall cols a,
  evaluate catalog table t = Ok a -> optimizable catalog t = true -> narrowable t = true ->
  exists b, evaluate catalog table (proj_tree catalog t cols).1 = Ok b /\ narrows cols a b.

Lemma conditions_named eqs flt : forallb (fun e => named e.1 && named e.2) eqs = true -> opt_named flt = true ->
  forallb named (conditions eqs flt) = true.
Proof.
  intros He Hf. unfold conditions. rewrite forallb_app. apply andb_true_iff. split.
  - rewrite forallb_forall in He |- *. intros e (x & <- & Hx)%List.in_map_iff. by apply He.
  - destruct flt; [|done]. cbn in *. by rewrite Hf.
Qed.

Lemma conditions_covered eqs flt (cols : list string) : (forall n, n ∈ reads (LJoin eqs flt) -> n ∈ cols) ->
  Forall (covered cols) (conditions eqs flt).
Proof.
  intros Hc. cbn [reads] in Hc. apply Forall_app. split.
  - apply Forall_forall. intros e (x & -> & Hx)%list_elem_of_fmap n Hn. apply Hc, elem_of_app. left.
    apply list_elem_of_bind. by exists x.
  - apply covered_bind. intros n Hn. apply Hc, elem_of_app. by right.
Qed.

Lemma narrowed_join (T : tables_shaped catalog table) l r eqs flt cols a l' r' cs cs' :
  narrowed l -> narrowed r ->
  (x ← evaluate catalog table l; y ← evaluate catalog table r; join_on eqs flt x y) = Ok a ->
  optimizable catalog l = true -> optimizable catalog r = true ->
  forallb (fun e => named e.1 && named e.2) eqs = true -> opt_named flt = true ->
  narrowable l = true -> narrowable r = true -> names_apart l r = true ->
  proj_tree catalog l (bt_extend cols (reads (LJoin eqs flt))) = (l', cs) -> proj_tree catalog r cs = (r', cs') ->
  exists b, evaluate catalog table (T2 (LJoin eqs flt) l' r') = Ok b /\ narrows cols a b.
Proof.
  intros Nl Nr E Ol Or He Hf Hl Hr D El Er. set (cols1 := bt_extend cols (reads (LJoin eqs flt))) in *.
  apply bind_Ok_inv in E as ([sl tl] & Al & E). apply bind_Ok_inv in E as ([sr tr] & Ar & E).
  apply bind_Ok_inv in E as (ts & Es & [= <-]).
  destruct (Nl cols1 _ Al Ol Hl) as ([sl' tl'] & Bl & NWl). rewrite El in Bl.
  destruct (Nr cs _ Ar Or Hr) as ([sr' tr'] & Br & NWr). rewrite Er in Br.
  assert (narrows cols1 (sr, tr) (sr', tr')) as NWr'.
  { eapply narrows_mono; [|exact NWr]. intros n Hn. apply (proj_tree_cols l) in Hn. by rewrite El in Hn. }
  pose proof (narrows_cross cols1 _ _ _ _ NWl NWr' (fun n => names_apart_elim l r sl tl sr tr n D Al Ar)
    (evaluate_shaped _ _ T _ _ _ Al) (evaluate_shaped _ _ T _ _ _ Bl)) as NW.
  destruct (narrows_selection _ _ _ _ ts NW (conditions_named eqs flt He Hf)) as (ts' & Es' & NW'); [|exact Es|].
  { apply conditions_covered. intros n Hn. apply elem_of_bt_extend. by right. }
  exists (schema_merge sl' sr', ts'). split.
  - cbn [evaluate fst snd] in *. rewrite Bl, Br. mstep. unfold join_on. cbn [fst snd].
    by rewrite Es'.
  - eapply narrows_mono; [|exact NW']. intros n Hn. apply elem_of_bt_extend. by left.
Qed.

Lemma proj_tree_sound (T : tables_shaped catalog table) t : narrowed t.
Proof.
  induction t as [op|op t IH|op l IHl r IHr]; destruct op as [c flt prj|es|p| |eqs flt|flt| | | |];
    intros cols a E Ho Hn; try done; cbn [optimizable narrowable evaluate] in *.
  - destruct prj; [done|]. cbn [proj_tree fst evaluate].
    destruct (get_table_schema catalog c) as [sc|] eqn:Es; [|done]. destruct (table c) as [ts0|] eqn:Et; [|done].
    apply bind_Ok_inv in E as (? & [= <-] & E). apply bind_Ok_inv in E as (? & [= <-] & E).
    apply bind_Ok_inv in E as (ts1 & E1 & [= <-]). cbn [unwrap_opt]. mstep. rewrite E1. mstep. apply narrows_scan.
    apply select_all_selection in E1. eapply selection_shaped; [|done]. by eapply T.
  - apply andb_true_iff in Ho as [Hes Ho]. apply bind_Ok_inv in E as ([sc0 ts0] & E0 & E).
    destruct (IH (bt_extend cols (reads (LProject es))) _ E0 Ho Hn) as ([sc' ts'] & E' & N).
    cbn [proj_tree]. destruct (proj_tree catalog t _) as [t' cs]. cbn [fst evaluate] in *. rewrite E'.
    mstep. exists a. split; [|apply narrows_refl].
    eapply (narrows_projection _ (sc0, ts0) (sc', ts')); [exact N|done| |done].
    apply covered_bind. intros n Hin. apply elem_of_bt_extend. by right.
  - apply andb_true_iff in Ho as [Hp Ho]. apply bind_Ok_inv in E as ([sc0 ts0] & E0 & E).
    apply bind_Ok_inv in E as (ts1 & E1 & [= <-]).
    destruct (IH (bt_extend cols (reads (LFilter p))) _ E0 Ho Hn) as ([sc' ts'] & E' & N).
    cbn [proj_tree]. destruct (proj_tree catalog t _) as [t' cs]. cbn [fst evaluate] in *. rewrite E'.
    mstep.
    destruct (narrows_selection _ _ _ [p] ts1 N) as (ts2 & E2 & N2); [cbn; by rewrite Hp| |exact E1|].
    { apply Forall_singleton. intros n Hin. apply elem_of_bt_extend. by right. }
    cbn [fst snd] in E2. rewrite E2. eexists. split; [done|].
    eapply narrows_mono; [|exact N2]. intros n Hin. apply elem_of_bt_extend. by left.
  - split_bools. cbn [proj_tree]. destruct (proj_tree catalog l _) as [l' cs] eqn:El.
    destruct (proj_tree catalog r cs) as [r' cs'] eqn:Er. by eapply (narrowed_join T l r eqs flt).
  - destruct flt; [done|]. split_bools. cbn [proj_tree]. destruct (proj_tree catalog l _) as [l' cs] eqn:El.
    destruct (proj_tree catalog r cs) as [r' cs'] eqn:Er. by eapply (narrowed_join T l r [] None).
Qed.

(** Under a projection the value stays as it is. *)
Lemma proj_tree_value (T : tables_shaped catalog table) es t a :
  evaluate catalog table (T1 (LProject es) t) = Ok a ->
  optimizable catalog (T1 (LProject es) t) = true -> narrowable t = true ->
  evaluate catalog table (proj_tree catalog (T1 (LProject es) t) []).1 = Ok a.
Proof.
  intros E Ho Hn. cbn [optimizable evaluate] in *. apply andb_true_iff in Ho as [Hes Ho].
  apply bind_Ok_inv in E as ([sc0 ts0] & E0 & E).
  destruct (proj_tree_sound T t (bt_extend [] (reads (LProject es))) _ E0 Ho Hn) as ([sc' ts'] & E' & N).
  cbn [proj_tree]. destruct (proj_tree catalog t _) as [t' cs]. cbn [fst evaluate] in *. rewrite E'.
  mstep. eapply (narrows_projection _ (sc0, ts0) (sc', ts')); [exact N|done| |done].
  apply covered_bind. intros n Hin. apply elem_of_bt_extend. by right.
Qed.
End Sound.
