(* ===== verification/OptimizerTheorems.v ===== *)
(** * The optimizer: the theorems

    Both rules keep the value of a plan, and an optimized plan that the planner
    and the operators can run returns the value of the original one. *)

From S2P Require Import Prelude Bytes Common Types Expr ExprProofs Storage OpIter OpIterProofs OpIterTheorems.
From S2P Require Import Catalog Graph GraphProofs Plan Planner PlannerProofs PlanMerge PlannerTheorems.
From S2P Require Import MemStore MemStoreProofs MemStoreTheorems.
From S2P Require Import Optimizer OptimizerProofs OptimizerSem OptimizerPush OptimizerProj.

(** C8: predicate pushdown is correct.  Take a plan of scans, selections,
    projections, products and joins, over expressions by names and tables of the
    catalog ([optimizable]) with rows as wide as their schema ([tables_shaped]), whose predicates only travel through projections to
    plain columns and through joins and products of disjoint column names
    ([transparent]), and which evaluates without an error.  [PredicatePushdown]
    returns a well-formed plan in which no selection is left as a node, and which
    has the same value -- the same schema and the same rows in the same order -- or
    fails.  It cannot fail when the conditions are comparisons of columns and
    literals, combined by AND and OR, and the projections are to columns and
    literals ([never_fails]). *)
Theorem predicate_pushdown_correct `{Profile, Chrono} catalog table lp r t sc ts fuel :
  plan_wf lp -> root lp = Some r -> represents lp r t -> (height t <= fuel)%nat ->
  optimizable catalog t = true -> transparent catalog false t = true -> tables_shaped catalog table ->
  evaluate catalog table t = Ok (sc, ts) ->
  exists lp' r' t', PredicatePushdown_apply lp catalog fuel = Ok lp' /\ plan_wf lp' /\
    root lp' = Some r' /\ represents lp' r' t' /\ filter_free t' = true /\
    (forall x, evaluate catalog table t' = Ok x -> x = (sc, ts)) /\
    (never_fails t = true -> evaluate catalog table t' = Ok (sc, ts)).
Proof.
  intros W Hr R Hf Ho Ht T E%evaluate_answer. unfold PredicatePushdown_apply. rewrite Hr. cbn [unwrap_opt]. mstep.
  destruct (pushdown_ok catalog lp W t r fuel [] R Ho eq_refl Hf) as (lp' & -> & W' & _ & r' & Hr' & R').
  pose proof (push_tree_sound catalog table T t false [] sc ts E Ho Ht (or_introl eq_refl) eq_refl eq_refl) as E'.
  rewrite filter_true in E'.
  exists lp', r', (push_tree catalog t []). split_and!; try done; [by apply push_tree_filter_free| |].
  - intros x Ex%evaluate_answer. congruence.
  - intros Hn. apply never_fails_value; [done|by apply push_tree_never_fails|done].
Qed.

(** C9: projection pushdown is correct.  For a plan whose root is a projection, over
    scans without projections of their own, selections, projections, joins whose
    sides have no column name in common and products without a filter
    ([narrowable]), over expressions by names and tables of the catalog
    ([optimizable]) with rows as wide as their schema ([tables_shaped]), which evaluates without an error, [ProjectionPushdown] returns
    a well-formed plan that evaluates to the same schema and rows. *)
Theorem projection_pushdown_correct `{Profile, Chrono} catalog table lp r es t sc ts fuel :
  plan_wf lp -> root lp = Some r -> represents lp r (TProject es t) -> (height (TProject es t) <= fuel)%nat ->
  optimizable catalog (TProject es t) = true -> narrowable catalog table t = true -> tables_shaped catalog table ->
  evaluate catalog table (TProject es t) = Ok (sc, ts) ->
  exists lp' r' t', ProjectionPushdown_apply lp catalog fuel = Ok lp' /\ plan_wf lp' /\
    root lp' = Some r' /\ represents lp' r' t' /\ evaluate catalog table t' = Ok (sc, ts).
Proof.
  intros W Hr R Hf Ho Hn T E. unfold ProjectionPushdown_apply. rewrite Hr. cbn [unwrap_opt]. mstep.
  destruct (pushdown_proj_ok catalog lp W _ r fuel [] R Ho Hf) as (lp' & -> & W' & _ & r' & Hr' & R'). mstep.
  exists lp', r', (proj_tree catalog (TProject es t) []).1. split_and!; try done.
  by apply proj_tree_value.
Qed.

(** ** Execution of optimized plans *)

Section Run.
Context `{Profile, Chrono} (catalog : Catalog) (table : ContainerId -> option (list Tuple)).

Lemma meaning_phys t : forall x op, meaning catalog table t = Ok x -> op ∈ tree_ops t -> is_Some (phys op).
Proof.
  induction t as [o|o t IH|o l IHl r IHr]; intros x op E; destruct o as [c flt prj|es|p| | |flt| | | |];
    try done; cbn [meaning tree_ops] in *.
  - intros ->%list_elem_of_singleton. by eexists.
  - apply bind_Ok_inv in E as (y & E0 & _). intros [->|Hin]%elem_of_cons; [by eexists|by eapply IH].
  - apply bind_Ok_inv in E as (y & E0 & _). intros [->|Hin]%elem_of_cons; [by eexists|by eapply IH].
  - destruct flt; [done|]. apply bind_Ok_inv in E as ([sl tl] & El & E). apply bind_Ok_inv in E as (z & Er & _).
    intros [->|[Hin|Hin]%elem_of_app]%elem_of_cons; [by eexists|by eapply IHl|by eapply IHr].
Qed.
End Run.

Lemma push_tree_height catalog t : forall ps, (height (push_tree catalog t ps) <= height t)%nat.
Proof.
  induction t as [op|op t IH|op l IHl r IHr]; intros ps; destruct op; cbn [push_tree height]; try done;
    try (etransitivity; [apply IH|lia]); try (apply le_n_S, IH);
    match goal with |- context [place_all ?c ?a ?b ?e ?q] => set (s := place_all c a b e q) end;
    specialize (IHl (left_predicates s)); specialize (IHr (right_predicates s)); lia.
Qed.


(** ** Witnesses *)

(** A plan for a tree. *)
Fixpoint build_tree (t : ltree) : result LogicalPlan :=
  match t with
  | T0 op => Ok (LP_add_node LP_new op).1
  | T1 op t => lp ← build_tree t; put_over lp op
  | T2 op l r => a ← build_tree l; b ← build_tree r; merge a op b
  end.

Fixpoint joins_ok (t : ltree) : bool :=
  match t with
  | T0 _ => true
  | T1 _ t => joins_ok t
  | T2 op l r => is_join_op op && joins_ok l && joins_ok r
  end.

Lemma build_tree_ok t : joins_ok t = true -> builds (build_tree t) t.
Proof.
  induction t as [op|op t IH|op l IHl r IHr]; cbn [joins_ok build_tree]; intros Hj.
  - eexists. split; [done|]. apply scan_plan_for.
  - by apply builds_over, IH.
  - split_bools. apply builds_merge; auto.
Qed.

(** [SELECT t.a FROM t, u WHERE t.a = u.b AND t.a > 4] *)
Definition two_catalog : Catalog :=
  (add_table (add_table Catalog_new (mkTableInfo 1 "t" (from_vecs ["t.a"; "t.c"] [TInt; TInt]))).1
     (mkTableInfo 2 "u" (from_vecs ["u.b"] [TInt]))).1.

Definition two_tables (c : ContainerId) : option (list Tuple) :=
  if decide (c = 1%Z) then Some [tup [4; 0]; tup [5; 0]; tup [6; 1]]%Z
  else if decide (c = 2%Z) then Some [tup [4]; tup [6]]%Z else None.

Definition two_condition : AstExpr :=
  EBoolean BAnd (EBoolean BEq (EIdent "u.b") (EIdent "t.a")) (EBoolean BGt (EIdent "t.a") (ELiteral (FInt 4))).

Definition two_tree : ltree :=
  TProject [EIdent "t.a"] (TFilter two_condition (TCross (TScan 1%Z None None) (TScan 2%Z None None))).

Lemma two_tables_shaped : tables_shaped two_catalog two_tables.
Proof.
  intros c sc ts. unfold two_tables. repeat case_decide; [subst c..|done].
  - vm_compute. intros [= <-] [= <-]. by repeat constructor.
  - vm_compute. intros [= <-] [= <-]. by repeat constructor.
Qed.

Lemma predicate_pushdown_correct_witness :
  exists lp lp' r' t', build_tree two_tree = Ok lp /\ PredicatePushdown_apply lp two_catalog 4 = Ok lp' /\
    root lp' = Some r' /\ represents lp' r' t' /\ filter_free t' = true /\
    evaluate (H := true) (H0 := no_calendar) two_catalog two_tables t' =
      Ok (from_vecs ["t.a"] [TInt], [tup [6%Z]]).
Proof.
  destruct (build_tree_ok two_tree eq_refl) as (lp & E & W & _ & r & Hr & R).
  destruct (@predicate_pushdown_correct true no_calendar two_catalog two_tables lp r two_tree
              (from_vecs ["t.a"] [TInt]) [tup [6%Z]] 4 W Hr R)
    as (lp' & r' & t' & E' & _ & Hr' & R' & F & _ & A).
  - cbn. lia.
  - vm_compute. reflexivity.
  - vm_compute. reflexivity.
  - exact two_tables_shaped.
  - vm_compute. reflexivity.
  - exists lp, lp', r', t'. split_and!; [done..|]. apply A. vm_compute. reflexivity.
Defined.

Lemma projection_pushdown_correct_witness :
  exists lp lp' r' t', build_tree two_tree = Ok lp /\ ProjectionPushdown_apply lp two_catalog 4 = Ok lp' /\
    root lp' = Some r' /\ represents lp' r' t' /\
    evaluate (H := true) (H0 := no_calendar) two_catalog two_tables t' =
      Ok (from_vecs ["t.a"] [TInt], [tup [6%Z]]).
Proof.
  destruct (build_tree_ok two_tree eq_refl) as (lp & E & W & _ & r & Hr & R).
  destruct (@projection_pushdown_correct true no_calendar two_catalog two_tables lp r [EIdent "t.a"]
              (TFilter two_condition (TCross (TScan 1%Z None None) (TScan 2%Z None None)))
              (from_vecs ["t.a"] [TInt]) [tup [6%Z]] 4 W Hr R)
    as (lp' & r' & t' & E' & _ & Hr' & R' & A).
  - cbn. lia.
  - vm_compute. reflexivity.
  - vm_compute. reflexivity.
  - exact two_tables_shaped.
  - vm_compute. reflexivity.
  - exists lp, lp', r', t'. auto 10.
Defined.

Lemma demo_tables_shaped : tables_shaped demo_catalog demo_table.
Proof.
  intros c sc ts. unfold demo_table. case_decide; [subst c|done]. vm_compute. intros [= <-] [= <-].
  by repeat constructor.
Qed.


(** ** Where the rules go wrong *)

(** The operators of the physical plan of an optimized plan. *)
Definition optimized_physical (catalog : Catalog) (t : ltree) : result (list PhysicalOp) :=
  lp ← build_tree t;
  lp' ← PredicatePushdown_apply lp catalog (height t);
  pp ← logical_plan_to_physical_plan lp';
  Ok (data <$> nodes (p_dataflow pp)).

(** A predicate over both sides of a product becomes the filter of the product,
    which the planner drops: no operator of the physical plan tests it. *)
Lemma product_filter_lost :
  optimized_physical two_catalog
    (TFilter (EBoolean BLt (EIdent "t.a") (EIdent "u.b")) (TCross (TScan 1%Z None None) (TScan 2%Z None None))) =
  Ok [PScan 1 None None; PScan 2 None None; PCrossProduct].
Proof. vm_compute. reflexivity. Qed.

(** A predicate on a computed column is pushed to the scan, which has no such
    column: the plan had a value and its optimized form panics. *)
Lemma computed_column_pushed :
  let t := TFilter (EBoolean BGt (EIdent "b") (ELiteral (FInt 5)))
             (TProject [EAlias "b" (EMath MAdd (EIdent "t.a") (ELiteral (FInt 1)))] (TScan 1%Z None None)) in
  evaluate (H := true) (H0 := no_calendar) two_catalog two_tables t =
    Ok (from_vecs ["b"] [TInt], [tup [6]; tup [7]]%Z) /\
  evaluate (H := true) (H0 := no_calendar) two_catalog two_tables (push_tree two_catalog t []) = Panic /\
  optimized_physical two_catalog t =
    Ok [PScan 1 (Some (EBoolean BGt (EIdent "b") (ELiteral (FInt 5)))) None;
        PProject [EAlias "b" (EMath MAdd (EIdent "t.a") (ELiteral (FInt 1)))]].
Proof. vm_compute. auto. Qed.

(** A condition on an aggregate is pushed below the aggregation, into a scan. *)
Lemma having_pushed_below :
  let having := EBoolean BGt (EAgg ACount (EIdent "t.a")) (ELiteral (FInt 1)) in
  push_tree two_catalog (T1 (LAggregate [EAgg ACount (EIdent "t.a")] [EIdent "t.c"] (Some having)) (TScan 1%Z None None)) []
  = T1 (LAggregate [EAgg ACount (EIdent "t.a")] [EIdent "t.c"] None) (TScan 1%Z (Some having) None) /\
  convert_ast_to_bytecode having (from_vecs ["t.a"; "t.c"] [TInt; TInt]) = Panic.
Proof. vm_compute. auto. Qed.

(** Without a projection above, projection pushdown drops the columns of the
    result that no predicate reads. *)
Lemma projection_drops_columns :
  let t := TFilter (EBoolean BGt (EIdent "t.a") (ELiteral (FInt 5))) (TScan 1%Z None None) in
  evaluate (H := true) (H0 := no_calendar) two_catalog two_tables t =
    Ok (from_vecs ["t.a"; "t.c"] [TInt; TInt], [tup [6; 1]]%Z) /\
  evaluate (H := true) (H0 := no_calendar) two_catalog two_tables (proj_tree two_catalog t []).1 =
    Ok (from_vecs ["t.a"] [TInt], [tup [6]]%Z).
Proof. vm_compute. auto. Qed.

(** The columns of a product's filter are not collected: the narrowed scans lack
    them. *)
Lemma product_filter_columns_dropped :
  let t := TProject [EIdent "t.a"]
             (T2 (LCrossProduct (Some (EBoolean BLt (EIdent "t.c") (EIdent "u.b"))))
                (TScan 1%Z None None) (TScan 2%Z None None)) in
  is_ok (evaluate (H := true) (H0 := no_calendar) two_catalog two_tables t) = true /\
  evaluate (H := true) (H0 := no_calendar) two_catalog two_tables (proj_tree two_catalog t []).1 = Panic.
Proof. vm_compute. auto. Qed.

(** Predicates that guarded each other are evaluated together: a division that
    the lower selection kept from happening fails after pushdown. *)
Lemma guard_lost :
  let safe := EBoolean BNeq (EIdent "t.c") (ELiteral (FInt 0)) in
  let test := EBoolean BEq (EMath MDiv (EIdent "t.a") (EIdent "t.c")) (ELiteral (FInt 6)) in
  let t := TFilter test (TFilter safe (TScan 1%Z None None)) in
  evaluate (H := true) (H0 := no_calendar) two_catalog two_tables t =
    Ok (from_vecs ["t.a"; "t.c"] [TInt; TInt], [tup [6; 1]]%Z) /\
  is_ok (evaluate (H := true) (H0 := no_calendar) two_catalog two_tables (push_tree two_catalog t [])) = false.
Proof. vm_compute. auto. Qed.

(** A projection that gives a column another column's name is not seen: the
    predicate selects by the column of the scan. *)
Lemma renamed_column_pushed :
  let t := TFilter (EBoolean BGt (EIdent "t.a") (ELiteral (FInt 0)))
             (TProject [EAlias "t.a" (EIdent "t.c")] (TScan 1%Z None None)) in
  evaluate (H := true) (H0 := no_calendar) two_catalog two_tables t =
    Ok (from_vecs ["t.a"] [TInt], [tup [1]]%Z) /\
  evaluate (H := true) (H0 := no_calendar) two_catalog two_tables (push_tree two_catalog t []) =
    Ok (from_vecs ["t.a"] [TInt], [tup [0]; tup [0]; tup [1]]%Z).
Proof. vm_compute. auto. Qed.
