(* ===== verification/Translate.v ===== *)
(** * From SQL to logical plans

    [src/src/queryexe/src/query/translate_and_validate.rs].  The translator keeps
    the plan under construction and the tables it met, and shares the catalog,
    which reserves an id for every table name it is asked for: translation is a
    state and error monad over the three. *)

From S2P Require Import Prelude Common Types Sql Expr Graph Catalog Plan.

Open Scope Z_scope.

(** ** Names and types *)

Definition get_name (name : ObjectName) : result string :=
  if (1 <? length name)%nat then Err (CrustyErr "Error no . names supported")
  else i ← unwrap_opt (name !! 0%nat); Ok (id_value i).

Definition get_attr `{SqlParser} (dtype : SqlDataType) : result DataType :=
  match dtype with
  | SqlInt => Ok TInt
  | SqlVarchar => Ok TString
  | SqlChar => Ok TString
  | SqlDate => Ok TDate
  | SqlDecimal exact_num_info =>
      match exact_num_info with
      | NumPrecisionAndScale p s => Ok (TDecimal (wrap_u 32 p) (wrap_u 32 s))
      | NumPrecision p => Ok (TDecimal (wrap_u 32 p) default_decimal_scale)
      | NumNone => Ok (TDecimal default_decimal_precision default_decimal_scale)
      end
  | OtherDataType => Err (CrustyErr ("Unsupported data type " +:+ datatype_debug dtype))
  end.

(** [to_lowercase] on the letters that the function names below are made of: no
    other character becomes one of them. *)
Definition lower_char (c : ascii) : ascii :=
  let n := Ascii.nat_of_ascii c in
  if ((65 <=? n)%nat && (n <=? 90)%nat)%bool then Ascii.ascii_of_nat (n + 32) else c.

Fixpoint to_lowercase (s : string) : string :=
  match s with
  | EmptyString => EmptyString
  | String c s' => String (lower_char c) (to_lowercase s')
  end.

(** ** The translator *)

Record TranslateAndValidate := mkTV {
  tv_plan : LogicalPlan;
  tv_catalog : Catalog;
  tv_tables : list string;
}.

Definition TV_new (catalog : Catalog) : TranslateAndValidate := mkTV LP_new catalog [].

Abbreviation TM := (stm TranslateAndValidate).

Definition t_add_node (op : LogicalOp) : TM NodeIndex := fun s =>
  let '(lp, i) := LP_add_node (tv_plan s) op in (mkTV lp (tv_catalog s) (tv_tables s), Ok i).

Definition t_add_edge (src tgt : NodeIndex) : TM unit := fun s =>
  match LP_add_edge (tv_plan s) src tgt with
  | Ok lp => (mkTV lp (tv_catalog s) (tv_tables s), Ok tt)
  | Err e => (s, Err e)
  | Panic => (s, Panic)
  end.

(** [self.plan.root().unwrap()] *)
Definition t_root : TM NodeIndex := fun s => (s, unwrap_opt (root (tv_plan s))).

Definition t_push_table (n : string) : TM unit := fun s =>
  (mkTV (tv_plan s) (tv_catalog s) (tv_tables s ++ [n]), Ok tt).

Section Translate.
Context `{Profile, Chrono, SqlParser}.

Definition t_get_table_id (n : string) : TM ContainerId := fun s =>
  match get_table_id (tv_catalog s) n with
  | Ok (c, id) => (mkTV (tv_plan s) c (tv_tables s), Ok id)
  | Err e => (s, Err e)
  | Panic => (s, Panic)
  end.

Definition qualified (table column : string) : string := table +:+ "." +:+ column.

(** The first table that has the column. *)
Fixpoint find_column (column_name : string) (tables : list string) : TM (option string) :=
  match tables with
  | [] => mret None
  | table :: tables' =>
      table_id ← t_get_table_id table;
      valid ← gets (fun s => is_valid_column (tv_catalog s) table_id (qualified table column_name));
      if (valid : bool) then mret (Some (qualified table column_name)) else find_column column_name tables'
  end.

Definition disambiguate_name (identifiers : list string) : TM AstExpr :=
  match identifiers with
  | [column_name] =>
      tables ← gets tv_tables;
      found ← find_column column_name tables;
      mret (EIdent (default column_name found))
  | [table_name; column_name] =>
      let combined := qualified table_name column_name in
      table_id ← t_get_table_id table_name;
      valid ← gets (fun s => is_valid_column (tv_catalog s) table_id combined);
      if (valid : bool) then mret (EIdent combined)
      else lift (Err (CrustyErr "Invalid table column name"))
  | _ => lift (Err (CrustyErr "Invalid identifiers"))
  end.

Definition value_to_astexpr (v : SqlValue) : result AstExpr :=
  match v with
  | Number field _ =>
      match length (split_on "." field) with
      | 1%nat => f ← from_str_to_int field; Ok (ELiteral f)
      | 2%nat =>
          f ← from_str_to_decimal field default_decimal_precision default_decimal_scale; Ok (ELiteral f)
      | _ => Err (ValidationError ("Invalid number: " +:+ value_debug v))
      end
  | SingleQuotedString s | DoubleQuotedString s => Ok (ELiteral (FString s))
  | SqlBoolean b => Ok (ELiteral (FBool b))
  | SqlNull => Ok (ELiteral FNull)
  | OtherValue => Err (ValidationError ("Unsupported value type: " +:+ value_debug v))
  end.

(** [get_attr] never returns [Bool] or [Null]; the last arm prints a data type of
    the program. *)
Definition typed_string_to_astexpr (data_type : SqlDataType) (v : string) : result AstExpr :=
  dtype ← get_attr data_type;
  match dtype with
  | TInt => f ← from_str_to_int v; Ok (ELiteral f)
  | TString => Ok (ELiteral (FString v))
  | TDate => f ← from_str_to_date v; Ok (ELiteral f)
  | TDecimal p s => f ← from_str_to_decimal v p s; Ok (ELiteral f)
  | TBool => f ← from_str_to_bool v; Ok (ELiteral f)
  | TNull => Err (ValidationError "Unsupported data type: Null")
  end.

Definition binary_op (op : BinaryOperator) (l r : AstExpr) : result AstExpr :=
  match op with
  | OpPlus => Ok (EMath MAdd l r)
  | OpMinus => Ok (EMath MSub l r)
  | OpMultiply => Ok (EMath MMul l r)
  | OpDivide => Ok (EMath MDiv l r)
  | OpEq => Ok (EBoolean BEq l r)
  | OpNotEq => Ok (EBoolean BNeq l r)
  | OpGt => Ok (EBoolean BGt l r)
  | OpGtEq => Ok (EBoolean BGte l r)
  | OpLt => Ok (EBoolean BLt l r)
  | OpLtEq => Ok (EBoolean BLte l r)
  | OpAnd => Ok (EBoolean BAnd l r)
  | OpOr => Ok (EBoolean BOr l r)
  | OtherOperator => Err (ValidationError ("Unsupported binary operator: " +:+ operator_debug op))
  end.

Definition agg_op (name : ObjectName) : result AggOp :=
  n ← get_name name;
  let n := to_lowercase n in
  if String.eqb n "count" then Ok ACount
  else if String.eqb n "sum" then Ok ASum
  else if String.eqb n "avg" then Ok AAvg
  else if String.eqb n "min" then Ok AMin
  else if String.eqb n "max" then Ok AMax
  else Err (ValidationError ("Unsupported function: " +:+ object_name_to_string name)).

(** [binary_ast_to_astexpr] and [function_ast_to_astexpr] call back the translation
    of expressions, [rec]. *)
Definition binary_ast_to_astexpr (rec : Expr -> TM AstExpr) (l : Expr) (op : BinaryOperator) (r : Expr)
  : TM AstExpr :=
  left_expr ← rec l;
  right_expr ← rec r;
  lift (binary_op op left_expr right_expr).

Definition function_ast_to_astexpr (rec : Expr -> TM AstExpr) (name : ObjectName) (args : list (FunctionArg Expr))
  : TM AstExpr :=
  op ← lift (agg_op name);
  match args with
  | [NamedArg arg] | [UnnamedArg arg] =>
      match arg with
      | ArgExpr e => arg_expr ← rec e; mret (EAgg op arg_expr)
      | ArgQualifiedWildcard => lift Panic
      | ArgWildcard =>
          match op with
          | ACount => mret (EAgg op (ELiteral (FInt 1)))
          | _ => lift (Err (ValidationError
                   ("Function " +:+ object_name_to_string name +:+ " does not support wildcard")))
          end
      end
  | _ =>
      lift (Err (ValidationError
        ("Function " +:+ object_name_to_string name +:+ " expects exactly one argument, got " +:+
         pretty (length args))))
  end.

Fixpoint expr_to_astexpr (ast : Expr) : TM AstExpr :=
  match ast with
  | Identifier name => disambiguate_name [id_value name]
  | CompoundIdentifier names => disambiguate_name (id_value <$> names)
  | ValueExpr v => lift (value_to_astexpr v)
  | TypedString data_type v => lift (typed_string_to_astexpr data_type v)
  | BinaryOp l op r => binary_ast_to_astexpr expr_to_astexpr l op r
  | FunctionExpr name args => function_ast_to_astexpr expr_to_astexpr name args
  | Nested e => expr_to_astexpr e
  | OtherExpr => lift (Err (CrustyErr ("Unsupported expression: " +:+ expr_debug ast)))
  end.

(** ** The clauses of a query *)

Definition process_table_factor (tf : TableFactor) : TM NodeIndex :=
  match tf with
  | TableRef name =>
      n ← lift (get_name name);
      table_id ← t_get_table_id n;
      valid ← gets (fun s => is_valid_table (tv_catalog s) table_id);
      if (valid : bool) then
        _ ← t_push_table n;
        t_add_node (LScan table_id None None)
      else lift (Err (ValidationError "Invalid table name"))
  | OtherFactor => lift (Err (ValidationError "Nested joins and derived tables not supported"))
  end.

(** [On a = b] becomes an equality of the join, any other condition its filter. *)
Definition join_node (e : AstExpr) : LogicalOp :=
  match e with
  | EBoolean BEq l r => LJoin [(l, r)] None
  | _ => LJoin [] (Some e)
  end.

Definition process_join (join : SqlJoin) (left_node_idx : NodeIndex) : TM NodeIndex :=
  right_node_idx ← process_table_factor (j_relation join);
  match join_operator join with
  | Inner (On expr) =>
      ast_expr ← expr_to_astexpr expr;
      idx ← t_add_node (join_node ast_expr);
      _ ← t_add_edge idx left_node_idx;
      _ ← t_add_edge idx right_node_idx;
      mret idx
  | Inner OtherConstraint => lift (Err (CrustyErr "Unsupported join constraint"))
  | OtherJoin => lift (Err (CrustyErr "Unsupported join type"))
  end.

Definition process_cross_product (nodes : list NodeIndex) : TM NodeIndex :=
  match nodes with
  | [] => r ← gets (fun s => root (tv_plan s)); lift (ok_or r (CrustyErr "No root found"))
  | left_node_idx :: rest =>
      foldS (fun left_node_idx right_node_idx =>
               idx ← t_add_node (LCrossProduct None);
               _ ← t_add_edge idx left_node_idx;
               _ ← t_add_edge idx right_node_idx;
               mret idx) left_node_idx rest
  end.

Definition process_from_item (sel : TableWithJoins) : TM NodeIndex :=
  node ← process_table_factor (tw_relation sel);
  foldS (fun node join => process_join join node) node (tw_joins sel).

Definition process_from_clause (from : list TableWithJoins) : TM unit :=
  nodes ← mapS process_from_item from;
  _ ← process_cross_product nodes;
  mret tt.

(** A node over the root. *)
Definition t_over_root (op : LogicalOp) : TM unit :=
  r ← t_root;
  idx ← t_add_node op;
  t_add_edge idx r.

Definition process_where_clause (where_clause : option Expr) : TM unit :=
  match where_clause with
  | Some expr =>
      r ← t_root;
      ast_expr ← expr_to_astexpr expr;
      idx ← t_add_node (LFilter ast_expr);
      t_add_edge idx r
  | None => mret tt
  end.

Definition process_aggregate (group_by fields : list AstExpr) : TM unit :=
  t_over_root (LAggregate fields group_by None).

Definition process_projection (proj : list AstExpr) : TM unit := t_over_root (LProject proj).

Definition table_attributes (tf : TableFactor) : TM (list Attribute) :=
  match tf with
  | TableRef name =>
      table_name ← lift (unwrap (get_name name));
      table_id ← t_get_table_id table_name;
      schema ← gets (fun s => get_table_schema (tv_catalog s) table_id);
      sc ← lift (unwrap_opt schema);
      mret (attributes sc)
  | OtherFactor => lift Panic
  end.

Definition get_all_attributes (from : list TableWithJoins) : TM (list Attribute) :=
  foldS (fun attrs sel =>
           own ← table_attributes (tw_relation sel);
           foldS (fun attrs join => l ← table_attributes (j_relation join); mret (attrs ++ l))
             (attrs ++ own) (tw_joins sel)) [] from.

(** Aggregates move to [vec] and leave their name behind. *)
Fixpoint seperate_agg (expr : AstExpr) (vec : list AstExpr) : result (AstExpr * list AstExpr) :=
  match expr with
  | EAgg _ _ => n ← to_name expr; Ok (EIdent n, vec ++ [expr])
  | EMath op l r =>
      '(l, vec) ← seperate_agg l vec;
      '(r, vec) ← seperate_agg r vec;
      Ok (EMath op l r, vec)
  | EBoolean op l r =>
      '(l, vec) ← seperate_agg l vec;
      '(r, vec) ← seperate_agg r vec;
      Ok (EBoolean op l r, vec)
  | EAlias n e => '(e, vec) ← seperate_agg e vec; Ok (EAlias n e, vec)
  | EIdent _ | EColIdx _ | ELiteral _ => Ok (expr, vec)
  end.

Definition select_item (from : list TableWithJoins) (st : list AstExpr * bool) (proj : SelectItem)
  : TM (list AstExpr * bool) :=
  let '(select_fields, has_agg0) := st in
  match proj with
  | Wildcard =>
      attrs ← get_all_attributes from;
      mret (select_fields ++ ((fun a => EIdent (Types.name a)) <$> attrs), has_agg0)
  | UnnamedExpr expr =>
      ast_expr ← expr_to_astexpr expr;
      mret (select_fields ++ [ast_expr], has_agg0 || has_agg ast_expr)
  | ExprWithAlias expr alias =>
      ast_expr ← expr_to_astexpr expr;
      let alias_expr := EAlias (ident_to_string alias) ast_expr in
      mret (select_fields ++ [alias_expr], has_agg0 || has_agg alias_expr)
  | OtherItem => lift (Err (CrustyErr "Unsupported select item"))
  end.

(** Is there a field of that name?  Names are compared in order. *)
Fixpoint name_found (fields : list AstExpr) (e : AstExpr) : result bool :=
  match fields with
  | [] => Ok false
  | field :: fields' =>
      a ← to_name field;
      b ← to_name e;
      if String.eqb a b then Ok true else name_found fields' e
  end.

Definition add_order_by (st : list AstExpr * bool) (order_by_field : AstExpr) : result (list AstExpr * bool) :=
  let '(fields, order_by_added) := st in
  found ← name_found fields order_by_field;
  Ok (if (found : bool) then st else (fields ++ [order_by_field], true)).

Definition separate_field (st : list AstExpr * list AstExpr) (expr : AstExpr)
  : result (list AstExpr * list AstExpr) :=
  let '(fields, agg_expr) := st in
  if has_agg expr then '(expr, agg_expr) ← seperate_agg expr agg_expr; Ok (fields ++ [expr], agg_expr)
  else Ok (fields ++ [expr], agg_expr).

(** The aggregation of a query whose fields have aggregates; the fields without
    them are returned. *)
Definition process_group (select : Select) (fields : list AstExpr) : TM (list AstExpr) :=
  group_by_expr ←
    match s_group_by select with
    | GroupAll => lift Panic
    | GroupExpressions exprs => mapS expr_to_astexpr exprs
    end;
  '(fields, agg_expr) ← lift (foldM separate_field ([], []) fields);
  _ ← process_aggregate group_by_expr agg_expr;
  _ ← process_where_clause (s_having select);
  mret fields.

Definition order_field (o : OrderByExpr) : TM (AstExpr * bool) :=
  e ← expr_to_astexpr (o_expr o);
  n ← lift (to_name e);
  mret (EIdent n, match o_asc o with Some b => b | None => true end).

Definition process_order_by (order_by : list OrderByExpr) : TM unit :=
  orderby_fields ← mapS order_field order_by;
  match orderby_fields with
  | [] => mret tt
  | _ =>
      idx ← t_add_node (LSort orderby_fields);
      r ← t_root;
      t_add_edge idx r
  end.

Definition process_query (query : Query) : TM unit :=
  match q_body query with
  | SelectBody select =>
      _ ← process_from_clause (s_from select);
      _ ← process_where_clause (s_selection select);
      '(select_fields, has_aggs) ← foldS (select_item (s_from select)) ([], false) (s_projection select);
      order_by_fields ← mapS (fun o => expr_to_astexpr (o_expr o)) (q_order_by query);
      '(fields, order_by_added) ← lift (foldM add_order_by (select_fields, false) order_by_fields);
      fields ← (if (has_aggs : bool) then process_group select fields else mret fields);
      _ ← process_projection fields;
      _ ← process_order_by (q_order_by query);
      _ ← (if (order_by_added : bool) then
             names ← lift (mapM_o to_name select_fields);
             process_projection (EIdent <$> names)
           else mret tt);
      if s_distinct select then lift Panic else mret tt
  | _ => lift (Err (CrustyErr "Unsupported query type"))
  end.

(** The catalog keeps the ids that a translation reserved, also when it fails. *)
Definition from_sql (sql : Query) (catalog : Catalog) : Catalog * result LogicalPlan :=
  match process_query sql (TV_new catalog) with
  | (s, Ok _) => (tv_catalog s, Ok (tv_plan s))
  | (s, Err e) => (tv_catalog s, Err e)
  | (s, Panic) => (tv_catalog s, Panic)
  end.
End Translate.
