(* ===== verification/TranslateProofs.v ===== *)
(** * From SQL to logical plans: the plan that is built

    Translation on trees ([query_tree]), without the plan graph and the state of
    the translator, and the proof that the translator builds a plan for exactly
    that tree or fails in the same way. *)

From S2P Require Import Prelude Common Types Sql Expr Graph GraphProofs Catalog Plan Planner.
From S2P Require Import PlannerProofs PlanMerge Optimizer OptimizerProofs Translate.

(** ** Growing a plan by a join of two of its nodes *)

Lemma join_nodes_ok lp op a b l r rt :
  plan_wf lp -> represents lp a l -> represents lp b r -> a <> b -> root lp = Some rt ->
  exists lp1 lp2 lp3, let k := length (nodes (dataflow lp)) in
    LP_add_node lp op = (lp1, k) /\ LP_add_edge lp1 k a = Ok lp2 /\ LP_add_edge lp2 k b = Ok lp3 /\
    plan_wf lp3 /\ represents lp3 k (T2 op r l) /\
    (forall i t, represents lp i t -> represents lp3 i t) /\
    (forall ops, ops_in lp ops -> ops_in lp3 (op :: ops)) /\
    length (nodes (dataflow lp3)) = S k /\
    root lp3 = Some (if decide (rt = a \/ rt = b) then k else rt).
Proof.
  intros W Ra Rb Hab Hr. pose proof (represents_lt _ _ _ Ra) as Ha. pose proof (represents_lt _ _ _ Rb) as Hb.
  destruct (extends_node lp lp [] op (extends_refl lp W)) as [X Hi].
  destruct (LP_add_node lp op) as [lp1 k]. cbn [fst snd app length] in *. rewrite Nat.add_0_r in Hi. subst k.
  destruct X as [W1 L1 N1 R1 O1 New1]. cbn [length] in L1.
  set (k := length (nodes (dataflow lp))) in *.
  destruct (LP_add_edge_wf lp1 k a W1) as (lp2 & E2 & W2 & N2 & L2 & O2 & R2); [lia..|].
  destruct (LP_add_edge_wf lp2 k b W2) as (lp3 & E3 & W3 & N3 & L3 & O3 & R3); [lia..|].
  exists lp1, lp2, lp3. split; [done|]. split; [done|]. split; [done|]. split; [done|].
  assert (forall i, out (edge_list (dataflow lp3)) i =
            (if decide (k = i) then [b; a] else []) ++ out (edge_list (dataflow lp)) i) as Ho.
  { intros i. rewrite !out_outp, N3, N2, !outp_app, N1. unfold outp at 1 2. cbn [omap list_omap fst snd].
    by destruct (decide (k = i)). }
  assert (forall i t, represents lp i t -> represents lp3 i t) as Hmono.
  { intros i t. apply represents_mono. intros j Hj. rewrite Ho, decide_False by lia. split; [|done].
    rewrite O3, O2. by apply O1. }
  pose proof (New1 0%nat) as Hop. rewrite Nat.add_0_r in Hop. cbn [lookup list_lookup] in Hop.
  split_and!; [| done | | lia |].
  - eapply rep2; [by rewrite O3, O2| |by apply Hmono|by apply Hmono].
    rewrite Ho, decide_True by done. cbn [app]. rewrite out_outp, outp_nil; [done|].
    intros u v Hin. apply endpoints_bound in Hin; [lia|apply W].
  - intros ops Hops i o E. rewrite O3, O2 in E. apply elem_of_cons. pose proof (get_operator_lt _ _ _ E) as Hi.
    destruct (decide (i = k)) as [->|]; [left; congruence|right]. rewrite O1 in E by lia. by eapply Hops.
  - rewrite R3, R2, R1 by (by eexists). rewrite Hr. cbn [root_after_edge].
    destruct (decide (rt = a)) as [->|]; cbn [root_after_edge].
    + rewrite decide_False, decide_True by (lia || tauto). done.
    + destruct (decide (rt = b)) as [->|]; [by rewrite decide_True by tauto|by rewrite decide_False by tauto].
Qed.

Lemma scan_node_ok lp op : plan_wf lp -> exists lp1, let k := length (nodes (dataflow lp)) in
  LP_add_node lp op = (lp1, k) /\ plan_wf lp1 /\ represents lp1 k (T0 op) /\
  (forall i t, represents lp i t -> represents lp1 i t) /\
  (forall ops, ops_in lp ops -> ops_in lp1 (op :: ops)) /\
  length (nodes (dataflow lp1)) = S k /\ root lp1 = root_or (root lp) k.
Proof.
  intros W. destruct (extends_node lp lp [] op (extends_refl lp W)) as [X Hi].
  assert (root (LP_add_node lp op).1 = root_or (root lp) (length (nodes (dataflow lp)))) as Hr by done.
  destruct (LP_add_node lp op) as [lp1 k]. cbn [fst snd app length] in *. rewrite Nat.add_0_r in Hi. subst k.
  destruct X as [W1 L1 N1 R1 O1 New1]. cbn [length] in L1.
  pose proof (New1 0%nat) as Hop. rewrite Nat.add_0_r in Hop. cbn [lookup list_lookup] in Hop.
  exists lp1. split; [done|]. split; [done|]. split_and!; [| | |lia|done].
  - apply rep0; [done|]. rewrite out_outp, N1, outp_nil; [done|].
    intros u v Hin. apply endpoints_bound in Hin; [lia|apply W].
  - intros i t. apply represents_mono. intros j Hj. by rewrite O1, !out_outp, N1 by done.
  - intros ops Hops i o E. apply elem_of_cons. pose proof (get_operator_lt _ _ _ E) as Hlt.
    destruct (decide (i = length (nodes (dataflow lp)))) as [->|]; [left; congruence|right].
    rewrite O1 in E by lia. by eapply Hops.
Qed.

(** ** Plans of several trees *)

(** Nodes with the trees they represent; the first one is the root. *)
Record forest (lp : LogicalPlan) (l : list (nat * ltree)) : Prop := {
  fo_wf : plan_wf lp;
  fo_rep : Forall (fun x => represents lp x.1 x.2) l;
  fo_nodup : NoDup l.*1;
  fo_root : root lp = head l.*1;
  fo_ops : ops_in lp (l ≫= fun x => tree_ops x.2);
}.

Lemma forest_new : forest LP_new [].
Proof. split; [apply LP_new_wf|constructor|constructor|done|]. intros i op. by destruct i. Qed.

Lemma ops_in_mono lp a b : (forall x, x ∈ a -> x ∈ b) -> ops_in lp a -> ops_in lp b.
Proof. intros Hs Ha i op E. by eapply Hs, Ha. Qed.

Lemma forest_scan lp l op : forest lp l -> exists lp1, let k := length (nodes (dataflow lp)) in
  LP_add_node lp op = (lp1, k) /\ forest lp1 (l ++ [(k, T0 op)]).
Proof.
  intros [W R N Rt O]. destruct (scan_node_ok lp op W) as (lp1 & E & W1 & R1 & M1 & O1 & L1 & Rt1).
  exists lp1. split; [exact E|]. split; [done| | | |].
  - apply Forall_app. split; [|by apply Forall_singleton]. eapply Forall_impl; [exact R|]. intros x. apply M1.
  - rewrite fmap_app. cbn. apply NoDup_app. split; [done|]. split; [|apply NoDup_singleton].
    intros i (x & Ei & Hx)%list_elem_of_fmap ->%list_elem_of_singleton. rewrite Forall_forall in R.
    specialize (R _ Hx). apply represents_lt in R. lia.
  - rewrite Rt1, Rt. destruct l as [|[i t] l]; done.
  - eapply ops_in_mono; [|exact (O1 _ O)]. intros x. rewrite bind_app, elem_of_cons, elem_of_app. cbn.
    rewrite list_elem_of_singleton. tauto.
Qed.

(** Joining two neighbours of the list. *)
Lemma forest_join lp l1 a l b r l2 op : forest lp (l1 ++ (a, l) :: (b, r) :: l2) ->
  exists lp1 lp2 lp3, let k := length (nodes (dataflow lp)) in
    LP_add_node lp op = (lp1, k) /\ LP_add_edge lp1 k a = Ok lp2 /\ LP_add_edge lp2 k b = Ok lp3 /\
    forest lp3 (l1 ++ (k, T2 op r l) :: l2).
Proof.
  intros [W R N Rt O]. rewrite Forall_app, !Forall_cons in R. destruct R as (R1 & Ra & Rb & R2). cbn [fst snd] in *.
  rewrite fmap_app in N. cbn [fmap list_fmap fst] in N. apply NoDup_app in N as (N1 & D & N2).
  apply NoDup_cons in N2 as [Na N2]. apply NoDup_cons in N2 as [Nb N2].
  assert (a <> b) as Hab by (intros ->; apply Na, list_elem_of_here).
  assert (exists rt, root lp = Some rt) as [rt Hr] by (rewrite Rt; destruct l1 as [|[i t] l1]; cbn; eauto).
  destruct (join_nodes_ok lp op a b l r rt W Ra Rb Hab Hr) as (lp1 & lp2 & lp3 & E1 & E2 & E3 & W3 & R3 & M & O3 & L3 & Rt3).
  exists lp1, lp2, lp3. split; [done|]. split; [done|]. split; [done|].
  assert (forall x, x ∈ l1 ++ l2 -> (x.1 < length (nodes (dataflow lp)))%nat) as Hlt.
  { intros x Hx. rewrite Forall_forall in R1, R2. apply elem_of_app in Hx as [Hx|Hx];
      [apply R1 in Hx|apply R2 in Hx]; by eapply represents_lt. }
  split; [done| | | |].
  - rewrite Forall_app, Forall_cons. split_and!; [|done|]; (eapply Forall_impl; [eassumption|]); intros x; apply M.
  - rewrite fmap_app. cbn [fmap list_fmap fst]. apply NoDup_app. split; [done|]. split.
    + intros i Hi [->|Hi2]%elem_of_cons.
      * apply list_elem_of_fmap in Hi as (x & Ex & Hx). specialize (Hlt x). rewrite elem_of_app in Hlt.
        specialize (Hlt (or_introl Hx)). lia.
      * apply (D i Hi). by do 2 right.
    + apply NoDup_cons. split; [|done]. intros ([i t] & Ex & Hx)%list_elem_of_fmap. specialize (Hlt (i, t)).
      rewrite elem_of_app in Hlt. specialize (Hlt (or_intror Hx)). cbn in *. lia.
  - rewrite Rt3. destruct l1 as [|[i t] l1]; cbn in Rt |- *.
    + rewrite Rt in Hr. injection Hr as <-. by rewrite decide_True by tauto.
    + rewrite Rt in Hr. injection Hr as <-. rewrite decide_False; [done|].
      intros [->| ->]; eapply D; cbn; [apply list_elem_of_here|left|apply list_elem_of_here|right;left].
  - eapply ops_in_mono; [|exact (O3 _ O)]. intros x. rewrite !bind_app. cbn.
    rewrite !elem_of_cons, !elem_of_app. cbn. rewrite elem_of_cons, !elem_of_app. tauto.
Qed.

(** ** Computations that leave the translator as it is *)

Section Reads.
Context (c : Catalog) (tabs : list string).

Definition run_ro {A} (m : TM A) : result A := (m (mkTV LP_new c tabs)).2.

Definition ro {A} (m : TM A) : Prop := forall p, m (mkTV p c tabs) = (mkTV p c tabs, run_ro m).

Lemma ro_intro {A} (m : TM A) r : (forall p, m (mkTV p c tabs) = (mkTV p c tabs, r)) -> ro m /\ run_ro m = r.
Proof. intros Hm. assert (run_ro m = r) as E by (unfold run_ro; by rewrite Hm). split; [|done]. intros p. by rewrite E. Qed.

Lemma ro_bind_eq {A B} (m : TM A) (f : A -> TM B) : ro m -> (forall a, run_ro m = Ok a -> ro (f a)) ->
  ro (m ≫= f) /\ run_ro (m ≫= f) = (a ← run_ro m; run_ro (f a)).
Proof.
  intros Hm Hf. apply ro_intro. intros p. unfold mbind at 1, stm_bind at 1. rewrite Hm.
  destruct (run_ro m) as [a|e|]; [|done..]. by apply Hf.
Qed.

Lemma ro_bind {A B} (m : TM A) (f : A -> TM B) : ro m -> (forall a, run_ro m = Ok a -> ro (f a)) -> ro (m ≫= f).
Proof. intros Hm Hf. by apply ro_bind_eq. Qed.

Lemma ro_lift {A} (r : result A) : ro (lift r).
Proof. intros p. done. Qed.

Lemma ro_ret {A} (a : A) : ro (mret a).
Proof. intros p. done. Qed.

Lemma ro_mapS {A B} (f : A -> TM B) l : (forall a, a ∈ l -> ro (f a)) -> ro (mapS f l).
Proof.
  induction l as [|a l IH]; intros Hf; cbn [mapS]; [apply ro_ret|].
  apply ro_bind; [apply Hf, list_elem_of_here|]. intros b _. apply ro_bind; [|intros; apply ro_ret].
  apply IH. intros a' Ha. apply Hf. by apply list_elem_of_further.
Qed.

Lemma ro_foldS {A S} (f : S -> A -> TM S) l : (forall st a, a ∈ l -> ro (f st a)) -> forall st, ro (foldS f st l).
Proof.
  induction l as [|a l IH]; intros Hf st; cbn [foldS]; [apply ro_ret|].
  apply ro_bind; [apply Hf, list_elem_of_here|]. intros st' _.
  apply IH. intros st2 a' Ha. apply Hf. by apply list_elem_of_further.
Qed.
End Reads.

Create HintDb ro discriminated.
#[export] Hint Resolve ro_lift ro_ret ro_bind ro_mapS ro_foldS : ro.

(** ** Known tables *)

(** The id of a table name, for names the catalog has seen. *)
Definition table_id (c : Catalog) (n : string) : option ContainerId := table_to_id (container_id_generator c) !! n.

Definition known (c : Catalog) (n : string) : bool := bool_decide (is_Some (table_id c n)).

Fixpoint expr_known (c : Catalog) (e : Expr) : bool :=
  match e with
  | CompoundIdentifier [t; _] => known c (id_value t)
  | BinaryOp l _ r => expr_known c l && expr_known c r
  | FunctionExpr _ [NamedArg (ArgExpr e)] | FunctionExpr _ [UnnamedArg (ArgExpr e)] => expr_known c e
  | Nested e => expr_known c e
  | _ => true
  end.

Definition factor_known (c : Catalog) (tf : TableFactor) : bool :=
  match tf with TableRef [n] => known c (id_value n) | _ => true end.

Section Known.
Context `{Profile, Chrono, SqlParser} (c : Catalog).

Lemma get_table_id_known n : known c n = true ->
  exists id, table_id c n = Some id /\ get_table_id c n = Ok (c, id).
Proof.
  unfold known, table_id. intros [id E]%bool_decide_eq_true_1. exists id. split; [done|].
  unfold get_table_id, generator_get. rewrite E. mstep. by destruct c.
Qed.

Lemma ro_table_id tabs n : known c n = true -> ro c tabs (t_get_table_id n).
Proof.
  intros (id & _ & E)%get_table_id_known p. unfold run_ro, t_get_table_id. cbn [tv_catalog]. by rewrite E.
Qed.

Lemma ro_get {A} tabs (f : TranslateAndValidate -> A) :
  (forall p q, f (mkTV p c tabs) = f (mkTV q c tabs)) -> ro c tabs (gets f).
Proof. intros Hf p. unfold run_ro, gets. cbn [snd]. by rewrite (Hf LP_new p). Qed.

Lemma ro_find_column tabs n ts : Forall (fun t => known c t = true) ts -> ro c tabs (find_column n ts).
Proof.
  induction 1 as [|t ts Ht _ IH]; cbn [find_column]; [apply ro_ret|].
  apply ro_bind; [by apply ro_table_id|]. intros id _.
  apply ro_bind; [by apply ro_get|]. intros [] _; [apply ro_ret|exact IH].
Qed.

Lemma ro_disambiguate tabs ids : Forall (fun t => known c t = true) tabs ->
  match ids with [t; _] => known c t = true | _ => True end -> ro c tabs (disambiguate_name ids).
Proof.
  intros Ht Hk. unfold disambiguate_name. destruct ids as [|a [|b [|? ?]]]; try apply ro_lift.
  - apply ro_bind; [by apply ro_get|]. unfold run_ro, gets. cbn [snd tv_tables]. intros ts [= <-].
    apply ro_bind; [by apply ro_find_column|]. intros; apply ro_ret.
  - apply ro_bind; [by apply ro_table_id|]. intros id _. apply ro_bind; [by apply ro_get|].
    intros [] _; [apply ro_ret|apply ro_lift].
Qed.

Lemma ro_expr tabs : Forall (fun t => known c t = true) tabs -> forall e,
  expr_known c e = true -> ro c tabs (expr_to_astexpr e).
Proof.
  intros Ht. fix IH 1. intros e Hk. destruct e as [n|ns|v|dt v|l op r|n args|e|]; cbn [expr_known] in Hk.
  - by apply ro_disambiguate.
  - cbn [expr_to_astexpr]; unfold binary_ast_to_astexpr, function_ast_to_astexpr. apply ro_disambiguate; [done|]. destruct ns as [|a [|b [|? ?]]]; done.
  - apply ro_lift.
  - apply ro_lift.
  - cbn [expr_to_astexpr]; unfold binary_ast_to_astexpr, function_ast_to_astexpr. apply andb_true_iff in Hk as [Hl Hr].
    apply ro_bind; [exact (IH l Hl)|]. intros a _. apply ro_bind; [exact (IH r Hr)|]. intros; apply ro_lift.
  - cbn [expr_to_astexpr]; unfold binary_ast_to_astexpr, function_ast_to_astexpr. apply ro_bind; [apply ro_lift|]. intros op _.
    destruct args as [|[[e| |]|[e| |]] [|? ?]]; try apply ro_lift;
      try (destruct op; (apply ro_ret || apply ro_lift)).
    + apply ro_bind; [exact (IH e Hk)|]. intros; apply ro_ret.
    + apply ro_bind; [exact (IH e Hk)|]. intros; apply ro_ret.
  - exact (IH e Hk).
  - apply ro_lift.
Qed.

Lemma ro_table_attributes tabs tf : factor_known c tf = true -> ro c tabs (table_attributes tf).
Proof.
  intros Hk. destruct tf as [n|]; cbn [table_attributes]; [|apply ro_lift].
  apply ro_bind; [apply ro_lift|]. intros a Ha. apply ro_bind.
  - apply ro_table_id. unfold run_ro, lift in Ha. cbn in Ha. unfold get_name in Ha.
    destruct n as [|x [|? ?]]; try done. injection Ha as <-. exact Hk.
  - intros id _. apply ro_bind; [by apply ro_get|]. intros sc _. apply ro_bind; [apply ro_lift|].
    intros; apply ro_ret.
Qed.
End Known.
