(* ===== verification/TranslateSpec.v ===== *)
(** * From SQL to logical plans: translation on trees

    [query_tree] is the relational expression a query stands for; the translator
    builds a plan for it, or fails with the same error. *)

From S2P Require Import Prelude Common Types Sql Expr Graph GraphProofs Catalog Plan Planner.
From S2P Require Import PlannerProofs PlanMerge Optimizer OptimizerProofs Translate TranslateProofs.

Section Spec.
Context `{Profile, Chrono, SqlParser} (c : Catalog).

Definition elaborate (tabs : list string) (e : Expr) : result AstExpr := run_ro c tabs (expr_to_astexpr e).

(** A scan of a table of the catalog, and the tables met so far. *)
Definition factor_tree (tabs : list string) (tf : TableFactor) : result (ltree * list string) :=
  match tf with
  | TableRef name =>
      n ← get_name name;
      id ← unwrap_opt (table_id c n);
      if is_valid_table c id then Ok (TScan id None None, tabs ++ [n])
      else Err (ValidationError "Invalid table name")
  | OtherFactor => Err (ValidationError "Nested joins and derived tables not supported")
  end.

(** The children of a join or product are the later table and then the earlier
    ones: edges are listed latest first. *)
Definition join_tree (st : ltree * list string) (join : SqlJoin) : result (ltree * list string) :=
  let '(t, tabs) := st in
  '(r, tabs) ← factor_tree tabs (j_relation join);
  match join_operator join with
  | Inner (On e) => a ← elaborate tabs e; Ok (T2 (join_node a) r t, tabs)
  | Inner OtherConstraint => Err (CrustyErr "Unsupported join constraint")
  | OtherJoin => Err (CrustyErr "Unsupported join type")
  end.

Definition item_tree (tabs : list string) (sel : TableWithJoins) : result (ltree * list string) :=
  st ← factor_tree tabs (tw_relation sel); foldM join_tree st (tw_joins sel).

Definition from_trees (from : list TableWithJoins) : result (list ltree * list string) :=
  foldM (fun '(ts, tabs) sel => '(t, tabs) ← item_tree tabs sel; Ok (ts ++ [t], tabs)) ([], []) from.

Definition cross_tree (ts : list ltree) : result ltree :=
  match ts with
  | [] => Err (CrustyErr "No root found")
  | t :: ts => Ok (foldl (fun l r => TCross r l) t ts)
  end.

Definition from_tree (from : list TableWithJoins) : result (ltree * list string) :=
  '(ts, tabs) ← from_trees from; t ← cross_tree ts; Ok (t, tabs).

Definition where_tree (tabs : list string) (w : option Expr) (t : ltree) : result ltree :=
  match w with
  | Some e => a ← elaborate tabs e; Ok (TFilter a t)
  | None => Ok t
  end.

(** The aggregation of a query and the fields over it. *)
Definition group_tree (tabs : list string) (s : Select) (fields : list AstExpr) (t : ltree)
  : result (list AstExpr * ltree) :=
  g ← match s_group_by s with
      | GroupAll => Panic
      | GroupExpressions l => run_ro c tabs (mapS expr_to_astexpr l)
      end;
  '(fields, aggs) ← foldM separate_field ([], []) fields;
  t ← where_tree tabs (s_having s) (T1 (LAggregate aggs g None) t);
  Ok (fields, t).

Definition sort_tree (fields : list (AstExpr * bool)) (t : ltree) : ltree :=
  match fields with [] => t | _ => T1 (LSort fields) t end.

Definition order_tree (tabs : list string) (order_by : list OrderByExpr) (t : ltree) : result ltree :=
  sort ← run_ro c tabs (mapS order_field order_by); Ok (sort_tree sort t).

(** Sort keys that were added to the fields are projected away again. *)
Definition trim_tree (added : bool) (select_fields : list AstExpr) (t : ltree) : result ltree :=
  if added then names ← mapM_o to_name select_fields; Ok (TProject (EIdent <$> names) t) else Ok t.

Definition select_tree (s : Select) (order_by : list OrderByExpr) : result ltree :=
  '(t, tabs) ← from_tree (s_from s);
  t ← where_tree tabs (s_selection s) t;
  '(select_fields, aggs) ← run_ro c tabs (foldS (select_item (s_from s)) ([], false) (s_projection s));
  keys ← run_ro c tabs (mapS (fun o => expr_to_astexpr (o_expr o)) order_by);
  '(fields, added) ← foldM add_order_by (select_fields, false) keys;
  '(fields, t) ← (if (aggs : bool) then group_tree tabs s fields t else Ok (fields, t));
  t ← order_tree tabs order_by (TProject fields t);
  t ← trim_tree added select_fields t;
  if s_distinct s then Panic else Ok t.

Definition query_tree (q : Query) : result ltree :=
  match q_body q with
  | SelectBody s => select_tree s (q_order_by q)
  | _ => Err (CrustyErr "Unsupported query type")
  end.

(** Queries that only name tables the catalog has seen. *)
Definition item_known (i : SelectItem) : bool :=
  match i with UnnamedExpr e | ExprWithAlias e _ => expr_known c e | _ => true end.

Definition opt_known (o : option Expr) : bool := match o with Some e => expr_known c e | None => true end.

Definition join_known (j : SqlJoin) : bool :=
  factor_known c (j_relation j) &&
  match join_operator j with Inner (On e) => expr_known c e | _ => true end.

Definition from_known (t : TableWithJoins) : bool := factor_known c (tw_relation t) && forallb join_known (tw_joins t).

Definition query_known (q : Query) : bool :=
  forallb (fun o => expr_known c (o_expr o)) (q_order_by q) &&
  match q_body q with
  | SelectBody s =>
      forallb from_known (s_from s) && opt_known (s_selection s) && forallb item_known (s_projection s) &&
      (match s_group_by s with GroupExpressions l => forallb (expr_known c) l | GroupAll => true end) &&
      opt_known (s_having s)
  | _ => true
  end.

(** ** Refinement *)

(** [m] from [s] ends like [spec], with the catalog as it was. *)
Definition refines {A B} (m : TM A) (s : TranslateAndValidate) (spec : result B)
  (Q : B -> A -> TranslateAndValidate -> Prop) : Prop :=
  match spec with
  | Ok b => exists s' a, m s = (s', Ok a) /\ tv_catalog s' = c /\ Q b a s'
  | Err e => exists s', m s = (s', Err e) /\ tv_catalog s' = c
  | Panic => exists s', m s = (s', Panic) /\ tv_catalog s' = c
  end.

Lemma refines_bind {A B A' B'} (m : TM A) (f : A -> TM A') s (spec : result B) (g : B -> result B')
  (Q : B -> A -> TranslateAndValidate -> Prop) Q' :
  refines m s spec Q ->
  (forall b a p tabs, Q b a (mkTV p c tabs) -> refines (f a) (mkTV p c tabs) (g b) Q') ->
  refines (m ≫= f) s (spec ≫= g) Q'.
Proof.
  intros Hm Hf. unfold mbind at 1, stm_bind at 1. destruct spec as [b|e|]; cbn [refines] in Hm; mstep.
  - destruct Hm as ([p c' tabs] & a & E & Hc & HQ). cbn in Hc. subst c'. specialize (Hf b a p tabs HQ).
    unfold refines in *. cbv beta. rewrite E. exact Hf.
  - destruct Hm as (s' & E & Hc). exists s'. by rewrite E.
  - destruct Hm as (s' & E & Hc). exists s'. by rewrite E.
Qed.

Lemma refines_ro {A} (m : TM A) p tabs : ro c tabs m ->
  refines m (mkTV p c tabs) (run_ro c tabs m) (fun b a s' => a = b /\ s' = mkTV p c tabs).
Proof.
  intros Hm. unfold refines. rewrite Hm. destruct (run_ro c tabs m) as [b|e|]; eauto 6.
Qed.

Lemma refines_lift {A} (r : result A) p tabs :
  refines (lift r) (mkTV p c tabs) r (fun b a s' => a = b /\ s' = mkTV p c tabs).
Proof. apply refines_ro, ro_lift. Qed.

Lemma refines_ret {A B} (a : A) (b : B) p tabs (Q : B -> A -> TranslateAndValidate -> Prop) :
  Q b a (mkTV p c tabs) -> refines (mret a) (mkTV p c tabs) (Ok b) Q.
Proof. intros HQ. by exists (mkTV p c tabs), a. Qed.

Lemma refines_weaken {A B} (m : TM A) s (spec : result B) (Q Q' : B -> A -> TranslateAndValidate -> Prop) :
  refines m s spec Q -> (forall b a s', Q b a s' -> Q' b a s') -> refines m s spec Q'.
Proof. unfold refines. destruct spec as [b| |]; [|done..]. intros (s' & a & E & Hc & HQ) Hi. eauto 6. Qed.

(** ** The FROM clause *)

Definition tabs_known (tabs : list string) : Prop := Forall (fun t => known c t = true) tabs.

(** The translator holds the trees [l] and the tables [tabs]. *)
Definition holds (l : list (nat * ltree)) (tabs : list string) (s : TranslateAndValidate) : Prop :=
  forest (tv_plan s) l /\ tv_tables s = tabs /\ tabs_known tabs.

Lemma factor_refines tf p tabs l : factor_known c tf = true -> forest p l -> tabs_known tabs ->
  refines (process_table_factor tf) (mkTV p c tabs) (factor_tree tabs tf)
    (fun x k s' => holds (l ++ [(k, x.1)]) x.2 s').
Proof.
  intros Hk F T. destruct tf as [n|]; cbn [process_table_factor factor_tree]; [|by eexists].
  unfold get_name. destruct n as [|x [|y ns]]; cbn.
  - by eexists.
  - cbn in Hk. destruct (get_table_id_known c (id_value x) Hk) as (id & Eid & Eg). rewrite Eid. cbn.
    unfold refines, mbind, stm_bind, lift, t_get_table_id, gets. cbn [tv_catalog]. rewrite Eg. cbn [tv_catalog].
    destruct (is_valid_table c id); [|by eexists].
    destruct (forest_scan p l (LScan id None None) F) as (p1 & E & F1).
    unfold t_push_table, t_add_node. cbn [tv_plan tv_catalog tv_tables]. rewrite E.
    eexists _, _. split; [done|]. split; [done|]. split; [exact F1|]. split; [done|].
    apply Forall_app. split; [done|]. by apply Forall_singleton.
  - by eexists.
Qed.

Lemma edges_refine p tabs k a p1 p2 b :
  LP_add_edge p k a = Ok p1 -> LP_add_edge p1 k b = Ok p2 ->
  (_ ← t_add_edge k a; _ ← t_add_edge k b; mret k) (mkTV p c tabs) = (mkTV p2 c tabs, Ok k).
Proof.
  intros E1 E2. unfold mbind, stm_bind, t_add_edge. cbn [tv_plan tv_catalog tv_tables]. rewrite E1.
  cbn [tv_plan tv_catalog tv_tables]. by rewrite E2.
Qed.

(** A join node over two neighbours. *)
Lemma join_refines p tabs l1 a l b r l2 op : forest p (l1 ++ (a, l) :: (b, r) :: l2) ->
  exists p' k, (idx ← t_add_node op; _ ← t_add_edge idx a; _ ← t_add_edge idx b; mret idx) (mkTV p c tabs) =
    (mkTV p' c tabs, Ok k) /\ forest p' (l1 ++ (k, T2 op r l) :: l2).
Proof.
  intros F. destruct (forest_join p l1 a l b r l2 op F) as (p1 & p2 & p3 & E1 & E2 & E3 & F3).
  exists p3. eexists. split; [|exact F3]. unfold mbind at 1, stm_bind at 1, t_add_node.
  cbn [tv_plan tv_catalog tv_tables]. rewrite E1. by apply (edges_refine p1 tabs _ a p2 p3 b).
Qed.

Lemma process_join_refines j p tabs l k t : join_known j = true -> forest p (l ++ [(k, t)]) -> tabs_known tabs ->
  refines (process_join j k) (mkTV p c tabs) (join_tree (t, tabs) j)
    (fun x k' s' => holds (l ++ [(k', x.1)]) x.2 s').
Proof.
  intros [Hf He]%andb_true_iff F T. unfold process_join, join_tree.
  eapply refines_bind; [by apply (factor_refines (j_relation j) p tabs (l ++ [(k, t)]))|].
  intros [r tabs1] kr p1 tabs1' (F1 & Etabs & T1). cbn in F1, Etabs, T1 |- *. subst tabs1'.
  destruct (join_operator j) as [[e|]|]; [|by eexists..].
  eapply refines_bind; [apply refines_ro; by apply ro_expr|]. intros ae ? ? ? [-> [= -> ->]].
  rewrite <- app_assoc in F1. cbn in F1.
  destruct (join_refines p1 tabs1 l k t kr r [] (join_node ae) F1) as (p2 & k2 & E & F2).
  exists (mkTV p2 c tabs1), k2. split; [exact E|]. split; [done|]. by split.
Qed.

Lemma item_refines sel p tabs l : from_known sel = true -> forest p l -> tabs_known tabs ->
  refines (process_from_item sel) (mkTV p c tabs) (item_tree tabs sel)
    (fun x k s' => holds (l ++ [(k, x.1)]) x.2 s').
Proof.
  intros [Hf Hj]%andb_true_iff F T. unfold process_from_item, item_tree.
  eapply refines_bind; [by apply (factor_refines _ p tabs l)|].
  intros [t tabs1] k p1 tabs1' (F1 & Et & T1). cbn in F1, Et, T1. subst tabs1'. clear F T tabs Hf p.
  revert t tabs1 k p1 F1 T1. induction (tw_joins sel) as [|j js IH]; intros t tabs k p F T; cbn [foldS foldM].
  - apply refines_ret. by split.
  - cbn [forallb] in Hj. apply andb_true_iff in Hj as [Hj Hjs].
    eapply refines_bind; [by apply (process_join_refines j p tabs l k t)|].
    intros [t1 tabs1] k1 p1 tabs1' (F1 & Et & T1). cbn in F1, Et, T1. subst tabs1'. by apply IH.
Qed.

Lemma refines_map {A A' B} (m : TM A) (h : A -> A') s (spec : result B) Q :
  refines m s spec Q -> refines (a ← m; mret (h a)) s spec (fun b a' s' => exists a, a' = h a /\ Q b a s').
Proof.
  intros Hm. unfold refines in *. unfold mbind, stm_bind. destruct spec as [b|e|].
  - destruct Hm as (s' & a & E & Hc & HQ). rewrite E. exists s', (h a). eauto.
  - destruct Hm as (s' & E & Hc). rewrite E. eauto.
  - destruct Hm as (s' & E & Hc). rewrite E. eauto.
Qed.

Lemma zip_snoc {A B} (l : list A) (k : list B) a b : length l = length k -> zip (l ++ [a]) (k ++ [b]) = zip l k ++ [(a, b)].
Proof. intros E. rewrite zip_with_app by done. done. Qed.

Lemma from_refines from : forall p tabs ks ts, forallb from_known from = true -> length ks = length ts ->
  forest p (zip ks ts) -> tabs_known tabs ->
  refines (mapS process_from_item from) (mkTV p c tabs)
    (foldM (fun '(ts, tabs) sel => '(t, tabs) ← item_tree tabs sel; Ok (ts ++ [t], tabs)) (ts, tabs) from)
    (fun x ks' s' => holds (zip (ks ++ ks') x.1) x.2 s' /\ length (ks ++ ks') = length x.1).
Proof.
  induction from as [|sel from IH]; intros p tabs ks ts Hk Hl F T; cbn [mapS foldM].
  - apply refines_ret. cbn. rewrite app_nil_r. by split.
  - cbn [forallb] in Hk. apply andb_true_iff in Hk as [Hk Hks]. rewrite bind_assoc.
    eapply refines_bind; [by apply (item_refines sel p tabs (zip ks ts))|].
    intros [t tabs1] k p1 tabs1' (F1 & Et & T1). cbn in F1, Et, T1. subst tabs1'. mstep.
    rewrite <- zip_snoc in F1 by done.
    eapply refines_weaken; [apply refines_map, (IH p1 tabs1 (ks ++ [k]) (ts ++ [t]) Hks)|].
    + rewrite !length_app. cbn. lia.
    + done.
    + done.
    + intros [ts' tabs'] ks' s' (ks0 & -> & Hh & Hlen). by rewrite <- app_assoc in Hh, Hlen.
Qed.

Lemma cross_refines p tabs ks ts : length ks = length ts -> forest p (zip ks ts) -> tabs_known tabs ->
  refines (process_cross_product ks) (mkTV p c tabs) (cross_tree ts) (fun t k s' => holds [(k, t)] tabs s').
Proof.
  intros Hl F T. destruct ks as [|k ks], ts as [|t ts]; try done.
  - unfold process_cross_product, cross_tree. exists (mkTV p c tabs).
    pose proof (fo_root _ _ F) as Hr. unfold mbind, stm_bind, gets, lift. cbn [tv_plan] in *. cbn in Hr. by rewrite Hr.
  - cbn [process_cross_product cross_tree]. injection Hl as Hl. cbn [zip zip_with] in F.
    revert k t p ts Hl F. induction ks as [|k2 ks IH]; intros k t p [|t2 ts] Hl F; try done; cbn [foldS foldl].
    + apply refines_ret. by split.
    + injection Hl as Hl. cbn [zip zip_with] in F.
      destruct (join_refines p tabs [] k t k2 t2 (zip ks ts) (LCrossProduct None) F) as (p2 & k3 & E & F2).
      specialize (IH k3 _ p2 ts Hl F2). unfold refines in *. unfold mbind at 1, stm_bind at 1. rewrite E. exact IH.
Qed.

(** ** One tree *)

Lemma forest_over p k t op : forest p [(k, t)] ->
  exists p1 p2 k', root p = Some k /\ LP_add_node p op = (p1, length (nodes (dataflow p))) /\
    LP_add_edge p1 (length (nodes (dataflow p))) k = Ok p2 /\ forest p2 [(k', T1 op t)] /\ root p1 = Some k.
Proof.
  intros [W R N Rt O]. rewrite Forall_singleton in R. cbn in R, Rt, O. rewrite app_nil_r in O.
  destruct (over_root_represents p op k t W Rt R) as (p2 & k' & E & W2 & R2 & Rep2 & O2).
  assert (root (LP_add_node p op).1 = Some k) as Hr1 by (cbn; by rewrite Rt).
  assert ((LP_add_node p op).2 = length (nodes (dataflow p))) as Hn by done.
  destruct (LP_add_node p op) as [p1 n]. cbn [fst snd] in Hr1, Hn. subst n. exists p1, p2, k'.
  split_and!; try done. split; [done|by apply Forall_singleton|apply NoDup_singleton|done|].
  cbn. rewrite app_nil_r. by apply O2.
Qed.

Definition one (t : ltree) (tabs : list string) (s : TranslateAndValidate) : Prop := exists k, holds [(k, t)] tabs s.

Lemma over_refines op p tabs t : one t tabs (mkTV p c tabs) ->
  refines (t_over_root op) (mkTV p c tabs) (Ok tt) (fun _ _ s' => one (T1 op t) tabs s').
Proof.
  intros (k & F & _ & T). cbn in F. destruct (forest_over p k t op F) as (p1 & p2 & k' & Hr & E1 & E2 & F2 & _).
  exists (mkTV p2 c tabs), tt. unfold t_over_root, mbind, stm_bind, t_root, t_add_node, t_add_edge.
  cbn [tv_plan]. rewrite Hr. cbn [unwrap_opt tv_plan]. rewrite E1. cbn [tv_plan]. rewrite E2.
  split; [done|]. split; [done|]. by exists k'.
Qed.

Lemma where_refines w p tabs t : opt_known w = true -> one t tabs (mkTV p c tabs) ->
  refines (process_where_clause w) (mkTV p c tabs) (where_tree tabs w t) (fun t' _ s' => one t' tabs s').
Proof.
  intros Hk Ho. destruct w as [e|]; cbn [process_where_clause where_tree]; [|by apply refines_ret].
  pose proof Ho as (k & F & _ & T). cbn in F.
  destruct (forest_over p k t (LFilter (ELiteral FNull)) F) as (_ & _ & _ & Hr & _).
  unfold mbind at 1, stm_bind at 1, refines, t_root. cbn [tv_plan]. rewrite Hr. cbn [unwrap_opt].
  change (refines (ast_expr ← expr_to_astexpr e; idx ← t_add_node (LFilter ast_expr); t_add_edge idx k)
            (mkTV p c tabs) (a ← elaborate tabs e; Ok (TFilter a t)) (fun t' _ s' => one t' tabs s')).
  eapply refines_bind; [apply refines_ro; by apply ro_expr|]. intros a ? ? ? [-> [= -> ->]].
  destruct (forest_over p k t (LFilter a) F) as (p1 & p2 & k' & _ & E1 & E2 & F2 & _).
  exists (mkTV p2 c tabs), tt. unfold mbind, stm_bind, t_add_node, t_add_edge. cbn [tv_plan]. rewrite E1.
  cbn [tv_plan]. rewrite E2. split; [done|]. split; [done|]. by exists k'.
Qed.

(** ** Fields *)

Lemma forallb_elem {A} (f : A -> bool) l x : forallb f l = true -> x ∈ l -> f x = true.
Proof. rewrite forallb_forall. intros Hl Hx. by apply Hl, list_elem_of_In. Qed.

Lemma ro_all_attributes tabs from : forallb from_known from = true -> ro c tabs (get_all_attributes from).
Proof.
  intros Hk. unfold get_all_attributes. apply ro_foldS. intros st sel Hs.
  apply (forallb_elem _ _ _ Hk), andb_true_iff in Hs as [Hf Hj].
  apply ro_bind; [by apply ro_table_attributes|]. intros own _. apply ro_foldS. intros st' j Hin.
  apply (forallb_elem _ _ _ Hj), andb_true_iff in Hin as [Hfj _].
  apply ro_bind; [by apply ro_table_attributes|]. intros; apply ro_ret.
Qed.

Lemma ro_select_item tabs from st i : forallb from_known from = true -> item_known i = true -> tabs_known tabs ->
  ro c tabs (select_item from st i).
Proof.
  intros Hf Hi T. destruct st as [fs b]. destruct i as [|e|e n|]; cbn [select_item]; [| | |apply ro_lift].
  - apply ro_bind; [by apply ro_all_attributes|]. intros; apply ro_ret.
  - apply ro_bind; [by apply ro_expr|]. intros; apply ro_ret.
  - apply ro_bind; [by apply ro_expr|]. intros; apply ro_ret.
Qed.

Lemma ro_exprs tabs l : forallb (expr_known c) l = true -> tabs_known tabs -> ro c tabs (mapS expr_to_astexpr l).
Proof. intros Hl T. apply ro_mapS. intros e He. apply ro_expr; [done|]. by eapply forallb_elem. Qed.

Lemma ro_order tabs l : forallb (fun o => expr_known c (o_expr o)) l = true -> tabs_known tabs ->
  ro c tabs (mapS (fun o => expr_to_astexpr (o_expr o)) l) /\ ro c tabs (mapS order_field l).
Proof.
  intros Hl T. split; apply ro_mapS; intros o Ho; apply (forallb_elem _ _ _ Hl) in Ho; [by apply ro_expr|].
  unfold order_field. apply ro_bind; [by apply ro_expr|]. intros e _. apply ro_bind; [apply ro_lift|].
  intros; apply ro_ret.
Qed.

Lemma refines_unit {A B} (m : TM unit) (f : unit -> TM A) s (x : ltree) tabs (g : result B) Q :
  refines m s (Ok tt) (fun _ _ s' => one x tabs s') ->
  (forall p, one x tabs (mkTV p c tabs) -> refines (f tt) (mkTV p c tabs) g Q) -> refines (m ≫= f) s g Q.
Proof.
  intros ([p c' tabs'] & [] & E & Hc & Ho) Hf. cbn in Hc. subst c'.
  assert (tabs' = tabs) as -> by (by destruct Ho as (k & _ & ? & _)).
  specialize (Hf p Ho). unfold refines, mbind, stm_bind in *. by rewrite E.
Qed.

(** One step on the tree and the same step on the plan. *)
Lemma refines_step {A B C} (m : TM C) (f : C -> TM A) s tabs (spec : result ltree) (g : ltree -> result B) Q :
  refines m s spec (fun t _ s' => one t tabs s') ->
  (forall x t p, one t tabs (mkTV p c tabs) -> refines (f x) (mkTV p c tabs) (g t) Q) ->
  refines (m ≫= f) s (spec ≫= g) Q.
Proof.
  intros Hm Hf. eapply refines_bind; [exact Hm|]. intros t x p tabs' Ho. cbv beta in Ho.
  assert (tabs' = tabs) as -> by (by destruct Ho as (k & _ & ? & _)). by apply Hf.
Qed.

Lemma group_refines sel fields p tabs t : tabs_known tabs ->
  (match s_group_by sel with GroupExpressions l => forallb (expr_known c) l | GroupAll => true end) = true ->
  opt_known (s_having sel) = true -> one t tabs (mkTV p c tabs) ->
  refines (process_group sel fields) (mkTV p c tabs) (group_tree tabs sel fields t)
    (fun x fields' s' => fields' = x.1 /\ one x.2 tabs s').
Proof.
  intros T Hg Hh Ho. unfold process_group, group_tree.
  eapply refines_bind with (Q := fun b a s' => a = b /\ s' = mkTV p c tabs).
  { destruct (s_group_by sel) as [|l]; [by eexists|]. apply refines_ro. by apply ro_exprs. }
  intros g ? ? ? [-> [= -> ->]].
  eapply refines_bind; [apply refines_lift|]. intros [fs aggs] ? ? ? [-> [= -> ->]].
  eapply refines_unit; [by apply (over_refines (LAggregate aggs g None) p tabs t)|]. intros p1 Ho1.
  eapply refines_step; [by apply where_refines|]. intros [] t' p2 Ho2. apply refines_ret. by split.
Qed.

Lemma order_refines l p tabs t : forallb (fun o => expr_known c (o_expr o)) l = true -> tabs_known tabs ->
  one t tabs (mkTV p c tabs) ->
  refines (process_order_by l) (mkTV p c tabs) (order_tree tabs l t)
    (fun t' _ s' => one t' tabs s').
Proof.
  intros Hl T Ho. unfold process_order_by, order_tree. eapply refines_bind; [apply refines_ro; by apply ro_order|].
  intros fs ? ? ? [-> [= -> ->]]. destruct fs as [|f fs]; [by apply refines_ret|].
  destruct Ho as (k & F & _ & _). cbn in F.
  destruct (forest_over p k t (LSort (f :: fs)) F) as (p1 & p2 & k' & _ & E1 & E2 & F2 & Hr1).
  exists (mkTV p2 c tabs), tt. unfold mbind, stm_bind, t_add_node, t_root, t_add_edge. cbn [tv_plan]. rewrite E1.
  cbn [tv_plan]. rewrite Hr1. cbn [unwrap_opt tv_plan]. rewrite E2. split; [done|]. split; [done|]. by exists k'.
Qed.

Lemma from_clause_refines from : forallb from_known from = true ->
  refines (process_from_clause from) (mkTV LP_new c []) (from_tree from)
    (fun x _ s' => one x.1 x.2 s').
Proof.
  intros Hk. unfold process_from_clause, from_tree, from_trees.
  eapply refines_bind; [apply (from_refines from LP_new [] [] []); [done|done|apply forest_new|constructor]|].
  intros [ts tabs] ks p tabs' [(F & Et & T) Hl]. cbn in F, Et, T, Hl. subst tabs'.
  eapply refines_bind; [by apply cross_refines|]. intros t k p2 tabs2 Hh. apply refines_ret. cbn.
  destruct Hh as (F2 & Et & _). cbn in Et. subst tabs2. exists k. by split.
Qed.

Lemma projection_refines fields p tabs t : one t tabs (mkTV p c tabs) ->
  refines (process_projection fields) (mkTV p c tabs) (Ok tt) (fun _ _ s' => one (TProject fields t) tabs s').
Proof. apply over_refines. Qed.

Lemma query_refines q : query_known q = true ->
  refines (process_query q) (mkTV LP_new c []) (query_tree q) (fun t _ s' => exists tabs, one t tabs s').
Proof.
  intros Hq. unfold query_known in Hq. apply andb_true_iff in Hq as [Hord Hq].
  unfold process_query, query_tree. destruct (q_body q) as [sel| |]; [|by eexists..].
  apply andb_true_iff in Hq as [[[[Hfrom Hsel]%andb_true_iff Hprj]%andb_true_iff Hgrp]%andb_true_iff Hhav].
  unfold select_tree.
  eapply refines_bind; [by apply from_clause_refines|]. intros [t0 tabs] [] p0 tabs' Ho0. cbn in Ho0.
  assert (tabs' = tabs /\ tabs_known tabs) as [-> T] by (by destruct Ho0 as (k & _ & ? & ?)).
  eapply refines_step; [by apply where_refines|]. clear dependent p0 t0. intros [] t p Ho.
  eapply refines_bind.
  { apply refines_ro, ro_foldS. intros st i Hi. apply ro_select_item; [done| |done]. by eapply forallb_elem. }
  intros [sfs aggs] ? ? ? [-> [= -> ->]].
  eapply refines_bind; [apply refines_ro; by apply ro_order|]. intros keys ? ? ? [-> [= -> ->]].
  eapply refines_bind; [apply refines_lift|]. intros [fields added] ? ? ? [-> [= -> ->]].
  eapply refines_bind with (Q := fun x fs' s' => fs' = x.1 /\ one x.2 tabs s').
  { destruct aggs; [by apply group_refines|by apply refines_ret]. }
  intros [fs t1] ? p1 tabs1 [-> Ho1]. cbn in Ho1 |- *.
  assert (tabs1 = tabs) as -> by (by destruct Ho1 as (k & _ & ? & _)). clear dependent p t.
  eapply refines_unit; [by apply projection_refines|]. intros p2 Ho2. clear dependent p1.
  eapply refines_step; [by apply order_refines|]. intros [] t p Ho. clear dependent p2.
  eapply refines_step with (tabs := tabs).
  { unfold trim_tree. destruct added; [|by apply refines_ret].
    eapply refines_bind; [apply refines_lift|]. intros names ? ? ? [-> [= -> ->]].
    destruct (projection_refines (EIdent <$> names) p tabs t Ho) as (s' & a & E & Hc & Ho'). by exists s', a. }
  intros [] t' p' Ho'. destruct (s_distinct sel); [by eexists|]. apply refines_ret. by exists tabs.
Qed.
End Spec.

(** [from_sql] builds a plan for the query's tree, or fails like it. *)
Lemma from_sql_refines `{Profile, Chrono, SqlParser} c q : query_known c q = true ->
  match query_tree c q with
  | Ok t => exists lp, from_sql q c = (c, Ok lp) /\ plan_for lp t
  | Err e => from_sql q c = (c, Err e)
  | Panic => from_sql q c = (c, Panic)
  end.
Proof.
  intros Hk. pose proof (query_refines c q Hk) as R. unfold refines, from_sql, TV_new in *.
  destruct (query_tree c q) as [t|e|].
  - destruct R as (s' & [] & -> & Hc & tabs & k & [W Rep N Rt O] & _). rewrite Hc. eexists. split; [done|].
    rewrite Forall_singleton in Rep. cbn in Rep, Rt, O. rewrite app_nil_r in O. split; [done|]. split; [done|].
    by exists k.
  - destruct R as (s' & -> & ->). done.
  - destruct R as (s' & -> & ->). done.
Qed.
