(* ===== verification/TranslateTheorems.v ===== *)
(** * From SQL to logical plans: the theorems *)

From S2P Require Import Prelude Common Types Sql Expr Graph GraphProofs Catalog Plan Planner.
From S2P Require Import PlannerProofs PlanMerge PlannerTheorems Optimizer OptimizerProofs Translate TranslateProofs TranslateSpec.

(** ** Translated expressions are by names *)

Section Named.
Context `{Profile, Chrono, SqlParser}.

(** What [m] returns satisfies [P], whatever the state. *)
Definition returns {A} (m : TM A) (P : A -> Prop) : Prop := forall s a, (m s).2 = Ok a -> P a.

Lemma returns_bind {A B} (m : TM A) (f : A -> TM B) P Q :
  returns m P -> (forall a, P a -> returns (f a) Q) -> returns (m ≫= f) Q.
Proof.
  intros Hm Hf s b. unfold mbind, stm_bind. specialize (Hm s). destruct (m s) as [s' [a|e|]]; [|done..].
  apply Hf. by apply Hm.
Qed.

Lemma returns_any {A} (m : TM A) : returns m (fun _ => True).
Proof. done. Qed.

Lemma returns_ret {A} (a : A) (P : A -> Prop) : P a -> returns (mret a) P.
Proof. by intros HP s b [= <-]. Qed.

Lemma returns_lift {A} (r : result A) (P : A -> Prop) : (forall a, r = Ok a -> P a) -> returns (lift r) P.
Proof. intros HP s b. apply HP. Qed.

Lemma returns_mapS {A B} (f : A -> TM B) (P : B -> Prop) l : (forall a, returns (f a) P) -> returns (mapS f l) (Forall P).
Proof.
  intros Hf. induction l as [|a l IH]; cbn [mapS]; [by apply returns_ret|].
  eapply returns_bind; [apply Hf|]. intros b Hb. eapply returns_bind; [exact IH|]. intros bs Hbs.
  apply returns_ret. by constructor.
Qed.

Lemma returns_foldS {A S} (f : S -> A -> TM S) (P : S -> Prop) l :
  (forall st a, P st -> returns (f st a) P) -> forall st, P st -> returns (foldS f st l) P.
Proof.
  intros Hf. induction l as [|a l IH]; intros st Hst; cbn [foldS]; [by apply returns_ret|].
  eapply returns_bind; [by apply Hf|]. apply IH.
Qed.

Definition is_named (e : AstExpr) : Prop := named e = true.

Lemma disambiguate_named ids : returns (disambiguate_name ids) is_named.
Proof.
  unfold disambiguate_name. destruct ids as [|a [|b [|? ?]]]; try by apply returns_lift.
  - eapply returns_bind; [apply returns_any|]. intros ts _. eapply returns_bind; [apply returns_any|].
    intros o _. by apply returns_ret.
  - eapply returns_bind; [apply returns_any|]. intros id _. eapply returns_bind; [apply returns_any|].
    intros [] _; [by apply returns_ret|by apply returns_lift].
Qed.

Lemma literal_named (m : result Field) e : (f ← m; Ok (ELiteral f)) = Ok e -> is_named e.
Proof. by intros (f & _ & [= <-])%bind_Ok_inv. Qed.

Lemma value_named v e : value_to_astexpr v = Ok e -> is_named e.
Proof.
  destruct v; cbn; try (by intros [= <-]).
  destruct (length _) as [|[|[|n]]]; try done; apply literal_named.
Qed.

Lemma typed_string_named d v e : typed_string_to_astexpr d v = Ok e -> is_named e.
Proof.
  intros (t & _ & E)%bind_Ok_inv. destruct t; try (by injection E as <-); try done; by eapply literal_named.
Qed.

Lemma binary_op_named op l r e : is_named l -> is_named r -> binary_op op l r = Ok e -> is_named e.
Proof. unfold is_named. intros Hl Hr. destruct op; cbn; intros [= <-]; cbn; by rewrite Hl, Hr. Qed.

Lemma expr_named : forall e, returns (expr_to_astexpr e) is_named.
Proof.
  fix IH 1. intros e. destruct e as [n|ns|v|dt v|l op r|n args|e|]; cbn [expr_to_astexpr]; unfold binary_ast_to_astexpr, function_ast_to_astexpr.
  - apply disambiguate_named.
  - apply disambiguate_named.
  - apply returns_lift, value_named.
  - apply returns_lift, typed_string_named.
  - eapply returns_bind; [exact (IH l)|]. intros a Ha. eapply returns_bind; [exact (IH r)|]. intros b Hb.
    apply returns_lift. intros x. by apply binary_op_named.
  - eapply returns_bind; [apply returns_any|]. intros op _.
    destruct args as [|[[e| |]|[e| |]] [|? ?]]; try by apply returns_lift.
    + eapply returns_bind; [exact (IH e)|]. intros a Ha. by apply returns_ret.
    + destruct op; (by apply returns_ret || by apply returns_lift).
    + eapply returns_bind; [exact (IH e)|]. intros a Ha. by apply returns_ret.
    + destruct op; (by apply returns_ret || by apply returns_lift).
  - exact (IH e).
  - by apply returns_lift.
Qed.

Lemma run_ro_returns {A} c tabs (m : TM A) P a : returns m P -> run_ro c tabs m = Ok a -> P a.
Proof. intros Hm. apply Hm. Qed.

Lemma select_item_named from st i : Forall is_named st.1 ->
  returns (select_item from st i) (fun x => Forall is_named x.1).
Proof.
  destruct st as [fs b]. cbn [fst]. intros Hs. destruct i as [|e|e n|]; cbn [select_item]; [| | |by apply returns_lift].
  - eapply returns_bind; [apply returns_any|]. intros attrs _. apply returns_ret. cbn. apply Forall_app.
    split; [done|]. apply Forall_forall. by intros x (a & -> & _)%list_elem_of_fmap.
  - eapply returns_bind; [apply expr_named|]. intros a Ha. apply returns_ret. cbn. apply Forall_app.
    split; [done|]. by apply Forall_singleton.
  - eapply returns_bind; [apply expr_named|]. intros a Ha. apply returns_ret. cbn. apply Forall_app.
    split; [done|]. by apply Forall_singleton.
Qed.

Lemma seperate_agg_named e : forall vec e' vec', is_named e -> Forall is_named vec ->
  seperate_agg e vec = Ok (e', vec') -> is_named e' /\ Forall is_named vec'.
Proof.
  unfold is_named.
  induction e as [f|s|s e IH|op l IHl r IHr|op l IHl r IHr|op e IH|i]; intros vec e' vec' He Hv E;
    cbn [seperate_agg named] in *; try (by injection E as <- <-).
  - apply bind_Ok_inv in E as ([e1 v1] & E1 & [= <- <-]). destruct (IH _ _ _ He Hv E1). done.
  - apply andb_true_iff in He as [Hl Hr]. apply bind_Ok_inv in E as ([l1 v1] & E1 & E).
    apply bind_Ok_inv in E as ([r1 v2] & E2 & [= <- <-]). destruct (IHl _ _ _ Hl Hv E1) as [Nl V1].
    destruct (IHr _ _ _ Hr V1 E2) as [Nr V2]. cbn. by rewrite Nl, Nr.
  - apply andb_true_iff in He as [Hl Hr]. apply bind_Ok_inv in E as ([l1 v1] & E1 & E).
    apply bind_Ok_inv in E as ([r1 v2] & E2 & [= <- <-]). destruct (IHl _ _ _ Hl Hv E1) as [Nl V1].
    destruct (IHr _ _ _ Hr V1 E2) as [Nr V2]. cbn. by rewrite Nl, Nr.
  - apply bind_Ok_inv in E as (n & _ & [= <- <-]). split; [done|]. apply Forall_app. split; [done|].
    by apply Forall_singleton.
Qed.

Lemma separate_fields_named fs : forall st st', Forall is_named fs -> Forall is_named st.1 -> Forall is_named st.2 ->
  foldM separate_field st fs = Ok st' -> Forall is_named st'.1 /\ Forall is_named st'.2.
Proof.
  induction fs as [|f fs IH]; intros [a b] st' Hf Ha Hb E; cbn [foldM] in E; [by injection E as <-|].
  apply Forall_cons in Hf as [Hf Hfs]. apply bind_Ok_inv in E as (st1 & E1 & E). unfold separate_field in E1.
  cbn [fst snd] in *. destruct (has_agg f).
  - apply bind_Ok_inv in E1 as ([f' b'] & Es & [= <-]). destruct (seperate_agg_named f b f' b' Hf Hb Es) as [N V].
    eapply IH; [done| | |exact E]; cbn; [|done]. apply Forall_app. split; [done|]. by apply Forall_singleton.
  - injection E1 as <-. eapply IH; [done| | |exact E]; cbn; [|done]. apply Forall_app. split; [done|].
    by apply Forall_singleton.
Qed.

Lemma add_order_named keys : forall st st', Forall is_named keys -> Forall is_named st.1 ->
  foldM add_order_by st keys = Ok st' -> Forall is_named st'.1.
Proof.
  induction keys as [|k keys IH]; intros [fs b] st' Hk Hf E; cbn [foldM] in E; [by injection E as <-|].
  apply Forall_cons in Hk as [Hk Hks]. apply bind_Ok_inv in E as (st1 & E1 & E).
  apply bind_Ok_inv in E1 as (found & _ & [= <-]). eapply IH; [done| |exact E]. destruct found; [done|]. cbn.
  apply Forall_app. split; [done|]. by apply Forall_singleton.
Qed.
End Named.

Lemma forallb_named es : Forall is_named es -> forallb named es = true.
Proof. intros Hf. apply forallb_forall. intros e He%list_elem_of_In. rewrite Forall_forall in Hf. by apply Hf. Qed.

(** ** Translated plans are what the optimizer accepts *)

Section Optimizable.
Context `{Profile, Chrono, SqlParser} (c : Catalog).

Definition accepted (t : ltree) : Prop := optimizable c t = true.

Lemma elaborate_named tabs e a : elaborate c tabs e = Ok a -> is_named a.
Proof. apply run_ro_returns, expr_named. Qed.

Lemma factor_accepted tabs tf t tabs' : factor_tree c tabs tf = Ok (t, tabs') -> accepted t.
Proof.
  destruct tf as [n|]; [|done]. intros (nm & _ & (id & _ & E)%bind_Ok_inv)%bind_Ok_inv.
  destruct (is_valid_table c id) eqn:Ev; [|done]. injection E as <- _. unfold accepted. cbn.
  unfold is_valid_table in Ev. apply bool_decide_eq_true_1 in Ev. unfold get_table_schema.
  rewrite bool_decide_eq_true_2; [done|]. destruct Ev as [i ->]. by eexists.
Qed.

Lemma join_node_accepted a l r : is_named a -> accepted l -> accepted r -> accepted (T2 (join_node a) l r).
Proof.
  unfold accepted, is_named, join_node. intros Ha Hl Hr.
  assert (optimizable c (T2 (LJoin [] (Some a)) l r) = true) as Hd by (cbn; by rewrite Ha, Hl, Hr).
  destruct a as [| | | |op x y| |]; try exact Hd. destruct op; try exact Hd. cbn in Ha |- *. by rewrite Ha, Hl, Hr.
Qed.

Lemma join_accepted js : forall st st', accepted st.1 -> foldM (join_tree c) st js = Ok st' -> accepted st'.1.
Proof.
  induction js as [|j js IH]; intros [t tabs] st' Ht E; cbn [foldM] in E; [by injection E as <-|].
  apply bind_Ok_inv in E as (st1 & E1 & E). eapply IH; [|exact E]. unfold join_tree in E1.
  apply bind_Ok_inv in E1 as ([r tabs1] & Er & E1). apply factor_accepted in Er.
  destruct (join_operator j) as [[e|]|]; try done. apply bind_Ok_inv in E1 as (a & Ea & [= <-]).
  apply elaborate_named in Ea. by apply join_node_accepted.
Qed.

Lemma from_accepted from : forall st st', Forall accepted st.1 ->
  foldM (fun '(ts, tabs) sel => '(t, tabs) ← item_tree c tabs sel; Ok (ts ++ [t], tabs)) st from = Ok st' ->
  Forall accepted st'.1.
Proof.
  induction from as [|sel from IH]; intros [ts tabs] st' Ht E; cbn [foldM] in E; [by injection E as <-|].
  apply bind_Ok_inv in E as (st1 & E1 & E). eapply IH; [|exact E].
  apply bind_Ok_inv in E1 as ([t tabs1] & Ei & [= <-]). cbn. apply Forall_app. split; [done|].
  apply Forall_singleton. apply bind_Ok_inv in Ei as ([t0 tabs0] & E0 & Ej). apply factor_accepted in E0.
  exact (join_accepted (tw_joins sel) (t0, tabs0) (t, tabs1) E0 Ej).
Qed.

Lemma cross_accepted ts t : Forall accepted ts -> cross_tree ts = Ok t -> accepted t.
Proof.
  destruct ts as [|t0 ts]; [done|]. intros [A0 Hts]%Forall_cons [= <-]. revert t0 A0.
  induction Hts as [|t1 ts A1 _ IH]; intros t0 A0; [done|]. cbn [foldl]. apply IH. unfold accepted in *. cbn.
  by rewrite A0, A1.
Qed.

Lemma where_accepted tabs w t t' : accepted t -> where_tree c tabs w t = Ok t' -> accepted t'.
Proof.
  destruct w as [e|]; cbn; [|by intros ? [= <-]]. intros Ht (a & Ea%elaborate_named & [= <-])%bind_Ok_inv.
  unfold accepted, is_named in *. cbn. by rewrite Ea, Ht.
Qed.

Lemma project_accepted es t : Forall is_named es -> accepted t -> accepted (TProject es t).
Proof. unfold accepted. intros He Ht. cbn. by rewrite (forallb_named es He), Ht. Qed.

Lemma group_accepted tabs s fields t fs t' : Forall is_named fields -> accepted t ->
  group_tree c tabs s fields t = Ok (fs, t') -> Forall is_named fs /\ accepted t'.
Proof.
  intros Hf Ht. unfold group_tree. intros (g & Eg & (st & Es & E)%bind_Ok_inv)%bind_Ok_inv.
  assert (Forall is_named g) as Hg.
  { destruct (s_group_by s); [done|]. eapply run_ro_returns; [|exact Eg]. apply returns_mapS, expr_named. }
  destruct (separate_fields_named fields ([], []) st Hf) as [H1' H2']; [constructor..|done|].
  destruct st as [fs1 aggs]. cbn in H1', H2'. apply bind_Ok_inv in E as (t1 & Ew & [= <- <-]). split; [done|].
  eapply where_accepted; [|exact Ew]. unfold accepted in *. cbn.
  by rewrite (forallb_named aggs H2'), (forallb_named g Hg), Ht.
Qed.

Lemma order_accepted tabs l t t' : accepted t -> order_tree c tabs l t = Ok t' -> accepted t'.
Proof.
  intros Ht (sort & Es & [= <-])%bind_Ok_inv. destruct sort as [|x xs]; [done|].
  assert (Forall (fun x => is_named x.1) (x :: xs)) as Hs.
  { eapply run_ro_returns; [|exact Es]. apply returns_mapS. intros o. unfold order_field.
    eapply returns_bind; [apply returns_any|]. intros e _. eapply returns_bind; [apply returns_any|].
    intros n _. by apply returns_ret. }
  unfold accepted in *. cbn [sort_tree optimizable]. rewrite Ht, andb_true_r. apply forallb_named.
  apply Forall_fmap. exact Hs.
Qed.

Lemma query_tree_accepted q t : query_tree c q = Ok t -> accepted t.
Proof.
  unfold query_tree. destruct (q_body q) as [s| |]; try done. unfold select_tree.
  intros ([t0 tabs] & Ef & E)%bind_Ok_inv. unfold from_tree in Ef.
  apply bind_Ok_inv in Ef as ([ts tabs'] & Et & Ef). apply bind_Ok_inv in Ef as (t1 & Ec & [= <- <-]).
  assert (accepted t1) as A1. { eapply cross_accepted; [|exact Ec]. apply (from_accepted _ ([], []) _ (Forall_nil_2 _) Et). }
  apply bind_Ok_inv in E as (t2 & Ew & E). pose proof (where_accepted _ _ _ _ A1 Ew) as A2.
  apply bind_Ok_inv in E as ([sfs aggs] & Es & E).
  assert (Forall is_named sfs) as Ns.
  { eapply (run_ro_returns c _ _ (fun x => Forall is_named x.1)) in Es; [exact Es|].
    apply returns_foldS; [|constructor]. intros st i Hst. by apply select_item_named. }
  apply bind_Ok_inv in E as (keys & Ek & E).
  assert (Forall is_named keys) as Nk.
  { eapply run_ro_returns; [|exact Ek]. apply returns_mapS. intros o. apply expr_named. }
  apply bind_Ok_inv in E as ([fields added] & Eo & E). pose proof (add_order_named keys (sfs, false) (fields, added) Nk Ns Eo) as Nf. cbn in Nf.
  apply bind_Ok_inv in E as ([fs t3] & Eg & E).
  assert (Forall is_named fs /\ accepted t3) as [Nfs A3].
  { destruct aggs; [by eapply group_accepted|]. by injection Eg as <- <-. }
  apply bind_Ok_inv in E as (t4 & E4 & E). pose proof (order_accepted _ _ _ _ (project_accepted fs t3 Nfs A3) E4) as A4.
  apply bind_Ok_inv in E as (t5 & E5 & E). destruct (s_distinct s); [done|]. injection E as <-.
  unfold trim_tree in E5. destruct added; [|by injection E5 as <-].
  apply bind_Ok_inv in E5 as (names & _ & [= <-]). apply project_accepted; [|done].
  apply Forall_forall. by intros x (n & -> & _)%list_elem_of_fmap.
Qed.
End Optimizable.

(** C7: translation is correct.  For a query over known tables, [from_sql] leaves
    the catalog as it is and either fails exactly as the translation on trees
    does, or returns a well-formed plan whose root represents exactly that tree
    and which has no other nodes. *)
Theorem from_sql_correct `{Profile, Chrono, SqlParser} c q :
  query_known c q = true ->
  match query_tree c q with
  | Ok t => exists lp r, from_sql q c = (c, Ok lp) /\ plan_wf lp /\ root lp = Some r /\ represents lp r t /\
              ops_in lp (tree_ops t)
  | Err e => from_sql q c = (c, Err e)
  | Panic => from_sql q c = (c, Panic)
  end.
Proof.
  intros Hk. pose proof (from_sql_refines c q Hk) as R. destruct (query_tree c q) as [t|e|]; [|exact R..].
  destruct R as (lp & E & W & O & r & Hr & Rep). by exists lp, r.
Qed.

(** C37: plans translated from queries over known tables are well formed for the
    optimizer: every operator has its
    number of children, every expression is by names (no column index, as binding
    has not run) and every scan is of a table of the catalog. *)
Theorem from_sql_well_formed `{Profile, Chrono, SqlParser} c q lp :
  query_known c q = true -> from_sql q c = (c, Ok lp) ->
  exists r t, root lp = Some r /\ represents lp r t /\ optimizable c t = true.
Proof.
  intros Hk E. pose proof (from_sql_refines c q Hk) as R. destruct (query_tree c q) as [t|e|] eqn:Et; [|congruence..].
  destruct R as (lp' & E' & W & O & r & Hr & Rep). rewrite E in E'. injection E' as <-.
  exists r, t. split; [done|]. split; [done|]. by apply (query_tree_accepted c q).
Qed.

(** ** Witnesses: [SELECT a FROM t WHERE a > 4 ORDER BY b] *)

Definition no_printer : SqlParser :=
  Build_SqlParser (fun _ => inr "no parser") id_value (fun _ => "") (fun _ => "") (fun _ => "") (fun _ => "") (fun _ => "").

Definition plain (s : string) : Ident := mkIdent s None.

Definition sql_catalog : Catalog :=
  mkCatalog (mkGen 1 {["t" := 0%Z]}) {[0%Z := mkTableInfo 0 "t" (from_vecs ["t.a"; "t.b"] [TInt; TInt])]}.

Definition sql_query : Query :=
  mkQuery
    (SelectBody (mkSelect false [UnnamedExpr (Identifier (plain "a"))]
       [mkTableWithJoins (TableRef [plain "t"]) []]
       (Some (BinaryOp (Identifier (plain "a")) OpGt (ValueExpr (Number "4" false))))
       (GroupExpressions []) None))
    [mkOrderBy (CompoundIdentifier [plain "t"; plain "b"]) None].

Definition sql_tree : ltree :=
  TProject [EIdent "t.a"]
    (T1 (LSort [(EIdent "t.b", true)])
       (TProject [EIdent "t.a"; EIdent "t.b"]
          (TFilter (EBoolean BGt (EIdent "t.a") (ELiteral (FInt 4))) (TScan 0 None None)))).

Lemma from_sql_correct_witness :
  exists lp r, from_sql (H := true) (H0 := no_calendar) (H1 := no_printer) sql_query sql_catalog = (sql_catalog, Ok lp) /\
    plan_wf lp /\ root lp = Some r /\ represents lp r sql_tree /\ ops_in lp (tree_ops sql_tree).
Proof.
  apply (@from_sql_correct true no_calendar no_printer sql_catalog sql_query). vm_compute. reflexivity.
Defined.

Lemma from_sql_well_formed_witness :
  exists lp r t, from_sql (H := true) (H0 := no_calendar) (H1 := no_printer) sql_query sql_catalog = (sql_catalog, Ok lp) /\
    root lp = Some r /\ represents lp r t /\ optimizable sql_catalog t = true.
Proof.
  destruct (from_sql (H := true) (H0 := no_calendar) (H1 := no_printer) sql_query sql_catalog) as [c [lp| |]] eqn:E;
    [|vm_compute in E; discriminate..].
  assert (c = sql_catalog) as -> by (vm_compute in E; injection E as <- _; reflexivity).
  destruct (@from_sql_well_formed true no_calendar no_printer sql_catalog sql_query lp) as (r & t & R).
  - vm_compute. reflexivity.
  - exact E.
  - exists lp, r, t. split; [reflexivity|exact R].
Defined.

(** ** Clauses that are lost *)

Definition select_query (items : list Expr) (group : list Expr) (having : option Expr) : Query :=
  mkQuery (SelectBody (mkSelect false (UnnamedExpr <$> items) [mkTableWithJoins (TableRef [plain "t"]) []] None
    (GroupExpressions group) having)) [].

Definition sum_a : Expr := FunctionExpr [plain "sum"] [UnnamedArg (ArgExpr (Identifier (plain "a")))].

(** [SELECT a FROM t GROUP BY a HAVING a > 4]: without an aggregate in the fields
    both clauses are ignored, and the query returns every row. *)
Lemma group_by_ignored :
  query_tree (H := true) (H0 := no_calendar) (H1 := no_printer) sql_catalog
    (select_query [Identifier (plain "a")] [Identifier (plain "a")]
       (Some (BinaryOp (Identifier (plain "a")) OpGt (ValueExpr (Number "4" false))))) =
  Ok (TProject [EIdent "t.a"] (TScan 0 None None)).
Proof. vm_compute. reflexivity. Qed.

(** [SELECT sum(a) FROM t HAVING sum(a) > 4]: the aggregate of the condition is not
    replaced by its column, and the condition cannot be compiled. *)
Lemma having_aggregate_panics :
  exists cond t,
    query_tree (H := true) (H0 := no_calendar) (H1 := no_printer) sql_catalog
      (select_query [sum_a] [] (Some (BinaryOp sum_a OpGt (ValueExpr (Number "4" false))))) =
    Ok (TProject [EIdent "SUM(t.a)"] (TFilter cond t)) /\
    forall sc, convert_ast_to_bytecode cond sc = Panic.
Proof.
  exists (EBoolean BGt (EAgg ASum (EIdent "t.a")) (ELiteral (FInt 4))), (T1 (LAggregate [EAgg ASum (EIdent "t.a")] [] None) (TScan 0 None None)).
  split; [vm_compute; reflexivity|]. intros sc. reflexivity.
Qed.
