(* ===== verification/Commands.v ===== *)
(** * Commands, responses and query results

    [src/src/common/src/query_result.rs], [commands.rs] and the text side of the
    client in [src/src/cli-crusty/src/lib.rs]: what the user types becomes a
    command, what the server answers becomes a response. *)

From S2P Require Import Prelude Common Types.

Open Scope Z_scope.

(** ** Strings *)

Fixpoint strip_prefix (p s : string) : option string :=
  match p, s with
  | EmptyString, _ => Some s
  | String a p', String b s' => if Ascii.eqb a b then strip_prefix p' s' else None
  | _, EmptyString => None
  end.

(** [ends_with] and [pop] for a one-byte character. *)
Fixpoint strip_last (c : ascii) (s : string) : option string :=
  match s with
  | EmptyString => None
  | String x EmptyString => if Ascii.eqb x c then Some EmptyString else None
  | String x s' => String x <$> strip_last c s'
  end.

Definition starts_with (p s : string) : bool := bool_decide (is_Some (strip_prefix p s)).

Fixpoint srev_app (s acc : string) : string :=
  match s with EmptyString => acc | String x s' => srev_app s' (String x acc) end.

Definition srev (s : string) : string := srev_app s EmptyString.

Definition utf8 (l : list nat) : string := foldr (fun n => String (Ascii.ascii_of_nat n)) EmptyString l.

(** The characters of the Unicode property White_Space, in UTF-8. *)
Definition white_space : list string :=
  utf8 <$> [[32]; [9]; [10]; [11]; [12]; [13]; [194; 133]; [194; 160]; [225; 154; 128]; [226; 128; 128];
    [226; 128; 129]; [226; 128; 130]; [226; 128; 131]; [226; 128; 132]; [226; 128; 133]; [226; 128; 134];
    [226; 128; 135]; [226; 128; 136]; [226; 128; 137]; [226; 128; 138]; [226; 128; 168]; [226; 128; 169];
    [226; 128; 175]; [226; 129; 159]; [227; 128; 128]]%nat.

Fixpoint strip_any (ps : list string) (s : string) : option string :=
  match ps with
  | [] => None
  | p :: ps' => match strip_prefix p s with Some s' => Some s' | None => strip_any ps' s end
  end.

Fixpoint strip_all (fuel : nat) (ps : list string) (s : string) : string :=
  match fuel, strip_any ps s with
  | S fuel', Some s' => strip_all fuel' ps s'
  | _, _ => s
  end.

Definition trim_start (s : string) : string := strip_all (String.length s) white_space s.
Definition trim_end (s : string) : string := srev (strip_all (String.length s) (srev <$> white_space) (srev s)).
Definition trim (s : string) : string := trim_end (trim_start s).

(** [str::replace] of one byte by another. *)
Fixpoint replace_char (a b : ascii) (s : string) : string :=
  match s with
  | EmptyString => EmptyString
  | String x s' => String (if Ascii.eqb x a then b else x) (replace_char a b s')
  end.

Definition nl : ascii := Ascii.ascii_of_nat 10.
Definition cr : ascii := Ascii.ascii_of_nat 13.

(** ** Query results *)

Record PagingInfo := mkPaging { current_page : Z; total_pages : Z; has_next_page : bool; page_size : Z }.

Inductive QueryResult :=
| MessageOnly (s : string)
| SelectResult (schema : TableSchema) (rows : list Tuple) (paging_info : option PagingInfo)
| InsertResult (inserted : Z) (table_name : string).

Definition get_tuples (q : QueryResult) : option (list Tuple) :=
  match q with SelectResult _ rows _ => Some rows | _ => None end.

Definition get_schema (q : QueryResult) : option TableSchema :=
  match q with SelectResult sc _ _ => Some sc | _ => None end.

(** The receiver after the call, and the answer. *)
Definition merge_results (self other : QueryResult) : QueryResult * result unit :=
  match self, other with
  | SelectResult sc1 r1 p, SelectResult sc2 r2 _ =>
      if decide (sc1 = sc2) then (SelectResult sc1 (r1 ++ r2) p, Ok tt)
      else (self, Err (CrustyErr "Schema mismatch when merging results."))
  | _, _ => (self, Err (CrustyErr "Cannot merge non-select results."))
  end.

(** ** Commands *)

Inductive SystemCommand :=
| Create (s : string)
| Connect (s : string)
| Reset
| Shutdown
| CloseConnection
| QuietMode
| ShowDatabases
| Test.

Inductive DBCommand :=
| ExecuteSQL (s : string)
| RegisterQuery (s : string)
| RunQueryFull (s : string)
| RunQueryPartial (s : string)
| ConvertQuery (s : string)
| ShowTables
| ShowQueries
| Generate (s : string)
| Import (name path : string).

Inductive Command := System (c : SystemCommand) | DB (c : DBCommand).

Definition SystemCommand_display (c : SystemCommand) : string :=
  match c with
  | Create s => "Create(" +:+ s +:+ ")"
  | Connect s => "Connect(" +:+ s +:+ ")"
  | Reset => "Reset"
  | Shutdown => "Shutdown"
  | CloseConnection => "CloseConnection"
  | QuietMode => "QuietMode"
  | ShowDatabases => "ShowDatabases"
  | Test => "Test"
  end.

Definition DBCommand_display (c : DBCommand) : string :=
  match c with
  | ExecuteSQL s => "ExecuteSQL(" +:+ s +:+ ")"
  | RegisterQuery s => "RegisterQuery(" +:+ s +:+ ")"
  | RunQueryFull s => "RunQueryFull(" +:+ s +:+ ")"
  | RunQueryPartial s => "RunQueryPartial(" +:+ s +:+ ")"
  | ConvertQuery s => "ConvertQuery(" +:+ s +:+ ")"
  | ShowTables => "ShowTables"
  | ShowQueries => "ShowQueries"
  | Generate s => "Generate(" +:+ s +:+ ")"
  | Import s p => "Import(" +:+ s +:+ ", " +:+ str_debug p +:+ ")"
  end.

Definition Command_display (c : Command) : string :=
  match c with System s => SystemCommand_display s | DB s => DBCommand_display s end.

Inductive Response :=
| ROk
| SystemMsg (s : string)
| SystemErr (s : string)
| RQueryResult (q : QueryResult)
| QueryExecutionError (s : string)
| RShutdown
| QuietOk
| QuietErr.

Definition response_is_ok (r : Response) : bool :=
  match r with
  | ROk | SystemMsg _ | RQueryResult _ | RShutdown | QuietOk => true
  | SystemErr _ | QueryExecutionError _ | QuietErr => false
  end.

(** The commands that take an argument, tried in order. *)
Definition parse_argument (cmd : string) : result (option Command) :=
  match strip_prefix "\r " cmd with
  | Some a => Ok (Some (System (Create a)))
  | None =>
  match strip_prefix "\c " cmd with
  | Some a => Ok (Some (System (Connect a)))
  | None =>
  match strip_prefix "\i " cmd with
  | Some a =>
      let split := split_on " " a in
      path ← unwrap_opt (split !! 0%nat);
      name ← unwrap_opt (split !! 1%nat);
      Ok (Some (DB (Import name path)))
  | None =>
  match strip_prefix "\register" cmd with
  | Some a => Ok (Some (DB (RegisterQuery (trim a))))
  | None =>
  match strip_prefix "\runFull" cmd with
  | Some a => Ok (Some (DB (RunQueryFull (trim a))))
  | None =>
  match strip_prefix "\runPartial" cmd with
  | Some a => Ok (Some (DB (RunQueryPartial (trim a))))
  | None =>
  match strip_prefix "\convert" cmd with
  | Some a => Ok (Some (DB (ConvertQuery (trim a))))
  | None =>
  match strip_prefix "\generate" cmd with
  | Some a => Ok (Some (DB (Generate (trim a))))
  | None => Ok None
  end end end end end end end end.

Definition strip_line_end (cmd : string) : string :=
  match strip_last nl cmd with
  | Some cmd => match strip_last cr cmd with Some cmd => cmd | None => cmd end
  | None => cmd
  end.

Definition parse_command (cmd : string) : result (option Command) :=
  let cmd := strip_line_end cmd in
  if negb (starts_with "\" cmd) then Ok (Some (DB (ExecuteSQL cmd)))
  else if String.eqb cmd "\dt" then Ok (Some (DB ShowTables))
  else if String.eqb cmd "\dq" then Ok (Some (DB ShowQueries))
  else if String.eqb cmd "\l" then Ok (Some (System ShowDatabases))
  else if String.eqb cmd "\reset" then Ok (Some (System Reset))
  else if String.eqb cmd "\shutdown" then Ok (Some (System Shutdown))
  else if String.eqb cmd "\quiet" then Ok (Some (System QuietMode))
  else if String.eqb cmd "\t" then Ok (Some (System Test))
  else parse_argument cmd.

(** ** The client *)

Definition split_into_commands (buffer_content : string) : list string :=
  replace_char nl " " <$>
    filter (fun cmd => cmd <> EmptyString) (trim <$> split_on ";" buffer_content).

(** Does the client go on after the response? *)
Definition handle_response (r : Response) : bool := match r with RShutdown => false | _ => true end.

(** ** Lemmas *)

Lemma string_cons_app x a b : String x a +:+ b = String x (a +:+ b).
Proof. done. Qed.

Lemma strip_prefix_app p s : strip_prefix p (p +:+ s) = Some s.
Proof. induction p as [|x p IH]; [done|]. rewrite string_cons_app. cbn [strip_prefix]. by rewrite Ascii.eqb_refl. Qed.

Lemma strip_last_snoc c s : strip_last c (s +:+ String c EmptyString) = Some s.
Proof.
  induction s as [|x s IH]; [change (strip_last c (String c EmptyString) = Some EmptyString); cbn [strip_last]; by rewrite Ascii.eqb_refl|].
  rewrite string_cons_app. cbn [strip_last]. rewrite IH. by destruct s.
Qed.

Fixpoint has_char (c : ascii) (s : string) : bool :=
  match s with EmptyString => false | String x s' => Ascii.eqb x c || has_char c s' end.

Lemma split_on_no_char c s : has_char c s = false -> split_on c s = [s].
Proof.
  induction s as [|x s IH]; [done|]. cbn [has_char split_on]. intros [Hx Hs]%orb_false_iff. rewrite Hx, IH by done. done.
Qed.

Lemma split_on_sep c a b : has_char c a = false -> split_on c (a +:+ String c b) = a :: split_on c b.
Proof.
  induction a as [|x a IH]; intros Ha; [change (EmptyString +:+ String c b) with (String c b); cbn [split_on]; by rewrite Ascii.eqb_refl|].
  rewrite string_cons_app. cbn [split_on]. cbn [has_char] in Ha. apply orb_false_iff in Ha as [Hx Ha]. by rewrite Hx, IH.
Qed.

(** A leading blank does not change what [trim] leaves. *)
Lemma trim_blank s : trim (String " " s) = trim s.
Proof. reflexivity. Qed.

(** A line without its end. *)
Definition unterminated (s : string) : bool :=
  match strip_last nl s, strip_last cr s with None, None => true | _, _ => false end.

Definition line_ends : list string :=
  [EmptyString; String nl EmptyString; String cr (String nl EmptyString)].

Lemma string_app_assoc (a b c : string) : (a +:+ b) +:+ c = a +:+ (b +:+ c).
Proof. induction a as [|x a IH]; [done|]. by rewrite !string_cons_app, IH. Qed.

Lemma strip_line_end_ok s e : unterminated s = true -> e ∈ line_ends -> strip_line_end (s +:+ e) = s.
Proof.
  unfold unterminated, strip_line_end. destruct (strip_last nl s) eqn:En; [done|].
  destruct (strip_last cr s) eqn:Ec; [done|]. intros _. unfold line_ends. rewrite !elem_of_cons.
  intros [->|[->|[->|[]%elem_of_nil]]].
  - assert (s +:+ EmptyString = s) as -> by (clear; induction s as [|x s IH]; [done|]; by rewrite string_cons_app, IH).
    by rewrite En.
  - by rewrite strip_last_snoc, Ec.
  - change (String cr (String nl EmptyString)) with (String cr EmptyString +:+ String nl EmptyString).
    rewrite <- string_app_assoc, strip_last_snoc. by rewrite strip_last_snoc.
Qed.

(** ** Typing a command *)

(** What to type for a command; closing a connection has no text. *)
Definition command_text (c : Command) : option string :=
  match c with
  | System (Create s) => Some ("\r " +:+ s)
  | System (Connect s) => Some ("\c " +:+ s)
  | System Reset => Some "\reset"
  | System Shutdown => Some "\shutdown"
  | System CloseConnection => None
  | System QuietMode => Some "\quiet"
  | System ShowDatabases => Some "\l"
  | System Test => Some "\t"
  | DB (ExecuteSQL s) => Some s
  | DB (RegisterQuery s) => Some ("\register " +:+ s)
  | DB (RunQueryFull s) => Some ("\runFull " +:+ s)
  | DB (RunQueryPartial s) => Some ("\runPartial " +:+ s)
  | DB (ConvertQuery s) => Some ("\convert " +:+ s)
  | DB ShowTables => Some "\dt"
  | DB ShowQueries => Some "\dq"
  | DB (Generate s) => Some ("\generate " +:+ s)
  | DB (Import name path) => Some ("\i " +:+ path +:+ " " +:+ name)
  end.

(** Arguments that survive: SQL is not taken for a command, arguments have no
    blanks around them, file and table names have none inside. *)
Definition argument_ok (c : Command) : bool :=
  match c with
  | DB (ExecuteSQL s) => negb (starts_with "\" s)
  | DB (RegisterQuery s) | DB (RunQueryFull s) | DB (RunQueryPartial s) | DB (ConvertQuery s)
  | DB (Generate s) => String.eqb (trim s) s
  | DB (Import name path) => negb (has_char " " name) && negb (has_char " " path)
  | _ => true
  end.

Lemma argument_trimmed s : String.eqb (trim s) s = true -> trim (String " " s) = s.
Proof. intros E%String.eqb_eq. by rewrite trim_blank. Qed.

(** Typed commands are understood.  Every command but the closing of a
    connection has a text; typing it, with any line end, is parsed to that
    command, for the arguments that survive blanks and line ends. *)
Theorem parse_command_roundtrip c txt e :
  command_text c = Some txt -> argument_ok c = true -> unterminated txt = true -> e ∈ line_ends ->
  parse_command (txt +:+ e) = Ok (Some c).
Proof.
  intros Et Ha Hu He. unfold parse_command. rewrite strip_line_end_ok by done. clear Hu He e.
  destruct c as [[s|s| | | | | |]|[s|s|s|s|s| | |s|name path]]; cbn [command_text] in Et; simplify_eq; cbn [argument_ok] in Ha;
    try reflexivity; try (by rewrite Ha); try (apply argument_trimmed in Ha;
      match goal with |- _ = Ok (Some (DB (?C s))) => change (Ok (Some (DB (C (trim (String " " s))))) = Ok (E := CrustyError) (Some (DB (C s)))) end;
      by rewrite Ha).
  apply andb_true_iff in Ha as [Hn%negb_true_iff Hp%negb_true_iff].
  change ("\i " +:+ path +:+ " " +:+ name) with (String "\" (String "i" (String " " (path +:+ String " " name)))).
  cbn. by rewrite split_on_sep, split_on_no_char by done.
Qed.

Lemma parse_command_roundtrip_witness :
  parse_command ("\i data.csv t" +:+ String cr (String nl EmptyString)) = Ok (Some (DB (Import "t" "data.csv"))).
Proof.
  apply (parse_command_roundtrip (DB (Import "t" "data.csv")) "\i data.csv t" (String cr (String nl EmptyString))).
  - reflexivity.
  - vm_compute. reflexivity.
  - vm_compute. reflexivity.
  - right. right. left.
Defined.

(** An import command without a table name is not refused: the client panics. *)
Lemma import_without_table_panics : parse_command "\i data.csv" = Panic.
Proof. vm_compute. reflexivity. Qed.

(** ** Scripts *)

(** A statement that a script may hold. *)
Definition statement_ok (s : string) : bool :=
  negb (has_char ";" s) && negb (has_char nl s) && String.eqb (trim s) s && negb (String.eqb s EmptyString).

Lemma replace_char_absent a b s : has_char a s = false -> replace_char a b s = s.
Proof. induction s as [|x s IH]; [done|]. cbn [has_char replace_char]. intros [-> Hs]%orb_false_iff. by rewrite IH. Qed.

Lemma split_on_concat c l : l <> [] -> Forall (fun s => has_char c s = false) l ->
  split_on c (String.concat (String c EmptyString) l) = l.
Proof.
  intros Hl HF. induction HF as [|s l Hs HF IH]; [done|]. destruct l as [|s' l].
  - by apply split_on_no_char.
  - assert (String.concat (String c EmptyString) (s :: s' :: l) =
            s +:+ String c (String.concat (String c EmptyString) (s' :: l))) as -> by done.
    rewrite split_on_sep by done. by rewrite IH.
Qed.

(** Scripts are split into their statements: a file with the statements
    separated by semicolons is sent as exactly these statements, in order, when
    they have no semicolon, no line break and no blanks around them. *)
Theorem split_into_commands_roundtrip l :
  l <> [] -> forallb statement_ok l = true -> split_into_commands (String.concat ";" l) = l.
Proof.
  intros Hl Hf. unfold split_into_commands. rewrite split_on_concat; [|done|].
  - clear Hl. induction l as [|s l IH]; [done|]. cbn [forallb] in Hf. apply andb_true_iff in Hf as [Hs Hf].
    unfold statement_ok in Hs. rewrite !andb_true_iff, !negb_true_iff, String.eqb_eq, String.eqb_neq in Hs.
    destruct Hs as [[[_ Hn] Ht] He]. rewrite fmap_cons, Ht, filter_cons_True by done.
    rewrite fmap_cons, replace_char_absent by done. by rewrite IH.
  - apply Forall_forall. intros s Hs%list_elem_of_In. rewrite forallb_forall in Hf. specialize (Hf s Hs).
    unfold statement_ok in Hf. rewrite !andb_true_iff, !negb_true_iff in Hf. apply Hf.
Qed.

Lemma split_into_commands_roundtrip_witness :
  split_into_commands "SELECT a FROM t;INSERT INTO t VALUES (1)" = ["SELECT a FROM t"; "INSERT INTO t VALUES (1)"].
Proof.
  apply (split_into_commands_roundtrip ["SELECT a FROM t"; "INSERT INTO t VALUES (1)"]).
  - discriminate.
  - vm_compute. reflexivity.
Defined.

(** A semicolon inside a string literal cuts the statement in two. *)
Lemma semicolon_in_literal_splits :
  split_into_commands "INSERT INTO t VALUES ('a;b')" = ["INSERT INTO t VALUES ('a"; "b')"].
Proof. vm_compute. reflexivity. Qed.
