(* ===== verification/Wire.v ===== *)
(** * The wire protocol

    [send_response] and [read_command] of [src/src/server/src/server.rs] and
    [send_request], [receive_response] and [send_and_wait] of
    [src/src/cli-crusty/src/lib.rs].  A response travels behind its length, in
    eight bytes, most significant first; a request travels as it is.

    The stream delivers what the other side wrote in pieces of any size.  The
    codec of [serde_cbor] is a parameter. *)

From S2P Require Import Prelude Bytes Common Types Commands.

Open Scope Z_scope.

Class WireCodec := {
  response_to_vec : Response -> list byte + string;
  response_from_slice : list byte -> option Response;
  command_to_vec : Command -> list byte + string;
  command_from_slice : list byte -> option Command;
}.

(** Tuples travel without their [value_id], which is marked [skip_serializing]. *)
Definition strip_id (t : Tuple) : Tuple := mkTuple (t_tid t) None (field_vals t).

Definition on_wire (r : Response) : Response :=
  match r with
  | RQueryResult (SelectResult sc rows p) => RQueryResult (SelectResult sc (strip_id <$> rows) p)
  | _ => r
  end.

(** What the code relies on: decoding inverts encoding, and an encoding is never
    empty nor cut short unnoticed. *)
Class WireLaws `{WireCodec} : Prop := {
  response_roundtrip r : exists bs, response_to_vec r = inl bs /\ response_from_slice bs = Some (on_wire r);
  command_roundtrip c : exists bs, command_to_vec c = inl bs /\ command_from_slice bs = Some c;
  response_nonempty r bs : response_to_vec r = inl bs -> bs <> [];
  command_cut c bs k : command_to_vec c = inl bs -> (k < length bs)%nat -> command_from_slice (take k bs) = None;
}.

(** ** Streams *)

(** What is still to be read, and how much of it each [read] finds. *)
Record Socket := mkSocket { pending : list byte; arrivals : list nat }.

(** [Read::read] into a buffer of [n] bytes: at least one byte, until the end. *)
Definition read (s : Socket) (n : nat) : list byte * Socket :=
  let k := Nat.min n (Nat.max 1 (default n (head (arrivals s)))) in
  (take k (pending s), mkSocket (drop k (pending s)) (tail (arrivals s))).

(** [read_exact]; every round reads a byte or fails. *)
Fixpoint read_exact (fuel : nat) (s : Socket) (n : nat) : Socket * result (list byte) :=
  match n, fuel with
  | O, _ => (s, Ok [])
  | S _, O => (s, Panic)
  | S _, S fuel' =>
      match read s n with
      | ([], s) => (s, Err (IOError "failed to fill whole buffer"))
      | (bs, s) =>
          match read_exact fuel' s (n - length bs) with
          | (s, Ok l) => (s, Ok (bs ++ l))
          | x => x
          end
      end
  end.

Definition to_be_bytes (n : nat) (z : Z) : list byte := rev (to_le_bytes n z).
Definition from_be_bytes (bs : list byte) : Z := from_le_bytes (rev bs).

(** ** The server's side *)

Definition quieted (quiet_mode : bool) (response : Response) : Response :=
  if negb quiet_mode then response
  else
    match response with
    | SystemErr _ | QueryExecutionError _ | QuietErr => QuietErr
    | RShutdown => RShutdown
    | _ => QuietOk
    end.

Definition chunk_size : Z := 1024 * 32.

(** The loop over chunks: every round writes a byte. *)
Fixpoint write_chunks (fuel : nat) (start : Z) (response_bytes : list byte) : result (list (list byte)) :=
  if start <? lenZ response_bytes then
    match fuel with
    | O => Panic
    | S fuel' =>
        let end_ := Z.min (start + chunk_size) (lenZ response_bytes) in
        chunk ← slice response_bytes start end_;
        chunks ← write_chunks fuel' end_ response_bytes;
        Ok (chunk :: chunks)
    end
  else Ok [].

(** The pieces that are written, in order. *)
Definition send_response `{WireCodec} (response : Response) (quiet_mode : bool) : result (list (list byte)) :=
  match response_to_vec (quieted quiet_mode response) with
  | inr e => Err (SerializationError e)
  | inl response_bytes =>
      let response_length := wrap_u 64 (lenZ response_bytes) in
      chunks ← write_chunks (length response_bytes) 0 response_bytes;
      Ok (to_be_bytes 8 response_length :: chunks)
  end.

Definition read_command `{WireCodec} (s : Socket) : Socket * option Command :=
  match read s 1024 with
  | ([], s) => (s, None)
  | (bs, s) => (s, command_from_slice bs)
  end.

(** ** The client's side *)

Definition send_request `{WireCodec} (request : Command) : option (list byte) :=
  match command_to_vec request with inl bs => Some bs | inr _ => None end.

(** The loop that collects the response, up to its length or the end of the
    stream. *)
Fixpoint receive_loop (fuel : nat) (s : Socket) (response_length : nat) (response_data : list byte)
  : Socket * list byte :=
  if (length response_data <? response_length)%nat then
    match fuel with
    | O => (s, response_data)
    | S fuel' =>
        match read s (Nat.min (1024 * 32) (response_length - length response_data)) with
        | ([], s) => (s, response_data)
        | (bs, s) => receive_loop fuel' s response_length (response_data ++ bs)
        end
    end
  else (s, response_data).

(** A [Vec] of more than [isize::MAX] bytes panics. *)
Definition receive_response (s : Socket) : Socket * result (list byte) :=
  match read_exact 8 s 8 with
  | (s, Ok length_bytes) =>
      let response_length := from_be_bytes length_bytes in
      if 2 ^ 63 <=? response_length then (s, Panic)
      else
        let n := Z.to_nat response_length in
        let '(s, response_data) := receive_loop n s n [] in
        if (length response_data =? n)%nat then (s, Ok response_data)
        else (s, Err (c_err "Incomplete response received"))
  | x => x
  end.

(** [send_and_wait] after the request is sent. *)
Definition wait_response `{WireCodec} (s : Socket) : Socket * result Response :=
  match receive_response s with
  | (s, Ok []) => (s, Ok QuietOk)
  | (s, Ok response_data) =>
      (s, ok_or (response_from_slice response_data) (c_err "Failed to deserialize response"))
  | (s, Err e) => (s, Err e)
  | (s, Panic) => (s, Panic)
  end.
