(* ===== verification/WireTheorems.v ===== *)
(** * The wire protocol: the theorems

    Responses arrive whole and in order; requests do not have to. *)

From S2P Require Import Prelude Bytes Common Types Commands Wire.
From S2P Require Import MemStoreTheorems OpIterTheorems.

Open Scope Z_scope.

(** ** Reading what was written *)

Lemma read_prefix s a b : pending s = a ++ b -> a <> [] ->
  exists x y arr, read s (length a) = (x, mkSocket (y ++ b) arr) /\ a = x ++ y /\ x <> [].
Proof.
  intros Hp Ha. unfold read. set (k := Nat.min _ _).
  assert (1 <= k <= length a)%nat as Hk by (destruct a; [done|]; cbn [length] in *; lia).
  exists (take k a), (drop k a). eexists. rewrite Hp, take_app_le, drop_app_le by lia. split; [done|].
  split; [by rewrite take_drop|]. destruct a; [done|]. destruct k; [lia|done].
Qed.

(** Reading into a smaller buffer. *)
Lemma read_some s a b n : pending s = a ++ b -> a <> [] -> (0 < n)%nat ->
  exists x y arr, read s (Nat.min n (length a)) = (x, mkSocket (y ++ b) arr) /\ a = x ++ y /\ x <> [].
Proof.
  intros Hp Ha Hn. rewrite <- (take_drop n a), <- app_assoc in Hp.
  assert (take n a <> []) as Hne by (destruct a; [done|]; destruct n; [lia|done]).
  destruct (read_prefix s (take n a) (drop n a ++ b) Hp Hne) as (x & y & arr & E & Ea & Hx).
  rewrite length_take in E. exists x, (y ++ drop n a), arr. rewrite <- app_assoc. split; [done|].
  split; [|done]. by rewrite app_assoc, <- Ea, take_drop.
Qed.

Lemma read_exact_ok fuel : forall s a b, pending s = a ++ b -> (length a <= fuel)%nat ->
  exists arr, read_exact fuel s (length a) = (mkSocket b arr, Ok a).
Proof.
  induction fuel as [|fuel IH]; intros s a b Hp Hf.
  - destruct a; [|cbn in Hf; lia]. exists (arrivals s). destruct s. cbn in *. by subst.
  - destruct a as [|z a]; [exists (arrivals s); destruct s; cbn in *; by subst|].
    destruct (read_prefix s (z :: a) b Hp) as (x & y & arr & E & Ea & Hx); [done|].
    cbn [length read_exact] in E |- *. rewrite E. destruct x as [|x0 x]; [done|].
    assert (S (length a) = length (x0 :: x) + length y)%nat as Hl by (rewrite <- length_app, <- Ea; done).
    replace (S (length a) - length (x0 :: x))%nat with (length y) by lia.
    destruct (IH (mkSocket (y ++ b) arr) y b eq_refl) as [arr' ->]; [cbn [length] in *; lia|].
    exists arr'. by rewrite Ea.
Qed.

Lemma receive_loop_ok fuel : forall s acc a b, pending s = a ++ b -> (length a <= fuel)%nat ->
  exists arr, receive_loop fuel s (length acc + length a) acc = (mkSocket b arr, acc ++ a).
Proof.
  induction fuel as [|fuel IH]; intros s acc a b Hp Hf; cbn [receive_loop].
  - destruct a; [|cbn in Hf; lia]. rewrite app_nil_r, Nat.add_0_r, Nat.ltb_irrefl.
    exists (arrivals s). destruct s. cbn in *. by subst.
  - destruct (Nat.ltb_spec (length acc) (length acc + length a)).
    + replace (length acc + length a - length acc)%nat with (length a) by lia.
      destruct (read_some s a b (1024 * 32) Hp) as (x & y & arr & E & Ea & Hx); [by intros ->; cbn in *; lia|lia|].
      rewrite E. destruct x as [|x0 x]; [done|]. destruct (IH (mkSocket (y ++ b) arr) (acc ++ x0 :: x) y b eq_refl) as [arr' E'].
      { rewrite Ea in Hf. rewrite length_app in Hf. cbn [length] in Hf. lia. }
      exists arr'. rewrite Ea, app_assoc. rewrite <- E'. f_equal. rewrite !length_app. lia.
    + destruct a; [|cbn in *; lia]. rewrite app_nil_r. exists (arrivals s). destruct s. cbn in *. by subst.
Qed.

Lemma write_chunks_ok fuel : forall start bs, 0 <= start <= lenZ bs -> lenZ bs - start <= Z.of_nat fuel ->
  exists chunks, write_chunks fuel start bs = Ok chunks /\ concat chunks = drop (Z.to_nat start) bs /\
    Forall (fun c => 0 < lenZ c <= chunk_size) chunks.
Proof.
  induction fuel as [|fuel IH]; intros start bs Hs Hf; cbn [write_chunks]; destruct (Z.ltb_spec start (lenZ bs)).
  - lia.
  - exists []. rewrite drop_ge by (unfold lenZ in *; lia). by split_and!.
  - set (e := Z.min _ _). assert (start < e <= lenZ bs /\ e - start <= chunk_size) as [He Hc] by (unfold chunk_size in *; lia).
    rewrite slice_ok by lia. mstep. destruct (IH e bs) as (chunks & -> & Ec & HF); [lia..|]. mstep.
    eexists. split; [done|]. split; [|constructor; [rewrite lenZ_sub; lia|done]].
    cbn [concat]. rewrite Ec. unfold sub.
    replace (Z.to_nat e) with (Z.to_nat start + Z.to_nat (e - start))%nat by lia.
    rewrite <- drop_drop. apply take_drop.
  - exists []. rewrite drop_ge by (unfold lenZ in *; lia). by split_and!.
Qed.

Lemma length_to_be_bytes n z : length (to_be_bytes n z) = n.
Proof. unfold to_be_bytes. by rewrite length_rev, length_to_le_bytes. Qed.

Lemma from_to_be_bytes z : in_u 64 z -> from_be_bytes (to_be_bytes 8 z) = z.
Proof.
  intros Hz. unfold from_be_bytes, to_be_bytes. rewrite rev_involutive. by apply (from_to_le_bytes_u 8).
Qed.

Section Delivery.
Context `{WireLaws}.

(** A response is short enough to be held in memory. *)
Definition fits (r : Response) : Prop := forall bs, response_to_vec r = inl bs -> lenZ bs < 2 ^ 63.

Lemma send_response_ok r q : fits (quieted q r) ->
  exists bs chunks, response_to_vec (quieted q r) = inl bs /\ response_from_slice bs = Some (on_wire (quieted q r)) /\
    send_response r q = Ok (to_be_bytes 8 (lenZ bs) :: chunks) /\ concat chunks = bs /\
    Forall (fun c => 0 < lenZ c <= chunk_size) chunks.
Proof.
  intros Hf. destruct (response_roundtrip (quieted q r)) as (bs & E & D). specialize (Hf bs E).
  pose proof (lenZ_nonneg bs). destruct (write_chunks_ok (length bs) 0 bs) as (chunks & Ew & Ec & HF); [lia|unfold lenZ; lia|].
  exists bs, chunks. split; [done|]. split; [done|]. unfold send_response. rewrite E, Ew. mstep.
  rewrite wrap_u_small by (unfold in_u; lia). done.
Qed.

Lemma wait_response_ok r q written rest arr : fits (quieted q r) -> send_response r q = Ok written ->
  exists arr', wait_response (mkSocket (concat written ++ rest) arr) = (mkSocket rest arr', Ok (on_wire (quieted q r))).
Proof.
  intros Hf Hs. destruct (send_response_ok r q Hf) as (bs & chunks & E & D & Es & Ec & _).
  rewrite Es in Hs. injection Hs as <-. cbn [concat]. rewrite Ec, <- app_assoc.
  specialize (Hf bs E). pose proof (lenZ_nonneg bs). unfold wait_response, receive_response.
  destruct (read_exact_ok 8 (mkSocket (to_be_bytes 8 (lenZ bs) ++ bs ++ rest) arr) (to_be_bytes 8 (lenZ bs)) (bs ++ rest))
    as [arr1 E1]; [done|by rewrite length_to_be_bytes|].
  rewrite length_to_be_bytes in E1. rewrite E1, from_to_be_bytes by (unfold in_u; lia).
  destruct (Z.leb_spec (2 ^ 63) (lenZ bs)); [lia|].
  assert (Z.to_nat (lenZ bs) = length bs) as -> by (unfold lenZ; lia).
  destruct (receive_loop_ok (length bs) (mkSocket (bs ++ rest) arr1) [] bs rest eq_refl) as [arr2 E2]; [done|].
  cbn [length Nat.add app] in E2. rewrite E2, Nat.eqb_refl. exists arr2.
  destruct bs as [|b bs]; [by apply response_nonempty in E|]. by rewrite D.
Qed.

(** Answers to several requests, written one after the other and read one after
    the other. *)
Fixpoint send_all (rs : list (Response * bool)) : result (list byte) :=
  match rs with
  | [] => Ok []
  | (r, q) :: rs' => written ← send_response r q; rest ← send_all rs'; Ok (concat written ++ rest)
  end.

Fixpoint wait_all (n : nat) (s : Socket) : Socket * result (list Response) :=
  match n with
  | O => (s, Ok [])
  | S n' =>
      match wait_response s with
      | (s, Ok r) => match wait_all n' s with (s, Ok l) => (s, Ok (r :: l)) | x => x end
      | (s, Err e) => (s, Err e)
      | (s, Panic) => (s, Panic)
      end
  end.

(** C12: responses arrive.  Whatever responses the server sends, in quiet mode or
    not, of fewer than 2^63 bytes each, and however the network cuts the stream into pieces, the client receives
    the same responses in the same order (tuples without their storage ids), reads
    no byte of what comes after them, and ends. *)
Theorem responses_delivered rs : Forall (fun x => fits (quieted x.2 x.1)) rs ->
  exists written, send_all rs = Ok written /\
    forall rest arr, exists arr',
      wait_all (length rs) (mkSocket (written ++ rest) arr) =
      (mkSocket rest arr', Ok ((fun x => on_wire (quieted x.2 x.1)) <$> rs)).
Proof.
  induction 1 as [|[r q] rs Hr HF (w & Ew & IH)]; cbn [send_all].
  - exists []. split; [done|]. intros rest arr. by exists arr.
  - cbn [fst snd] in Hr. destruct (send_response_ok r q Hr) as (bs & chunks & _ & _ & Es & _).
    rewrite Es, Ew. mstep. eexists. split; [done|]. intros rest arr. rewrite <- app_assoc.
    destruct (wait_response_ok r q _ (w ++ rest) arr Hr Es) as [arr1 E1].
    destruct (IH rest arr1) as [arr2 E2]. exists arr2. cbn [length wait_all]. by rewrite E1, E2.
Qed.

Lemma read_command_ok c bs arr : command_to_vec c = inl bs ->
  (length bs <= Nat.min 1024 (Nat.max 1 (default 1024 (head arr))))%nat ->
  (read_command (mkSocket bs arr)).2 = Some c.
Proof.
  intros E Hle. destruct (command_roundtrip c) as (bs' & E' & D). rewrite E in E'. injection E' as <-.
  unfold read_command, read. cbn [pending arrivals]. rewrite take_ge by lia.
  destruct bs as [|b bs]; [|done].
  assert (command_from_slice [] = None) as E0; [|by rewrite E0 in D].
  destruct (command_roundtrip (System Reset)) as (bs2 & E2 & D2). destruct bs2 as [|b2 bs2].
  - destruct (command_roundtrip (System Shutdown)) as (bs3 & E3 & D3). destruct bs3 as [|b3 bs3]; [congruence|].
    by apply (command_cut _ _ 0 E3 ltac:(cbn; lia)).
  - by apply (command_cut _ _ 0 E2 ltac:(cbn; lia)).
Qed.

(** C39: a request is understood only if it arrives at once.  The server takes what
    one read of 1024 bytes finds for the whole command: a command that is longer,
    or that the network cuts, is dropped, which closes the connection. *)
Theorem read_command_whole c bs arr :
  command_to_vec c = inl bs ->
  (read_command (mkSocket bs arr)).2 =
    if (length bs <=? Nat.min 1024 (Nat.max 1 (default 1024 (head arr))))%nat then Some c else None.
Proof.
  intros E. destruct (Nat.leb_spec (length bs) (Nat.min 1024 (Nat.max 1 (default 1024 (head arr))))%nat) as [Hle|Hgt].
  - by apply read_command_ok.
  - unfold read_command, read. cbn [pending arrivals]. set (k := Nat.min _ _).
    assert (k < length bs)%nat as Hk by lia. assert (take k bs <> []) as Hne.
    { intros Hn. apply (f_equal length) in Hn. rewrite length_take in Hn. cbn [length] in Hn. lia. }
    rewrite <- (command_cut c bs k E Hk). by destruct (take k bs).
Qed.
End Delivery.

(** ** A codec that satisfies the laws, for the witnesses *)

Definition DataType_code (t : DataType) : Z * Z * Z :=
  match t with
  | TInt => (0, 0, 0) | TString => (1, 0, 0) | TDecimal p s => (2, p, s)
  | TDate => (3, 0, 0) | TBool => (4, 0, 0) | TNull => (5, 0, 0)
  end.

Definition DataType_decode (x : Z * Z * Z) : DataType :=
  match x with
  | (0, _, _) => TInt | (1, _, _) => TString | (2, p, s) => TDecimal p s
  | (3, _, _) => TDate | (4, _, _) => TBool | _ => TNull
  end.

#[export] Instance DataType_countable : Countable DataType :=
  inj_countable' DataType_code DataType_decode (fun t => ltac:(by destruct t)).

Definition Constraint_code (c : Constraint) : Z * Z :=
  match c with
  | CNone => (0, 0) | PrimaryKey => (1, 0) | Unique => (2, 0) | NotNull => (3, 0)
  | UniqueNotNull => (4, 0) | ForeignKey i => (5, i) | NotNullFKey i => (6, i)
  end.

Definition Constraint_decode (x : Z * Z) : Constraint :=
  match x with
  | (0, _) => CNone | (1, _) => PrimaryKey | (2, _) => Unique | (3, _) => NotNull
  | (4, _) => UniqueNotNull | (5, i) => ForeignKey i | (_, i) => NotNullFKey i
  end.

#[export] Instance Constraint_countable : Countable Constraint :=
  inj_countable' Constraint_code Constraint_decode (fun c => ltac:(by destruct c)).

#[export] Instance Attribute_countable : Countable Attribute :=
  inj_countable' (fun a => (name a, dtype a, constraint a)) (fun '(n, t, c) => mkAttribute n t c)
    (fun a => ltac:(by destruct a)).

#[export] Instance TableSchema_countable : Countable TableSchema :=
  inj_countable' attributes mkSchema (fun s => ltac:(by destruct s)).

#[export] Instance Tuple_countable : Countable Tuple :=
  inj_countable' (fun t => (t_tid t, value_id t, field_vals t)) (fun '(i, v, f) => mkTuple i v f)
    (fun t => ltac:(by destruct t)).

#[export] Instance PagingInfo_eq_dec : EqDecision PagingInfo.
Proof. solve_decision. Defined.

#[export] Instance PagingInfo_countable : Countable PagingInfo :=
  inj_countable' (fun p => (current_page p, total_pages p, has_next_page p, page_size p))
    (fun '(a, b, c, d) => mkPaging a b c d) (fun p => ltac:(by destruct p)).

#[export] Instance QueryResult_eq_dec : EqDecision QueryResult.
Proof. solve_decision. Defined.

#[export] Instance QueryResult_countable : Countable QueryResult :=
  inj_countable'
    (fun q => match q with
              | MessageOnly s => inl (inl s)
              | SelectResult sc rows p => inl (inr (sc, rows, p))
              | InsertResult n t => inr (n, t)
              end)
    (fun x => match x with
              | inl (inl s) => MessageOnly s
              | inl (inr (sc, rows, p)) => SelectResult sc rows p
              | inr (n, t) => InsertResult n t
              end) (fun q => ltac:(by destruct q)).

#[export] Instance Response_eq_dec : EqDecision Response.
Proof. solve_decision. Defined.

#[export] Instance Response_countable : Countable Response :=
  inj_countable'
    (fun r => match r with
              | ROk => inl (0, EmptyString) | SystemMsg s => inl (1, s) | SystemErr s => inl (2, s)
              | RQueryResult q => inr q | QueryExecutionError s => inl (3, s)
              | RShutdown => inl (4, EmptyString) | QuietOk => inl (5, EmptyString) | QuietErr => inl (6, EmptyString)
              end)
    (fun x => match x with
              | inl (0, _) => ROk | inl (1, s) => SystemMsg s | inl (2, s) => SystemErr s
              | inr q => RQueryResult q | inl (3, s) => QueryExecutionError s
              | inl (4, _) => RShutdown | inl (5, _) => QuietOk | inl _ => QuietErr
              end) (fun r => ltac:(by destruct r)).

#[export] Instance SystemCommand_eq_dec : EqDecision SystemCommand.
Proof. solve_decision. Defined.

#[export] Instance DBCommand_eq_dec : EqDecision DBCommand.
Proof. solve_decision. Defined.

#[export] Instance Command_eq_dec : EqDecision Command.
Proof. solve_decision. Defined.

Definition Command_code (c : Command) : Z * string * string :=
  match c with
  | System (Create s) => (0, s, EmptyString) | System (Connect s) => (1, s, EmptyString)
  | System Reset => (2, EmptyString, EmptyString) | System Shutdown => (3, EmptyString, EmptyString)
  | System CloseConnection => (4, EmptyString, EmptyString) | System QuietMode => (5, EmptyString, EmptyString)
  | System ShowDatabases => (6, EmptyString, EmptyString) | System Test => (7, EmptyString, EmptyString)
  | DB (ExecuteSQL s) => (8, s, EmptyString) | DB (RegisterQuery s) => (9, s, EmptyString)
  | DB (RunQueryFull s) => (10, s, EmptyString) | DB (RunQueryPartial s) => (11, s, EmptyString)
  | DB (ConvertQuery s) => (12, s, EmptyString) | DB ShowTables => (13, EmptyString, EmptyString)
  | DB ShowQueries => (14, EmptyString, EmptyString) | DB (Generate s) => (15, s, EmptyString)
  | DB (Import n p) => (16, n, p)
  end.

Definition Command_decode (x : Z * string * string) : Command :=
  match x with
  | (0, s, _) => System (Create s) | (1, s, _) => System (Connect s) | (2, _, _) => System Reset
  | (3, _, _) => System Shutdown | (4, _, _) => System CloseConnection | (5, _, _) => System QuietMode
  | (6, _, _) => System ShowDatabases | (7, _, _) => System Test
  | (8, s, _) => DB (ExecuteSQL s) | (9, s, _) => DB (RegisterQuery s) | (10, s, _) => DB (RunQueryFull s)
  | (11, s, _) => DB (RunQueryPartial s) | (12, s, _) => DB (ConvertQuery s) | (13, _, _) => DB ShowTables
  | (14, _, _) => DB ShowQueries | (15, s, _) => DB (Generate s) | (_, n, p) => DB (Import n p)
  end.

#[export] Instance Command_countable : Countable Command :=
  inj_countable' Command_code Command_decode (fun c => ltac:(by destruct c as [[]|[]])).

(** Bits and an end mark. *)
Definition marked (p : positive) : list byte := bits_of p ++ [xff].

Definition unmarked (bs : list byte) : option positive :=
  match reverse bs with xff :: l => of_bits (reverse l) | _ => None end.

Definition bit_wire : WireCodec := {|
  response_to_vec r := inl (marked (encode (on_wire r)));
  response_from_slice bs := p ← unmarked bs; decode p;
  command_to_vec c := inl (marked (encode c));
  command_from_slice bs := p ← unmarked bs; decode p;
|}.

Lemma unmarked_marked p : unmarked (marked p) = Some p.
Proof. unfold unmarked, marked. rewrite reverse_snoc, reverse_involutive. apply of_bits_of. Qed.

Lemma no_mark p : xff ∉ bits_of p.
Proof. induction p as [p IH|p IH|]; cbn; rewrite ?not_elem_of_cons; [done..|apply not_elem_of_nil]. Qed.

Lemma unmarked_cut p k : (k < length (marked p))%nat -> unmarked (take k (marked p)) = None.
Proof.
  unfold marked. rewrite length_app. cbn. intros Hk. rewrite take_app_le by lia. unfold unmarked.
  destruct (reverse (take k (bits_of p))) as [|b l] eqn:E; [done|].
  assert (b ∈ bits_of p) as Hb.
  { assert (b ∈ take k (bits_of p)) as Ht by (rewrite <- elem_of_reverse, E; apply list_elem_of_here).
    rewrite <- (take_drop k (bits_of p)), elem_of_app. by left. }
  pose proof (no_mark p) as Hm. destruct b; done.
Qed.

#[export] Instance bit_wire_laws : WireLaws (H := bit_wire).
Proof.
  split.
  - intros r. eexists. split; [done|]. cbn. rewrite unmarked_marked. cbn. by rewrite decode_encode.
  - intros c. eexists. split; [done|]. cbn. rewrite unmarked_marked. cbn. by rewrite decode_encode.
  - intros r bs [= <-]. unfold marked. by destruct (bits_of _).
  - intros c bs k [= <-] Hk. cbn. by rewrite unmarked_cut.
Qed.

Definition demo_answers : list (Response * bool) := [(SystemMsg "Reset server.", false); (SystemErr "no", true)].

Lemma responses_delivered_witness :
  exists written, send_all (H := bit_wire) demo_answers = Ok written /\
    forall rest arr, exists arr',
      wait_all (H := bit_wire) 2 (mkSocket (written ++ rest) arr) =
      (mkSocket rest arr', Ok [SystemMsg "Reset server."; QuietErr]).
Proof.
  apply (@responses_delivered bit_wire bit_wire_laws demo_answers).
  repeat constructor; intros bs E; injection E as <-; vm_compute; reflexivity.
Defined.

Lemma read_command_whole_witness :
  (read_command (H := bit_wire) (mkSocket (marked (encode (System Reset))) [])).2 = Some (System Reset) /\
  (read_command (H := bit_wire) (mkSocket (marked (encode (System Reset))) [3%nat])).2 = None.
Proof.
  pose proof (@read_command_whole bit_wire bit_wire_laws (System Reset) (marked (encode (System Reset))) [] eq_refl) as E1.
  pose proof (@read_command_whole bit_wire bit_wire_laws (System Reset) (marked (encode (System Reset))) [3%nat] eq_refl) as E2.
  split; [etransitivity; [exact E1|vm_compute; reflexivity]|etransitivity; [exact E2|vm_compute; reflexivity]].
Defined.
