(* ===== verification/Database.v ===== *)
(** * Databases

    [src/src/server/src/query_registrar.rs] and [database_state.rs]: the
    registrar of named queries, and a database with its catalog.  The maps of
    the registrar are behind locks; operations are atomic.  The storage and the
    statistics are shared by all databases of a server.  The registrar refines a
    table of queries ([registrar_simulates]). *)

From S2P Require Import Prelude Common Types Sql Storage Stats Catalog Plan Mutator Translate Commands.

Open Scope Z_scope.

(** ** The registrar of queries *)

Record QueryRegistrar := mkRegistrar {
  query_plans : gmap string PhysicalPlan;
  query_filenames : gmap string string;
  query_watermarks : gmap string Z;
  in_progress_queries : gmap string Z;
}.

Definition registrar_new : QueryRegistrar := mkRegistrar ∅ ∅ ∅ ∅.

Definition registrar_reset (q : QueryRegistrar) : QueryRegistrar * result unit :=
  if negb (bool_decide (in_progress_queries q = ∅))
  then (q, Err (CrustyErr "Queries are in progress cannot drop/reset"))
  else (mkRegistrar ∅ ∅ ∅ ∅, Ok tt).

Definition register_query (q : QueryRegistrar) (query_name json_path : string) (query_plan : PhysicalPlan)
  : QueryRegistrar * result unit :=
  (mkRegistrar (<[query_name := query_plan]> (query_plans q)) (<[query_name := json_path]> (query_filenames q))
     (<[query_name := 0]> (query_watermarks q)) (in_progress_queries q), Ok tt).

Definition quoted (s : string) : string := String (Ascii.ascii_of_nat 34) (s +:+ String (Ascii.ascii_of_nat 34) EmptyString).

(** [assert!(start_timestamp.unwrap_or(0) <= end_timestamp)] comes first. *)
(** [begin_query] in its two critical sections: the lock of the queries in progress
    is given back after the test and taken again for the insertion. *)
Definition begin_check (q : QueryRegistrar) (query_name : string) (start_timestamp : option Z) (end_timestamp : Z)
  : result unit :=
  if negb (default 0 start_timestamp <=? end_timestamp) then Panic
  else
    match in_progress_queries q !! query_name with
    | Some _ => Err (CrustyErr ("Query " +:+ quoted query_name +:+ " already in progress."))
    | None => Ok tt
    end.

Definition begin_insert (q : QueryRegistrar) (query_name : string) (end_timestamp : Z)
  : QueryRegistrar * result PhysicalPlan :=
  match query_plans q !! query_name with
  | Some physical_plan =>
      (mkRegistrar (query_plans q) (query_filenames q) (query_watermarks q)
         (<[query_name := end_timestamp]> (in_progress_queries q)), Ok physical_plan)
  | None => (q, Err (CrustyErr ("Query " +:+ quoted query_name +:+ " has not been registered.")))
  end.

(** A call that no other call comes in between. *)
Definition begin_query (q : QueryRegistrar) (query_name : string) (start_timestamp : option Z) (end_timestamp : Z)
  : QueryRegistrar * result PhysicalPlan :=
  match begin_check q query_name start_timestamp end_timestamp with
  | Ok _ => begin_insert q query_name end_timestamp
  | Err e => (q, Err e)
  | Panic => (q, Panic)
  end.

Definition finish_query (q : QueryRegistrar) (query_name : string) : QueryRegistrar * result unit :=
  match in_progress_queries q !! query_name with
  | None => (q, Err (CrustyErr ("Query " +:+ quoted query_name +:+ " is not in progress.")))
  | Some new_watermark =>
      (mkRegistrar (query_plans q) (query_filenames q) (<[query_name := new_watermark]> (query_watermarks q))
         (delete query_name (in_progress_queries q)), Ok tt)
  end.

(** The hash map enumerates its entries in an unspecified order: [order] permutes
    them. *)
Definition registered_query_names (order : list (string * string) -> list (string * string)) (q : QueryRegistrar)
  : string :=
  let l := (fun '(query_name, json_path) => query_name +:+ " loaded from " +:+ json_path)
             <$> order (map_to_list (query_filenames q)) in
  let s := String.concat (String nl EmptyString) l in
  if String.eqb s EmptyString then "No registered queries" else s.

(** ** Databases *)

Record StateMeta := mkMeta {
  state_type : StateType;
  meta_id : ContainerId;
  meta_name : option string;
  last_update : option Z;
  dependencies : option (list ContainerId);
}.

Record DatabaseState := mkDB {
  db_id : Z;
  db_name : string;
  catalog : Catalog;
  container_vec : gmap Z StateMeta;
  atomic_time : Z;
  query_registrar : QueryRegistrar;
}.

(** [DefaultHasher], whose algorithm is not specified. *)
Class DbHash := get_database_id : string -> Z.

Definition new_from_name `{DbHash} (name : string) : DatabaseState :=
  mkDB (get_database_id name) name Catalog_new ∅ 0 registrar_new.

Definition set_catalog (db : DatabaseState) (c : Catalog) : DatabaseState :=
  mkDB (db_id db) (db_name db) c (container_vec db) (atomic_time db) (query_registrar db).

Definition get_current_time (db : DatabaseState) : Z := atomic_time db.

Definition db_reset (db : DatabaseState) : DatabaseState * result unit :=
  match registrar_reset (query_registrar db) with
  | (q, Ok _) => (mkDB (db_id db) (db_name db) (catalog db) ∅ (atomic_time db) q, Ok tt)
  | (q, Err e) => (mkDB (db_id db) (db_name db) (catalog db) (container_vec db) (atomic_time db) q, Err e)
  | (q, Panic) => (mkDB (db_id db) (db_name db) (catalog db) (container_vec db) (atomic_time db) q, Panic)
  end.

(** A database with the managers of its server. *)
Record Engine (St G : Type) := mkEngine { e_mg : Managers St G; e_db : DatabaseState }.
Arguments mkEngine {St G}.
Arguments e_mg {St G}.
Arguments e_db {St G}.

Section CreateTable.
Context `{Profile, SqlParser} {St It G : Type} `{!StorageTrait St It, !Rng G}.

Abbreviation EM := (stm (Engine St G)).

Definition e_catalog : EM Catalog := gets (fun e => catalog (e_db e)).

(** The calls on the shared catalog. *)
Definition with_catalog {A} (f : Catalog -> result (Catalog * A)) : EM A := fun e =>
  match f (catalog (e_db e)) with
  | Ok (c, a) => (mkEngine (e_mg e) (set_catalog (e_db e) c), Ok a)
  | Err er => (e, Err er)
  | Panic => (e, Panic)
  end.

Definition e_get_table_id (n : string) : EM ContainerId := with_catalog (fun c => get_table_id c n).

Definition e_add_table (info : TableInfo) : EM (option unit) := with_catalog (fun c => Ok (add_table c info)).

Definition with_managers {A} (m : stm (Managers St G) A) : EM A := fun e =>
  let '(mg, r) := m (e_mg e) in (mkEngine mg (e_db e), r).

Definition e_create_container (c : ContainerId) (n : option string) : EM unit := fun e =>
  let '(s, r) := create_container (sm (e_mg e)) c n in
  (mkEngine (mkManagers s (stats (e_mg e))) (e_db e), r).

Definition e_register_container (c : ContainerId) (sc : TableSchema) : EM unit :=
  with_managers (with_stats (fun st => register_container st c sc)).

Definition table_pks (columns : list ColumnDef) (constraints : list TableConstraint) : result (list Ident) :=
  match sql_get_pks columns constraints with
  | Ok pks => Ok pks
  | Err (RespSQLConstraintError s) => Err (CrustyErr s)
  | _ => Panic
  end.

Definition column_attribute (table_name : string) (pks : list Ident) (col : ColumnDef) : result Attribute :=
  let constraint := if decide (col_name col ∈ pks) then PrimaryKey else CNone in
  dtype ← get_attr (col_type col);
  Ok (mkAttribute (table_name +:+ "." +:+ id_value (col_name col)) dtype constraint).

Definition create_table (table_name : string) (columns : list ColumnDef) (constraints : list TableConstraint)
  : EM QueryResult :=
  table_id ← e_get_table_id table_name;
  pks ← lift (table_pks columns constraints);
  attributes ← lift (mapM_o (column_attribute table_name pks) columns);
  let schema := TableSchema_new attributes in
  _ ← e_create_container table_id (Some table_name);
  res ← e_add_table (mkTableInfo table_id table_name schema);
  match res with
  | None => throw (CrustyErr ("Table " +:+ table_name +:+ " already exists"))
  | Some _ =>
      _ ← e_register_container table_id schema;
      mret (MessageOnly ("Table " +:+ table_name +:+ " created"))
  end.
End CreateTable.

Abbreviation EM St G := (stm (Engine St G)).

(** ** The registrar refines a table of queries *)

(** A registered query: its plan, its watermark and, while it runs, the watermark
    it will have. *)
Record aquery := mkAQ { aq_plan : PhysicalPlan; aq_mark : Z; aq_end : option Z }.

Inductive reg_op :=
| RRegister (n path : string) (p : PhysicalPlan)
| RBegin (n : string) (start : option Z) (stop : Z)
| RFinish (n : string)
| RReset.

Definition run_reg_op (q : QueryRegistrar) (o : reg_op) : QueryRegistrar * result (option PhysicalPlan) :=
  match o with
  | RRegister n path p => let '(q, r) := register_query q n path p in (q, _ ← r; Ok None)
  | RBegin n start stop => let '(q, r) := begin_query q n start stop in (q, p ← r; Ok (Some p))
  | RFinish n => let '(q, r) := finish_query q n in (q, _ ← r; Ok None)
  | RReset => let '(q, r) := registrar_reset q in (q, _ ← r; Ok None)
  end.

Fixpoint run_reg_ops (q : QueryRegistrar) (os : list reg_op) : QueryRegistrar * list (result (option PhysicalPlan)) :=
  match os with
  | [] => (q, [])
  | o :: os' => let '(q, r) := run_reg_op q o in let '(q, rs) := run_reg_ops q os' in (q, r :: rs)
  end.

(** The table of queries: a query runs at most once at a time, a finished run
    moves its watermark, registering again does not stop a run. *)
Definition a_reg_op (t : gmap string aquery) (o : reg_op) : gmap string aquery * result (option PhysicalPlan) :=
  match o with
  | RRegister n _ p => (<[n := mkAQ p 0 (x ← t !! n; aq_end x)]> t, Ok None)
  | RBegin n start stop =>
      if decide (default 0 start <= stop) then
        match t !! n with
        | None => (t, Err (CrustyErr ("Query " +:+ quoted n +:+ " has not been registered.")))
        | Some (mkAQ _ _ (Some _)) => (t, Err (CrustyErr ("Query " +:+ quoted n +:+ " already in progress.")))
        | Some (mkAQ p w None) => (<[n := mkAQ p w (Some stop)]> t, Ok (Some p))
        end
      else (t, Panic)
  | RFinish n =>
      match t !! n with
      | Some (mkAQ p _ (Some stop)) => (<[n := mkAQ p stop None]> t, Ok None)
      | _ => (t, Err (CrustyErr ("Query " +:+ quoted n +:+ " is not in progress.")))
      end
  | RReset =>
      if decide (map_Forall (fun _ x => aq_end x = None) t) then (∅, Ok None)
      else (t, Err (CrustyErr "Queries are in progress cannot drop/reset"))
  end.

Fixpoint a_reg_ops (t : gmap string aquery) (os : list reg_op) : gmap string aquery * list (result (option PhysicalPlan)) :=
  match os with
  | [] => (t, [])
  | o :: os' => let '(t, r) := a_reg_op t o in let '(t, rs) := a_reg_ops t os' in (t, r :: rs)
  end.

(** The four maps, read as one. *)
Record registrar_rep (q : QueryRegistrar) (t : gmap string aquery) : Prop := {
  rr_plans : forall n, query_plans q !! n = aq_plan <$> t !! n;
  rr_marks : forall n, query_watermarks q !! n = aq_mark <$> t !! n;
  rr_runs : forall n, in_progress_queries q !! n = x ← t !! n; aq_end x;
  rr_files : forall n, is_Some (query_filenames q !! n) <-> is_Some (t !! n);
}.

Ltac at_name n m :=
  destruct (decide (n = m)) as [<-|]; [rewrite ?lookup_insert_eq, ?lookup_delete_eq|rewrite ?lookup_insert_ne, ?lookup_delete_ne by done].

Lemma register_rep q t n path p : registrar_rep q t ->
  registrar_rep (register_query q n path p).1 (<[n := mkAQ p 0 (x ← t !! n; aq_end x)]> t).
Proof.
  intros [R1 R2 R3 R4]. split; intros m; cbn; at_name n m; try done.
Qed.

Lemma begin_rep q t n start stop : registrar_rep q t -> default 0 start <= stop ->
  match t !! n with
  | None => begin_query q n start stop = (q, Err (CrustyErr ("Query " +:+ quoted n +:+ " has not been registered.")))
  | Some (mkAQ _ _ (Some _)) =>
      begin_query q n start stop = (q, Err (CrustyErr ("Query " +:+ quoted n +:+ " already in progress.")))
  | Some (mkAQ p w None) => exists q', begin_query q n start stop = (q', Ok p) /\
      registrar_rep q' (<[n := mkAQ p w (Some stop)]> t)
  end.
Proof.
  intros [R1 R2 R3 R4] Hle. unfold begin_query, begin_check, begin_insert. rewrite (proj2 (Z.leb_le _ _) Hle), R3, R1. cbn [negb].
  destruct (t !! n) as [[p w [s|]]|] eqn:E; cbn; [done| |done]. eexists. split; [done|].
  split; intros m; cbn; at_name n m; try done.
  - by rewrite R1, E.
  - by rewrite R2, E.
  - rewrite R4, E. split; by eexists.
Qed.

Lemma finish_rep q t n : registrar_rep q t ->
  match t !! n with
  | Some (mkAQ p _ (Some stop)) => exists q', finish_query q n = (q', Ok tt) /\ registrar_rep q' (<[n := mkAQ p stop None]> t)
  | _ => finish_query q n = (q, Err (CrustyErr ("Query " +:+ quoted n +:+ " is not in progress.")))
  end.
Proof.
  intros [R1 R2 R3 R4]. unfold finish_query. rewrite R3. destruct (t !! n) as [[p w [s|]]|] eqn:E; cbn; [|done..].
  eexists. split; [done|]. split; intros m; cbn; at_name n m; try done.
  - by rewrite R1, E.
  - rewrite R4, E. split; by eexists.
Qed.

Lemma reset_rep q t : registrar_rep q t ->
  if decide (map_Forall (fun _ x => aq_end x = None) t) then
    exists q', registrar_reset q = (q', Ok tt) /\ registrar_rep q' ∅
  else registrar_reset q = (q, Err (CrustyErr "Queries are in progress cannot drop/reset")).
Proof.
  intros [R1 R2 R3 R4]. unfold registrar_reset. case_decide as Hd.
  - rewrite bool_decide_eq_true_2; [eexists; split; [done|]|].
    + split; intros n; cbn; rewrite !lookup_empty; done.
    + apply map_eq. intros n. rewrite R3, lookup_empty. destruct (t !! n) as [x|] eqn:E; [|done]. exact (Hd n x E).
  - rewrite bool_decide_eq_false_2; [done|]. intros He. apply Hd. intros n x E.
    specialize (R3 n). rewrite E, He, lookup_empty in R3. done.
Qed.

Lemma reg_op_simulates q t o : registrar_rep q t ->
  registrar_rep (run_reg_op q o).1 (a_reg_op t o).1 /\ (run_reg_op q o).2 = (a_reg_op t o).2.
Proof.
  intros R. destruct o as [n path p|n start stop|n|]; cbn [run_reg_op a_reg_op].
  - split; [by apply register_rep|done].
  - case_decide as Hle.
    + pose proof (begin_rep q t n start stop R Hle) as B. destruct (t !! n) as [[p w [s|]]|].
      * by rewrite B.
      * by destruct B as (q' & -> & R').
      * by rewrite B.
    + unfold begin_query, begin_check. rewrite (proj2 (Z.leb_gt _ _)) by lia. done.
  - pose proof (finish_rep q t n R) as F. destruct (t !! n) as [[p w [s|]]|].
    + by destruct F as (q' & -> & R').
    + by rewrite F.
    + by rewrite F.
  - pose proof (reset_rep q t R) as F. case_decide.
    + by destruct F as (q' & -> & R').
    + by rewrite F.
Qed.

(** Two calls whose critical sections alternate both begin the query; one call
    after the other, the second is refused. *)
Lemma begin_race q n p start1 stop1 start2 stop2 :
  query_plans q !! n = Some p -> in_progress_queries q !! n = None ->
  default 0 start1 <= stop1 -> default 0 start2 <= stop2 ->
  begin_check q n start1 stop1 = Ok tt /\ begin_check q n start2 stop2 = Ok tt /\
  exists q1 q2, begin_insert q n stop1 = (q1, Ok p) /\ begin_insert q1 n stop2 = (q2, Ok p) /\
    in_progress_queries q2 !! n = Some stop2 /\
    (begin_query q1 n start2 stop2).2 = Err (CrustyErr ("Query " +:+ quoted n +:+ " already in progress.")).
Proof.
  intros Hp Hi H1 H2. unfold begin_query, begin_check, begin_insert. rewrite Hi, Hp.
  rewrite (proj2 (Z.leb_le _ _) H1), (proj2 (Z.leb_le _ _) H2). cbn [negb]. split; [done|]. split; [done|].
  eexists _, _. split; [done|]. cbn [query_plans in_progress_queries]. rewrite Hp, lookup_insert_eq.
  split; [done|]. cbn [in_progress_queries]. by rewrite lookup_insert_eq.
Qed.

(** C38: the registrar is a table of queries: any sequence of register, begin,
    finish and reset calls on a new registrar, each ended before the next begins,
    returns exactly what the table of queries returns.  A query runs at most once at
    a time, is finished only while it runs, and nothing is reset while a query
    runs. *)
Theorem registrar_simulates os : (run_reg_ops registrar_new os).2 = (a_reg_ops ∅ os).2.
Proof.
  assert (registrar_rep registrar_new ∅) as R by (split; intros n; cbn; by rewrite !lookup_empty).
  revert R. generalize registrar_new (∅ : gmap string aquery). induction os as [|o os IH]; intros q t R; [done|].
  cbn [run_reg_ops a_reg_ops]. destruct (reg_op_simulates q t o R) as [R' E].
  destruct (run_reg_op q o) as [q' r], (a_reg_op t o) as [t' r']. cbn in R', E. subst r'. specialize (IH q' t' R').
  destruct (run_reg_ops q' os), (a_reg_ops t' os). cbn in *. by rewrite IH.
Qed.
