(* ===== verification/Conductor.v ===== *)
(** * The conductor

    [src/src/server/src/conductor.rs]: runs SQL statements and plans on a
    database.  [fuel] bounds the depth of plans and the loops of the executor; the
    file system is a parameter. *)

From S2P Require Import Prelude Bytes Common Types Sql Expr Storage Stats Catalog Plan Planner OpIter LockManager.
From S2P Require Import Mutator Translate Commands Database.

Open Scope Z_scope.

(** The conductor without its stateless parts: the executor's plan is set before
    every execution and taken by it. *)
Record Conductor := mkConductor { active_txn : Transaction }.

(** [Conductor::new], with the process-wide counter of transactions. *)
Definition Conductor_new (counter : Z) : Z * Conductor :=
  let '(counter, t) := Transaction_new counter in (counter, mkConductor t).

(** The CSV file behind a path, when it can be opened. *)
Class FileSystem (Rd : Type) := open_csv : string -> option Rd.

Section Conductor.
Context `{Profile, Chrono, Cbor, SqlParser} {St It G Rd : Type}.
Context `{!StorageTrait St It, !Rng G, !CsvCrate Rd, !FileSystem Rd}.
Context (fuel : nat) (self : Conductor).

Definition e_from_sql (q : Query) : EM St G LogicalPlan := fun e =>
  let '(c, r) := from_sql q (catalog (e_db e)) in (mkEngine (e_mg e) (set_catalog (e_db e) c), r).

Definition run_opiterator (op : Op It) : EM St G QueryResult :=
  s ← gets (fun e => sm (e_mg e));
  '(sc, res) ← lift (execute fuel s op);
  mret (SelectResult sc res None).

Definition run_physical_plan (physical_plan : PhysicalPlan) : EM St G QueryResult :=
  _ ← lift (tid (active_txn self));
  c ← e_catalog;
  op_iterator ← lift (physical_plan_to_op_iterator (It := It) c physical_plan fuel);
  run_opiterator op_iterator.

Definition to_physical_plan (logical_plan : LogicalPlan) : EM St G PhysicalPlan :=
  lift (logical_plan_to_physical_plan logical_plan).

(** What the parser's answer means for a caller that wants statements. *)
Definition parsed_statements (sql : string) : result (list Statement) :=
  match parse_sql sql with
  | RespSQL ast => Ok ast
  | RespSQLError e => Err (c_err ("SQL error: " +:+ e))
  | RespSQLConstraintError msg => Err (c_err ("SQL constraint error: " +:+ msg))
  | RespErr => Err (c_err "Unknown error parsing SQL")
  end.

Definition to_logical_plan (sql : string) : EM St G LogicalPlan :=
  ast ← lift (parsed_statements sql);
  st ← lift (unwrap_opt (head ast));
  match st with
  | QueryStmt qbox => e_from_sql qbox
  | _ => throw (c_err "Not a query")
  end.

Definition run_insert (table_name : ObjectName) (columns : list Ident) (source : option Query) : EM St G QueryResult :=
  match source with
  | None => throw (c_err "No source for insert")
  | Some source =>
      match q_body source with
      | ValuesBody values =>
          match columns with
          | [] =>
              table_name ← lift (get_name table_name);
              table_id ← e_get_table_id table_name;
              c ← e_catalog;
              table_schema ← lift (unwrap_opt (get_table_schema c table_id));
              _ ← lift (tid (active_txn self));
              count ← with_managers (import_tuples values table_id table_schema);
              mret (InsertResult count table_name)
          | _ => throw (c_err "Inserts with columns specified are not currently supported. Must supply values for the entire table")
          end
      | _ => throw (c_err "Inserts via query not currently supported. Must supply values")
      end
  end.

Definition run_query (qbox : Query) : EM St G QueryResult :=
  lp ← e_from_sql qbox;
  pp ← lift (logical_plan_to_physical_plan lp);
  run_physical_plan pp.

Definition run_statement (st : Statement) : EM St G QueryResult :=
  match st with
  | CreateTable table_name columns constraints =>
      n ← lift (get_name table_name);
      create_table n columns constraints
  | QueryStmt qbox => run_query qbox
  | InsertStmt table_name columns source => run_insert table_name columns source
  | OtherStatement => lift Panic
  end.

Definition run_sql (ast : list Statement) : EM St G QueryResult :=
  match ast with
  | [] => throw (c_err "Empty SQL command")
  | st :: _ => run_statement st
  end.

Definition run_sql_from_string (sql : string) : EM St G QueryResult :=
  ast ← lift (parsed_statements sql); run_sql ast.

(** A failed import is unwrapped. *)
Definition unwrap_stm {A} (m : stm (Managers St G) A) : stm (Managers St G) A := fun mg =>
  let '(mg, r) := m mg in (mg, unwrap r).

Definition import_csv (table_name file_path : string) : EM St G QueryResult :=
  table_id ← e_get_table_id table_name;
  c ← e_catalog;
  table_schema ← lift (unwrap_opt (get_table_schema c table_id));
  file ← lift (unwrap_opt (open_csv file_path));
  _ ← lift (tid (active_txn self));
  num_inserts ← with_managers (unwrap_stm (import_records_from_reader fuel (mkCsvReader table_schema file) table_id));
  mret (InsertResult num_inserts table_name).
End Conductor.
