(* ===== verification/Server.v ===== *)
(** * The server

    [src/src/server/src/server_state.rs] (databases and connections),
    [handler.rs] (commands) and the request loop of [server.rs], as a step
    relation over the open sessions.  A command runs as one step: the threads of
    the server interleave between commands only.  The order in which a hash map
    enumerates its entries is a parameter. *)

From S2P Require Import Prelude Bytes Common Types Sql Expr Storage Stats Catalog Plan Planner OpIter LockManager.
From S2P Require Import Mutator Translate Commands Wire Database Conductor.

Open Scope Z_scope.

Class MapOrder := {
  enumerate : gmap Z DatabaseState -> list (Z * DatabaseState);
  enumerate_tables : list TableInfo -> list TableInfo;
}.

Class MapOrderLaws `{MapOrder} : Prop := enumerate_perm : forall m, enumerate m ≡ₚ map_to_list m.

(** ** The state of the server *)

(** [txn_counter] is the process-wide counter of transaction ids. *)
Record ServerState (St G : Type) := mkServer {
  id_to_db : gmap Z DatabaseState;
  active_connections : gmap Z Z;
  managers : Managers St G;
  txn_counter : Z;
  shutdown_signal : bool;
}.
Arguments mkServer {St G}.
Arguments id_to_db {St G}.
Arguments active_connections {St G}.
Arguments managers {St G}.
Arguments txn_counter {St G}.
Arguments shutdown_signal {St G}.

Abbreviation SM St G := (stm (ServerState St G)).

Section Server.
Context `{Profile, Chrono, Cbor, SqlParser, DbHash, MapOrder} {St It G Rd : Type}.
Context `{!StorageTrait St It, !Rng G, !CsvCrate Rd, !FileSystem Rd}.
Context (fuel : nat).

Abbreviation Srv := (ServerState St G).

Definition put_db (i : Z) (db : DatabaseState) (s : Srv) : Srv :=
  mkServer (<[i := db]> (id_to_db s)) (active_connections s) (managers s) (txn_counter s) (shutdown_signal s).

Definition put_managers (mg : Managers St G) (s : Srv) : Srv :=
  mkServer (id_to_db s) (active_connections s) mg (txn_counter s) (shutdown_signal s).

Definition get_connected_db (s : Srv) (client_id : Z) : result DatabaseState :=
  match active_connections s !! client_id with
  | Some db_id =>
      match id_to_db s !! db_id with
      | Some db => Ok db
      | None => Err (CrustyErr ("database with id " +:+ pretty db_id +:+ " is not found"))
      end
  | None => Err (CrustyErr ("client with id " +:+ pretty client_id +:+ " is not connected to a database"))
  end.

Definition get_db_names (s : Srv) : list string := (fun x => db_name x.2) <$> enumerate (id_to_db s).

(** Each database is reset in turn; a database with running queries stops the
    loop. *)
Definition reset_db (x : Z * DatabaseState) : SM St G unit := fun s =>
  let '(db, r) := db_reset x.2 in (put_db x.1 db s, r).

Definition clear_dbs : SM St G unit := fun s =>
  (mkServer ∅ ∅ (managers s) (txn_counter s) (shutdown_signal s), Ok tt).

Definition reset_managers : SM St G unit := fun s =>
  let '(st, r) := Storage.reset (sm (managers s)) in (put_managers (mkManagers st (stats (managers s))) s, r).

Definition server_reset : SM St G unit :=
  dbs ← gets (fun s => enumerate (id_to_db s));
  _ ← for_each reset_db dbs;
  _ ← clear_dbs;
  reset_managers.

Definition create_new_db (name : string) : SM St G unit := fun s =>
  let db_id := get_database_id name in
  match id_to_db s !! db_id with
  | Some _ => (s, Err (CrustyErr ("database with name " +:+ str_debug name +:+ " already exists")))
  | None => (put_db db_id (new_from_name name) s, Ok tt)
  end.

Fixpoint find_db (db_name0 : string) (l : list (Z * DatabaseState)) : result Z :=
  match l with
  | [] => Err (CrustyErr "db_name not found!")
  | (i, db) :: l' => if String.eqb (db_name db) db_name0 then Ok i else find_db db_name0 l'
  end.

Definition get_db_id_from_name (s : Srv) (db_name : string) : result Z := find_db db_name (enumerate (id_to_db s)).

(** [connect_to_db] gives the lock of the databases back before it takes that of the
    connections: two critical sections. *)
Definition record_connection (client_id db_id : Z) : SM St G unit := fun s =>
  (mkServer (id_to_db s) (<[client_id := db_id]> (active_connections s)) (managers s) (txn_counter s)
     (shutdown_signal s), Ok tt).

Definition connect_to_db (name : string) (client_id : Z) : SM St G unit := fun s =>
  match get_db_id_from_name s name with
  | Ok i => record_connection client_id i s
  | Err e => (s, Err e)
  | Panic => (s, Panic)
  end.

Definition close_connection (client_id : Z) : SM St G unit := fun s =>
  (mkServer (id_to_db s) (delete client_id (active_connections s)) (managers s) (txn_counter s)
     (shutdown_signal s), Ok tt).

(** [shutdown] sets the signal and persists the storage, which keeps its state. *)
Definition set_shutdown : SM St G unit := fun s =>
  (mkServer (id_to_db s) (active_connections s) (managers s) (txn_counter s) true, Ok tt).

(** ** Commands *)

(** [Conductor::new] on the shared counter. *)
Definition new_conductor : SM St G Conductor := fun s =>
  let '(n, c) := Conductor_new (txn_counter s) in
  (mkServer (id_to_db s) (active_connections s) (managers s) n (shutdown_signal s), Ok c).

(** A computation on one database of the server. *)
Definition on_db {A} (db : DatabaseState) (m : EM St G A) : SM St G A := fun s =>
  let '(e, r) := m (mkEngine (managers s) db) in
  (put_managers (e_mg e) (put_db (db_id db) (e_db e) s), r).

(** The quiet mode of the session is returned with the answer. *)
Definition run_system_command (quiet_mode : bool) (client_id : Z) (c : SystemCommand)
  : SM St G (bool * bool * Response) :=
  match c with
  | ShowDatabases =>
      db_names ← gets get_db_names;
      mret (quiet_mode, false, SystemMsg ("Databases: " +:+ String.concat ", " db_names))
  | Reset => _ ← server_reset; mret (quiet_mode, false, SystemMsg "Reset server.")
  | Shutdown => _ ← set_shutdown; mret (quiet_mode, true, RShutdown)
  | QuietMode => mret (true, false, QuietOk)
  | Test => lift Panic
  | Create db_name =>
      _ ← create_new_db db_name; mret (quiet_mode, false, SystemMsg ("Created database " +:+ db_name))
  | Connect db_name =>
      _ ← connect_to_db db_name client_id; mret (quiet_mode, false, SystemMsg ("Connected to database " +:+ db_name))
  | CloseConnection => _ ← close_connection client_id; mret (quiet_mode, false, SystemMsg "Closing connection")
  end.

(** [match r { Ok(response) => response, Err(e) => .. }] *)
Definition or_else {A} (m : SM St G A) (f : CrustyError -> A) : SM St G A := fun s =>
  let '(s, r) := m s in (s, match r with Err e => Ok (f e) | x => x end).

Definition handle_system_command (quiet_mode : bool) (client_id : Z) (c : SystemCommand)
  : SM St G (bool * bool * Response) :=
  or_else (run_system_command quiet_mode client_id c)
    (fun e => (quiet_mode, false, SystemErr (CrustyError_display e))).

Definition run_database_command (db : DatabaseState) (c : DBCommand) : SM St G (bool * Response) :=
  match c with
  | ExecuteSQL sql =>
      conductor ← new_conductor;
      qr ← on_db db (run_sql_from_string fuel conductor sql);
      mret (false, RQueryResult qr)
  | ShowTables =>
      let tables := get_table_names enumerate_tables (catalog db) in
      mret (false, RQueryResult (MessageOnly ("Tables: " +:+ String.concat ", " tables)))
  | Import table_name file_path =>
      conductor ← new_conductor;
      qr ← on_db db (import_csv (Rd := Rd) fuel conductor table_name file_path);
      match qr with
      | InsertResult inserted table_name =>
          mret (false, SystemMsg ("Imported " +:+ pretty inserted +:+ " rows into table " +:+ table_name))
      | _ => throw (c_err "Unexpected query result from import")
      end
  | _ => lift Panic
  end.

Definition handle_database_command (db : DatabaseState) (c : DBCommand) : SM St G (bool * Response) :=
  or_else (run_database_command db c) (fun e => (false, QueryExecutionError (CrustyError_display e))).

Definition handle_command (quiet_mode : bool) (c : Command) (client_id : Z) : SM St G (bool * bool * Response) :=
  match c with
  | System system_command => handle_system_command quiet_mode client_id system_command
  | DB database_command =>
      found ← gets (fun s => get_connected_db s client_id);
      match found with
      | Ok db => '(should_break, r) ← handle_database_command db database_command; mret (quiet_mode, should_break, r)
      | Err _ => mret (quiet_mode, false, SystemErr "Not connected to a database")
      | Panic => lift Panic
      end
  end.

(** ** Sessions *)

(** The server with its open sessions and their quiet modes; [w_next] is the id of
    the next client. *)
Record World := mkWorld {
  w_server : Srv;
  w_sessions : gmap Z bool;
  w_next : Z;
  w_listening : bool;
}.

Inductive event :=
| Incoming
| Request (client : Z) (c : Command)
| Hangup (client : Z).

(** The accepting thread looks at the signal after every connection. *)
Definition accept (w : World) : option (World * option (Z * Response)) :=
  if w_listening w then
    if shutdown_signal (w_server w)
    then Some (mkWorld (w_server w) (w_sessions w) (w_next w) false, None)
    else Some (mkWorld (w_server w) (<[w_next w := false]> (w_sessions w)) (wrap_u 64 (w_next w + 1)) true, None)
  else None.

(** One round of the loop of a session: a request is handled and answered, then
    the signal is looked at.  A panic ends the thread of the session. *)
Definition handle_request (w : World) (client : Z) (c : Command) : option (World * option (Z * Response)) :=
  quiet_mode ← w_sessions w !! client;
  Some
    match handle_command quiet_mode c client (w_server w) with
    | (s, Ok (quiet_mode, should_break, response)) =>
        let sessions :=
          if should_break || shutdown_signal s then delete client (w_sessions w)
          else <[client := quiet_mode]> (w_sessions w) in
        (mkWorld s sessions (w_next w) (w_listening w), Some (client, quieted quiet_mode response))
    | (s, _) => (mkWorld s (delete client (w_sessions w)) (w_next w) (w_listening w), None)
    end.

(** The client is gone, or what it sent is not a command. *)
Definition hangup (w : World) (client : Z) : option (World * option (Z * Response)) :=
  _ ← w_sessions w !! client;
  Some (mkWorld (w_server w) (delete client (w_sessions w)) (w_next w) (w_listening w), None).

Definition serve (w : World) (e : event) : option (World * option (Z * Response)) :=
  match e with
  | Incoming => accept w
  | Request client c => handle_request w client c
  | Hangup client => hangup w client
  end.

(** The answers to a sequence of events, in order. *)
Fixpoint serve_all (w : World) (es : list event) : option (World * list (Z * Response)) :=
  match es with
  | [] => Some (w, [])
  | e :: es' =>
      '(w, o) ← serve w e;
      '(w, l) ← serve_all w es';
      Some (w, match o with Some x => x :: l | None => l end)
  end.

(** A server that was just started: client ids begin at 1. *)
Definition start_server (mg : Managers St G) (counter : Z) : World :=
  mkWorld (mkServer ∅ ∅ mg counter false) ∅ 1 true.
End Server.
Arguments World : clear implicits.
