(* ===== verification/ServerTheorems.v ===== *)
(** * The server: the theorems

    Connections lead to databases, whatever the clients do; a server that was
    told to stop stops. *)

From S2P Require Import Prelude Bytes Common Types Sql Expr Storage Stats Catalog Plan Planner OpIter LockManager.
From S2P Require Import MemStore OpIterTheorems MutatorTheorems PlannerTheorems.
From S2P Require Import Mutator Translate TranslateTheorems Commands Wire Database Conductor Server.

Open Scope Z_scope.

(** ** Statements keep the identity of their database *)

Record same_db (db db' : DatabaseState) : Prop := {
  sd_id : db_id db' = db_id db;
  sd_name : db_name db' = db_name db;
  sd_registrar : query_registrar db' = query_registrar db;
}.

Lemma same_db_refl db : same_db db db.
Proof. done. Qed.

Lemma same_db_trans a b c : same_db a b -> same_db b c -> same_db a c.
Proof. intros [] []. split; congruence. Qed.

Section Keeps.
Context {St G : Type}.

Definition keeps {A} (m : EM St G A) : Prop := forall e, same_db (e_db e) (e_db (m e).1).

Lemma keeps_bind {A B} (m : EM St G A) (f : A -> EM St G B) : keeps m -> (forall a, keeps (f a)) -> keeps (m ≫= f).
Proof.
  intros Hm Hf e. specialize (Hm e). unfold mbind, stm_bind. destruct (m e) as [e1 [a|er|]]; [|done..].
  eapply same_db_trans; [exact Hm|apply Hf].
Qed.

Lemma keeps_ret {A} (a : A) : keeps (mret a).
Proof. by intros e. Qed.

Lemma keeps_lift {A} (r : result A) : keeps (lift r).
Proof. by intros e. Qed.

Lemma keeps_throw {A} er : keeps (throw (A := A) er).
Proof. by intros e. Qed.

Lemma keeps_gets {A} (f : Engine St G -> A) : keeps (gets f).
Proof. by intros e. Qed.

Lemma keeps_catalog {A} (f : Catalog -> result (Catalog * A)) : keeps (with_catalog f).
Proof. intros e. unfold with_catalog. by destruct (f (catalog (e_db e))) as [[c a]| |]. Qed.

Lemma keeps_managers {A} (m : stm (Managers St G) A) : keeps (with_managers m).
Proof. intros e. unfold with_managers. by destruct (m (e_mg e)). Qed.
End Keeps.

Create HintDb keeps discriminated.
#[export] Hint Resolve keeps_bind keeps_ret keeps_lift keeps_throw keeps_gets keeps_catalog keeps_managers : keeps.

Section Statements.
Context `{Profile, Chrono, Cbor, SqlParser} {St It G Rd : Type}.
Context `{!StorageTrait St It, !Rng G, !CsvCrate Rd, !FileSystem Rd}.

Lemma keeps_create_container c n : keeps (G := G) (e_create_container (St := St) (It := It) c n).
Proof. intros e. unfold e_create_container. by destruct (create_container _ c n). Qed.

Lemma keeps_from_sql q : keeps (St := St) (G := G) (e_from_sql q).
Proof. intros e. unfold e_from_sql. by destruct (from_sql q _). Qed.

#[local] Hint Resolve keeps_create_container keeps_from_sql : keeps.

Ltac solve_keeps :=
  repeat first
    [ apply keeps_bind; [|intros]
    | progress eauto with keeps
    | match goal with |- keeps (match ?x with _ => _ end) => destruct x end ].

Lemma keeps_create_table n cols cons : keeps (G := G) (create_table (St := St) (It := It) n cols cons).
Proof. unfold create_table, e_get_table_id, e_add_table, e_register_container. solve_keeps. Qed.

Lemma keeps_physical_plan fuel cd pp : keeps (run_physical_plan (St := St) (It := It) (G := G) fuel cd pp).
Proof. unfold run_physical_plan, run_opiterator, e_catalog. solve_keeps. Qed.

#[local] Hint Resolve keeps_create_table keeps_physical_plan : keeps.

Lemma keeps_sql fuel cd sql : keeps (run_sql_from_string (St := St) (It := It) (G := G) fuel cd sql).
Proof.
  unfold run_sql_from_string, run_sql, run_statement, run_query, run_insert, e_get_table_id, e_catalog. solve_keeps.
Qed.

Lemma keeps_import_csv fuel cd n p : keeps (import_csv (St := St) (It := It) (G := G) (Rd := Rd) fuel cd n p).
Proof. unfold import_csv, e_get_table_id, e_catalog. solve_keeps. Qed.
End Statements.

(** ** The invariant *)

Section Invariant.
Context `{Profile, Chrono, Cbor, SqlParser, DbHash, MapOrder, !MapOrderLaws} {St It G Rd : Type}.
Context `{!StorageTrait St It, !Rng G, !CsvCrate Rd, !FileSystem Rd}.

(** Databases are stored under their ids, no query is running, and every connection leads to a database. *)
Record server_ok (s : ServerState St G) : Prop := {
  so_ids : forall i db, id_to_db s !! i = Some db -> db_id db = i /\ get_database_id (db_name db) = i;
  so_idle : forall i db, id_to_db s !! i = Some db -> in_progress_queries (query_registrar db) = ∅;
  so_connected : forall c i, active_connections s !! c = Some i -> is_Some (id_to_db s !! i);
}.

Definition preserves {A} (m : SM St G A) : Prop := forall s, server_ok s -> server_ok (m s).1.

Lemma preserves_bind {A B} (m : SM St G A) (f : A -> SM St G B) :
  preserves m -> (forall a, preserves (f a)) -> preserves (m ≫= f).
Proof.
  intros Hm Hf s Hs. specialize (Hm s Hs). unfold mbind, stm_bind. destruct (m s) as [s1 [a|er|]]; [|done..].
  by apply Hf.
Qed.

Lemma preserves_pure {A} (r : result A) : preserves (lift r).
Proof. by intros s. Qed.

Lemma preserves_ret {A} (a : A) : preserves (mret a).
Proof. by intros s. Qed.

Lemma preserves_gets {A} (f : ServerState St G -> A) : preserves (gets f).
Proof. by intros s. Qed.

Lemma preserves_or_else {A} (m : SM St G A) f : preserves m -> preserves (or_else m f).
Proof. intros Hm s Hs. specialize (Hm s Hs). unfold or_else. by destruct (m s). Qed.

Lemma put_db_ok i db db' s : id_to_db s !! i = Some db -> same_db db db' -> server_ok s -> server_ok (put_db i db' s).
Proof.
  intros E [S1 S2 S3] [H1' H2' H3']. split; cbn [put_db id_to_db active_connections].
  - intros j d [[<- <-]|[_ Hj]]%lookup_insert_Some; [|by apply H1']. rewrite S1, S2. by apply H1'.
  - intros j d [[<- <-]|[_ Hj]]%lookup_insert_Some; [|by eapply H2']. rewrite S3. by eapply H2'.
  - intros c j Hc. apply lookup_insert_is_Some'. right. by eapply H3'.
Qed.

Lemma put_managers_ok mg (s : ServerState St G) : server_ok s -> server_ok (put_managers mg s).
Proof. intros [H1' H2' H3']. by split. Qed.

Lemma on_db_ok {A} (m : EM St G A) db s : keeps m -> id_to_db s !! db_id db = Some db -> server_ok s ->
  server_ok (on_db db m s).1.
Proof.
  intros Hk E Hs. unfold on_db. specialize (Hk (mkEngine (managers s) db)).
  destruct (m (mkEngine (managers s) db)) as [e r]. cbn in Hk |- *. apply put_managers_ok.
  by eapply put_db_ok.
Qed.

(** Resetting a database whose queries are not running succeeds. *)
Lemma reset_dbs_ok l : forall s, server_ok s -> (forall x, x ∈ l -> id_to_db s !! x.1 = Some x.2) ->
  NoDup l.*1 -> exists s', for_each reset_db l s = (s', Ok tt) /\ server_ok s'.
Proof.
  induction l as [|[i db] l IH]; intros s Hs Hl Hd; cbn [for_each]; [by exists s|].
  cbn in Hd. apply NoDup_cons in Hd as [Hi Hd].
  pose proof (Hl (i, db) (list_elem_of_here _ _)) as Hdb. cbn in Hdb.
  unfold mbind, stm_bind, reset_db. cbn [fst snd]. unfold db_reset, registrar_reset.
  rewrite (so_idle s Hs i db Hdb). cbn [bool_decide decide_rel negb].
  rewrite bool_decide_eq_true_2 by done. cbn [negb].
  apply IH; [|intros x Hx; cbn [put_db id_to_db]; rewrite lookup_insert_ne; [by apply Hl, list_elem_of_further|]|done].
  - split; cbn [put_db id_to_db active_connections].
    + intros j d [[<- <-]|[_ Hj]]%lookup_insert_Some; [|by apply (so_ids s Hs)]. exact (so_ids s Hs i db Hdb).
    + intros j d [[<- <-]|[_ Hj]]%lookup_insert_Some; [done|]. by eapply (so_idle s Hs).
    + intros c j Hc. apply lookup_insert_is_Some'. right. by eapply (so_connected s Hs).
  - intros ->. apply Hi. by apply list_elem_of_fmap_2.
Qed.

Lemma server_reset_ok : preserves (server_reset (St := St) (It := It) (G := G)).
Proof.
  intros s Hs. unfold server_reset, mbind, stm_bind at 1, gets.
  destruct (reset_dbs_ok (enumerate (id_to_db s)) s Hs) as (s1 & E & Hs1).
  - intros x Hx. rewrite enumerate_perm in Hx. destruct x. by apply elem_of_map_to_list in Hx.
  - rewrite enumerate_perm. apply NoDup_fst_map_to_list.
  - unfold stm_bind. rewrite E. cbn [clear_dbs]. unfold reset_managers. cbn [managers].
    destruct (reset _) as [st r]. by split; cbn; intros *; rewrite lookup_empty.
Qed.

Lemma create_new_db_ok n : preserves (create_new_db (St := St) (G := G) n).
Proof.
  intros s Hs. unfold create_new_db. destruct (id_to_db s !! get_database_id n) as [db|] eqn:E; [done|].
  destruct Hs as [H1' H2' H3']. split; cbn.
  - intros j d [[<- <-]|[_ Hj]]%lookup_insert_Some; [done|by apply H1'].
  - intros j d [[<- <-]|[_ Hj]]%lookup_insert_Some; [done|by eapply H2'].
  - intros c j Hc. apply lookup_insert_is_Some'. right. by eapply H3'.
Qed.

Lemma find_db_inv n l i : find_db n l = Ok i -> exists db, (i, db) ∈ l /\ db_name db = n.
Proof.
  induction l as [|[j db] l IH]; cbn [find_db]; [done|]. destruct (String.eqb_spec (db_name db) n) as [E|].
  - intros [= <-]. exists db. split; [apply list_elem_of_here|done].
  - intros (db' & Hin & E)%IH. exists db'. split; [by apply list_elem_of_further|done].
Qed.

Lemma get_db_id_inv (s : ServerState St G) n i : get_db_id_from_name s n = Ok i ->
  exists db, id_to_db s !! i = Some db /\ db_name db = n.
Proof.
  intros (db & Hin & E)%find_db_inv. rewrite enumerate_perm, elem_of_map_to_list in Hin. by exists db.
Qed.

Lemma connect_ok n c : preserves (connect_to_db (St := St) (G := G) n c).
Proof.
  intros s Hs. unfold connect_to_db, record_connection. destruct (get_db_id_from_name s n) as [i| |] eqn:E; [|done..].
  destruct (get_db_id_inv s n i E) as (db & Hdb & _). destruct Hs as [H1' H2' H3']. split; cbn; [done..|].
  intros c' j [[<- <-]|[_ Hc]]%lookup_insert_Some; [by eexists|by eapply H3'].
Qed.

(** A reset between the two critical sections of [connect_to_db] leaves a
    connection to a database that is gone. *)
Lemma connect_reset_race (s : ServerState St G) n c i : get_db_id_from_name s n = Ok i ->
  let s' := (record_connection c i (clear_dbs s).1).1 in
  active_connections s' !! c = Some i /\ id_to_db s' !! i = None.
Proof. intros _. cbn. by rewrite lookup_insert_eq, lookup_empty. Qed.

Lemma close_connection_ok c : preserves (close_connection (St := St) (G := G) c).
Proof. intros s [H1' H2' H3']. split; cbn; [done..|]. intros c' j [_ Hc]%lookup_delete_Some. by eapply H3'. Qed.

Lemma conductor_ok : preserves (new_conductor (St := St) (G := G)).
Proof. intros s [H1' H2' H3']. by split. Qed.

Lemma shutdown_ok : preserves (set_shutdown (St := St) (G := G)).
Proof. intros s [H1' H2' H3']. by split. Qed.

Create HintDb server discriminated.
#[local] Hint Resolve preserves_pure preserves_ret preserves_gets create_new_db_ok connect_ok close_connection_ok shutdown_ok
  server_reset_ok : server.

Lemma system_command_ok q c cmd : preserves (handle_system_command (It := It) q c cmd).
Proof.
  apply preserves_or_else. destruct cmd; cbn [run_system_command];
    try (apply preserves_bind; [|intros]); auto with server.
Qed.

Lemma get_connected_inv (s : ServerState St G) c db : server_ok s -> get_connected_db s c = Ok db ->
  id_to_db s !! db_id db = Some db.
Proof.
  intros Hs. unfold get_connected_db. destruct (active_connections s !! c) as [i|]; [|done].
  destruct (id_to_db s !! i) as [db'|] eqn:E; [|done]. intros [= ->]. destruct (so_ids s Hs i db E) as [-> _]. done.
Qed.

Lemma database_command_ok fuel db cmd s : server_ok s -> id_to_db s !! db_id db = Some db ->
  server_ok (handle_database_command (It := It) (Rd := Rd) fuel db cmd s).1.
Proof.
  intros Hs Hdb. unfold handle_database_command, or_else.
  assert (server_ok (run_database_command (It := It) (Rd := Rd) fuel db cmd s).1) as Ho;
    [|by destruct (run_database_command fuel db cmd s)].
  destruct cmd as [sql|?|?|?|?| | |?|n p]; cbn [run_database_command]; try done.
  - unfold mbind, stm_bind, new_conductor. destruct (Conductor_new (txn_counter s)) as [k cd].
    set (s1 := mkServer _ _ _ _ _). assert (server_ok s1) as Hs1 by (destruct Hs; by split).
    pose proof (on_db_ok (run_sql_from_string (It := It) fuel cd sql) db s1 (keeps_sql fuel cd sql) Hdb Hs1) as Ho.
    destruct (on_db db _ s1) as [s2 [qr|e|]]; exact Ho.
  - unfold mbind, stm_bind, new_conductor. destruct (Conductor_new (txn_counter s)) as [k cd].
    set (s1 := mkServer _ _ _ _ _). assert (server_ok s1) as Hs1 by (destruct Hs; by split).
    pose proof (on_db_ok (import_csv (It := It) (Rd := Rd) fuel cd n p) db s1 (keeps_import_csv fuel cd n p) Hdb Hs1) as Ho.
    destruct (on_db db _ s1) as [s2 [[]|e|]]; exact Ho.
Qed.

Lemma handle_command_ok fuel q cmd c s : server_ok s -> server_ok (handle_command (It := It) (Rd := Rd) fuel q cmd c s).1.
Proof.
  intros Hs. destruct cmd as [cmd|cmd]; cbn [handle_command]; [by apply system_command_ok|].
  unfold mbind, stm_bind at 1, gets. destruct (get_connected_db s c) as [db|e|] eqn:E; [|done..].
  pose proof (database_command_ok fuel db cmd s Hs (get_connected_inv s c db Hs E)) as Ho.
  unfold stm_bind. destruct (handle_database_command fuel db cmd s) as [s1 [[b r]|e|]]; exact Ho.
Qed.

Lemma serve_ok fuel (w w' : World St G) e o : server_ok (w_server w) ->
  serve (It := It) (Rd := Rd) fuel w e = Some (w', o) -> server_ok (w_server w').
Proof.
  intros Hs. destruct e as [|c cmd|c]; cbn [serve].
  - unfold accept. destruct (w_listening w); [|done]. destruct (shutdown_signal _); by intros [= <- <-].
  - unfold handle_request. intros (q & Eq & E)%bind_Some. pose proof (handle_command_ok fuel q cmd c _ Hs) as Ho.
    destruct (handle_command fuel q cmd c (w_server w)) as [s [[[q' b] r]|e|]]; injection E as <- <-; exact Ho.
  - unfold hangup. by intros (q & Eq & [= <- <-])%bind_Some.
Qed.

Lemma serve_all_ok fuel es : forall (w w' : World St G) l, server_ok (w_server w) ->
  serve_all (It := It) (Rd := Rd) fuel w es = Some (w', l) -> server_ok (w_server w').
Proof.
  induction es as [|e es IH]; intros w w' l Hs; cbn [serve_all]; [by intros [= <- <-]|].
  intros ([w1 o] & E1 & ([w2 l2] & E2 & [= <- <-])%bind_Some)%bind_Some. eapply IH; [|exact E2]. by eapply serve_ok.
Qed.

Lemma start_ok mg n : server_ok (w_server (start_server (St := St) (G := G) mg n)).
Proof. by split; cbn; intros *; rewrite lookup_empty. Qed.

(** ** Connections are stable *)

(** Client [c] is connected to the database [i], named [n]. *)
Definition linked (c i : Z) (n : string) (s : ServerState St G) : Prop :=
  active_connections s !! c = Some i /\ exists db, id_to_db s !! i = Some db /\ db_name db = n.

(** Commands that may end the connection of [c]. *)
Definition unlinks (c : Z) (e : event) : bool :=
  match e with
  | Request _ (System Reset) => true
  | Request c' (System (Connect _)) | Request c' (System CloseConnection) => bool_decide (c' = c)
  | _ => false
  end.

Lemma linked_on_db {A} (m : EM St G A) db s c i n : keeps m -> id_to_db s !! db_id db = Some db ->
  linked c i n s -> linked c i n (on_db db m s).1.
Proof.
  intros Hk Hdb (Ha & d & Hd & En). unfold on_db. specialize (Hk (mkEngine (managers s) db)).
  destruct (m (mkEngine (managers s) db)) as [e r]. cbn in Hk |- *. split; [done|]. cbn.
  destruct (decide (db_id db = i)) as [<-|].
  - rewrite lookup_insert_eq. rewrite Hdb in Hd. injection Hd as <-. exists (e_db e). split; [done|]. by rewrite (sd_name _ _ Hk).
  - rewrite lookup_insert_ne by done. by exists d.
Qed.

Lemma linked_database_command fuel db cmd s c i n : id_to_db s !! db_id db = Some db -> linked c i n s ->
  linked c i n (handle_database_command (It := It) (Rd := Rd) fuel db cmd s).1.
Proof.
  intros Hdb L. unfold handle_database_command, or_else.
  assert (linked c i n (run_database_command (It := It) (Rd := Rd) fuel db cmd s).1) as Ho;
    [|by destruct (run_database_command fuel db cmd s)].
  destruct cmd as [sql|?|?|?|?| | |?|t p]; cbn [run_database_command]; try done.
  - unfold mbind, stm_bind, new_conductor. destruct (Conductor_new (txn_counter s)) as [k cd].
    set (s1 := mkServer _ _ _ _ _).
    pose proof (linked_on_db (run_sql_from_string (It := It) fuel cd sql) db s1 c i n (keeps_sql fuel cd sql) Hdb L) as Ho.
    destruct (on_db db _ s1) as [s2 [qr|e|]]; exact Ho.
  - unfold mbind, stm_bind, new_conductor. destruct (Conductor_new (txn_counter s)) as [k cd].
    set (s1 := mkServer _ _ _ _ _).
    pose proof (linked_on_db (import_csv (It := It) (Rd := Rd) fuel cd t p) db s1 c i n (keeps_import_csv fuel cd t p) Hdb L) as Ho.
    destruct (on_db db _ s1) as [s2 [[]|e|]]; exact Ho.
Qed.

Lemma linked_system_command q c' cmd s c i n : unlinks c (Request c' (System cmd)) = false -> linked c i n s ->
  linked c i n (handle_system_command (It := It) q c' cmd s).1.
Proof.
  intros Hu (Ha & d & Hd & En). destruct cmd as [m|m| | | | | |]; cbn in Hu; try (by split; [|exists d]).
  - unfold handle_system_command, run_system_command, create_new_db, or_else, mbind, stm_bind. cbv zeta. destruct (id_to_db s !! get_database_id m) eqn:E; cbn; (split; [done|]).
    + by exists d.
    + cbn. rewrite lookup_insert_ne by congruence. by exists d.
  - apply bool_decide_eq_false_1 in Hu. unfold handle_system_command, run_system_command, connect_to_db, record_connection, or_else, mbind, stm_bind.
    destruct (get_db_id_from_name s m); cbn; (split; [|by exists d]); cbn; [by rewrite lookup_insert_ne|done..].
  - apply bool_decide_eq_false_1 in Hu. split; [|by exists d].
    change (delete c' (active_connections s) !! c = Some i). by rewrite lookup_delete_ne.
Qed.

Lemma serve_linked fuel (w w' : World St G) e o c i n : server_ok (w_server w) -> unlinks c e = false ->
  linked c i n (w_server w) -> serve (It := It) (Rd := Rd) fuel w e = Some (w', o) -> linked c i n (w_server w').
Proof.
  intros Hs Hu L. destruct e as [|c' cmd|c']; cbn [serve].
  - unfold accept. destruct (w_listening w); [|done]. destruct (shutdown_signal _); by intros [= <- <-].
  - unfold handle_request. intros (q & Eq & E)%bind_Some.
    assert (linked c i n (handle_command (It := It) (Rd := Rd) fuel q cmd c' (w_server w)).1) as Ho.
    { destruct cmd as [cmd|cmd]; cbn [handle_command]; [by apply linked_system_command|].
      unfold mbind, stm_bind at 1, gets. destruct (get_connected_db (w_server w) c') as [db|er|] eqn:Ec; [|done..].
      pose proof (linked_database_command fuel db cmd (w_server w) c i n (get_connected_inv _ c' db Hs Ec) L) as Ho.
      unfold stm_bind. destruct (handle_database_command fuel db cmd (w_server w)) as [s1 [[b r]|er|]]; exact Ho. }
    destruct (handle_command fuel q cmd c' (w_server w)) as [s [[[q' b] r]|er|]]; injection E as <- <-; exact Ho.
  - unfold hangup. by intros (q & Eq & [= <- <-])%bind_Some.
Qed.

Lemma serve_all_linked fuel es : forall (w w' : World St G) l c i n, server_ok (w_server w) ->
  forallb (fun e => negb (unlinks c e)) es = true -> linked c i n (w_server w) ->
  serve_all (It := It) (Rd := Rd) fuel w es = Some (w', l) -> linked c i n (w_server w').
Proof.
  induction es as [|e es IH]; intros w w' l c i n Hs Hu L; cbn [serve_all]; [by intros [= <- <-]|].
  intros ([w1 o] & E1 & ([w2 l2] & E2 & [= <- <-])%bind_Some)%bind_Some. cbn in Hu.
  apply andb_true_iff in Hu as [Hu%negb_true_iff Hus].
  eapply IH; [by eapply serve_ok|exact Hus|by eapply serve_linked|exact E2].
Qed.

(** ** Shutting down *)

(** Sessions and the accepting thread that still run. *)
Definition running (w : World St G) : nat := (size (w_sessions w) + if w_listening w then 1 else 0)%nat.

Definition keeps_signal {A} (m : SM St G A) : Prop := forall s, shutdown_signal s = true -> shutdown_signal (m s).1 = true.

Lemma signal_bind {A B} (m : SM St G A) (f : A -> SM St G B) :
  keeps_signal m -> (forall a, keeps_signal (f a)) -> keeps_signal (m ≫= f).
Proof.
  intros Hm Hf s Hs. specialize (Hm s Hs). unfold mbind, stm_bind. destruct (m s) as [s1 [a|er|]]; [|done..].
  by apply Hf.
Qed.

Lemma signal_or_else {A} (m : SM St G A) f : keeps_signal m -> keeps_signal (or_else m f).
Proof. intros Hm s Hs. specialize (Hm s Hs). unfold or_else. by destruct (m s). Qed.

Lemma signal_pure {A} (r : result A) : keeps_signal (lift r).
Proof. by intros s. Qed.

Lemma signal_gets {A} (f : ServerState St G -> A) : keeps_signal (gets f).
Proof. by intros s. Qed.

Lemma signal_ret {A} (a : A) : keeps_signal (mret a).
Proof. by intros s. Qed.

Lemma signal_for_each {A} (f : A -> SM St G unit) l : (forall a, keeps_signal (f a)) -> keeps_signal (for_each f l).
Proof. intros Hf. induction l as [|a l IH]; cbn; [apply signal_ret|]. apply signal_bind; [apply Hf|done]. Qed.

Lemma signal_reset_db x : keeps_signal (reset_db (St := St) (G := G) x).
Proof. intros s Hs. unfold reset_db. by destruct (db_reset x.2). Qed.

Lemma signal_reset_managers : keeps_signal (reset_managers (St := St) (It := It) (G := G)).
Proof. intros s Hs. unfold reset_managers. by destruct (reset _). Qed.

Lemma signal_create n : keeps_signal (create_new_db (St := St) (G := G) n).
Proof. intros s Hs. unfold create_new_db. by destruct (id_to_db s !! _). Qed.

Lemma signal_connect n c : keeps_signal (connect_to_db (St := St) (G := G) n c).
Proof. intros s Hs. unfold connect_to_db, record_connection. by destruct (get_db_id_from_name s n). Qed.

Lemma signal_on_db {A} db (m : EM St G A) : keeps_signal (on_db db m).
Proof. intros s Hs. unfold on_db. by destruct (m _). Qed.

Lemma signal_conductor : keeps_signal (new_conductor (St := St) (G := G)).
Proof. by intros s Hs. Qed.

Create HintDb signal discriminated.
#[local] Hint Resolve signal_or_else signal_pure signal_gets signal_ret signal_for_each signal_reset_db
  signal_reset_managers signal_create signal_connect signal_on_db signal_conductor : signal.

Lemma signal_command fuel q cmd c : keeps_signal (handle_command (It := It) (Rd := Rd) fuel q cmd c).
Proof.
  destruct cmd as [cmd|cmd]; cbn [handle_command].
  - apply signal_or_else. destruct cmd; cbn [run_system_command]; unfold server_reset;
      repeat (apply signal_bind; [|intros]); auto with signal; by intros s.
  - apply signal_bind; [auto with signal|]. intros [db|e|]; auto with signal.
    apply signal_bind; [|intros [b r]; auto with signal]. apply signal_or_else.
    destruct cmd; cbn [run_database_command]; repeat (apply signal_bind; [auto with signal|intros]); auto with signal.
    destruct a0; auto with signal.
Qed.

Lemma serve_shutdown fuel (w w' : World St G) e o : shutdown_signal (w_server w) = true ->
  serve (It := It) (Rd := Rd) fuel w e = Some (w', o) ->
  shutdown_signal (w_server w') = true /\ running w = S (running w').
Proof.
  intros Hs. unfold running. destruct e as [|c cmd|c]; cbn [serve].
  - unfold accept. destruct (w_listening w); [|done]. rewrite Hs. intros [= <- <-]. cbn. split; [done|lia].
  - unfold handle_request. intros (q & Eq & E)%bind_Some. pose proof (signal_command fuel q cmd c _ Hs) as Ho.
    assert (0 < size (w_sessions w))%nat as Hz.
    { destruct (decide (size (w_sessions w) = 0)%nat) as [Hz|]; [|lia]. apply map_size_empty_iff in Hz.
      by rewrite Hz, lookup_empty in Eq. }
    destruct (handle_command fuel q cmd c (w_server w)) as [s [[[q' b] r]|er|]]; cbn in Ho;
      injection E as <- <-; cbn; rewrite ?Ho, ?orb_true_r, map_size_delete, Eq; (split; [done|lia]).
  - unfold hangup. intros (q & Eq & [= <- <-])%bind_Some. cbn. split; [done|]. rewrite map_size_delete, Eq.
    assert (size (w_sessions w) <> 0)%nat; [|lia]. intros Hz%map_size_empty_iff. by rewrite Hz, lookup_empty in Eq.
Qed.

(** What runs can make a step. *)
Lemma running_enabled fuel (w : World St G) : (0 < running w)%nat -> exists e, is_Some (serve (It := It) (Rd := Rd) fuel w e).
Proof.
  unfold running. intros Hr. destruct (w_listening w) eqn:El.
  - exists Incoming. cbn [serve]. unfold accept. rewrite El. destruct (shutdown_signal _); by eexists.
  - assert (w_sessions w <> ∅) as (c & q & Eq)%map_choose by (intros E; rewrite E, map_size_empty in Hr; lia).
    exists (Hangup c). cbn [serve]. unfold hangup. rewrite Eq. by eexists.
Qed.
End Invariant.

(** ** The theorems *)

Section Theorems.
Context `{Profile, Chrono, Cbor, SqlParser, DbHash, MapOrder, !MapOrderLaws} {St It G Rd : Type}.
Context `{!StorageTrait St It, !Rng G, !CsvCrate Rd, !FileSystem Rd}.

(** C11: connections lead to databases.  After any sequence of connections,
    requests and hangups from the start of the server, each handled as a whole
    before the next, every connected client
    finds the database it is connected to, and no two databases have one name. *)
Theorem connections_valid fuel (mg : Managers St G) n es w l :
  serve_all (It := It) (Rd := Rd) fuel (start_server mg n) es = Some (w, l) ->
  (forall c i, active_connections (w_server w) !! c = Some i ->
     exists db, get_connected_db (w_server w) c = Ok db /\ db_id db = i) /\
  (forall i j a b, id_to_db (w_server w) !! i = Some a -> id_to_db (w_server w) !! j = Some b ->
     db_name a = db_name b -> i = j).
Proof.
  intros E. pose proof (serve_all_ok fuel es _ w l (start_ok mg n) E) as Hs. split.
  - intros c i Hc. destruct (so_connected _ Hs c i Hc) as [db Hdb]. exists db. unfold get_connected_db.
    rewrite Hc, Hdb. split; [done|]. by apply (so_ids _ Hs).
  - intros i j a b Ha Hb En. destruct (so_ids _ Hs i a Ha) as [_ <-]. destruct (so_ids _ Hs j b Hb) as [_ <-].
    by rewrite En.
Qed.

(** A connection lasts.  A client that connected to a database by name is
    connected to the database of that name until it connects elsewhere or closes
    the connection, or somebody resets the server: nothing else that it or other
    clients do changes that. *)
Theorem connection_stable fuel (mg : Managers St G) k es0 w0 l0 c q name w1 o es w l :
  serve_all (It := It) (Rd := Rd) fuel (start_server mg k) es0 = Some (w0, l0) ->
  handle_request (It := It) (Rd := Rd) fuel w0 c (System (Connect name)) = Some (w1, o) ->
  w_sessions w0 !! c = Some q ->
  o = Some (c, quieted q (SystemMsg ("Connected to database " +:+ name))) ->
  forallb (fun e => negb (unlinks c e)) es = true ->
  serve_all (It := It) (Rd := Rd) fuel w1 es = Some (w, l) ->
  exists db, get_connected_db (w_server w) c = Ok db /\ db_name db = name.
Proof.
  intros E0 E1 Eq Eo Hu E. pose proof (serve_all_ok fuel es0 _ w0 l0 (start_ok mg k) E0) as Hs0.
  pose proof (serve_ok fuel w0 w1 (Request c (System (Connect name))) o Hs0 E1) as Hs1.
  assert (exists i, linked c i name (w_server w1)) as [i L].
  { unfold handle_request in E1. rewrite Eq in E1. cbn [mbind option_bind] in E1.
    unfold handle_command, handle_system_command, run_system_command, or_else, connect_to_db, record_connection in E1.
    unfold mbind, stm_bind in E1. destruct (get_db_id_from_name (w_server w0) name) as [i|e|] eqn:Ei.
    - injection E1 as <- <-. exists i. split; [apply lookup_insert_eq|]. exact (get_db_id_inv _ _ _ Ei).
    - injection E1 as <- <-. injection Eo as Eo. by destruct q.
    - by injection E1 as <- <-. }
  destruct (serve_all_linked fuel es w1 w l c i name Hs1 Hu L E) as (Ha & db & Hdb & En).
  exists db. split; [|done]. unfold get_connected_db. by rewrite Ha, Hdb.
Qed.

(** C13: a server that was told to stop stops.  Once the shutdown signal is set,
    every further event ends a session or the accepting thread: a session answers
    at most one more request, no session is opened, and after as many events as
    there are sessions and accepting threads nothing runs. *)
Theorem shutdown_drains fuel (w w' : World St G) es l :
  shutdown_signal (w_server w) = true -> serve_all (It := It) (Rd := Rd) fuel w es = Some (w', l) ->
  (length es + running w' = running w)%nat /\ shutdown_signal (w_server w') = true /\
  ((0 < running w')%nat -> exists e, is_Some (serve (It := It) (Rd := Rd) fuel w' e)).
Proof.
  intros Hs E. cut ((length es + running w' = running w)%nat /\ shutdown_signal (w_server w') = true).
  { intros [Hr Hs']. split; [done|]. split; [done|]. apply running_enabled. }
  revert w l Hs E. induction es as [|e es IH]; intros w l Hs E; cbn [serve_all] in E.
  - by injection E as <- <-.
  - apply bind_Some in E as ([w1 o] & E1 & ([w2 l2] & E2 & [= <- <-])%bind_Some).
    destruct (serve_shutdown fuel w w1 e o Hs E1) as [Hs1 Hr]. destruct (IH w1 l2 Hs1 E2) as [Hl Hs2].
    cbn [length]. split; [lia|done].
Qed.
End Theorems.

(** ** Witnesses *)

Definition demo_hash : DbHash := fun s => Z.pos (encode s).

Definition demo_order : MapOrder := {| enumerate m := map_to_list m; enumerate_tables l := l |}.

#[export] Instance demo_order_laws : MapOrderLaws (H := demo_order).
Proof. by intros m. Qed.

Definition no_files : FileSystem (list (list string)) := fun _ => None.

Definition int_column (s : string) (o : list ColumnOption) : ColumnDef := mkColumn (plain s) SqlInt o.

Definition create_stmt (t : string) : Statement := CreateTable [plain t] [int_column "a" [ColUnique true]] [].
Definition insert_stmt (t n : string) : Statement :=
  InsertStmt [plain t] [] (Some (mkQuery (ValuesBody [[ValueExpr (Number n false)]]) [])).
Definition select_stmt (t : string) : Statement :=
  QueryStmt (mkQuery (SelectBody (mkSelect false [Wildcard] [mkTableWithJoins (TableRef [plain t]) []] None
    (GroupExpressions []) None)) []).

(** A parser that knows the statements of the examples. *)
Definition demo_parse (sql : string) : list Statement + string :=
  if String.eqb sql "create t" then inl [create_stmt "t"]
  else if String.eqb sql "create u" then inl [create_stmt "u"]
  else if String.eqb sql "insert t 7" then inl [insert_stmt "t" "7"]
  else if String.eqb sql "insert v 7" then inl [insert_stmt "v" "7"]
  else if String.eqb sql "select t" then inl [select_stmt "t"]
  else if String.eqb sql "select u" then inl [select_stmt "u"]
  else inr "syntax error".

Definition demo_parser : SqlParser :=
  Build_SqlParser demo_parse id_value (fun _ => "") (fun _ => "") (fun _ => "") (fun _ => "") (fun _ => "").

Definition demo_start : World Mem.StorageManager unit := start_server (mkManagers (Mem.new_sm true) (Stats_new tt)) 1.

Abbreviation demo_serve :=
  (serve_all (H := true) (H0 := no_calendar) (H1 := bit_cbor) (H2 := demo_parser) (H3 := demo_hash) (H4 := demo_order)
     (St := Mem.StorageManager) (It := Mem.ValueIterator) (G := unit) (Rd := list (list string))
     (StorageTrait0 := MemStore_trait (H := true)) (Rng0 := zero_rng) (CsvCrate0 := list_csv) (FileSystem0 := no_files) 10).

Abbreviation sql c s := (Request c (DB (ExecuteSQL s))).

Definition demo_events : list event :=
  [Incoming; Request 1 (System (Create "d")); Request 1 (System (Connect "d")); Incoming; sql 1 "create t"].

Lemma connections_valid_witness :
  exists w l, demo_serve demo_start demo_events = Some (w, l) /\
    exists db, get_connected_db (w_server w) 1 = Ok db /\ db_id db = Z.pos (encode "d").
Proof.
  destruct (demo_serve demo_start demo_events) as [[w l]|] eqn:E; [|vm_compute in E; discriminate].
  exists w, l. split; [reflexivity|].
  destruct (@connections_valid true no_calendar bit_cbor demo_parser demo_hash demo_order demo_order_laws _ _ _ _
              (MemStore_trait (H := true)) zero_rng list_csv no_files 10 _ _ _ w l E) as [Hc _].
  apply Hc. vm_compute in E. injection E as <- _. vm_compute. reflexivity.
Defined.

Lemma connection_stable_witness :
  exists w l db, demo_serve demo_start
      ([Incoming; Request 1 (System (Create "d"))] ++ [Request 1 (System (Connect "d"))] ++
       [Incoming; Request 2 (System (Create "e")); Request 2 (System (Connect "e")); sql 1 "create t"]) = Some (w, l) /\
    get_connected_db (w_server w) 1 = Ok db /\ db_name db = "d".
Proof.
  destruct (demo_serve demo_start [Incoming; Request 1 (System (Create "d"))]) as [[w0 l0]|] eqn:E0;
    [|vm_compute in E0; discriminate].
  destruct (demo_serve w0 [Request 1 (System (Connect "d"))]) as [[w1 l1]|] eqn:E1;
    [|vm_compute in E0; injection E0 as <- <-; vm_compute in E1; discriminate].
  set (es := [Incoming; Request 2 (System (Create "e")); Request 2 (System (Connect "e")); sql 1 "create t"]).
  destruct (demo_serve w1 es) as [[w2 l2]|] eqn:E2;
    [|vm_compute in E0; injection E0 as <- <-; vm_compute in E1; injection E1 as <- <-; vm_compute in E2; discriminate].
  destruct (@connection_stable true no_calendar bit_cbor demo_parser demo_hash demo_order demo_order_laws _ _ _ _
              (MemStore_trait (H := true)) zero_rng list_csv no_files 10 _ _ _ w0 l0 1 false "d" w1
              (Some (1, SystemMsg "Connected to database d")) es w2 l2 E0) as (db & Hc & Hn).
  - vm_compute in E0. injection E0 as <- <-. vm_compute in E1. injection E1 as <- <-. vm_compute. reflexivity.
  - vm_compute in E0. injection E0 as <- <-. vm_compute. reflexivity.
  - reflexivity.
  - reflexivity.
  - exact E2.
  - exists w2. eexists. exists db. split; [|split; [exact Hc|exact Hn]].
    vm_compute in E0. injection E0 as <- <-. vm_compute in E1. injection E1 as <- <-. subst es. vm_compute in E2.
    injection E2 as <- <-. vm_compute. reflexivity.
Defined.

Lemma shutdown_drains_witness :
  exists w w' l, demo_serve demo_start [Incoming; Incoming; Request 1 (System Shutdown)] = Some (w, l) /\
    demo_serve w [Incoming; Request 2 (System QuietMode)] = Some (w', [(2, QuietOk)]) /\ running w' = 0%nat.
Proof.
  destruct (demo_serve demo_start [Incoming; Incoming; Request 1 (System Shutdown)]) as [[w l]|] eqn:E;
    [|vm_compute in E; discriminate].
  destruct (demo_serve w [Incoming; Request 2 (System QuietMode)]) as [[w' l']|] eqn:E';
    [|vm_compute in E; injection E as <- <-; vm_compute in E'; discriminate].
  assert (running w = 2%nat) as H2 by (vm_compute in E; injection E as <- <-; reflexivity).
  exists w, w', l. split; [reflexivity|].
  destruct (@shutdown_drains true no_calendar bit_cbor demo_parser demo_hash demo_order _ _ _ _
              (MemStore_trait (H := true)) zero_rng list_csv no_files 10 w w' [Incoming; Request 2 (System QuietMode)] l') as (Hr & _ & _).
  - vm_compute in E. injection E as <- <-. reflexivity.
  - exact E'.
  - split.
    + vm_compute in E. injection E as <- <-. vm_compute in E'. injection E' as <- <-. reflexivity.
    + cbn [length] in Hr. rewrite H2 in Hr. lia.
Defined.

(** ** Where the server goes wrong *)

(** The answers to a sequence of events. *)
Definition demo_answers_to (es : list event) : option (list (Z * Response)) := snd <$> demo_serve demo_start es.

Definition rows_of (r : Response) : option (list (list Field)) :=
  match r with RQueryResult (SelectResult _ rows _) => Some (field_vals <$> rows) | _ => None end.

Definition two_databases : list event :=
  [Incoming; Incoming; Request 1 (System (Create "d")); Request 1 (System (Connect "d"));
   Request 2 (System (Create "e")); Request 2 (System (Connect "e"))].

(** Databases share a storage manager, and each numbers its containers from 0: a
    table of one database holds the rows of a table of the other. *)
Lemma databases_share_tables :
  (l ← demo_answers_to (two_databases ++ [sql 1 "create t"; sql 1 "insert t 7"; sql 2 "create u"; sql 2 "select u"]);
   r ← last l; rows_of r.2) = Some [[FInt 7]].
Proof. vm_compute. reflexivity. Qed.

(** Two databases cannot have tables of the same name. *)
Lemma table_names_are_global :
  (l ← demo_answers_to (two_databases ++ [sql 1 "create t"; sql 2 "create t"]); last l) =
  Some (2, QueryExecutionError "Execution Error: Container with name already exists").
Proof. vm_compute. reflexivity. Qed.

(** An INSERT into an unknown table is not answered: the session's thread panics. *)
Lemma insert_unknown_table_panics :
  exists w l, demo_serve demo_start
      [Incoming; Request 1 (System (Create "d")); Request 1 (System (Connect "d")); sql 1 "insert v 7"] = Some (w, l) /\
    length l = 2%nat /\ w_sessions w !! 1 = None.
Proof. eexists _, _. split; [vm_compute; reflexivity|]. split; vm_compute; reflexivity. Qed.

(** Hanging up does not close the connection of the client. *)
Lemma hangup_keeps_connection :
  exists w l, demo_serve demo_start
      [Incoming; Request 1 (System (Create "d")); Request 1 (System (Connect "d")); Hangup 1] = Some (w, l) /\
    w_sessions w !! 1 = None /\ is_Some (active_connections (w_server w) !! 1).
Proof. eexists _, _. split; [vm_compute; reflexivity|]. split; [vm_compute; reflexivity|vm_compute; by eexists]. Qed.

(** A reset drops the tables but not their statistics: a new table inherits the
    record count of a dropped one. *)
Lemma reset_keeps_statistics :
  (w ← fst <$> demo_serve demo_start
     [Incoming; Request 1 (System (Create "d")); Request 1 (System (Connect "d")); sql 1 "create t"; sql 1 "insert t 7";
      Request 1 (System Reset); Request 1 (System (Create "d")); Request 1 (System (Connect "d")); sql 1 "create u"];
   record_count <$> st_samples (stats (managers (w_server w))) !! 0) = Some 1.
Proof. vm_compute. reflexivity. Qed.
