(* ===== verification/Session.v ===== *)
(** * SQL sessions: the specification

    What a database of tables promises for the statements it supports: an
    abstract state with the catalog and the rows of every table, and for every
    statement the next state and the answers that are allowed.  Then the relation
    between abstract states and the engine, and the proofs that CREATE TABLE,
    INSERT and SELECT keep it. *)

From S2P Require Import Prelude Bytes Common Types Sql Expr Storage Stats Catalog Graph GraphProofs Plan Planner OpIter.
From S2P Require Import LockManager OpIterProofs OpIterTheorems PlannerProofs PlanMerge OptimizerTheorems.
From S2P Require Import Mutator MutatorProofs Translate TranslateProofs TranslateSpec Commands Database Conductor.

Open Scope Z_scope.

(** ** The specification *)

(** The catalog, and the rows of every table. *)
Record adb := mkA { a_catalog : Catalog; a_rows : gmap ContainerId (list (list Field)) }.

Section Spec.
Context `{Profile, Chrono, SqlParser}.

(** Tables as lists of tuples: the stored rows, in any order. *)
Definition stored (a : adb) (tab : ContainerId -> option (list Tuple)) : Prop :=
  forall c, match a_rows a !! c with
            | Some rows => exists ts, tab c = Some ts /\ field_vals <$> ts ≡ₚ rows
            | None => tab c = None
            end.

(** [sql_spec a st a' P k]: statement [st] is supported in state [a], leads to
    [a'], is answered by a result in [P] and stores [k] more rows or tables. *)
Inductive sql_spec (a : adb) : Statement -> adb -> (QueryResult -> Prop) -> nat -> Prop :=
| spec_create n cols cons pks attrs c id :
    sql_get_pks cols cons = Ok pks ->
    mapM_o (column_attribute (id_value n) pks) cols = Ok attrs ->
    get_table_id (a_catalog a) (id_value n) = Ok (c, id) ->
    tables (a_catalog a) !! id = None ->
    sql_spec a (CreateTable [n] cols cons)
      (mkA (mkCatalog (container_id_generator c)
              (<[id := mkTableInfo id (id_value n) (TableSchema_new attrs)]> (tables c)))
           (<[id := []]> (a_rows a)))
      (fun qr => qr = MessageOnly ("Table " +:+ id_value n +:+ " created")) 1
| spec_insert n id sc old values ob rows :
    table_id (a_catalog a) (id_value n) = Some id ->
    get_table_schema (a_catalog a) id = Some sc ->
    a_rows a !! id = Some old ->
    Forall2 (Forall2 expr_field) values rows ->
    Forall (fun t => (length (violations sc t) <= 1)%nat) (Tuple_new <$> rows) ->
    let ts := filter (row_valid sc) (Tuple_new <$> rows) in
    sql_spec a (InsertStmt [n] [] (Some (mkQuery (ValuesBody values) ob)))
      (mkA (a_catalog a) (<[id := (field_vals <$> ts) ++ old]> (a_rows a)))
      (fun qr => qr = InsertResult (Z.of_nat (length ts)) (id_value n)) (length ts)
| spec_select q t :
    query_known (a_catalog a) q = true ->
    query_tree (a_catalog a) q = Ok t ->
    (forall tab, stored a tab -> exists x, meaning (a_catalog a) tab t = Ok x) ->
    sql_spec a (QueryStmt q) a
      (fun qr => exists tab sc full, stored a tab /\ meaning (a_catalog a) tab t = Ok (sc, full) /\
                   qr = SelectResult sc full None) 0.
End Spec.

(** ** Abstract states of an engine *)

Section Rep.
Context `{Profile, Chrono, Cbor, !CborLaws, SqlParser} {St It G Rd : Type}.
Context `{!StorageTrait St It, !StorageLaws (St := St) (It := It), !Rng G, !RngLaws}.

(** A table of the engine: its container holds encodings of the rows, and the
    statistics know it. *)
Definition table_rep (mg : Managers St G) (c : ContainerId) (rows : list (list Field)) (budget : nat) : Prop :=
  exists m old ts, table_ok mg c m ts /\ Forall2 (fun t bs => cbor_to_vec t = Some bs) old (map_to_list m).*2 /\
    field_vals <$> old ≡ₚ rows /\ Z.of_nat (length ts + budget) < 2 ^ 64.

(** What the statistics hold of a container that is no table: nothing, or samples of
    a table that a reset dropped. *)
Definition stale (mg : Managers St G) (c : ContainerId) (budget : nat) : Prop :=
  forall cs, st_samples (stats mg) !! c = Some cs ->
    exists ts, sampled ts cs /\ Z.of_nat (length ts + budget) < 2 ^ 64.

(** The engine stands for [a] and has room for [budget] more rows and tables. *)
Record rep (budget : nat) (e : Engine St G) (a : adb) : Prop := {
  rp_catalog : catalog (e_db e) = a_catalog a;
  rp_ok : ok (sm (e_mg e));
  rp_gen : gen_ok (container_id_generator (a_catalog a));
  rp_next : next_id (container_id_generator (a_catalog a)) + Z.of_nat budget <= 65535;
  rp_tables : forall c, is_Some (tables (a_catalog a) !! c) <-> is_Some (a_rows a !! c);
  rp_named : forall c info, tables (a_catalog a) !! c = Some info -> table_id (a_catalog a) (Catalog.name info) = Some c;
  rp_names : forall n, n ∈ names (sm (e_mg e)) -> exists c info, tables (a_catalog a) !! c = Some info /\ Catalog.name info = n;
  rp_rows : forall c rows, a_rows a !! c = Some rows -> table_rep (e_mg e) c rows budget;
  rp_fresh : forall c, a_rows a !! c = None -> view (sm (e_mg e)) !! c = None /\ stale (e_mg e) c budget;
  rp_room : forall c, room (sm (e_mg e)) c (S budget);
}.

Definition active (cd : Conductor) : Prop := exists t, tid (active_txn cd) = Ok t.

(** ** SELECT *)

Lemma table_holds mg c rows k : table_rep mg c rows k -> room (sm mg) c 1 ->
  exists ts, holds_table (sm mg) c ts /\ field_vals <$> ts ≡ₚ rows.
Proof.
  intros (m & old & ts & [W V _] & HF & P & _) R.
  destruct (law_iterate (sm mg) c m W R V) as (it & items & Eg & Y & Pi). apply Forall2_flip in HF.
  destruct (Permutation_Forall2 (Permutation_sym Pi) HF) as (old' & P' & HF'%Forall2_flip).
  destruct (scan_items_decode items old' HF') as (res & Er & Eq). exists res. split; [by exists it, items|].
  rewrite Eq. rewrite <- P. by rewrite P'.
Qed.

Lemma map_choose_all {A B} (m : gmap ContainerId A) (P : ContainerId -> A -> B -> Prop) :
  (forall c a, m !! c = Some a -> exists b, P c a b) ->
  exists m' : gmap ContainerId B, forall c,
    match m !! c with Some a => exists b, m' !! c = Some b /\ P c a b | None => m' !! c = None end.
Proof.
  induction m as [|c a m Hc IH] using map_ind; intros Hm.
  - exists ∅. intros c. by rewrite !lookup_empty.
  - destruct IH as [m' Hm']; [intros c' a' Hc'; apply Hm; rewrite lookup_insert_ne; [done|congruence]|].
    destruct (Hm c a) as [b Hb]; [apply lookup_insert_eq|]. exists (<[c := b]> m'). intros c'.
    destruct (decide (c = c')) as [<-|Hne]; [rewrite !lookup_insert_eq; eauto|].
    rewrite !lookup_insert_ne by done. apply Hm'.
Qed.

Lemma rep_stored N e a : rep N e a ->
  exists tab, stored a tab /\ forall c ts, tab c = Some ts -> holds_table (sm (e_mg e)) c ts.
Proof.
  intros R. destruct (map_choose_all (a_rows a)
    (fun c rows ts => holds_table (sm (e_mg e)) c ts /\ field_vals <$> ts ≡ₚ rows)) as [m' Hm'].
  { intros c rows Hc. eapply table_holds; [by eapply rp_rows|]. eapply law_room; [by apply (rp_room _ _ _ R)|lia]. }
  exists (fun c => m' !! c). split.
  - intros c. specialize (Hm' c). destruct (a_rows a !! c) as [rows|]; [|done].
    destruct Hm' as (ts & E & _ & P). eauto.
  - intros c ts E. specialize (Hm' c). destruct (a_rows a !! c) as [rows|]; [|congruence].
    destruct Hm' as (ts' & E' & Hh & _). rewrite E in E'. by injection E' as ->.
Qed.

Lemma stm_bind_ok {M A B} (m : stm M A) (f : A -> stm M B) e e' a : m e = (e', Ok a) -> (m ≫= f) e = f a e'.
Proof. intros E. unfold mbind, stm_bind. by rewrite E. Qed.

Lemma run_query_ok N e a cd q t : rep N e a -> active cd ->
  query_known (a_catalog a) q = true -> query_tree (a_catalog a) q = Ok t ->
  (forall tab, stored a tab -> exists x, meaning (a_catalog a) tab t = Ok x) ->
  exists n tab sc full, stored a tab /\ meaning (a_catalog a) tab t = Ok (sc, full) /\
    forall fuel, (n <= fuel)%nat -> run_query (It := It) fuel cd q e = (e, Ok (SelectResult sc full None)).
Proof.
  intros R [tx Ht] Hk Et Hm. destruct (rep_stored N e a R) as (tab & Hs & Hh).
  destruct (Hm tab Hs) as [[sc full] M].
  pose proof (from_sql_refines (a_catalog a) q Hk) as Rf. rewrite Et in Rf.
  destruct Rf as (lp & E & W & O & r & Hr & Rp).
  destruct (physical_plan_ok lp W) as (pp & Ep & Wp & Hop & Hout & _ & Hroot).
  { intros i op Hi. eapply meaning_phys; [exact M|]. by eapply O. }
  destruct (build_ok (sm (e_mg e)) (a_catalog a) tab Hh lp pp t r sc full (height t) Wp Hop Hout Rp M)
    as (op & Eb & Es & D); [done|].
  destruct (execute_den (sm (e_mg e)) op full D) as [n Ex]. exists (max n (height t)), tab, sc, full.
  split; [done|]. split; [done|]. intros fuel Hf. unfold run_query.
  erewrite stm_bind_ok; [|unfold e_from_sql; rewrite (rp_catalog _ _ _ R), E; reflexivity].
  rewrite Ep. cbn [lift]. erewrite stm_bind_ok by reflexivity. unfold run_physical_plan. rewrite Ht.
  erewrite stm_bind_ok by reflexivity. unfold e_catalog. erewrite stm_bind_ok by reflexivity. cbn [e_db set_catalog catalog].
  unfold physical_plan_to_op_iterator. rewrite Hroot, Hr. cbn [ok_or]. mstep.
  rewrite (helper_mono (a_catalog a) pp (height t) fuel r op ltac:(lia) Eb).
  erewrite stm_bind_ok by reflexivity. unfold run_opiterator. erewrite stm_bind_ok by reflexivity. cbn [e_mg].
  rewrite (Ex fuel) by lia. erewrite stm_bind_ok by reflexivity. rewrite Es.
  destruct e as [mg db]. cbn. rewrite <- (rp_catalog _ _ _ R). by destruct db.
Qed.

(** ** INSERT *)

Lemma table_rep_less mg c rows k k' : table_rep mg c rows k -> (k' <= k)%nat -> table_rep mg c rows k'.
Proof. intros (m & old & ts & T & F & P & B) Hk. exists m, old, ts. split_and!; [done..|lia]. Qed.

Lemma table_rep_frame mg mg' c c' m rows k : others_kept c mg mg' -> ok (sm mg') ->
  view (sm mg') = <[c := m]> (view (sm mg)) -> c' <> c -> table_rep mg c' rows k -> table_rep mg' c' rows k.
Proof.
  intros [_ _ Hst] W V Hc (m0 & old & ts & [T1 T2 T3] & F & P & B). exists m0, old, ts. split_and!; [|done..].
  split; [done| |by rewrite Hst]. by rewrite V, lookup_insert_ne.
Qed.

Lemma table_rep_appended mg c m ts0 k ts m' old rows : table_ok mg c m' ts0 ->
  appended m ts m' -> Forall2 (fun t bs => cbor_to_vec t = Some bs) old (map_to_list m).*2 ->
  field_vals <$> old ≡ₚ rows -> Z.of_nat (length ts0 + k) < 2 ^ 64 ->
  table_rep mg c ((field_vals <$> ts) ++ rows) k.
Proof.
  intros T (_ & bss & HF & P) HO Pr B.
  assert (Forall2 (fun t bs => cbor_to_vec t = Some bs) (ts ++ old) (bss ++ (map_to_list m).*2)) as HA
    by (by apply Forall2_app).
  apply Forall2_flip in HA.
  destruct (Permutation_Forall2 (Permutation_sym P) HA) as (ts' & P' & HF'%Forall2_flip).
  exists m', ts', ts0. split_and!; [done|done| |done]. by rewrite <- P', fmap_app, Pr.
Qed.

Lemma rep_insert N e a id old mg' m' ts0 ts m oldt : rep N e a -> a_rows a !! id = Some old ->
  (length ts <= N)%nat -> table_ok mg' id m' (ts0 ++ ts) -> room (sm mg') id (S (N - length ts)) ->
  appended m ts m' -> view (sm mg') = <[id := m']> (view (sm (e_mg e))) -> others_kept id (e_mg e) mg' ->
  Forall2 (fun t bs => cbor_to_vec t = Some bs) oldt (map_to_list m).*2 -> field_vals <$> oldt ≡ₚ old ->
  Z.of_nat (length ts0 + N) < 2 ^ 64 ->
  rep (N - length ts) (mkEngine mg' (e_db e)) (mkA (a_catalog a) (<[id := (field_vals <$> ts) ++ old]> (a_rows a))).
Proof.
  intros R Ho Hl T Rm A V K HF P B. destruct R as [R1 R2 R3 R4 R5 R6 R7 R8 R9 R10].
  split; cbn [e_mg e_db a_catalog a_rows].
  - done.
  - apply T.
  - done.
  - lia.
  - intros c. rewrite R5, lookup_insert_is_Some'. split; [by right|]. intros [<-|]; [by eexists|done].
  - done.
  - intros n. rewrite (ok_names _ _ _ K). apply R7.
  - intros c rows [[<- <-]|[Hc Hr]]%lookup_insert_Some.
    + eapply table_rep_appended; [exact T|exact A|exact HF|exact P|]. rewrite length_app. lia.
    + eapply table_rep_less; [|apply Nat.le_sub_l]. eapply table_rep_frame; [exact K|apply T|exact V|done|]. by apply R8.
  - intros c [Hr Hc]%lookup_insert_None. rewrite V, lookup_insert_ne by done. destruct (R9 c Hr) as [Hv Hst].
    split; [done|]. intros cs. rewrite (ok_stats _ _ _ K) by done. intros (ts' & S' & B')%Hst. exists ts'. split; [done|lia].
  - intros c. destruct (decide (c = id)) as [->|Hc]; [done|]. apply (ok_room _ _ _ K); [done|].
    eapply law_room; [apply R10|lia].
Qed.

Lemma run_insert_ok N e a cd n id sc old values ob rows : rep N e a -> active cd ->
  table_id (a_catalog a) (id_value n) = Some id -> get_table_schema (a_catalog a) id = Some sc ->
  a_rows a !! id = Some old -> Forall2 (Forall2 expr_field) values rows ->
  Forall (fun t => (length (violations sc t) <= 1)%nat) (Tuple_new <$> rows) ->
  let ts := filter (row_valid sc) (Tuple_new <$> rows) in (length ts <= N)%nat ->
  exists e', run_insert cd [n] [] (Some (mkQuery (ValuesBody values) ob)) e =
      (e', Ok (InsertResult (Z.of_nat (length ts)) (id_value n))) /\
    rep (N - length ts) e' (mkA (a_catalog a) (<[id := (field_vals <$> ts) ++ old]> (a_rows a))).
Proof.
  intros R [tx Ht] Hid Hsc Ho HF Hv ts Hl.
  destruct (rp_rows _ _ _ R id old Ho) as (m & oldt & ts0 & T & HO & P & B).
  destruct (import_tuples_ok (e_mg e) id sc m ts0 values rows (S (N - length ts)) T HF Hv) as (mg' & m' & E & T' & R' & A & V & K).
  { eapply law_room; [apply (rp_room _ _ _ R)|]. fold ts. lia. }
  { fold ts. lia. }
  fold ts in E, T', A, K. exists (mkEngine mg' (e_db e)).
  split; [|by eapply (rep_insert N e a id old mg' m' ts0 ts m oldt)].
  assert (known (a_catalog a) (id_value n) = true) as Hk by (apply bool_decide_eq_true_2; by eexists).
  destruct (get_table_id_known (a_catalog a) (id_value n) Hk) as (id' & Hid' & Eg).
  rewrite Hid in Hid'. injection Hid' as <-. cbn [run_insert q_body]. unfold get_name. cbn [length Nat.ltb Nat.leb lookup list_lookup unwrap_opt].
  mstep. cbn [lift]. erewrite stm_bind_ok by reflexivity.
  erewrite stm_bind_ok; [|unfold e_get_table_id, with_catalog; rewrite (rp_catalog _ _ _ R), Eg; reflexivity].
  unfold e_catalog. erewrite stm_bind_ok by reflexivity. cbn [e_db set_catalog catalog]. rewrite Hsc. cbn [unwrap_opt].
  erewrite stm_bind_ok by reflexivity. rewrite Ht. erewrite stm_bind_ok by reflexivity.
  erewrite stm_bind_ok; [|unfold with_managers; cbn [e_mg]; rewrite E; reflexivity].
  destruct e as [mg db]. cbn. rewrite <- (rp_catalog _ _ _ R). by destruct db.
Qed.

(** ** CREATE TABLE *)

Lemma sampled_nil sc : sampled [] (mkSamples [] 0 sc).
Proof. by split. Qed.

(** Registering a container leaves it with samples that fit. *)
Lemma register_ok (st : ReservoirStatManager G) c sc k : Z.of_nat k < 2 ^ 64 ->
  (forall cs, st_samples st !! c = Some cs -> exists ts, sampled ts cs /\ Z.of_nat (length ts + k) < 2 ^ 64) ->
  exists st' cs ts, register_container st c sc = (st', Ok tt) /\ st_samples st' !! c = Some cs /\ sampled ts cs /\
    Z.of_nat (length ts + k) < 2 ^ 64 /\ forall c', c' <> c -> st_samples st' !! c' = st_samples st !! c'.
Proof.
  intros Hk Hs. unfold register_container. destruct (st_samples st !! c) as [cs|] eqn:E.
  - destruct (Hs cs eq_refl) as (ts & S & B). by exists st, cs, ts.
  - eexists _, _, []. split; [done|]. cbn [st_samples]. rewrite lookup_insert_eq. split; [done|].
    split; [apply sampled_nil|]. split; [done|]. intros c' Hc. by rewrite lookup_insert_ne.
Qed.

Lemma get_table_id_ok (c c' : Catalog) n id : get_table_id c n = Ok (c', id) ->
  tables c' = tables c /\ (gen_ok (container_id_generator c) -> next_id (container_id_generator c) < 65535 ->
    gen_ok (container_id_generator c') /\ table_id c' n = Some id /\
    table_to_id (container_id_generator c) ⊆ table_to_id (container_id_generator c') /\
    next_id (container_id_generator c') <= next_id (container_id_generator c) + 1).
Proof.
  unfold get_table_id. intros ([g i] & E & [= <- <-])%bind_Ok_inv. split; [done|]. intros Gn Hn.
  destruct (generator_get_ok _ n Gn Hn) as (g' & i' & E' & G' & L & S & B). rewrite E in E'. by injection E' as -> ->.
Qed.

Lemma rep_create N e a n c id sc s st' cs ts : rep (S N) e a ->
  get_table_id (a_catalog a) n = Ok (c, id) -> tables (a_catalog a) !! id = None ->
  ok s -> view s = <[id := ∅]> (view (sm (e_mg e))) -> names s = {[n]} ∪ names (sm (e_mg e)) ->
  (forall c' k, room (sm (e_mg e)) c' k -> room s c' k) ->
  st_samples st' !! id = Some cs -> sampled ts cs -> Z.of_nat (length ts + N) < 2 ^ 64 ->
  (forall c', c' <> id -> st_samples st' !! c' = st_samples (stats (e_mg e)) !! c') ->
  let cat := mkCatalog (container_id_generator c) (<[id := mkTableInfo id n sc]> (tables c)) in
  rep N (mkEngine (mkManagers s st') (set_catalog (e_db e) cat)) (mkA cat (<[id := []]> (a_rows a))).
Proof.
  intros [R1 R2 R3 R4 R5 R6 R7 R8 R9 R10] Eg Hid W V Hn Hr Hcs Hsa Hbd Hot cat.
  destruct (get_table_id_ok _ _ _ _ Eg) as [Ht Hg]. destruct Hg as (Gn & L & S & B); [done|lia|].
  assert (a_rows a !! id = None) as Ha.
  { apply eq_None_not_Some. rewrite <- R5, Hid. by intros [? ?]. }
  split; cbn [e_mg e_db sm stats set_catalog catalog a_catalog a_rows container_id_generator tables cat].
  - done.
  - done.
  - exact Gn.
  - lia.
  - intros c'. rewrite !lookup_insert_is_Some', Ht, R5. done.
  - intros c' info [[<- <-]|[Hc Hi]]%lookup_insert_Some; [exact L|]. rewrite Ht in Hi. apply R6 in Hi.
    unfold table_id in *. cbn. by eapply lookup_weaken.
  - intros m. rewrite Hn, elem_of_union, elem_of_singleton. intros [->|(c' & info & Hi & En)%R7].
    + exists id, (mkTableInfo id n sc). split; [apply lookup_insert_eq|done].
    + exists c', info. rewrite lookup_insert_ne, Ht by (intros ->; congruence). done.
  - intros c' rows [[<- <-]|[Hc Hc']]%lookup_insert_Some.
    + exists ∅, [], ts. split_and!; [|by rewrite map_to_list_empty|done|done].
      split; cbn [sm stats]; [done|by rewrite V, lookup_insert_eq|by exists cs].
    + destruct (R8 c' rows Hc') as (m & old & ts' & [T1 T2 T3] & F & P & Bd). exists m, old, ts'.
      split_and!; [|done|done|lia]. split; cbn [sm stats]; [done| |by rewrite Hot].
      by rewrite V, lookup_insert_ne.
  - intros c' [Hc Hne]%lookup_insert_None. rewrite V, !lookup_insert_ne by done. destruct (R9 c' Hc) as [Hv Hst].
    split; [done|]. intros cs'. cbn [stats]. rewrite Hot by done. intros (ts' & S' & B')%Hst. exists ts'. split; [done|lia].
  - intros c'. apply Hr. eapply law_room; [apply R10|lia].
Qed.

Lemma create_table_ok N e a n cols cons pks attrs c id : rep (S N) e a ->
  sql_get_pks cols cons = Ok pks -> mapM_o (column_attribute n pks) cols = Ok attrs ->
  get_table_id (a_catalog a) n = Ok (c, id) -> tables (a_catalog a) !! id = None ->
  exists e', create_table n cols cons e = (e', Ok (MessageOnly ("Table " +:+ n +:+ " created"))) /\
    rep N e' (mkA (mkCatalog (container_id_generator c)
                     (<[id := mkTableInfo id n (TableSchema_new attrs)]> (tables c))) (<[id := []]> (a_rows a))).
Proof.
  intros R Hp Ha Eg Hid. destruct (get_table_id_ok _ _ _ _ Eg) as [Ht Hg].
  destruct Hg as (_ & L & S & _); [by apply (rp_gen _ _ _ R)|pose proof (rp_next _ _ _ R); lia|].
  assert (n ∉ names (sm (e_mg e))) as Hn.
  { intros (c' & info & Hi & En)%(rp_names _ _ _ R). pose proof (rp_named _ _ _ R c' info Hi) as Hl. rewrite En in Hl.
    unfold table_id in L, Hl. pose proof (lookup_weaken _ _ _ _ Hl S) as Hw. congruence. }
  assert (a_rows a !! id = None) as Hr.
  { apply eq_None_not_Some. rewrite <- (rp_tables _ _ _ R), Hid. by intros [? ?]. }
  destruct (rp_fresh _ _ _ R id Hr) as [Hv Hs].
  destruct (law_create_container (sm (e_mg e)) id n (rp_ok _ _ _ R) Hn) as (s & Ec & W & V & Hnn & Hro).
  rewrite decide_False in V by (rewrite Hv; by intros [? ?]).
  destruct (register_ok (stats (e_mg e)) id (TableSchema_new attrs) N) as (st' & cs & ts & Er & Hcs & Hsa & Hbd & Hot).
  { pose proof (rp_next _ _ _ R). pose proof (go_next _ (rp_gen _ _ _ R)). lia. }
  { intros cs (ts & S' & B')%Hs. exists ts. split; [done|lia]. }
  eexists. split; [|by apply (rep_create N e a n c id (TableSchema_new attrs) s st' cs ts R Eg Hid W V Hnn Hro)].
  unfold create_table.
  erewrite stm_bind_ok; [|unfold e_get_table_id, with_catalog; rewrite (rp_catalog _ _ _ R), Eg; reflexivity].
  unfold table_pks. rewrite Hp. erewrite stm_bind_ok by reflexivity. rewrite Ha. erewrite stm_bind_ok by reflexivity.
  erewrite stm_bind_ok; [|unfold e_create_container; cbn [e_mg]; rewrite Ec; reflexivity]. cbn [e_mg e_db].
  erewrite stm_bind_ok; [|unfold e_add_table, with_catalog, add_table; cbn [e_db set_catalog catalog c_id]; rewrite Ht, Hid; reflexivity].
  cbv iota beta. unfold e_register_container, with_managers, with_stats.
  unfold mbind, stm_bind. cbn [e_mg stats sm e_db]. rewrite Er. unfold set_catalog. cbn. by rewrite Ht.
Qed.

(** ** Statements and scripts *)

Lemma statement_ok N e a cd st a' P k : rep N e a -> active cd -> sql_spec a st a' P k -> (k <= N)%nat ->
  exists n e' qr, P qr /\ rep (N - k) e' a' /\
    forall fuel, (n <= fuel)%nat -> run_statement (It := It) fuel cd st e = (e', Ok qr).
Proof.
  intros R Hc Sp Hk. destruct Sp as [n cols cons pks attrs c id Hp Ha Eg Hid|n id sc old values ob rows Hid Hsc Ho HF Hv ts|q t Hq Et Hm].
  - destruct N as [|N]; [lia|].
    destruct (create_table_ok N e a (id_value n) cols cons pks attrs c id R Hp Ha Eg Hid) as (e' & E & R').
    exists 0%nat, e'. eexists. split; [reflexivity|]. split; [by rewrite Nat.sub_1_r|]. intros fuel _. exact E.
  - destruct (run_insert_ok N e a cd n id sc old values ob rows R Hc Hid Hsc Ho HF Hv Hk) as (e' & E & R').
    exists 0%nat, e'. eexists. split; [reflexivity|]. split; [done|]. intros fuel _. exact E.
  - destruct (run_query_ok N e a cd q t R Hc Hq Et Hm) as (n & tab & sc & full & Hs & M & E).
    exists n, e. eexists. split; [by exists tab, sc, full|]. rewrite Nat.sub_0_r. split; [done|exact E].
Qed.
End Rep.

(** A script: every text is a statement, and the statements are supported one
    after the other. *)
Inductive script_spec `{Profile, Chrono, SqlParser} : adb -> list string -> adb -> list (QueryResult -> Prop) -> nat -> Prop :=
| script_nil a : script_spec a [] a [] 0
| script_cons a sql st a1 P k sqls a2 Ps ks :
    parser_parse_sql sql = inl [st] -> sql_spec a st a1 P k -> script_spec a1 sqls a2 Ps ks ->
    script_spec a (sql :: sqls) a2 (P :: Ps) (k + ks).

(** The answers to a script, run statement by statement. *)
Fixpoint run_script `{Profile, Chrono, Cbor, SqlParser} {St It G : Type} `{!StorageTrait St It, !Rng G}
  (fuel : nat) (cd : Conductor) (sqls : list string) : EM St G (list QueryResult) :=
  match sqls with
  | [] => mret []
  | sql :: sqls' => r ← run_sql_from_string (It := It) fuel cd sql; rs ← run_script (It := It) fuel cd sqls'; mret (r :: rs)
  end.

Section Script.
Context `{Profile, Chrono, Cbor, !CborLaws, SqlParser} {St It G : Type}.
Context `{!StorageTrait St It, !StorageLaws (St := St) (It := It), !Rng G, !RngLaws}.

Lemma parsed_ok a sql st a' P k : parser_parse_sql sql = inl [st] -> sql_spec a st a' P k ->
  parsed_statements sql = Ok [st].
Proof.
  intros E Sp. unfold parsed_statements, parse_sql, validate_sql. rewrite E. destruct Sp; try done.
  by match goal with H : sql_get_pks _ _ = Ok _ |- _ => rewrite H end.
Qed.

Lemma script_ok cd : active cd -> forall a sqls a' Ps k, script_spec a sqls a' Ps k ->
  forall N (e : Engine St G), rep N e a -> (k <= N)%nat ->
  exists n e' qrs, Forall2 (fun (P : QueryResult -> Prop) qr => P qr) Ps qrs /\ rep (N - k) e' a' /\
    forall fuel, (n <= fuel)%nat -> run_script (It := It) fuel cd sqls e = (e', Ok qrs).
Proof.
  intros Hc a sqls a' Ps k. induction 1 as [a|a sql st a1 P k sqls a2 Ps ks Ep Sp Ss IH]; intros N e R Hk.
  - exists 0%nat, e, []. rewrite Nat.sub_0_r. by split_and!.
  - destruct (statement_ok N e a cd st a1 P k R Hc Sp) as (n1 & e1 & qr & HP & R1 & E1); [lia|].
    destruct (IH (N - k)%nat e1 R1) as (n2 & e2 & qrs & HPs & R2 & E2); [lia|].
    exists (max n1 n2), e2, (qr :: qrs). split; [by constructor|]. split; [by rewrite Nat.sub_add_distr|].
    intros fuel Hf. cbn [run_script].
    erewrite stm_bind_ok; [|unfold run_sql_from_string; rewrite (parsed_ok a sql st a1 P k Ep Sp);
      erewrite stm_bind_ok by reflexivity; cbn [run_sql]; apply E1; lia].
    erewrite stm_bind_ok; [|apply E2; lia]. done.
Qed.
End Script.
