(* ===== verification/SessionTheorems.v ===== *)
(** * SQL sessions: the theorem

    From the text of a script to its answers. *)

From S2P Require Import Prelude Bytes Common Types Sql Expr Storage Stats Catalog Graph GraphProofs Plan Planner OpIter.
From S2P Require Import LockManager OpIterProofs OpIterTheorems PlannerProofs PlanMerge PlannerTheorems OptimizerTheorems.
From S2P Require Import MemStore MemStoreProofs MemStoreTheorems Mutator MutatorProofs MutatorTheorems.
From S2P Require Import Translate TranslateProofs TranslateSpec Commands Database Conductor Server ServerTheorems Session.

Open Scope Z_scope.

Section Theorems.
Context `{Profile, Chrono, Cbor, !CborLaws, SqlParser, DbHash} {St It G : Type}.
Context `{!StorageTrait St It, !StorageLaws (St := St) (It := It), !Rng G, !RngLaws}.

(** Managers without containers, with room for [budget] rows in each; the statistics
    may remember tables that a reset dropped. *)
Record fresh (mg : Managers St G) (budget : nat) : Prop := {
  fr_ok : ok (sm mg);
  fr_view : view (sm mg) = ∅;
  fr_names : names (sm mg) = ∅;
  fr_stats : forall c, stale mg c budget;
  fr_room : forall c, room (sm mg) c (S budget);
}.

Lemma fresh_rep mg budget db : fresh mg budget -> Z.of_nat budget <= 65535 ->
  rep budget (mkEngine mg (new_from_name db)) (mkA Catalog_new ∅).
Proof.
  intros [F1 F2 F3 F4 F5] Hb. split; cbn [e_mg e_db a_catalog a_rows].
  - done.
  - done.
  - apply generator_new_ok.
  - cbn. lia.
  - intros c. cbn. by rewrite !lookup_empty.
  - intros c info. cbn. by rewrite lookup_empty.
  - intros n. rewrite F3. set_solver.
  - intros c rows. by rewrite lookup_empty.
  - intros c _. rewrite F2, lookup_empty. by split.
  - done.
Qed.

Lemma new_conductor_active counter : active (Conductor_new counter).2.
Proof. by eexists. Qed.

(** SQL sessions are correct.  On a new database over any storage manager that
    keeps the promises of the storage interface: a script of CREATE TABLE, INSERT
    and SELECT statements that are supported one after the other runs to its end,
    and every answer is one the specification allows.  In particular a SELECT
    returns the relational meaning of the query over exactly the rows that the
    statements before it inserted. *)
Theorem sql_session_correct mg budget db counter sqls a Ps k :
  fresh mg budget -> Z.of_nat budget <= 65535 ->
  script_spec (mkA Catalog_new ∅) sqls a Ps k -> (k <= budget)%nat ->
  exists n e qrs, Forall2 (fun (P : QueryResult -> Prop) qr => P qr) Ps qrs /\
    forall fuel, (n <= fuel)%nat ->
      run_script (It := It) fuel (Conductor_new counter).2 sqls (mkEngine mg (new_from_name db)) = (e, Ok qrs).
Proof.
  intros F Hb Sp Hk.
  destruct (script_ok (Conductor_new counter).2 (new_conductor_active counter) _ _ _ _ _ Sp budget _
              (fresh_rep mg budget db F Hb) Hk) as (n & e & qrs & HP & _ & E).
  by exists n, e, qrs.
Qed.
End Theorems.

(** ** Witness *)

Definition demo_mg : Managers Mem.StorageManager unit := mkManagers (Mem.new_sm true) (Stats_new tt).

Lemma demo_fresh : fresh (StorageTrait0 := MemStore_trait (H := true)) (StorageLaws0 := MemStore_laws (H := true)) demo_mg 9.
Proof.
  split; [apply new_sm_ok|reflexivity|reflexivity|by intros c cs|]. intros c. cbn. unfold mem_rooms, next_slot. cbn.
  rewrite lookup_empty. lia.
Qed.

Definition t_schema : TableSchema := mkSchema [mkAttribute "t.a" TInt PrimaryKey].
Definition t_catalog : Catalog := mkCatalog (mkGen 1 {["t" := 0]}) {[0 := mkTableInfo 0 "t" t_schema]}.

Abbreviation demo_spec := (sql_spec (H := true) (H0 := no_calendar) (H1 := demo_parser)).

Definition demo_values7 : Values := [[ValueExpr (Number "7" false)]].

Lemma demo_create : demo_spec (mkA Catalog_new ∅) (create_stmt "t") (mkA t_catalog {[0 := []]})
  (fun qr => qr = MessageOnly "Table t created") 1.
Proof.
  apply (spec_create (mkA Catalog_new ∅) (mkIdent "t" None) _ [] [mkIdent "a" None] [mkAttribute "t.a" TInt PrimaryKey]
           (mkCatalog (mkGen 1 {["t" := 0]}) ∅) 0); vm_compute; reflexivity.
Qed.

Lemma demo_insert : demo_spec (mkA t_catalog {[0 := []]}) (insert_stmt "t" "7") (mkA t_catalog {[0 := [[FInt 7]]]})
  (fun qr => qr = InsertResult 1 "t") 1.
Proof.
  assert (filter (row_valid t_schema) (Tuple_new <$> [[FInt 7]]) = [Tuple_new [FInt 7]]) as Ef by (vm_compute; reflexivity).
  pose proof (spec_insert (H := true) (H0 := no_calendar) (H1 := demo_parser) (mkA t_catalog {[0 := []]}) (mkIdent "t" None)
    0 t_schema [] demo_values7 [] [[FInt 7]]) as Hi. cbv zeta in Hi. rewrite Ef in Hi. apply Hi.
  - vm_compute. reflexivity.
  - vm_compute. reflexivity.
  - reflexivity.
  - constructor; [|constructor]. constructor; [|constructor]. eexists. split; [reflexivity|vm_compute; reflexivity].
  - constructor; [|constructor]. vm_compute. lia.
Qed.

Lemma demo_select : demo_spec (mkA t_catalog {[0 := [[FInt 7]]]}) (select_stmt "t") (mkA t_catalog {[0 := [[FInt 7]]]})
  (fun qr => exists tab sc full, stored (mkA t_catalog {[0 := [[FInt 7]]]}) tab /\
     meaning (H := true) (H0 := no_calendar) t_catalog tab (TProject [EIdent "t.a"] (TScan 0 None None)) = Ok (sc, full) /\
     qr = SelectResult sc full None) 0.
Proof.
  apply (spec_select (mkA t_catalog {[0 := [[FInt 7]]]})).
  - vm_compute. reflexivity.
  - vm_compute. reflexivity.
  - intros tab Hs. specialize (Hs 0). cbn in Hs. destruct Hs as (ts & E & P).
    destruct ts as [|[i v f] [|t2 ts]]; apply Permutation_length in P as Pl; try done.
    cbn in P. apply Permutation_singleton_inj in P. subst f. cbn [meaning]. rewrite E. eexists. vm_compute. reflexivity.
Qed.

Lemma demo_script : exists Ps, script_spec (H := true) (H0 := no_calendar) (H1 := demo_parser)
    (mkA Catalog_new ∅) ["create t"; "insert t 7"; "select t"] (mkA t_catalog {[0 := [[FInt 7]]]}) Ps 2 /\
  Ps = [fun qr => qr = MessageOnly "Table t created"; fun qr => qr = InsertResult 1 "t";
        fun qr => exists tab sc full, stored (mkA t_catalog {[0 := [[FInt 7]]]}) tab /\
          meaning (H := true) (H0 := no_calendar) t_catalog tab (TProject [EIdent "t.a"] (TScan 0 None None)) = Ok (sc, full) /\
          qr = SelectResult sc full None].
Proof.
  eexists. split; [|reflexivity].
  eapply (script_cons (H1 := demo_parser) _ "create t" (create_stmt "t") _ _ 1 _ _ _ 1); [reflexivity|exact demo_create|].
  eapply (script_cons (H1 := demo_parser) _ "insert t 7" (insert_stmt "t" "7") _ _ 1 _ _ _ 0); [reflexivity|exact demo_insert|].
  eapply (script_cons (H1 := demo_parser) _ "select t" (select_stmt "t") _ _ 0 _ _ _ 0); [reflexivity|exact demo_select|]. apply script_nil.
Qed.

(** What the query of the example returns. *)
Lemma demo_selected tab sc full : stored (mkA t_catalog {[0 := [[FInt 7]]]}) tab ->
  meaning (H := true) (H0 := no_calendar) t_catalog tab (TProject [EIdent "t.a"] (TScan 0 None None)) = Ok (sc, full) ->
  sc = t_schema /\ full = [mkTuple 0 None [FInt 7]].
Proof.
  intros Hs M. specialize (Hs 0). cbn in Hs. destruct Hs as (ts & Et & P).
  destruct ts as [|[i v f] [|t2 ts]]; apply Permutation_length in P as Pl; try discriminate Pl.
  cbn in P. apply Permutation_singleton_inj in P. subst f. cbn [meaning] in M. rewrite Et in M. vm_compute in M.
  by injection M as <- <-.
Qed.

Lemma sql_session_correct_witness :
  exists n e sc full, field_vals <$> full = [[FInt 7]] /\ forall fuel, (n <= fuel)%nat ->
    run_script (H := true) (H0 := no_calendar) (H1 := bit_cbor) (H2 := demo_parser) (It := Mem.ValueIterator)
      (StorageTrait0 := MemStore_trait (H := true)) (Rng0 := zero_rng) fuel (Conductor_new 1).2
      ["create t"; "insert t 7"; "select t"] (mkEngine demo_mg (new_from_name (H := demo_hash) "d")) =
    (e, Ok [MessageOnly "Table t created"; InsertResult 1 "t"; SelectResult sc full None]).
Proof.
  destruct demo_script as (Ps & Sp & EP).
  destruct (@sql_session_correct true no_calendar bit_cbor bit_cbor_laws demo_parser demo_hash _ _ _
              (MemStore_trait (H := true)) (MemStore_laws (H := true)) zero_rng zero_rng_laws demo_mg 9 "d" 1 _ _ Ps 2
              demo_fresh ltac:(lia) Sp ltac:(lia)) as (n & e & qrs & HF & E).
  subst Ps. apply Forall2_cons_inv_l in HF as (q1 & l1 & -> & HF & ->).
  apply Forall2_cons_inv_l in HF as (q2 & l2 & -> & HF & ->).
  apply Forall2_cons_inv_l in HF as (q3 & l3 & (tab & sc & full & Hs & M & ->) & HF & ->).
  apply Forall2_nil_inv_l in HF as ->.
  destruct (demo_selected tab sc full Hs M) as [-> ->].
  exists n, e. eexists _, _. split; [|exact E]. reflexivity.
Defined.
