(* ===== verification/Worker.v ===== *)
(** * The worker pool

    [src/src/server/src/worker.rs]: threads that share the receiving end of a
    channel behind a lock and run the jobs they are sent until they are told to
    terminate.  A step of the pool is a step of one of its threads, in any
    interleaving; a thread that panics inside [recv] poisons the lock. *)

From S2P Require Import Prelude Common.

Open Scope nat_scope.

Section Worker.
Context {Job : Type} (panics : Job -> bool).

Inductive Message :=
| NewJob (job : Job)
| Test
| Terminate.

(** Where a thread is in its loop: at [lock()], inside [recv()] with the lock
    held, in a job, asleep, or gone. *)
Inductive phase :=
| Locking
| Receiving
| Executing (job : Job)
| Testing
| Ended
| Panicked.

(** The channel, the lock, the threads by worker id, and the jobs that were started
    and that were finished so far. *)
Record Pool := mkPool {
  queue : list Message;
  connected : bool;
  poisoned : bool;
  workers : list phase;
  started : list Job;
  finished : list Job;
}.

(** [Worker::new]: one more thread, at the beginning of its loop. *)
Definition Worker_new (s : Pool) : Pool :=
  mkPool (queue s) (connected s) (poisoned s) (workers s ++ [Locking]) (started s) (finished s).

Definition send (s : Pool) (m : Message) : Pool :=
  mkPool (queue s ++ [m]) (connected s) (poisoned s) (workers s) (started s) (finished s).

Definition holds_lock (p : phase) : bool := match p with Receiving => true | _ => false end.

Definition set_worker (s : Pool) (id : nat) (p : phase) : Pool :=
  mkPool (queue s) (connected s) (poisoned s) (<[id := p]> (workers s)) (started s) (finished s).

(** The [match message] of the loop. *)
Definition receive (s : Pool) (id : nat) (m : Message) (rest : list Message) : Pool :=
  let s := mkPool rest (connected s) (poisoned s) (workers s) (started s) (finished s) in
  match m with
  | NewJob job =>
      mkPool rest (connected s) (poisoned s) (<[id := Executing job]> (workers s)) (started s ++ [job]) (finished s)
  | Terminate => set_worker s id Ended
  | Test => set_worker s id Testing
  end.

(** The next step of thread [id]; [None] while it waits or when it is gone. *)
Definition worker_step (s : Pool) (id : nat) : option Pool :=
  match workers s !! id with
  | Some Locking =>
      if poisoned s then Some (set_worker s id Panicked)
      else if existsb holds_lock (workers s) then None
      else Some (set_worker s id Receiving)
  | Some Receiving =>
      match queue s with
      | m :: rest => Some (receive s id m rest)
      | [] =>
          if connected s then None
          else Some (mkPool [] false true (<[id := Panicked]> (workers s)) (started s) (finished s))
      end
  | Some (Executing job) =>
      if panics job then Some (set_worker s id Panicked)
      else Some (mkPool (queue s) (connected s) (poisoned s) (<[id := Locking]> (workers s)) (started s)
                   (finished s ++ [job]))
  | Some Testing => Some (set_worker s id Locking)
  | Some Ended | Some Panicked | None => None
  end.

Definition step (s s' : Pool) : Prop := exists id, worker_step s id = Some s'.

(** [run k s s']: [k] steps lead from [s] to [s']. *)
Inductive run : nat -> Pool -> Pool -> Prop :=
| run_done s : run 0 s s
| run_step k s s1 s2 : step s s1 -> run k s1 s2 -> run (S k) s s2.

(** ** Every step makes progress *)

Definition weight (p : phase) : Z :=
  match p with Locking => 2 | Receiving => 1 | Executing _ | Testing => 3 | Ended | Panicked => 0 end.

Definition work (s : Pool) : Z := (3 * Z.of_nat (length (queue s)) + sumZ (weight <$> workers s))%Z.

Lemma sumZ_insert (f : phase -> Z) (l : list phase) i p q : l !! i = Some p ->
  (sumZ (f <$> <[i := q]> l) = sumZ (f <$> l) + f q - f p)%Z.
Proof.
  intros E. rewrite <- (take_drop_middle l i p E) at 2. rewrite insert_take_drop by (by eapply lookup_lt_Some).
  rewrite !fmap_app, !sumZ_app. cbn. unfold sumZ. lia.
Qed.

Lemma work_nonneg s : (0 <= work s)%Z.
Proof.
  unfold work. assert (0 <= sumZ (weight <$> workers s))%Z; [|lia].
  apply sumZ_nonneg, Forall_fmap, Forall_true. by intros [].
Qed.

Lemma step_work s s' : step s s' -> (work s' < work s)%Z.
Proof.
  intros [id E]. unfold worker_step in E. destruct (workers s !! id) as [p|] eqn:Ew; [|done].
  unfold work. destruct p as [| |job| | |]; try done.
  - destruct (poisoned s); [|destruct (existsb _ _); [done|]]; injection E as <-; cbn [set_worker queue workers];
      rewrite (sumZ_insert _ _ _ _ _ Ew); cbn; lia.
  - destruct (queue s) as [|m rest]; [destruct (connected s); [done|]|]; injection E as <-.
    + cbn [queue workers]. rewrite (sumZ_insert _ _ _ _ _ Ew). cbn. lia.
    + unfold receive. destruct m; cbn [set_worker queue workers length]; rewrite (sumZ_insert _ _ _ _ _ Ew); cbn [weight]; lia.
  - destruct (panics job); injection E as <-; cbn [set_worker queue workers]; rewrite (sumZ_insert _ _ _ _ _ Ew); cbn; lia.
  - injection E as <-. cbn [set_worker queue workers]. rewrite (sumZ_insert _ _ _ _ _ Ew). cbn. lia.
Qed.

Lemma run_bounded k s s' : run k s s' -> (Z.of_nat k + work s' <= work s)%Z.
Proof. induction 1 as [|k s s1 s2 H _ IH]; [lia|]. apply step_work in H. lia. Qed.

(** ** Shutting a pool down *)

Definition pool_new : Pool := mkPool [] true false [] [] [].

(** [n] workers, then the messages, then one [Terminate] for each worker. *)
Definition closing_pool (n : nat) (ms : list Message) : Pool :=
  foldl send (Nat.iter n Worker_new pool_new) (ms ++ replicate n Terminate).

Definition job_of (m : Message) : option Job := match m with NewJob job => Some job | _ => None end.
Definition jobs_of (ms : list Message) : list Job := omap job_of ms.
Definition running_job (p : phase) : option Job := match p with Executing job => Some job | _ => None end.
Definition is_terminate (m : Message) : bool := match m with Terminate => true | _ => false end.
Definition alive (p : phase) : Z := match p with Ended => 0 | _ => 1 end.
Definition holders (p : phase) : Z := if holds_lock p then 1 else 0.
Definition healthy (p : phase) : Prop := match p with Panicked => False | Executing job => panics job = false | _ => True end.

(** The state between two steps: [js] are the messages before the [k] remaining
    [Terminate]s, as many as workers are left, and none is received before [js] is
    empty; the lock has one holder at most. *)
Record closing (n : nat) (ms : list Message) (s : Pool) (js : list Message) (k : nat) : Prop := {
  cl_queue : queue s = js ++ replicate k Terminate;
  cl_js : Forall (fun m => is_terminate m = false) js;
  cl_order : js = [] \/ k = n;
  cl_alive : sumZ (alive <$> workers s) = Z.of_nat k;
  cl_size : length (workers s) = n;
  cl_lock : (sumZ (holders <$> workers s) <= 1)%Z;
  cl_healthy : poisoned s = false /\ Forall healthy (workers s) /\ Forall (fun j => panics j = false) (jobs_of js);
  cl_started : started s ++ jobs_of js = jobs_of ms;
  cl_finished : started s ≡ₚ finished s ++ omap running_job (workers s);
}.

Lemma send_all ms : forall s, foldl send s ms =
  mkPool (queue s ++ ms) (connected s) (poisoned s) (workers s) (started s) (finished s).
Proof.
  induction ms as [|m ms IH]; intros s; cbn [foldl]; [rewrite app_nil_r; by destruct s|].
  rewrite IH. unfold send. cbn. by rewrite <- (assoc_L (++)).
Qed.

Lemma workers_new n : Nat.iter n Worker_new pool_new = mkPool [] true false (replicate n Locking) [] [].
Proof.
  induction n as [|n IH]; [done|]. cbn [Nat.iter nat_rect]. change (nat_rect _ _ _ n) with (Nat.iter n Worker_new pool_new).
  rewrite IH. unfold Worker_new. cbn. f_equal. by rewrite <- replicate_S_end.
Qed.

Lemma sumZ_replicate n z : sumZ (replicate n z) = (Z.of_nat n * z)%Z.
Proof. induction n as [|n IH]; [done|]. cbn [replicate]. unfold sumZ in *. cbn [foldr]. lia. Qed.

Lemma closing_start n ms : Forall (fun m => is_terminate m = false) ms -> Forall (fun j => panics j = false) (jobs_of ms) ->
  closing n ms (closing_pool n ms) ms n.
Proof.
  intros Hm Hj. unfold closing_pool. rewrite send_all, workers_new.
  split; cbn [queue workers poisoned started finished connected app]; try done; [by right|..].
  - rewrite fmap_replicate, sumZ_replicate. cbn. lia.
  - apply length_replicate.
  - rewrite fmap_replicate, sumZ_replicate. cbn. lia.
  - split; [done|]. split; [by apply Forall_replicate|done].
  - assert (omap running_job (replicate n Locking) = []) as ->; [|done]. clear. by induction n.
Qed.

Lemma omap_insert {B} (f : phase -> option B) (l : list phase) i p q : l !! i = Some p ->
  option_list (f p) ++ omap f (<[i := q]> l) ≡ₚ option_list (f q) ++ omap f l.
Proof.
  intros E. rewrite <- (take_drop_middle l i p E) at 2. rewrite insert_take_drop by (by eapply lookup_lt_Some).
  rewrite !omap_app. cbn [omap list_omap]. destruct (f p), (f q); cbn; by rewrite <- ?Permutation_middle, 1?Permutation_swap.
Qed.

Lemma no_holders l : existsb holds_lock l = false -> sumZ (holders <$> l) = 0%Z.
Proof.
  induction l as [|p l IH]; cbn; [done|]. intros [Hp Hl]%orb_false_iff. unfold sumZ in *. cbn. rewrite IH by done.
  unfold holders. by rewrite Hp.
Qed.

(** A step of one thread that leaves the channel alone. *)
Lemma closing_thread n ms s js k id p q fin : closing n ms s js k -> workers s !! id = Some p ->
  alive q = alive p -> healthy q -> (holders q = 0 \/ sumZ (holders <$> workers s) = 0)%Z ->
  option_list (running_job p) = fin ++ option_list (running_job q) ->
  closing n ms (mkPool (queue s) (connected s) (poisoned s) (<[id := q]> (workers s)) (started s) (finished s ++ fin)) js k.
Proof.
  intros [Q J O A Z L (P & F & Fj) St Fi] Ew Ha Hh Hl Hr.
  assert (0 <= holders p)%Z by (unfold holders; destruct (holds_lock p); lia).
  split; cbn [queue workers poisoned started finished connected]; try done.
  - rewrite (sumZ_insert _ _ _ _ _ Ew). lia.
  - by rewrite length_insert.
  - rewrite (sumZ_insert _ _ _ _ _ Ew). unfold holders in *. destruct (holds_lock q), (holds_lock p); lia.
  - split_and!; [done|by apply Forall_insert|done].
  - pose proof (omap_insert running_job _ _ _ q Ew) as Hp. rewrite Hr, <- (assoc_L (++)) in Hp.
    rewrite Fi, <- (assoc_L (++)). apply Permutation_app_head.
    apply (Permutation_app_inv_l (option_list (running_job q))). rewrite <- Hp, !(assoc_L (++)).
    apply Permutation_app_tail, Permutation_app_comm.
Qed.

(** The receipt of a message. *)
Lemma closing_receive n ms s js k id m rest : closing n ms s js k -> workers s !! id = Some Receiving ->
  queue s = m :: rest -> exists js' k', closing n ms (receive s id m rest) js' k'.
Proof.
  intros [Q J O A Z L (P & F & Fj) St Fi] Ew Eq. rewrite Eq in Q. destruct js as [|m' js].
  - destruct k as [|k]; [done|]. injection Q as -> ->. exists [], k. unfold receive, set_worker.
    split; cbn [queue workers poisoned started finished connected]; try done; [by left|..].
    + rewrite (sumZ_insert _ _ _ _ _ Ew). cbn. lia.
    + by rewrite length_insert.
    + rewrite (sumZ_insert _ _ _ _ _ Ew). cbn. lia.
    + split_and!; [done|by apply Forall_insert|done].
    + pose proof (omap_insert running_job _ _ _ Ended Ew) as Hp. cbn in Hp. by rewrite Hp.
  - injection Q as <- ->. apply Forall_cons in J as [Hm J]. destruct O as [?|Hk]; [done|]. subst k.
    exists js, n. destruct m as [job| |]; [| |done]; unfold receive, set_worker, jobs_of in *; cbn [omap list_omap job_of] in *.
    + apply Forall_cons in Fj as [Hj Fj].
      split; cbn [queue workers poisoned started finished connected]; try done; [by right|..].
      * rewrite (sumZ_insert _ _ _ _ _ Ew). cbn. lia.
      * by rewrite length_insert.
      * rewrite (sumZ_insert _ _ _ _ _ Ew). cbn. lia.
      * split_and!; [done|by apply Forall_insert|done].
      * by rewrite <- (assoc_L (++)).
      * pose proof (omap_insert running_job _ _ _ (Executing job) Ew) as Hp. cbn in Hp. rewrite Hp, Fi.
        by rewrite <- !Permutation_middle, app_nil_r.
    + split; cbn [queue workers poisoned started finished connected]; try done; [by right|..].
      * rewrite (sumZ_insert _ _ _ _ _ Ew). cbn. lia.
      * by rewrite length_insert.
      * rewrite (sumZ_insert _ _ _ _ _ Ew). cbn. lia.
      * split_and!; [done|by apply Forall_insert|done].
      * pose proof (omap_insert running_job _ _ _ Testing Ew) as Hp. cbn in Hp. by rewrite Hp.
Qed.

(** While a worker is left there is a message for it. *)
Lemma closing_nonempty n ms s js k id p : closing n ms s js k -> workers s !! id = Some p -> alive p = 1%Z -> queue s <> [].
Proof.
  intros [Q _ _ A _ _ _ _ _] Ew Hp Hq. rewrite Hq in Q. symmetry in Q. apply app_nil in Q as [-> Hk].
  destruct k; [|done]. pose proof (sumZ_insert alive _ _ _ Ended Ew) as Hs.
  assert (0 <= sumZ (alive <$> <[id := Ended]> (workers s)))%Z; [|cbn in *; lia].
  apply sumZ_nonneg, Forall_fmap, Forall_true. by intros [].
Qed.

Lemma closing_step n ms s js k s' : closing n ms s js k -> step s s' -> exists js' k', closing n ms s' js' k'.
Proof.
  intros C [id E]. unfold worker_step in E. destruct (workers s !! id) as [p|] eqn:Ew; [|done].
  pose proof (cl_healthy _ _ _ _ _ C) as (P & F & _). pose proof (Forall_lookup_1 _ _ _ _ F Ew) as Hp.
  destruct p as [| |job| | |]; try done.
  - rewrite P in E. destruct (existsb _ _) eqn:Eb; [done|]. injection E as <-. exists js, k.
    unfold set_worker. rewrite <- (app_nil_r (finished s)). by eapply closing_thread; [..|right; by apply no_holders|].
  - destruct (queue s) as [|m rest] eqn:Eq; [by eapply closing_nonempty in Eq|].
    injection E as <-. by eapply closing_receive.
  - cbn in Hp. rewrite Hp in E. injection E as <-. exists js, k. by eapply closing_thread; [..|left|].
  - injection E as <-. exists js, k. unfold set_worker. rewrite <- (app_nil_r (finished s)). by eapply closing_thread; [..|left|].
Qed.

Lemma closing_run n ms k s s' : run k s s' -> (exists js j, closing n ms s js j) -> exists js j, closing n ms s' js j.
Proof. induction 1 as [|k s s1 s2 Hs _ IH]; [done|]. intros (js & j & C). eapply IH, closing_step; done. Qed.

(** A thread that is left can always go on, or the one that holds the lock can. *)
Lemma closing_progress n ms s js k id p : closing n ms s js k -> workers s !! id = Some p -> alive p = 1%Z ->
  exists s', step s s'.
Proof.
  intros C Ew Ha. pose proof (closing_nonempty _ _ _ _ _ _ _ C Ew Ha) as Hq.
  pose proof (cl_healthy _ _ _ _ _ C) as (P & F & _). pose proof (Forall_lookup_1 _ _ _ _ F Ew) as Hh.
  assert (forall i, workers s !! i = Some Receiving -> exists s', step s s') as Hrecv.
  { intros i Ei. destruct (queue s) as [|m rest] eqn:Eq; [done|]. exists (receive s i m rest), i.
    unfold worker_step. by rewrite Ei, Eq. }
  destruct p as [| |job| | |]; try done; [|by eapply Hrecv| |].
  - destruct (existsb holds_lock (workers s)) eqn:Eb.
    + apply existsb_exists in Eb as (q & Hin & Hq'). destruct q; try done.
      apply list_elem_of_In, list_elem_of_lookup in Hin as [i Ei]. by eapply Hrecv.
    + exists (set_worker s id Receiving), id. unfold worker_step. by rewrite Ew, P, Eb.
  - eexists _, id. unfold worker_step. rewrite Ew. cbn in Hh. by rewrite Hh.
  - eexists _, id. unfold worker_step. by rewrite Ew.
Qed.
End Worker.
Arguments Message Job : clear implicits.
Arguments phase Job : clear implicits.
Arguments Pool Job : clear implicits.

(** C15: a pool that is told to stop finishes its work.  [n > 0] workers that were
    sent any jobs and tests and then exactly one [Terminate] each, with jobs that do
    not panic: in every interleaving the run is bounded, and when no thread can go on, all of
    them have ended, the channel is empty, every job was started exactly once in the
    order it was sent, and every job was finished. *)
Theorem pool_drains {Job : Type} (panics : Job -> bool) n (ms : list (Message Job)) k s :
  n <> 0 -> Forall (fun m => is_terminate m = false) ms -> Forall (fun j => panics j = false) (jobs_of ms) ->
  run panics k (closing_pool n ms) s ->
  (k <= 3 * length ms + 5 * n)%nat /\
  ((forall s', ~ step panics s s') ->
   workers s = replicate n Ended /\ queue s = [] /\ started s = jobs_of ms /\ finished s ≡ₚ jobs_of ms).
Proof.
  intros Hn Hm Hj Hr. pose proof (closing_start panics n ms Hm Hj) as C0. split.
  - apply run_bounded in Hr. pose proof (work_nonneg s). unfold work in Hr at 2. unfold closing_pool in Hr.
    rewrite send_all, workers_new in Hr. cbn [queue workers app] in Hr.
    rewrite fmap_replicate, sumZ_replicate, length_app, length_replicate in Hr. cbn [weight] in Hr. lia.
  - intros Hstuck. destruct (closing_run panics n ms k _ s Hr) as (js & j & C); [by exists ms, n|].
    assert (workers s = replicate n Ended) as Hw.
    { rewrite <- (cl_size _ _ _ _ _ _ C). symmetry. apply replicate_as_elem_of. split; [done|]. intros p Hp.
      apply list_elem_of_lookup in Hp as [id Ew]. destruct (decide (alive p = 1%Z)) as [Ha|Ha].
      - destruct (closing_progress _ _ _ _ _ _ _ _ C Ew Ha) as [s' Hs]. by destruct (Hstuck s').
      - by destruct p. }
    destruct C as [Q J O A _ _ _ St Fi]. rewrite Hw in *. rewrite fmap_replicate, sumZ_replicate in A. cbn in A.
    assert (j = 0%nat) as -> by lia. destruct O as [->|]; [|lia]. cbn in *. rewrite app_nil_r in St.
    split_and!; [done|done|done|]. rewrite <- St, Fi.
    assert (omap running_job (replicate n (@Ended Job)) = []) as ->; [clear; by induction n|]. by rewrite app_nil_r.
Qed.

(** Runs by the ids of the threads that take the steps. *)
Fixpoint run_schedule {Job : Type} (panics : Job -> bool) (s : Pool Job) (ids : list nat) : option (Pool Job) :=
  match ids with
  | [] => Some s
  | id :: ids => s ← worker_step panics s id; run_schedule panics s ids
  end.

Lemma run_schedule_run {Job : Type} (panics : Job -> bool) ids : forall s s',
  run_schedule panics s ids = Some s' -> run panics (length ids) s s'.
Proof.
  induction ids as [|id ids IH]; intros s s'; cbn [run_schedule length]; [intros [= ->]; constructor|].
  destruct (worker_step panics s id) as [s1|] eqn:E; [|done]. intros Hs. eapply run_step; [by exists id|by apply IH].
Qed.

(** Two workers and two jobs; the second job is finished before the first. *)
Lemma pool_drains_witness :
  exists s, run (fun _ : nat => false) 10 (closing_pool 2 [NewJob 7; NewJob 8]) s /\
    started s = [7; 8] /\ finished s ≡ₚ [7; 8] /\ finished s = [8; 7] /\ workers s = [Ended; Ended].
Proof.
  destruct (run_schedule (fun _ : nat => false) (closing_pool 2 [NewJob 7; NewJob 8]) [0; 0; 1; 1; 1; 1; 0; 1; 0; 0])
    as [s|] eqn:E; [|vm_compute in E; discriminate E].
  apply run_schedule_run in E as Hr. vm_compute in E. injection E as E.
  destruct (pool_drains (fun _ : nat => false) 2 [NewJob 7; NewJob 8] 10 s) as [_ HF];
    [lia|repeat constructor|repeat constructor|exact Hr|].
  exists s. destruct HF as (W & _ & S & F).
  - intros s' [id Hs]. rewrite <- E in Hs. unfold worker_step in Hs. cbn in Hs. by destruct id as [|[|id]].
  - split; [exact Hr|]. split; [exact S|]. split; [exact F|]. rewrite <- E. split; reflexivity.
Defined.

(** Fewer [Terminate]s than workers and no sender left: a worker panics inside
    [recv], which poisons the lock. *)
Lemma missing_terminate_panics :
  let s0 := mkPool [Terminate] false false [Locking; Locking] [] [] in
  exists s, run_schedule (fun _ : nat => false) s0 [0; 0; 1; 1] = Some s /\
    workers s = [Ended; Panicked] /\ poisoned s = true.
Proof. eexists. split; [vm_compute; reflexivity|]. by split. Qed.
