(* ===== verification/QueryEngine.v ===== *)
(** * The query engine without a server

    [QueryEngine] of [src/src/server/src/server.rs]: one database, one conductor
    and with it one transaction, over new managers.  Also the constructors of
    [database_state.rs] and [server_state.rs] that look for a stored database. *)

From S2P Require Import Prelude Bytes Common Types Sql Expr Storage Stats Catalog Graph Plan Planner OpIter.
From S2P Require Import LockManager OpIterTheorems PlannerProofs PlanMerge OptimizerTheorems PlannerTheorems.
From S2P Require Import MemStore MemStoreProofs MemStoreTheorems Mutator MutatorProofs MutatorTheorems.
From S2P Require Import Translate TranslateProofs TranslateSpec Commands Database Conductor Server ServerTheorems.
From S2P Require Import Session SessionTheorems.

Open Scope Z_scope.

(** ** Stored databases *)

(** Loading a database is not implemented. *)
Definition load_database : result DatabaseState := Panic.

(** [exists_]: is there a file of that name? *)
Definition create_db `{DbHash} (exists_ : bool) (db_name : string) : result DatabaseState :=
  if exists_ then load_database else Ok (new_from_name db_name).

(** [stored]: the entries of the directory of databases, if it exists. *)
Definition ServerState_new {St G} (stored : option (list string)) (mg : Managers St G) (counter : Z)
  : result (ServerState St G) :=
  match stored with
  | Some (_ :: _) => _ ← load_database; Panic
  | _ => Ok (mkServer ∅ ∅ mg counter false)
  end.

Record QueryEngine (St G : Type) := mkQueryEngine { qe_state : Engine St G; qe_conductor : Conductor }.
Arguments mkQueryEngine {St G}.
Arguments qe_state {St G}.
Arguments qe_conductor {St G}.

Definition QueryEngine_new `{DbHash} {St G} (exists_ : bool) (mg : Managers St G) (counter : Z)
  : result (QueryEngine St G) :=
  database_state ← unwrap (create_db exists_ "db_name");
  Ok (mkQueryEngine (mkEngine mg database_state) (Conductor_new counter).2).

Abbreviation QM St G := (stm (QueryEngine St G)).

Section Engine.
Context `{Profile, Chrono, Cbor, SqlParser} {St It G Rd : Type}.
Context `{!StorageTrait St It, !Rng G, !CsvCrate Rd}.
Context (fuel : nat).

(** A call on the database through the conductor. *)
Definition conducted {A} (m : Conductor -> EM St G A) : QM St G A := fun qe =>
  let '(e, r) := m (qe_conductor qe) (qe_state qe) in (mkQueryEngine e (qe_conductor qe), r).

Definition qe_get_table_id (table_name : string) : QM St G ContainerId :=
  conducted (fun _ => e_get_table_id table_name).

Definition qe_run_sql (text : string) : QM St G QueryResult :=
  conducted (fun conductor => run_sql_from_string (It := It) fuel conductor text).

Definition qe_to_logical_plan (text : string) : QM St G LogicalPlan := conducted (fun _ => to_logical_plan text).

Definition qe_to_physical_plan (text : string) : QM St G PhysicalPlan :=
  logical_plan ← qe_to_logical_plan text;
  conducted (fun _ => to_physical_plan logical_plan).

Definition qe_run_physical_plan (physical_plan : PhysicalPlan) : QM St G QueryResult :=
  conducted (fun conductor => run_physical_plan (It := It) fuel conductor physical_plan).

Definition qe_run_opiterator (opiterator : Op It) : QM St G QueryResult :=
  conducted (fun _ => run_opiterator fuel opiterator).

(** [reader]: the records of the input, split and with or without its header as
    the caller says. *)
Definition qe_import_csv (reader : Rd) (table_name : string) : QM St G Z :=
  table_id ← qe_get_table_id table_name;
  table_schema ← conducted (fun _ => c ← e_catalog; lift (unwrap_opt (get_table_schema c table_id)));
  conducted (fun _ => with_managers (import_records_from_reader fuel (mkCsvReader table_schema reader) table_id)).

(** Statements run one after the other. *)
Fixpoint qe_run_all (sqls : list string) : QM St G (list QueryResult) :=
  match sqls with
  | [] => mret []
  | text :: sqls => r ← qe_run_sql text; rs ← qe_run_all sqls; mret (r :: rs)
  end.

Lemma qe_run_all_script sqls : forall (e e' : Engine St G) cd rs, run_script (It := It) fuel cd sqls e = (e', Ok rs) ->
  qe_run_all sqls (mkQueryEngine e cd) = (mkQueryEngine e' cd, Ok rs).
Proof.
  induction sqls as [|text sqls IH]; intros e e' cd rs; cbn [run_script qe_run_all]; [by intros [= <- <-]|].
  unfold qe_run_sql, conducted, mbind, stm_bind. cbn [qe_conductor qe_state].
  destruct (run_sql_from_string fuel cd text e) as [e1 [r|er|]]; [|done..].
  destruct (run_script fuel cd sqls e1) as [e2 [rs2|er|]] eqn:E; [|done..].
  intros E'. injection E' as <- <-. by rewrite (IH e1 e2 cd rs2 E).
Qed.

(** A query runs as its plan.  Whatever the text: when its first statement is a
    query, planning it and running the plan leaves the same engine and answers the
    same as running the text; when it is another statement, planning it is refused
    and changes nothing; a text that is not understood is refused alike by both; and
    when it holds no statement, planning panics where running reports an error. *)
Theorem query_runs_as_plan text (qe : QueryEngine St G) :
  match parsed_statements text with
  | Ok (QueryStmt _ :: _) => (pp ← qe_to_physical_plan text; qe_run_physical_plan pp) qe = qe_run_sql text qe
  | Ok (_ :: _) => qe_to_physical_plan text qe = (qe, Err (c_err "Not a query"))
  | Ok [] => qe_to_physical_plan text qe = (qe, Panic) /\ qe_run_sql text qe = (qe, Err (c_err "Empty SQL command"))
  | Err e => qe_to_physical_plan text qe = (qe, Err e) /\ qe_run_sql text qe = (qe, Err e)
  | Panic => qe_to_physical_plan text qe = (qe, Panic) /\ qe_run_sql text qe = (qe, Panic)
  end.
Proof.
  destruct qe as [e cd].
  unfold qe_to_physical_plan, qe_to_logical_plan, qe_run_physical_plan, qe_run_sql, conducted, run_sql_from_string.
  unfold to_logical_plan, to_physical_plan, run_sql, mbind, stm_bind. cbn [qe_conductor qe_state].
  destruct (parsed_statements text) as [[|[? ? ?|q|? ? ?|] l]|er|]; cbn [lift head unwrap_opt]; try done.
  cbn [run_statement]. unfold run_query, mbind, stm_bind.
  destruct (e_from_sql q e) as [e1 [lp|er|]]; [|done..]. cbn [qe_state qe_conductor].
  by destruct (logical_plan_to_physical_plan lp).
Qed.
End Engine.

Section Theorems.
Context `{Profile, Chrono, Cbor, !CborLaws, SqlParser, DbHash} {St It G : Type}.
Context `{!StorageTrait St It, !StorageLaws (St := St) (It := It), !Rng G, !RngLaws}.

(** The engine answers scripts correctly.  A new engine, over any storage manager
    that keeps the promises of the storage interface, runs a script of CREATE TABLE,
    INSERT and SELECT statements that are supported one after the other to its end,
    and every answer is one the specification allows.  In particular a SELECT
    returns the relational meaning of the query over exactly the rows that the
    statements before it inserted. *)
Theorem engine_session_correct mg budget counter qe sqls a Ps k :
  fresh mg budget -> Z.of_nat budget <= 65535 ->
  QueryEngine_new false mg counter = Ok qe ->
  script_spec (mkA Catalog_new ∅) sqls a Ps k -> (k <= budget)%nat ->
  exists n qe' qrs, Forall2 (fun (P : QueryResult -> Prop) qr => P qr) Ps qrs /\
    forall fuel, (n <= fuel)%nat -> qe_run_all (It := It) fuel sqls qe = (qe', Ok qrs).
Proof.
  intros F Hb Eq Sp Hk. injection Eq as <-.
  destruct (sql_session_correct mg budget "db_name" counter sqls a Ps k F Hb Sp Hk) as (n & e & qrs & HP & E).
  eexists n, _, qrs. split; [done|]. intros fuel Hf. by apply qe_run_all_script, E.
Qed.
End Theorems.

(** ** Witness *)

Lemma engine_session_correct_witness :
  exists n qe qe', QueryEngine_new (H := demo_hash) false demo_mg 1 = Ok qe /\ forall fuel, (n <= fuel)%nat ->
    qe_run_all (H := true) (H0 := no_calendar) (H1 := bit_cbor) (H2 := demo_parser) (It := Mem.ValueIterator)
      (StorageTrait0 := MemStore_trait (H := true)) (Rng0 := zero_rng) fuel ["create t"; "insert t 7"; "select t"] qe =
    (qe', Ok [MessageOnly "Table t created"; InsertResult 1 "t"; SelectResult t_schema [mkTuple 0 None [FInt 7]] None]).
Proof.
  destruct demo_script as (Ps & Sp & EP).
  destruct (QueryEngine_new (H := demo_hash) false demo_mg 1) as [qe| |] eqn:Eq; [|discriminate Eq..].
  destruct (@engine_session_correct true no_calendar bit_cbor bit_cbor_laws demo_parser demo_hash _ _ _
              (MemStore_trait (H := true)) (MemStore_laws (H := true)) zero_rng zero_rng_laws demo_mg 9 1 qe _ _ Ps 2
              demo_fresh ltac:(lia) Eq Sp ltac:(lia)) as (n & qe' & qrs & HF & E).
  subst Ps. apply Forall2_cons_inv_l in HF as (q1 & l1 & -> & HF & ->).
  apply Forall2_cons_inv_l in HF as (q2 & l2 & -> & HF & ->).
  apply Forall2_cons_inv_l in HF as (q3 & l3 & (tab & sc & full & Hs & M & ->) & HF & ->).
  apply Forall2_nil_inv_l in HF as ->. destruct (demo_selected tab sc full Hs M) as [-> ->].
  exists n, qe, qe'. split; [reflexivity|exact E].
Defined.
