(* ===== verification/Client.v ===== *)
(** * The client

    [src/src/cli-crusty/src/lib.rs] against the session thread of
    [src/src/server/src/server.rs] ([handle_client_request]): a request is written
    as bytes, read and handled by the session, and its response is written, read and
    decoded.  Other clients act between the requests.  The terminal is the list of
    lines it delivers. *)

From S2P Require Import Prelude Bytes Common Types Sql Expr Storage Stats Catalog Plan Planner OpIter LockManager.
From S2P Require Import Mutator Translate Commands Wire Database Conductor Server.

Open Scope Z_scope.

(** How the network cuts the two directions of one exchange, and what the other
    clients do before it. *)
Record Weather := mkWeather { inward : list nat; outward : list nat; others : list event }.

(** A state with the network and the others as they will behave. *)
Abbreviation CM W := (stm (W * list Weather)%type).

Section Client.
Context `{Profile, Chrono, Cbor, SqlParser, DbHash, MapOrder, WireCodec} {St It G Rd : Type}.
Context `{!StorageTrait St It, !Rng G, !CsvCrate Rd, !FileSystem Rd}.
Context (fuel : nat) (client : Z).

Abbreviation Wd := (World St G).

(** An event that the server is not ready for does not happen. *)
Definition settle (w : Wd) (e : event) : Wd :=
  match serve (It := It) (Rd := Rd) fuel w e with Some (w, _) => w | None => w end.

(** The session thread reads one request, handles it and writes the response; when
    it reads nothing it understands, panics or cannot write, it closes the stream.
    [handle_request] has already reduced the response of a quiet session. *)
Definition session_round (w : Wd) (arr : list nat) (sent : list byte) : Wd * list byte :=
  match read_command (mkSocket sent arr) with
  | (_, None) => (settle w (Hangup client), [])
  | (_, Some c) =>
      match handle_request (It := It) (Rd := Rd) fuel w client c with
      | Some (w, Some (_, response)) =>
          match send_response response false with
          | Ok pieces => (w, concat pieces)
          | _ => (settle w (Hangup client), [])
          end
      | Some (w, None) => (w, [])
      | None => (w, [])
      end
  end.

Definition send_and_wait (request : Command) : CM Wd Response := fun '(w, weathers) =>
  let weather := default (mkWeather [] [] []) (head weathers) in
  let w := foldl settle w (others weather) in
  match send_request request with
  | None => ((w, tail weathers), Err (c_err "Failed to send request"))
  | Some bytes =>
      let '(w, answer) := session_round w (inward weather) bytes in
      let '(_, r) := wait_response (mkSocket answer (outward weather)) in
      ((w, tail weathers), r)
  end.

(** What a client does with a text; [exchange] sends a request and waits for its
    response. *)
Section Texts.
Context (exchange : Command -> CM Wd Response).

Definition client_handle_command (command : string) : CM Wd Response :=
  request ← lift (parse_command command);
  match request with
  | Some request => exchange request
  | None => throw (c_err "Invalid request")
  end.

(** [for command in commands { responses.push(self.handle_command(command)?) }] *)
Fixpoint handle_commands (commands : list string) : CM Wd (list Response) :=
  match commands with
  | [] => mret []
  | command :: commands =>
      response ← client_handle_command command;
      responses ← handle_commands commands;
      mret (response :: responses)
  end.

(** [None]: the buffer cannot be read as text. *)
Definition send_requests_from_buffer (content : option string) : CM Wd (list Response) :=
  match content with
  | Some content => handle_commands (split_into_commands content)
  | None => throw (c_err "Failed to read buffer")
  end.

(** The loop of the terminal: empty lines are skipped, errors are shown, and the
    answer to a shutdown ends it.  The responses are returned in order. *)
Fixpoint process_cli_loop (lines : list string) : CM Wd (list Response) :=
  match lines with
  | [] => mret []
  | line :: lines =>
      if String.eqb line EmptyString then process_cli_loop lines
      else fun s =>
        match client_handle_command line s with
        | (s, Ok response) =>
            if handle_response response
            then (responses ← process_cli_loop lines; mret (response :: responses)) s
            else (s, Ok [response])
        | (s, Err _) => process_cli_loop lines s
        | (s, Panic) => (s, Panic)
        end
  end.
End Texts.
End Client.
