(* ===== verification/ClientTheorems.v ===== *)
(** * The client: requests over the network are calls

    Writing, reading, handling, answering and decoding amount to one call of the
    server's handler, however the network cuts the streams, as long as a request
    arrives in one piece. *)

From S2P Require Import Prelude Bytes Common Types Sql Expr Storage Stats Catalog Plan Planner OpIter LockManager.
From S2P Require Import Mutator Translate Commands Wire WireTheorems Database Conductor Server Client.
From S2P Require Import MemStore OpIterTheorems MutatorTheorems PlannerTheorems TranslateTheorems ServerTheorems.

Open Scope Z_scope.

(** What the client sees of a stream that ends. *)
Definition end_of_stream : CrustyError := IOError "failed to fill whole buffer".

Section Theorems.
Context `{Profile, Chrono, Cbor, SqlParser, DbHash, MapOrder, WireCodec, !WireLaws} {St It G Rd : Type}.
Context `{!StorageTrait St It, !Rng G, !CsvCrate Rd, !FileSystem Rd}.
Context (fuel : nat) (client : Z).
Abbreviation Wd := (World St G).
Abbreviation handles := (handle_request (It := It) (Rd := Rd) fuel).
Abbreviation settles := (settle (It := It) (Rd := Rd) fuel).
Implicit Types s : Wd * list Weather.

(** The server as the client would call it directly. *)
Definition call (request : Command) : CM Wd Response := fun '(w, weathers) =>
  let weather := default (mkWeather [] [] []) (head weathers) in
  let w := foldl settles w (others weather) in
  match handles w client request with
  | Some (w, Some (_, response)) => ((w, tail weathers), Ok (on_wire response))
  | Some (w, None) => ((w, tail weathers), Err end_of_stream)
  | None => ((w, tail weathers), Err end_of_stream)
  end.

(** The request is at most 1024 bytes long and the first read finds all of it. *)
Definition arrives_whole (request : Command) (arr : list nat) : Prop :=
  forall bs, command_to_vec request = inl bs -> (length bs <= Nat.min 1024 (Nat.max 1 (default 1024 (head arr))))%nat.

(** One exchange: the request arrives whole and the response can be held in
    memory. *)
Definition calm s (request : Command) : Prop :=
  let weather := default (mkWeather [] [] []) (head s.2) in
  arrives_whole request (inward weather) /\
  forall w c r, handles (foldl settles s.1 (others weather)) client request = Some (w, Some (c, r)) -> fits r.

Lemma read_exact_nothing n arr m : exists sk, read_exact (S n) (mkSocket [] arr) (S m) = (sk, Err end_of_stream).
Proof. eexists. cbn [read_exact]. unfold read. cbn [pending]. by rewrite take_nil. Qed.

Lemma wait_nothing arr : (wait_response (mkSocket [] arr)).2 = Err end_of_stream.
Proof. unfold wait_response, receive_response. by destruct (read_exact_nothing 7 arr 7) as [sk ->]. Qed.

Lemma exchange_is_call s request : calm s request ->
  send_and_wait (It := It) (Rd := Rd) fuel client request s = call request s.
Proof.
  destruct s as [w weathers]. intros [Hw Hf]. unfold send_and_wait, call. cbn [fst snd] in Hf, Hw.
  set (weather := default (mkWeather [] [] []) (head weathers)) in *.
  destruct (command_roundtrip request) as (bs & E & _). unfold send_request. rewrite E.
  unfold session_round. pose proof (read_command_ok request bs (inward weather) E (Hw bs E)) as Er.
  destruct (read_command (mkSocket bs (inward weather))) as [sk o]. cbn [snd] in Er. subst o.
  destruct (handles (foldl settles w (others weather)) client request) as [[w' [[c r]|]]|] eqn:Eh.
  - specialize (Hf w' c r eq_refl). destruct (send_response_ok r false Hf) as (bs' & chunks & _ & _ & Es & _).
    rewrite Es. destruct (wait_response_ok r false _ [] (outward weather) Hf Es) as [arr' Ew].
    rewrite app_nil_r in Ew. rewrite Ew. done.
  - pose proof (wait_nothing (outward weather)) as Wn.
    destruct (wait_response (mkSocket [] (outward weather))) as [? x]. cbn [snd] in Wn. by rewrite Wn.
  - pose proof (wait_nothing (outward weather)) as Wn.
    destruct (wait_response (mkSocket [] (outward weather))) as [? x]. cbn [snd] in Wn. by rewrite Wn.
Qed.

(** Every exchange of a list of texts is calm. *)
Fixpoint calm_texts s (texts : list string) : Prop :=
  match texts with
  | [] => True
  | t :: texts =>
      match parse_command t with
      | Ok (Some request) =>
          calm s request /\ match call request s with (s', Ok _) => calm_texts s' texts | _ => True end
      | _ => True
      end
  end.

Lemma handle_commands_calls texts : forall s, calm_texts s texts ->
  handle_commands (send_and_wait (It := It) (Rd := Rd) fuel client) texts s = handle_commands call texts s.
Proof.
  induction texts as [|t texts IH]; intros s Hc; [done|].
  cbn [handle_commands calm_texts] in *. unfold client_handle_command.
  destruct (parse_command t) as [[request|]| |]; [|done..]. destruct Hc as [C1 C2].
  unfold mbind, stm_bind. cbn [lift]. rewrite exchange_is_call by done.
  destruct (call request s) as [s' [r|e|]]; [|done..]. by rewrite IH.
Qed.

(** The same for the lines of a terminal, which goes on after an error. *)
Fixpoint calm_lines s (lines : list string) : Prop :=
  match lines with
  | [] => True
  | line :: lines =>
      if String.eqb line EmptyString then calm_lines s lines
      else match parse_command line with
           | Ok (Some request) =>
               calm s request /\
               match call request s with
               | (s', Ok response) => if handle_response response then calm_lines s' lines else True
               | (s', Err _) => calm_lines s' lines
               | (_, Panic) => True
               end
           | Ok None | Err _ => calm_lines s lines
           | Panic => True
           end
  end.

(** C16: the network is transparent.  Whatever a file of commands or a terminal
    sends, and whatever the other clients do in between: when every request
    arrives in one piece and every response can be held in memory, encoding,
    splitting, reading, handling, answering and decoding leave the server and the
    answers as if the client had called the server's handler directly. *)
Theorem client_calls s content lines :
  (calm_texts s (split_into_commands content) ->
   send_requests_from_buffer (send_and_wait (It := It) (Rd := Rd) fuel client) (Some content) s =
   send_requests_from_buffer call (Some content) s) /\
  (calm_lines s lines ->
   process_cli_loop (send_and_wait (It := It) (Rd := Rd) fuel client) lines s = process_cli_loop call lines s).
Proof.
  split; [apply handle_commands_calls|]. revert s.
  induction lines as [|line lines IH]; intros s Hc; [done|]. cbn [process_cli_loop calm_lines] in *.
  destruct (String.eqb line EmptyString); [by apply IH|]. unfold client_handle_command, mbind, stm_bind.
  destruct (parse_command line) as [[request|]| |]; cbn [lift]; [|by apply IH..|done].
  destruct Hc as [C1 C2]. rewrite exchange_is_call by done.
  destruct (call request s) as [s' [r|e|]]; [|by apply IH|done].
  destruct (handle_response r); [|done]. by rewrite IH.
Qed.

(** One exchange of a client that is alone. *)
Lemma exchange_answered (w w' : Wd) weather weathers request response :
  others weather = [] -> arrives_whole request (inward weather) -> fits response ->
  handles w client request = Some (w', Some (client, response)) ->
  send_and_wait (It := It) (Rd := Rd) fuel client request (w, weather :: weathers) = ((w', weathers), Ok (on_wire response)).
Proof.
  intros Ho Ha Hf E. destruct weather as [i o es]. cbn in Ho. subst es.
  rewrite exchange_is_call; [by unfold call; cbn; rewrite E|].
  split; cbn; [done|]. rewrite E. by intros ? ? ? [= <- <- <-].
Qed.
End Theorems.

(** ** Witness *)

Definition demo_open : World Mem.StorageManager unit :=
  match accept demo_start with Some (w, _) => w | None => demo_start end.

(** Another client connects and creates a database before the first request. *)
Definition demo_weathers : list Weather :=
  [mkWeather [] [4%nat; 1%nat] [Incoming; Request 2 (System (Create "e"))]; mkWeather [] [9%nat] []].

Ltac solve_calm :=
  repeat split;
  [ intros ? [= <-]; vm_compute; lia
  | intros ? ? ? E; vm_compute in E; injection E as <- <- <-; intros ? [= <-]; vm_compute; reflexivity
  ].

Lemma client_calls_witness :
  let sends := send_and_wait (H := true) (H0 := no_calendar) (H1 := bit_cbor) (H2 := demo_parser) (H3 := demo_hash)
     (H4 := demo_order) (H5 := bit_wire) (It := Mem.ValueIterator) (Rd := list (list string))
     (StorageTrait0 := MemStore_trait (H := true)) (Rng0 := zero_rng) (CsvCrate0 := list_csv) (FileSystem0 := no_files) 9 1 in
  (send_requests_from_buffer sends (Some "\r d") (demo_open, demo_weathers)).2 = Ok [SystemMsg "Created database d"] /\
  (process_cli_loop sends [EmptyString; "\shutdown"; "\l"] (demo_open, demo_weathers)).2 = Ok [RShutdown].
Proof.
  intros sends.
  destruct (@client_calls true no_calendar bit_cbor demo_parser demo_hash demo_order bit_wire bit_wire_laws _ _ _ _
    (MemStore_trait (H := true)) zero_rng list_csv no_files 9 1 (demo_open, demo_weathers) "\r d"
    [EmptyString; "\shutdown"; "\l"]) as [E1 E2].
  split.
  - etransitivity; [apply (f_equal snd), E1|vm_compute; reflexivity].
    replace (split_into_commands "\r d") with ["\r d"] by (vm_compute; reflexivity).
    cbn [calm_texts]. replace (parse_command "\r d") with (Ok (Some (System (Create "d"))) : result _) by (vm_compute; reflexivity).
    solve_calm.
  - etransitivity; [apply (f_equal snd), E2|vm_compute; reflexivity]. cbn [calm_lines String.eqb Ascii.eqb Bool.eqb].
    replace (parse_command "\shutdown") with (Ok (Some (System Shutdown)) : result _) by (vm_compute; reflexivity).
    solve_calm.
Defined.
