(* ===== verification/EndToEnd.v ===== *)
(** * From the client to the tables

    The whole path of a script: a client sends commands over the network to a
    server, which parses, translates, plans and executes them on its storage, and
    reads the answers. *)

From S2P Require Import Prelude Bytes Common Types Sql Expr Storage Stats Catalog Graph Plan Planner OpIter.
From S2P Require Import PlannerProofs PlanMerge LockManager OpIterTheorems TranslateSpec.
From S2P Require Import OptimizerTheorems PlannerTheorems MemStore MemStoreProofs MemStoreTheorems.
From S2P Require Import Mutator MutatorProofs MutatorTheorems Translate Commands Wire WireTheorems Database Conductor.
From S2P Require Import Server ServerTheorems Session SessionTheorems Client ClientTheorems.

Open Scope Z_scope.

Section EndToEnd.
Context `{Profile, Chrono, Cbor, !CborLaws, SqlParser, DbHash, MapOrder, !MapOrderLaws, WireCodec, !WireLaws}.
Context {St It G Rd : Type} `{!StorageTrait St It, !StorageLaws (St := St) (It := It), !Rng G, !RngLaws}.
Context `{!CsvCrate Rd, !FileSystem Rd}.
Abbreviation Wd := (World St G).
Abbreviation handles := (handle_request (It := It) (Rd := Rd)).
Abbreviation sends := (fun fuel => send_and_wait (It := It) (Rd := Rd) fuel).

(** Client [c] has the only open session, connected to a database that stands for
    [a]. *)
Record hosted (N : nat) (c : Z) (w : Wd) (a : adb) : Prop := {
  ho_session : w_sessions w = {[c := false]};
  ho_listening : w_listening w = true;
  ho_running : shutdown_signal (w_server w) = false;
  ho_ok : server_ok (w_server w);
  ho_database : exists db, active_connections (w_server w) !! c = Some (db_id db) /\
    id_to_db (w_server w) !! db_id db = Some db /\ rep N (mkEngine (managers (w_server w)) db) a;
}.

(** A supported statement, as a request. *)
Lemma hosted_sql N c w a sql st a' P k : hosted N c w a -> parser_parse_sql sql = inl [st] ->
  sql_spec a st a' P k -> (k <= N)%nat ->
  exists n w' qr, P qr /\ hosted (N - k) c w' a' /\
    forall fuel, (n <= fuel)%nat -> handles fuel w c (DB (ExecuteSQL sql)) = Some (w', Some (c, RQueryResult qr)).
Proof.
  intros [Hs Hl Hr Ho (db & Ha & Hd & R)] Ep Sp Hk. destruct (Conductor_new (txn_counter (w_server w))) as [cnt cd] eqn:Ecd.
  assert (active cd) as Hc by (pose proof (new_conductor_active (txn_counter (w_server w))) as X; by rewrite Ecd in X).
  destruct (statement_ok N _ a cd st a' P k R Hc Sp Hk) as (n & e' & qr & HP & R' & E).
  assert (forall fuel, (n <= fuel)%nat ->
    run_sql_from_string (It := It) fuel cd sql (mkEngine (managers (w_server w)) db) = (e', Ok qr)) as Er.
  { intros fuel Hf. unfold run_sql_from_string. rewrite (parsed_ok a sql st a' P k Ep Sp).
    erewrite stm_bind_ok by reflexivity. by apply E. }
  pose proof (keeps_sql (It := It) n cd sql (mkEngine (managers (w_server w)) db)) as K. rewrite (Er n (le_n n)) in K.
  cbn [fst e_db] in K.
  set (s1 := mkServer (id_to_db (w_server w)) (active_connections (w_server w)) (managers (w_server w)) cnt false).
  set (w' := mkWorld (put_managers (e_mg e') (put_db (db_id db) (e_db e') s1)) (<[c := false]> (w_sessions w)) (w_next w)
               (w_listening w)).
  assert (forall fuel, (n <= fuel)%nat ->
    handles fuel w c (DB (ExecuteSQL sql)) = Some (w', Some (c, RQueryResult qr))) as Eh.
  { assert (w_sessions w !! c = Some false) as Hq by (by rewrite Hs, lookup_singleton_eq).
    intros fuel Hf. unfold handle_request. rewrite Hq. cbn [mbind option_bind handle_command].
    unfold mbind, stm_bind, gets, get_connected_db. rewrite Ha, Hd.
    unfold handle_database_command, or_else. cbn [run_database_command]. unfold mbind, stm_bind, new_conductor. rewrite Ecd, Hr.
    fold s1. unfold on_db. cbn [managers s1]. rewrite Er by done. done. }
  exists n, w', qr. split; [done|]. split; [|done]. split; cbn; [by rewrite Hs, insert_singleton_eq|exact Hl|done| |].
  - exact (serve_ok n w w' (Request c (DB (ExecuteSQL sql))) _ Ho (Eh n (le_n n))).
  - exists (e_db e'). rewrite (sd_id _ _ K). split_and!; [done|apply lookup_insert_eq|]. by destruct e'.
Qed.

(** A server without databases, over managers without containers, and an open
    session of client [c]. *)
Record vacant (N : nat) (c : Z) (w : Wd) : Prop := {
  va_session : w_sessions w = {[c := false]};
  va_listening : w_listening w = true;
  va_running : shutdown_signal (w_server w) = false;
  va_empty : id_to_db (w_server w) = ∅;
  va_ok : server_ok (w_server w);
  va_fresh : fresh (managers (w_server w)) N;
  va_bound : Z.of_nat N <= 65535;
}.

Lemma accepted_vacant mg counter w N : accept (start_server mg counter) = Some (w, None) ->
  fresh mg N -> Z.of_nat N <= 65535 -> vacant N 1 w.
Proof.
  intros E F Hb. pose proof (serve_ok (It := It) (Rd := Rd) 0 _ _ Incoming _ (start_ok mg counter) E) as Hs.
  injection E as <-. split; [apply insert_empty|done..].
Qed.

(** A command that ends normally, as a request. *)
Lemma request_handled fuel (w : Wd) c cmd q s r : w_sessions w !! c = Some q -> shutdown_signal s = false ->
  handle_command (It := It) (Rd := Rd) fuel q cmd c (w_server w) = (s, Ok (false, false, r)) ->
  handles fuel w c cmd = Some (mkWorld s (<[c := false]> (w_sessions w)) (w_next w) (w_listening w), Some (c, r)).
Proof. intros Hq Hs E. unfold handle_request. rewrite Hq. cbn [mbind option_bind]. rewrite E, Hs. done. Qed.

(** A client that finds the server vacant creates a database and connects to it. *)
Lemma created_and_connected N c w d : vacant N c w ->
  exists w1 w2, hosted N c w2 (mkA Catalog_new ∅) /\
    (forall fuel, handles fuel w c (System (Create d)) = Some (w1, Some (c, SystemMsg ("Created database " +:+ d)))) /\
    (forall fuel, handles fuel w1 c (System (Connect d)) = Some (w2, Some (c, SystemMsg ("Connected to database " +:+ d)))).
Proof.
  intros [V1 VL V2 V3 V4 V5 V6]. set (s1 := put_db (get_database_id d) (new_from_name d) (w_server w)).
  set (s2 := mkServer (id_to_db s1) (<[c := get_database_id d]> (active_connections s1)) (managers s1) (txn_counter s1) false).
  set (w1 := mkWorld s1 (<[c := false]> (w_sessions w)) (w_next w) (w_listening w)).
  assert (forall fuel, handles fuel w c (System (Create d)) = Some (w1, Some (c, SystemMsg ("Created database " +:+ d)))) as E1.
  { intros fuel. apply request_handled with (q := false); [by rewrite V1, lookup_singleton_eq|done|]. cbn [handle_command].
    unfold handle_system_command, run_system_command, or_else, create_new_db, mbind, stm_bind. by rewrite V3, lookup_empty. }
  assert (enumerate (id_to_db s1) = [(get_database_id d, new_from_name d)]) as En.
  { apply Permutation_singleton_r. cbn. by rewrite enumerate_perm, V3, insert_empty, map_to_list_singleton. }
  assert (forall fuel, handles fuel w1 c (System (Connect d)) =
    Some (mkWorld s2 (<[c := false]> (w_sessions w1)) (w_next w1) (w_listening w1),
          Some (c, SystemMsg ("Connected to database " +:+ d)))) as E2.
  { intros fuel. apply request_handled with (q := false); [apply lookup_insert_eq|done|]. cbn [handle_command w_server w1].
    unfold handle_system_command, run_system_command, or_else, connect_to_db, record_connection, get_db_id_from_name, mbind, stm_bind.
    rewrite En. cbn [find_db new_from_name db_name]. rewrite String.eqb_refl. unfold s2. by rewrite <- V2. }
  exists w1. eexists. split; [|by split; [exact E1|exact E2]].
  split; [cbn; by rewrite V1, !insert_singleton_eq|exact VL|done| |].
  - pose proof (serve_ok 0 _ _ (Request c (System (Create d))) _ V4 (E1 0%nat)) as O1.
    exact (serve_ok 0 _ _ (Request c (System (Connect d))) _ O1 (E2 0%nat)).
  - exists (new_from_name d). cbn. split; [apply lookup_insert_eq|]. split; [apply lookup_insert_eq|]. by apply fresh_rep.
Qed.

(** After a reset the server is vacant again. *)
Lemma reset_dbs_frame l : forall (s s' : ServerState St G) r, for_each reset_db l s = (s', r) ->
  managers s' = managers s /\ shutdown_signal s' = shutdown_signal s.
Proof.
  induction l as [|[i db] l IH]; intros s s' r; cbn [for_each]; [by intros [= <- <-]|].
  unfold mbind, stm_bind, reset_db. cbn [fst snd]. destruct (db_reset db) as [db' [[]|e|]]; intros E; [by apply IH in E|..];
    by injection E as <- <-.
Qed.

Lemma rep_dropped N (e : Engine St G) a s : rep N e a -> ok s -> view s = ∅ -> names s = ∅ ->
  (forall c n, room (sm (e_mg e)) c n -> room s c n) -> fresh (mkManagers s (stats (e_mg e))) N.
Proof.
  intros R W V Hn Hr. split; cbn [sm]; [done..| |].
  - intros c cs Hc. cbn [stats] in Hc. destruct (a_rows a !! c) as [rows|] eqn:Ea.
    + destruct (rp_rows _ _ _ R c rows Ea) as (m & old & ts & [_ _ (cs' & E & S)] & _ & _ & B).
      rewrite E in Hc. injection Hc as <-. by exists ts.
    + by apply (rp_fresh _ _ _ R c Ea).
  - intros c. apply Hr. apply (rp_room _ _ _ R).
Qed.

Lemma reset_handled N c w a : hosted N c w a ->
  exists w', vacant N c w' /\ forall fuel, handles fuel w c (System Reset) = Some (w', Some (c, SystemMsg "Reset server.")).
Proof.
  intros [Hs Hl Hr Ho (db & Ha & Hd & R)].
  destruct (reset_dbs_ok (enumerate (id_to_db (w_server w))) (w_server w) Ho) as (s1 & E1 & _).
  { intros x Hx. rewrite enumerate_perm in Hx. destruct x. by apply elem_of_map_to_list in Hx. }
  { rewrite enumerate_perm. apply NoDup_fst_map_to_list. }
  destruct (reset_dbs_frame _ _ _ _ E1) as [Em Es].
  destruct (law_reset (sm (managers (w_server w))) (rp_ok _ _ _ R)) as (st & Er & W & V & Hn & Hro).
  set (s2 := mkServer ∅ ∅ (mkManagers st (stats (managers s1))) (txn_counter s1) (shutdown_signal s1)).
  assert (forall fuel, handles fuel w c (System Reset) =
    Some (mkWorld s2 (<[c := false]> (w_sessions w)) (w_next w) (w_listening w), Some (c, SystemMsg "Reset server."))) as E.
  { intros fuel. apply request_handled with (q := false); [by rewrite Hs, lookup_singleton_eq|cbn; congruence|]. cbn [handle_command].
    unfold handle_system_command, run_system_command, or_else, server_reset, mbind, stm_bind, gets, clear_dbs, reset_managers.
    rewrite E1. cbn [managers]. rewrite Em, Er. unfold s2. by rewrite Em. }
  eexists. split; [|exact E]. split; cbn; [by rewrite Hs, insert_singleton_eq|exact Hl|congruence|done| | |].
  - exact (serve_ok 0 _ _ (Request c (System Reset)) _ Ho (E 0%nat)).
  - rewrite Em. by apply (rep_dropped N _ a st R).
  - pose proof (rp_next _ _ _ R). pose proof (go_next _ (rp_gen _ _ _ R)). lia.
Qed.

Abbreviation sql_command := (fun s => DB (ExecuteSQL s)).

(** The answers to the statements of a script, over the network. *)
Lemma script_answered a sqls a' Ps k : script_spec a sqls a' Ps k -> forall N w weathers texts,
  hosted N 1 w a -> (k <= N)%nat ->
  Forall2 (fun t c => parse_command t = Ok (Some c)) texts (sql_command <$> sqls) ->
  Forall2 (fun c weather => others weather = [] /\ arrives_whole c (inward weather)) (sql_command <$> sqls) weathers ->
  Forall (fun P : QueryResult -> Prop => forall qr, P qr -> fits (RQueryResult qr)) Ps ->
  exists n w' qrs, Forall2 (fun (P : QueryResult -> Prop) qr => P qr) Ps qrs /\
    forall fuel, (n <= fuel)%nat -> handle_commands (sends fuel 1) texts (w, weathers) =
      ((w', []), Ok ((fun qr => on_wire (RQueryResult qr)) <$> qrs)).
Proof.
  induction 1 as [a|a sql st a1 P k sqls a2 Ps ks Ep Sp Ss IH]; intros N w weathers texts Hh Hk Ht Hw Hf.
  - apply Forall2_nil_inv_r in Ht as ->. apply Forall2_nil_inv_l in Hw as ->. by exists 0%nat, w, [].
  - rewrite fmap_cons in Ht, Hw. apply Forall2_cons_inv_r in Ht as (t & texts' & Et & Ht & ->).
    apply Forall2_cons_inv_l in Hw as (wt & weathers' & [Ho Ha] & Hw & ->). apply Forall_cons in Hf as [Hf Hfs].
    destruct (hosted_sql N 1 w a sql st a1 P k Hh Ep Sp) as (n1 & w1 & qr & HP & Hh1 & E1); [lia|].
    destruct (IH (N - k)%nat w1 weathers' texts' Hh1) as (n2 & w2 & qrs & HPs & E2); [lia|done..|].
    exists (max n1 n2), w2, (qr :: qrs). split; [by constructor|]. intros fuel Hfu. cbn [handle_commands].
    erewrite stm_bind_ok; [|unfold client_handle_command; rewrite Et; cbn [lift]; erewrite stm_bind_ok by reflexivity;
      apply (exchange_answered fuel 1 w w1 wt weathers' _ (RQueryResult qr) Ho Ha (Hf qr HP)); apply E1; lia].
    erewrite stm_bind_ok; [|apply E2; lia]. done.
Qed.

(** C1: the system answers correctly.  A client opens a connection to a server
    that was just started over any storage manager that keeps the promises of the
    storage interface, and sends a text of commands: create a database, connect to
    it, then statements (CREATE TABLE, INSERT, SELECT) that are supported one
    after the other and store no more rows and tables than there is room for (65535
    at most).  When no other client acts meanwhile, every request has at most 1024
    bytes and is found by one read of the server, and the answers can be held in
    memory, however the network cuts the answers, the client gets one response for
    every command, in order; the response to a statement is one the specification
    allows.  In particular a SELECT returns the relational meaning of the query over
    exactly the rows inserted before. *)
Theorem end_to_end_correct mg budget counter w d content sqls a Ps k weathers :
  fresh mg budget -> Z.of_nat budget <= 65535 ->
  accept (start_server mg counter) = Some (w, None) ->
  let commands := System (Create d) :: System (Connect d) :: (sql_command <$> sqls) in
  Forall2 (fun t c => parse_command t = Ok (Some c)) (split_into_commands content) commands ->
  Forall2 (fun c weather => others weather = [] /\ arrives_whole c (inward weather)) commands weathers ->
  script_spec (mkA Catalog_new ∅) sqls a Ps k -> (k <= budget)%nat ->
  fits (SystemMsg ("Created database " +:+ d)) -> fits (SystemMsg ("Connected to database " +:+ d)) ->
  Forall (fun P : QueryResult -> Prop => forall qr, P qr -> fits (RQueryResult qr)) Ps ->
  exists n w' qrs, Forall2 (fun (P : QueryResult -> Prop) qr => P qr) Ps qrs /\
    forall fuel, (n <= fuel)%nat ->
      send_requests_from_buffer (sends fuel 1) (Some content) (w, weathers) =
      ((w', []), Ok (SystemMsg ("Created database " +:+ d) :: SystemMsg ("Connected to database " +:+ d) ::
                     ((fun qr => on_wire (RQueryResult qr)) <$> qrs))).
Proof.
  intros F Hb Ew commands Ht Hw Sp Hk F1 F2 Fs. unfold commands in *.
  apply Forall2_cons_inv_r in Ht as (t1 & texts1 & E1 & Ht & Es).
  apply Forall2_cons_inv_r in Ht as (t2 & texts & E2 & Ht & ->).
  apply Forall2_cons_inv_l in Hw as (w1 & ws1 & [O1 A1] & Hw & ->).
  apply Forall2_cons_inv_l in Hw as (w2 & ws & [O2 A2] & Hw & ->).
  destruct (created_and_connected budget 1 w d (accepted_vacant mg counter w budget Ew F Hb)) as (wc & wd & Hh & C1 & C2).
  destruct (script_answered _ _ _ _ _ Sp budget wd ws texts Hh Hk Ht Hw Fs) as (n & w' & qrs & HP & E).
  exists n, w', qrs. split; [done|]. intros fuel Hf. unfold send_requests_from_buffer. rewrite Es. cbn [handle_commands].
  erewrite stm_bind_ok; [|unfold client_handle_command; rewrite E1; cbn [lift]; erewrite stm_bind_ok by reflexivity;
    exact (exchange_answered fuel 1 w wc w1 (w2 :: ws) _ _ O1 A1 F1 (C1 fuel))].
  erewrite stm_bind_ok; [|erewrite stm_bind_ok; [|unfold client_handle_command; rewrite E2; cbn [lift];
    erewrite stm_bind_ok by reflexivity; exact (exchange_answered fuel 1 wc _ w2 ws _ _ O2 A2 F2 (C2 fuel))];
    erewrite stm_bind_ok; [|by apply E]; reflexivity].
  done.
Qed.
End EndToEnd.

(** ** Witness *)

Definition demo_content : string := "\r d; \c d; create t; insert t 7; select t".
Definition demo_commands : list Command :=
  [System (Create "d"); System (Connect "d"); DB (ExecuteSQL "create t"); DB (ExecuteSQL "insert t 7"); DB (ExecuteSQL "select t")].
Definition demo_weather : Weather := mkWeather [] [5%nat; 3%nat] [].

Lemma end_to_end_correct_witness :
  exists n w w', accept demo_start = Some (w, None) /\ forall fuel, (n <= fuel)%nat ->
    send_requests_from_buffer
      (send_and_wait (H := true) (H0 := no_calendar) (H1 := bit_cbor) (H2 := demo_parser) (H3 := demo_hash) (H4 := demo_order)
         (H5 := bit_wire) (It := Mem.ValueIterator) (Rd := list (list string)) (StorageTrait0 := MemStore_trait (H := true))
         (Rng0 := zero_rng) (CsvCrate0 := list_csv) (FileSystem0 := no_files) fuel 1)
      (Some demo_content) (w, replicate 5 demo_weather) =
    ((w', []), Ok [SystemMsg "Created database d"; SystemMsg "Connected to database d";
                   RQueryResult (MessageOnly "Table t created"); RQueryResult (InsertResult 1 "t");
                   RQueryResult (SelectResult t_schema [mkTuple 0 None [FInt 7]] None)]).
Proof.
  destruct demo_script as (Ps & Sp & EP). destruct (accept demo_start) as [[w o]|] eqn:Ew; [|discriminate Ew].
  assert (o = None) as -> by (by injection Ew as _ <-).
  destruct (@end_to_end_correct true no_calendar bit_cbor bit_cbor_laws demo_parser demo_hash demo_order demo_order_laws
              bit_wire bit_wire_laws _ _ _ (list (list string)) (MemStore_trait (H := true)) (MemStore_laws (H := true))
              zero_rng zero_rng_laws list_csv no_files demo_mg 9 1 w "d" demo_content
              ["create t"; "insert t 7"; "select t"] (mkA t_catalog {[0 := [[FInt 7]]]}) Ps 2 (replicate 5 demo_weather)
              demo_fresh ltac:(lia) Ew) as (n & w' & qrs & HF & E).
  - replace (split_into_commands demo_content) with ["\r d"; "\c d"; "create t"; "insert t 7"; "select t"]
      by (vm_compute; reflexivity).
    repeat (constructor; [vm_compute; reflexivity|]). constructor.
  - repeat (constructor; [split; [reflexivity|intros bs [= <-]; vm_compute; lia]|]). constructor.
  - exact Sp.
  - lia.
  - intros bs [= <-]. vm_compute. reflexivity.
  - intros bs [= <-]. vm_compute. reflexivity.
  - subst Ps. constructor; [|constructor; [|constructor; [|constructor]]].
    + intros qr -> bs [= <-]. vm_compute. reflexivity.
    + intros qr -> bs [= <-]. vm_compute. reflexivity.
    + intros qr (tab & sc & full & Hs & M & ->). destruct (demo_selected tab sc full Hs M) as [-> ->].
      intros bs [= <-]. vm_compute. reflexivity.
  - subst Ps. apply Forall2_cons_inv_l in HF as (q1 & l1 & -> & HF & ->).
    apply Forall2_cons_inv_l in HF as (q2 & l2 & -> & HF & ->).
    apply Forall2_cons_inv_l in HF as (q3 & l3 & (tab & sc & full & Hs & M & ->) & HF & ->).
    apply Forall2_nil_inv_l in HF as ->. destruct (demo_selected tab sc full Hs M) as [-> ->].
    exists n, w, w'. split; [reflexivity|exact E].
Defined.
