(* ===== verification/CsvCompare.v ===== *)
(** * Comparing results

    [src/src/utilities/src/csv_compare.rs] and [vec_compare.rs]: CSV files compared
    in order, up to order and by inclusion, the last two through hashes.  The
    readers of the [csv] crate and the algorithm of [DefaultHasher] are parameters;
    a heap is kept in the order in which it pops, greatest first. *)

From S2P Require Import Prelude Bytes Types Expr Storage Stats Catalog Mutator MutatorTheorems.

Open Scope Z_scope.

Class DefaultHasher := {
  hash_record : list string -> Z;
  hash_hashes : list Z -> Z;
}.

Abbreviation csv_result := (outcome string).

Definition first_fields (num_fields : option nat) (record : list string) : list string :=
  match num_fields with Some n => take n record | None => record end.

(** [rec?] *)
Definition record_of (r : string + list string) : csv_result (list string) :=
  match r with inl e => Err e | inr record => Ok record end.

Definition heap_push (h : Z) (heap : list Z) : list Z := insert_by_key Z.opp h heap.

Section Compare.
Context `{DefaultHasher, CsvCrate R1, CsvCrate R2}.
Context (num_fields : option nat).

Fixpoint csvs_equal_ordered (fuel : nat) (rdr1 : R1) (rdr2 : R2) : csv_result bool :=
  match fuel with
  | O => Panic
  | S fuel' =>
      let '(rdr1, rec1) := records_next rdr1 in
      let '(rdr2, rec2) := records_next rdr2 in
      match rec1, rec2 with
      | None, None => Ok true
      | Some rec1, Some rec2 =>
          rec1 ← record_of rec1;
          rec2 ← record_of rec2;
          if decide (first_fields num_fields rec1 = first_fields num_fields rec2)
          then csvs_equal_ordered fuel' rdr1 rdr2 else Ok false
      | _, _ => Ok false
      end
  end.

(** [for rec in rdr.records() { .. heap.push(hasher.finish()) }] *)
Fixpoint push_records `{CsvCrate R} (fuel : nat) (rdr : R) (heap : list Z) : csv_result (list Z) :=
  match fuel with
  | O => Panic
  | S fuel' =>
      match records_next rdr with
      | (_, None) => Ok heap
      | (rdr, Some rec) =>
          rec ← record_of rec;
          push_records fuel' rdr (heap_push (hash_record (first_fields num_fields rec)) heap)
      end
  end.

Definition csvs_equal_unordered (fuel : nat) (rdr1 : R1) (rdr2 : R2) : csv_result bool :=
  heap1 ← push_records fuel rdr1 [];
  heap2 ← push_records fuel rdr2 [];
  Ok (hash_hashes heap1 =? hash_hashes heap2).

(** The inner loop: pops until it finds the hash; [None] at the end of the heap. *)
Fixpoint pop_until (hash1 : Z) (heap2 : list Z) : option (list Z) :=
  match heap2 with
  | [] => None
  | hash2 :: heap2 => if hash1 =? hash2 then Some heap2 else pop_until hash1 heap2
  end.

Fixpoint pop_all (heap1 heap2 : list Z) : bool :=
  match heap1 with
  | [] => true
  | hash1 :: heap1 =>
      match pop_until hash1 heap2 with Some heap2 => pop_all heap1 heap2 | None => false end
  end.

Definition csvs_subset (fuel : nat) (rdr1 : R1) (rdr2 : R2) : csv_result bool :=
  heap1 ← push_records fuel rdr1 [];
  heap2 ← push_records fuel rdr2 [];
  Ok (pop_all heap1 heap2).
End Compare.

Definition compare_unordered {A} `{Countable A} (a b : list A) : bool :=
  let a_set := foldl (fun s x => {[x]} ∪ s) (∅ : gset A) a in
  let b_set := foldl (fun s x => {[x]} ∪ s) (∅ : gset A) b in
  bool_decide (a_set = b_set).

Definition compare_ordered {A} `{EqDecision A} (a b : list A) : bool := bool_decide (a = b).

(** ** Heaps *)

Abbreviation descending := (StronglySorted (key_le Z.opp)).

Lemma descending_unique l1 l2 : descending l1 -> descending l2 -> l1 ≡ₚ l2 -> l1 = l2.
Proof.
  intros S1 S2 P. eapply StronglySorted_unique_strong; [|exact S1|exact S2|exact P].
  unfold key_le. intros. lia.
Qed.

Lemma pop_until_inv h l l' : pop_until h l = Some l' -> exists pre, l = pre ++ h :: l' /\ h ∉ pre.
Proof.
  induction l as [|x l IH]; cbn [pop_until]; [done|]. case_Z_bool.
  - intros [= ->]. exists []. split; [by f_equal/=|apply not_elem_of_nil].
  - intros (pre & -> & Hn)%IH. exists (x :: pre). split; [done|]. by apply not_elem_of_cons.
Qed.

Lemma pop_until_some h l : h ∈ l -> is_Some (pop_until h l).
Proof.
  induction l as [|x l IH]; intros Hin; [by apply not_elem_of_nil in Hin|]. cbn [pop_until].
  case_Z_bool; [by eexists|]. apply IH. by apply elem_of_cons in Hin as [->|].
Qed.

Lemma submseteq_skip_disjoint {A} (l a b : list A) : l ⊆+ a ++ b -> (forall x, x ∈ l -> x ∉ a) -> l ⊆+ b.
Proof.
  intros (k1 & k2 & P & H1 & H2)%submseteq_app_r Hd. destruct k1 as [|x k1]; [by rewrite P|].
  destruct (Hd x); [rewrite P; apply list_elem_of_here|]. eapply elem_of_submseteq; [|exact H1]. apply list_elem_of_here.
Qed.

Lemma pop_all_spec l1 : forall l2, descending l1 -> descending l2 -> pop_all l1 l2 = true <-> l1 ⊆+ l2.
Proof.
  induction l1 as [|h l1 IH]; intros l2 S1 S2; cbn [pop_all].
  - split; [intros _; apply submseteq_nil_l|done].
  - apply StronglySorted_inv in S1 as [S1 F1]. destruct (pop_until h l2) as [l2'|] eqn:E.
    + apply pop_until_inv in E as (pre & -> & Hn).
      apply StronglySorted_app in S2 as (Hc & _ & S2). apply StronglySorted_inv in S2 as [S2 F2].
      rewrite IH by done. split.
      * intros Hs. rewrite <- Permutation_middle. apply submseteq_skip. by apply submseteq_inserts_l.
      * rewrite <- Permutation_middle. intros (k & Pk%Permutation_cons_inv & Hs)%submseteq_cons_l. rewrite <- Pk in Hs. eapply submseteq_skip_disjoint; [exact Hs|].
        intros x Hx Hp. rewrite Forall_forall in F1. specialize (F1 x Hx).
        specialize (Hc x h Hp ltac:(apply list_elem_of_here)). unfold key_le in *.
        assert (x = h) as -> by lia. done.
    + split; [done|]. intros Hs. destruct (pop_until_some h l2) as [? E']; [|congruence].
      eapply elem_of_submseteq; [apply list_elem_of_here|exact Hs].
Qed.

(** ** The theorems *)

Lemma fmap_submseteq_inj {A B} (f : A -> B) (l1 l2 : list A) :
  (forall x y, x ∈ l1 -> y ∈ l2 -> f x = f y -> x = y) -> f <$> l1 ⊆+ f <$> l2 -> l1 ⊆+ l2.
Proof.
  intros Hi (k & P)%submseteq_Permutation. symmetry in P.
  destruct (Permutation_map_inv f _ P) as (l3 & E & P3). symmetry in E.
  apply fmap_app_inv in E as (a & b & Ea & Eb & ->). rewrite P3. apply submseteq_inserts_r.
  assert (l1 = a) as ->; [|done]. assert (forall x y, x ∈ l1 -> y ∈ a -> f x = f y -> x = y) as Ha.
  { intros x y Hx Hy. apply Hi; [done|]. rewrite P3, elem_of_app. by left. }
  clear -Ea Ha. revert a Ea Ha. induction l1 as [|x l1 IH]; intros [|y a] Ea Ha; try done.
  rewrite !fmap_cons in Ea. injection Ea as Ex Ea.
  f_equal; [apply Ha; [apply list_elem_of_here..|done]|]. apply IH; [done|]. intros u v Hu Hv.
  apply Ha; by apply list_elem_of_further.
Qed.

Section Theorems.
Context `{DefaultHasher, CsvCrate R1, CsvCrate R2} (num_fields : option nat).

Lemma push_records_ok `{CsvCrate R} (rdr : R) l : csv_yields rdr l -> forall fuel heap,
  (length l < fuel)%nat -> descending heap ->
  exists heap', push_records num_fields fuel rdr heap = Ok heap' /\ descending heap' /\
    heap' ≡ₚ (hash_record <$> (first_fields num_fields <$> l)) ++ heap.
Proof.
  induction 1 as [rd rd' E E'|rd rd' r rs E Y IH]; intros [|fuel] heap Hf Hd; cbn [length] in Hf; try lia;
    cbn [push_records]; rewrite E; [by exists heap|].
  cbn [record_of]. mstep. destruct (IH fuel (heap_push (hash_record (first_fields num_fields r)) heap)) as (h & Eh & Dh & Ph);
    [lia|by apply insert_by_key_sorted|]. exists h. split; [done|]. split; [done|].
  rewrite Ph. unfold heap_push. rewrite insert_by_key_perm, !fmap_cons. by rewrite <- Permutation_middle.
Qed.

Lemma ordered_ok (rdr1 : R1) l1 : csv_yields rdr1 l1 -> forall (rdr2 : R2) l2 fuel, csv_yields rdr2 l2 ->
  (length l1 < fuel)%nat -> csvs_equal_ordered num_fields fuel rdr1 rdr2 =
    Ok (bool_decide (first_fields num_fields <$> l1 = first_fields num_fields <$> l2)).
Proof.
  induction 1 as [rd rd' E E'|rd rd' r rs E Y IH]; intros rdr2 l2 [|fuel] Y2 Hf; cbn [length] in Hf; try lia;
    cbn [csvs_equal_ordered]; rewrite E; destruct Y2 as [rd2 rd2' E2 E2'|rd2 rd2' r2 rs2 E2 Y2]; rewrite E2; try done.
  cbn [record_of]. mstep. rewrite !fmap_cons. destruct (decide _) as [Ef|Ef].
  - rewrite (IH rd2' rs2 fuel Y2) by lia. f_equal. apply bool_decide_ext. rewrite Ef. split; [by intros ->|by intros [=]].
  - rewrite bool_decide_eq_false_2; [done|]. by intros [=].
Qed.

(** No two records have one hash, and no two lists of hashes. *)
Definition collision_free (r1 r2 : list (list string)) : Prop :=
  (forall x y, x ∈ r1 -> y ∈ r2 -> hash_record x = hash_record y -> x = y) /\
  (forall h1 h2, h1 ≡ₚ hash_record <$> r1 -> h2 ≡ₚ hash_record <$> r2 -> hash_hashes h1 = hash_hashes h2 -> h1 = h2).

Lemma unordered_ok (rdr1 : R1) (rdr2 : R2) l1 l2 fuel :
  csv_yields rdr1 l1 -> csv_yields rdr2 l2 -> (length l1 < fuel)%nat -> (length l2 < fuel)%nat ->
  let r1 := first_fields num_fields <$> l1 in
  let r2 := first_fields num_fields <$> l2 in
  exists same included,
    csvs_equal_unordered num_fields fuel rdr1 rdr2 = Ok same /\
    csvs_subset num_fields fuel rdr1 rdr2 = Ok included /\
    (r1 ≡ₚ r2 -> same = true) /\ (r1 ⊆+ r2 -> included = true) /\
    (collision_free r1 r2 -> (same = true -> r1 ≡ₚ r2) /\ (included = true -> r1 ⊆+ r2)).
Proof.
  intros Y1 Y2 F1 F2 r1 r2.
  assert (descending []) as D0 by constructor.
  destruct (push_records_ok rdr1 l1 Y1 fuel [] F1 D0) as (h1 & E1 & D1 & P1).
  destruct (push_records_ok rdr2 l2 Y2 fuel [] F2 D0) as (h2 & E2 & D2 & P2).
  rewrite app_nil_r in P1, P2. fold r1 in P1. fold r2 in P2.
  exists (hash_hashes h1 =? hash_hashes h2), (pop_all h1 h2).
  unfold csvs_equal_unordered, csvs_subset. rewrite E1, E2. mstep. split; [done|]. split; [done|].
  assert (r1 ⊆+ r2 -> h1 ⊆+ h2) as Hh by (rewrite P1, P2; apply fmap_submseteq).
  split; [intros P; rewrite (descending_unique h1 h2 D1 D2); [apply Z.eqb_refl|by rewrite P1, P2, P]|].
  rewrite pop_all_spec by done. split; [done|]. intros [Hr Hc].
  split; [|rewrite P1, P2; by apply fmap_submseteq_inj].
  intros Eh%Z.eqb_eq. apply Hc in Eh; [|done..]. subst h2.
  apply submseteq_length_Permutation; [apply (fmap_submseteq_inj hash_record); [done|]; by rewrite <- P1, <- P2|].
  apply Permutation_length in P1, P2. rewrite !length_fmap in *. lia.
Qed.

(** C27: comparisons of results decide what they are named after.  On readable
    files, and looking at the first fields only when a number is given: the ordered
    comparison decides equality; the unordered one accepts every permutation and,
    without hash collisions, nothing else; inclusion accepts every sub-multiset
    and, without collisions, nothing else. *)
Theorem csv_comparisons_correct (rdr1 : R1) (rdr2 : R2) l1 l2 fuel :
  csv_yields rdr1 l1 -> csv_yields rdr2 l2 -> (length l1 < fuel)%nat -> (length l2 < fuel)%nat ->
  let r1 := first_fields num_fields <$> l1 in
  let r2 := first_fields num_fields <$> l2 in
  csvs_equal_ordered num_fields fuel rdr1 rdr2 = Ok (bool_decide (r1 = r2)) /\
  exists same included,
    csvs_equal_unordered num_fields fuel rdr1 rdr2 = Ok same /\
    csvs_subset num_fields fuel rdr1 rdr2 = Ok included /\
    (r1 ≡ₚ r2 -> same = true) /\ (r1 ⊆+ r2 -> included = true) /\
    (collision_free r1 r2 -> (same = true -> r1 ≡ₚ r2) /\ (included = true -> r1 ⊆+ r2)).
Proof.
  intros Y1 Y2 F1 F2 r1 r2. split; [by apply ordered_ok|by apply unordered_ok].
Qed.
End Theorems.

Lemma inserted_set {A} `{Countable A} (l : list A) : forall (s : gset A) x,
  x ∈ foldl (fun s x => {[x]} ∪ s) s l <-> x ∈ l \/ x ∈ s.
Proof.
  induction l as [|y l IH]; intros s x; cbn [foldl].
  - split; [by right|]. intros [Hx|]; [by apply not_elem_of_nil in Hx|done].
  - rewrite IH, elem_of_cons. set_solver.
Qed.

(** Vectors compared up to order are compared as sets. *)
Lemma compare_unordered_spec {A} `{Countable A} (a b : list A) :
  compare_unordered a b = true <-> (forall x, x ∈ a <-> x ∈ b).
Proof.
  unfold compare_unordered. rewrite bool_decide_eq_true, set_eq. split; intros Hx x; specialize (Hx x);
    rewrite !inserted_set in *; set_solver.
Qed.

(** How often an element occurs does not count. *)
Lemma compare_unordered_ignores_count : compare_unordered [1; 1; 2] [1; 2] = true.
Proof. apply compare_unordered_spec. set_solver. Qed.

(** ** Witness *)

Definition injective_hasher : DefaultHasher :=
  {| hash_record r := Z.pos (encode r); hash_hashes l := Z.pos (encode l) |}.

Lemma injective_hasher_collision_free r1 r2 : collision_free (H := injective_hasher) r1 r2.
Proof.
  split; [intros x y _ _ [= E]; by apply encode_inj in E|intros h1 h2 _ _ [= E]; by apply encode_inj in E].
Qed.

Lemma csv_comparisons_correct_witness :
  csvs_equal_ordered (H0 := list_csv) (H1 := list_csv) (Some 1%nat) 5 [["1"; "x"]] [["2"]; ["1"; "y"]] = Ok false /\
  exists same included,
    csvs_equal_unordered (H := injective_hasher) (H0 := list_csv) (H1 := list_csv) (Some 1%nat) 5
      [["1"; "x"]] [["2"]; ["1"; "y"]] = Ok same /\
    csvs_subset (H := injective_hasher) (H0 := list_csv) (H1 := list_csv) (Some 1%nat) 5
      [["1"; "x"]] [["2"]; ["1"; "y"]] = Ok included /\ same = false /\ included = true.
Proof.
  destruct (@csv_comparisons_correct injective_hasher _ list_csv _ list_csv (Some 1%nat)
              [["1"; "x"]] [["2"]; ["1"; "y"]] [["1"; "x"]] [["2"]; ["1"; "y"]] 5
              (list_csv_yields _) (list_csv_yields _)) as (E & same & included & E1 & E2 & _ & S2 & Hc).
  - cbn. lia.
  - cbn. lia.
  - split; [exact E|]. exists same, included. split; [exact E1|]. split; [exact E2|].
    split; [|apply S2; apply submseteq_cons; reflexivity].
    destruct (Hc (injective_hasher_collision_free _ _)) as [Hs _]. destruct same; [|reflexivity].
    discriminate (Permutation_length (Hs eq_refl)).
Defined.
