(* ===== verification/StorageTests.v ===== *)
(** * The tests of the storage interface

    [src/src/storage/src/storage_common.rs] runs the same tests on every storage
    manager, and [src/src/storage/heapstore/tests/sm_integration.rs] is an earlier
    version of them.  They are modelled over any implementation of the interface
    and any random generator; a failed assertion panics.

    The theorems say that the laws of the interface are what these tests test: a
    manager that keeps [StorageLaws] passes them whatever the generator draws,
    except that the tests which compare sets of values rely on the drawn values
    being distinct, and fail when they are not. *)

From S2P Require Import Prelude Bytes Common Storage MemStore MemStoreProofs MemStoreTheorems.
From S2P Require Import TestUtil TestUtilTheorems CsvCompare.

Open Scope Z_scope.

Section Suite.
Context `{Profile} {St It Dir G : Type} `{!StorageTrait St It, !StorageLifecycle St Dir, !ThreadRng G}.

Definition assert (b : bool) : result unit := if b then Ok tt else Panic.

(** [(0..size).map(|_| gen_random_byte_vec(gen_random_int(50, 100))).collect()] *)
Definition gen_expected (size : Z) : stm G (list value) :=
  mapS (fun _ => n ← gen_random_int 50 100; gen_random_byte_vec n) (times size).

(** [instance.create_table(cid).unwrap(); instance.insert_values(cid, values, t)] *)
Definition create_and_insert (instance : St) (cid : ContainerId) (values : list value) : result (St * list ValueId) :=
  let '(instance, created) := create_table instance cid in
  _ ← unwrap created;
  insert_values instance cid values.

(** [instance.get_iterator(cid, t, RO).map(|(a, _)| a).collect()] *)
Definition collect_values (fuel : nat) (instance : St) (cid : ContainerId) : result (list value) :=
  it ← get_iterator instance cid;
  items ← drain instance fuel it;
  Ok items.*1.

(** ** [storage_common.rs] *)

Definition sizes : list Z := [10; 50; 75; 100; 500; 1000].

Definition sm_inserts (fuel : nat) (instance : St) : stm G St :=
  foldS (fun instance '(i, size) =>
    expected ← gen_expected size;
    let cid := wrap_u 16 i in
    '(instance, _) ← lift (create_and_insert instance cid expected);
    found ← lift (collect_values fuel instance cid);
    _ ← lift (assert (compare_unordered expected found));
    mret instance) instance (zip (seqZ 0 (lenZ sizes)) sizes).

(** One turn of the loop of [sm_insert_delete]. *)
Definition delete_turn (fuel : nat) (st : St * list value * list ValueId) : stm G (St * list value * list ValueId) :=
  let '(instance, expected, val_ids) := st in
  top ← lift (arith_u 64 (lenZ expected - 1));
  idx_to_del ← gen_random_int 0 top;
  id ← lift (unwrap_opt (val_ids !! Z.to_nat idx_to_del));
  let '(instance, deleted) := delete_value instance id in
  _ ← lift (unwrap deleted);
  found ← lift (collect_values fuel instance 1);
  _ ← lift (assert (negb (compare_unordered expected found)));
  expected ← lift (swap_remove expected (Z.to_nat idx_to_del));
  val_ids ← lift (swap_remove val_ids (Z.to_nat idx_to_del));
  _ ← lift (assert (compare_unordered expected found));
  mret (instance, expected, val_ids).

(** [sm_insert_delete] from the values on. *)
Definition insert_delete_on (fuel : nat) (instance : St) (expected : list value) : stm G St :=
  '(instance, val_ids) ← lift (create_and_insert instance 1 expected);
  '(instance, _, _) ← foldS (fun st _ => delete_turn fuel st) (instance, expected, val_ids) (times 10);
  mret instance.

Definition sm_insert_delete (fuel : nat) (instance : St) : stm G St :=
  expected ← gen_expected 100;
  insert_delete_on fuel instance expected.

(** One turn of the loop of [sm_insert_updates], from its two draws on. *)
Definition update_at (fuel : nat) (st : St * list value * list ValueId) (idx_to_upd : Z) (new_bytes : value)
  : result (St * list value * list ValueId) :=
  let '(instance, expected, val_ids) := st in
  id ← unwrap_opt (val_ids !! Z.to_nat idx_to_upd);
  let '(instance, updated) := update_value instance new_bytes id in
  new_val_id ← unwrap updated;
  found ← collect_values fuel instance 1;
  _ ← assert (negb (compare_unordered expected found));
  let expected := <[Z.to_nat idx_to_upd := new_bytes]> expected in
  let val_ids := <[Z.to_nat idx_to_upd := new_val_id]> val_ids in
  _ ← assert (compare_unordered expected found);
  Ok (instance, expected, val_ids).

Definition update_turn (fuel : nat) (st : St * list value * list ValueId) : stm G (St * list value * list ValueId) :=
  top ← lift (arith_u 64 (lenZ st.1.2 - 1));
  idx_to_upd ← gen_random_int 0 top;
  new_bytes ← gen_random_byte_vec 15;
  lift (update_at fuel st idx_to_upd new_bytes).

Definition sm_insert_updates (fuel : nat) (instance : St) : stm G St :=
  expected ← gen_expected 100;
  '(instance, val_ids) ← lift (create_and_insert instance 1 expected);
  '(instance, _, _) ← foldS (fun st _ => update_turn fuel st) (instance, expected, val_ids) (times 10);
  mret instance.

Definition sm_no_container (instance : St) : stm G St :=
  expected ← gen_expected 100;
  '(instance, _) ← lift (insert_values instance 1 expected);
  mret instance.

(** [dir] is what the path holds once the test has made sure that it exists; the
    manager that [reset] leaves is dropped with the directory. *)
Definition test_sm_shutdown (fuel : nat) (dir : Dir) : stm G unit :=
  instance1 ← lift (sm_new (Some dir));
  expected ← gen_expected 100;
  '(instance1, _) ← lift (create_and_insert instance1 1 expected);
  dir ← lift (sm_shutdown instance1 dir);
  instance2 ← lift (sm_new (Some dir));
  found ← lift (collect_values fuel instance2 1);
  _ ← lift (assert (compare_unordered expected found));
  _ ← lift (unwrap (reset instance2).2);
  mret tt.

(** ** [sm_integration.rs] *)

Definition integration_inserts (fuel : nat) (sm : St) : stm G St :=
  foldS (fun sm i =>
    vals1 ← get_random_vec_of_byte_vec i 50 100;
    let cid := wrap_u 16 i in
    '(sm, _) ← lift (create_and_insert sm cid vals1);
    check_vals ← lift (collect_values fuel sm cid);
    same ← lift (compare_unordered_byte_vecs vals1 check_vals);
    _ ← lift (assert same);
    mret sm) sm sizes.

Definition integration_delete_turn (fuel : nat) (st : St * list value * list ValueId)
  : stm G (St * list value * list ValueId) :=
  let '(sm, vals1, val_ids) := st in
  idx_to_del ← gen_range_of 0 (lenZ vals1);
  id ← lift (unwrap_opt (val_ids !! Z.to_nat idx_to_del));
  let '(sm, deleted) := delete_value sm id in
  _ ← lift (unwrap deleted);
  check_vals ← lift (collect_values fuel sm 1);
  same ← lift (compare_unordered_byte_vecs vals1 check_vals);
  _ ← lift (assert (negb same));
  vals1 ← lift (swap_remove vals1 (Z.to_nat idx_to_del));
  val_ids ← lift (swap_remove val_ids (Z.to_nat idx_to_del));
  same ← lift (compare_unordered_byte_vecs vals1 check_vals);
  _ ← lift (assert same);
  mret (sm, vals1, val_ids).

Definition integration_insert_delete (fuel : nat) (sm : St) : stm G St :=
  vals1 ← get_random_vec_of_byte_vec 100 50 100;
  '(sm, val_ids) ← lift (create_and_insert sm 1 vals1);
  '(sm, _, _) ← foldS (fun st _ => integration_delete_turn fuel st) (sm, vals1, val_ids) (times 10);
  mret sm.

Definition integration_no_container (sm : St) : stm G St :=
  vals1 ← get_random_vec_of_byte_vec 100 50 100;
  '(sm, _) ← lift (insert_values sm 1 vals1);
  mret sm.
End Suite.

(** ** What a manager stores *)

Lemma swap_remove_fmap {A B} (f : A -> B) (l : list A) i l' :
  swap_remove l i = Ok l' -> swap_remove (f <$> l) i = Ok (f <$> l').
Proof.
  unfold swap_remove. rewrite fmap_last, length_fmap. destruct (last l) as [x|]; [|done]. cbn [fmap option_fmap option_map].
  case_match; [|done]. intros [= <-]. f_equal.
  rewrite <- list_fmap_insert. generalize (<[i := x]> l). clear. intros l.
  destruct l as [|y l _] using rev_ind; [done|]. rewrite fmap_app. change (f <$> [y]) with [f y]. by rewrite !removelast_last.
Qed.

Section Stored.
Context `{Profile} {St It : Type} `{!StorageTrait St It, !StorageLaws (St := St) (It := It)}.

(** Container [c] holds the values [l], with their ids, and has room for [n] more. *)
Record stored (s : St) (c : ContainerId) (l : list (ValueId * value)) (n : nat) : Prop := {
  st_ok : ok s;
  st_ids : NoDup l.*1;
  st_cid : forall id, id ∈ l.*1 -> container_id id = c;
  st_view : view s !! c = Some (list_to_map l);
  st_room : room s c n;
}.

Lemma create_and_insert_ok s c vs n : ok s -> view s !! c = None -> room s c (length vs + n) ->
  exists s' ids l, create_and_insert s c vs = Ok (s', ids) /\ stored s' c l n /\ l.*1 = ids /\ l.*2 = vs /\
    (forall c', c' <> c -> view s' !! c' = view s !! c' /\ forall k, room s c' k -> room s' c' k).
Proof.
  intros W V R. unfold create_and_insert. destruct (law_create s c W) as (s1 & -> & W1 & V1 & _ & R1). mstep.
  rewrite decide_False in V1 by (rewrite V; by intros [??]).
  destruct (insert_values_ok c vs s1 ∅ n W1 (R1 _ _ R)) as (s2 & ids & E & W2 & R2 & Hl & Hnd & Hc & V2).
  { rewrite V1. apply lookup_insert_eq. }
  exists s2, ids, (zip ids vs). rewrite E. rewrite fst_zip, snd_zip by lia. split_and!; [done| |done|done|].
  - split; [done|by rewrite fst_zip by lia| | |done].
    + rewrite fst_zip by lia. intros id Hid. by apply Hc.
    + rewrite V2, lookup_insert_eq. by rewrite (right_id_L ∅ (∪)).
  - intros c' Hne. split; [rewrite V2, V1, !lookup_insert_ne by done; done|].
    intros k Hk. apply (insert_values_frame c vs s1 s2 ids E); [done|]. by apply R1.
Qed.

Lemma collect_values_ok s c l n fuel : stored s c l (S n) -> (length l <= fuel)%nat ->
  exists vs, collect_values fuel s c = Ok vs /\ vs ≡ₚ l.*2.
Proof.
  intros [W Hnd Hc V R] Hf. unfold collect_values.
  destruct (law_iterate s c _ W (law_room s c 1 (S n) R ltac:(lia)) V) as (it & xs & -> & Y & P). mstep.
  assert (xs.*1 ≡ₚ l.*2) as P' by (rewrite P; f_equiv; by apply map_to_list_to_map).
  rewrite (drain_yields s it xs Y) by (apply Permutation_length in P'; rewrite !length_fmap in P'; lia).
  by exists xs.*1.
Qed.

Lemma stored_delete s c l n i id v : stored s c l n -> l !! i = Some (id, v) ->
  exists s' l', delete_value s id = (s', Ok tt) /\ swap_remove l i = Ok l' /\ l ≡ₚ (id, v) :: l' /\ stored s' c l' n.
Proof.
  intros [W Hnd Hc V R] Hi. destruct (swap_remove_perm l i _ Hi) as (l' & E & P).
  assert (Hid : container_id id = c) by (apply Hc; rewrite P; by left).
  rewrite <- Hid in V. destruct (law_delete s id _ W V) as (s' & Ed & W' & V' & R').
  exists s', l'. split_and!; [done..|]. pose proof Hnd as Hnd'. rewrite P in Hnd'. cbn in Hnd'. apply NoDup_cons in Hnd' as [Hni Hnd'].
  split; [done|done| | |by apply R'].
  - intros id' Hin. apply Hc. rewrite P. by right.
  - rewrite V', Hid, lookup_insert_eq. f_equal. rewrite (list_to_map_proper l _ Hnd P). cbn.
    apply delete_insert_id. by apply not_elem_of_list_to_map.
Qed.

Lemma stored_update s c l n i id v w : stored s c l (S n) -> l !! i = Some (id, v) ->
  exists s' id', update_value s w id = (s', Ok id') /\ stored s' c (<[i := (id', w)]> l) n.
Proof.
  intros [W Hnd Hc V R] Hi. pose proof (take_drop_middle l i _ Hi) as El.
  assert (P : l ≡ₚ (id, v) :: (take i l ++ drop (S i) l)) by (rewrite <- El at 1; by rewrite Permutation_middle).
  set (rest := take i l ++ drop (S i) l) in *.
  assert (Hid : container_id id = c) by (apply Hc; rewrite P; by left).
  rewrite <- Hid in V, R. destruct (law_update s id w _ n W R V) as (s' & id' & Eu & W' & Hc' & Hf & R' & V').
  pose proof Hnd as Hnd'. rewrite P in Hnd'. cbn in Hnd'. apply NoDup_cons in Hnd' as [Hni Hnd'].
  assert (Hm : delete id (list_to_map (M := gmap ValueId value) l) = list_to_map rest).
  { rewrite (list_to_map_proper l _ Hnd P). cbn. apply delete_insert_id. by apply not_elem_of_list_to_map. }
  rewrite Hm in Hf, V'. apply not_elem_of_list_to_map in Hf.
  assert (P' : <[i := (id', w)]> l ≡ₚ (id', w) :: rest).
  { rewrite insert_take_drop by (by eapply lookup_lt_Some). symmetry. apply Permutation_middle. }
  assert (Hnd2 : NoDup (<[i := (id', w)]> l).*1) by (rewrite P'; cbn; by apply NoDup_cons).
  exists s', id'. split; [done|]. split; [done|done| | |by rewrite <- Hid].
  - intros x. rewrite P'. cbn. intros [->|Hx]%elem_of_cons; [congruence|]. apply Hc. rewrite P. by right.
  - rewrite V', Hid, lookup_insert_eq. f_equal. by rewrite (list_to_map_proper _ _ Hnd2 P').
Qed.
End Stored.

Lemma lasting_insert `{!Profile} {St It Dir : Type} `{!StorageTrait St It, !StorageLaws (St := St) (It := It)}
  `{!StorageLifecycle St Dir, !LifecycleLaws (St := St) (It := It) (Dir := Dir)} s c vs s' ids :
  lasting s -> create_and_insert s c vs = Ok (s', ids) -> lasting s'.
Proof.
  intros HL. unfold create_and_insert. pose proof (law_lasting s c HL) as HL1. destruct (create_table s c) as [s1 r]. cbn in HL1.
  intros (u & _ & E)%bind_Ok_inv. rewrite law_insert_values in E. clear HL r u s. revert s1 ids HL1 E.
  induction vs as [|v vs IH]; intros s1 ids HL1; cbn [insert_each]; [by intros [= <- _]|].
  intros ([s2 id] & E1 & ([s3 ids'] & E2 & [= <- _])%bind_Ok_inv)%bind_Ok_inv.
  eapply IH; [|exact E2]. by eapply law_lasting_insert.
Qed.

(** ** Random values *)

Section Passes.
Context `{Profile} {St It Dir G : Type} `{!StorageTrait St It, !StorageLaws (St := St) (It := It)}
  `{!StorageLifecycle St Dir, !ThreadRng G, !ThreadRngLaws (G := G)}.

Lemma gen_random_int_ok lo hi : lo <= hi -> draws (G := G) (gen_random_int lo hi) (fun z => lo <= z <= hi).
Proof.
  intros Hl. unfold gen_random_int, Uniform_new_inclusive. rewrite (proj2 (Z.leb_le _ _)) by done.
  draw (eq (mkUniform lo hi)); [by eapply draws_lift|]. intros u <-. by apply (sample_ok (mkUniform lo hi)).
Qed.

Lemma gen_random_byte_vec_ok n : draws (G := G) (gen_random_byte_vec n) (fun bs => length bs = Z.to_nat n).
Proof.
  unfold gen_random_byte_vec. draw (eq (mkUniform 0 255)); [by eapply draws_lift|]. intros u <-.
  eapply draws_weaken; [apply (draws_mapS _ (fun _ => True))|].
  - intros _. eapply draws_bind; [apply sample_ok; cbn; lia|]. intros z _. by apply draws_ret.
  - intros bs [Hl _]. by rewrite Hl, length_times.
Qed.

Lemma gen_expected_ok size :
  draws (G := G) (gen_expected size)
    (fun vs => length vs = Z.to_nat size /\ Forall (fun v => (50 <= length v <= 100)%nat) vs).
Proof.
  unfold gen_expected. eapply draws_weaken; [apply (draws_mapS _ (fun v => (50 <= length v <= 100)%nat))|].
  - intros _. eapply draws_bind; [by apply gen_random_int_ok|]. intros n Hn. cbn beta in Hn.
    eapply draws_weaken; [apply gen_random_byte_vec_ok|]. cbn beta. lia.
  - cbn beta. intros vs [Hl Hv]. split; [etrans; [exact Hl|apply length_times]|exact Hv].
Qed.

(** A loop whose invariant counts the turns that are left. *)
Lemma draws_foldS {A S} (f : S -> A -> stm G S) (I : nat -> S -> Prop) (l : list A) : forall st,
  (forall k st a, I (Datatypes.S k) st -> draws (f st a) (I k)) -> I (length l) st -> draws (foldS f st l) (I 0%nat).
Proof.
  induction l as [|a l IH]; intros st Hf HI; cbn [foldS]; [by apply draws_ret|].
  eapply draws_bind; [by apply Hf|]. intros st' HI'. by apply IH.
Qed.

Lemma draws_lift_bind {A B} (r : result A) a (f : A -> stm G B) Q : r = Ok a -> draws (f a) Q -> draws (lift r ≫= f) Q.
Proof. intros -> Hf. draw (eq a); [by eapply draws_lift|]. by intros ? <-. Qed.

(** ** Insertion *)

Lemma compare_unordered_perm (a b : list value) : b ≡ₚ a -> compare_unordered a b = true.
Proof. intros P. apply compare_unordered_spec. intros x. by rewrite P. Qed.

Lemma compare_byte_vecs_perm (a b : list value) : b ≡ₚ a -> compare_unordered_byte_vecs a b = Ok true.
Proof. intros P. destruct (compare_unordered_decides a b) as (r & -> & Hr). f_equal. by apply Hr. Qed.

(** What the insertion tests do with one container. *)
Lemma insert_check s c vs fuel : ok s -> view s !! c = None -> room s c (length vs + 1) -> (length vs <= fuel)%nat ->
  exists s' ids found, create_and_insert s c vs = Ok (s', ids) /\ ok s' /\
    collect_values fuel s' c = Ok found /\ found ≡ₚ vs /\
    (forall c', c' <> c -> view s' !! c' = view s !! c' /\ forall k, room s c' k -> room s' c' k).
Proof.
  intros W V R Hf. destruct (create_and_insert_ok s c vs 1 W V R) as (s' & ids & l & E & Hs & _ & <- & Hfr).
  rewrite length_fmap in Hf. destruct (collect_values_ok s' c l 0 fuel Hs Hf) as (found & Ec & P).
  exists s', ids, found. split_and!; [done|apply Hs|done..].
Qed.

(** A manager without containers, with room for the largest of the tests. *)
Definition fresh_for_tests (s : St) : Prop := ok s /\ view s = ∅ /\ forall c, room s c 1001.

(** The loop over the sizes: no two of its turns use the same container. *)
Lemma inserts_loop {A} (cid : A -> ContainerId) (f : St -> A -> stm G St) l : forall s,
  (forall s x, ok s -> view s !! cid x = None -> room s (cid x) 1001 -> x ∈ l ->
     draws (f s x) (fun s' => ok s' /\
       forall c', c' <> cid x -> view s' !! c' = view s !! c' /\ forall k, room s c' k -> room s' c' k)) ->
  NoDup (cid <$> l) -> ok s -> (forall x, x ∈ l -> view s !! cid x = None /\ room s (cid x) 1001) ->
  draws (foldS f s l) ok.
Proof.
  induction l as [|x l IH]; intros s Hf Hnd W Hl; cbn [foldS]; [by apply draws_ret|].
  apply NoDup_cons in Hnd as [Hni Hnd]. destruct (Hl x) as [V R]; [by left|].
  eapply draws_bind; [by apply Hf; [..|left]|]. cbn beta. intros s' [W' Hfr]. apply IH; [|done|done|].
  - intros s1 y ? ? ? ?. apply Hf; [done..|by right].
  - intros y Hy. assert (cid y <> cid x) as Hne by (intros E; apply Hni; rewrite <- E; by apply list_elem_of_fmap_2).
    destruct (Hfr _ Hne) as [-> Hr]. destruct (Hl y) as [V' R']; [by right|]. split; [done|by apply Hr].
Qed.

Lemma sizes_bound n : n ∈ sizes -> 0 <= n <= 1000.
Proof. unfold sizes. rewrite !elem_of_cons, elem_of_nil. lia. Qed.

Lemma sm_inserts_pass fuel s : (1000 <= fuel)%nat -> fresh_for_tests s -> draws (G := G) (sm_inserts fuel s) ok.
Proof.
  intros Hf (W & V & R). unfold sm_inserts. apply (inserts_loop (fun x => wrap_u 16 x.1)); [|by apply (bool_decide_unpack _)|done|].
  2:{ intros x _. by rewrite V, lookup_empty. }
  intros s1 [i size] W1 V1 R1 Hx. eapply draws_bind; [apply gen_expected_ok|]. intros vs [Hl _].
  apply elem_of_zip_r, sizes_bound in Hx.
  destruct (insert_check s1 (wrap_u 16 i) vs fuel W1 V1) as (s2 & ids & found & E & W2 & Ec & P & Hfr);
    [eapply law_room; [exact R1|lia]|lia|].
  eapply draws_lift_bind; [exact E|]. eapply draws_lift_bind; [exact Ec|].
  eapply draws_lift_bind; [by rewrite compare_unordered_perm|]. by apply draws_ret.
Qed.

Lemma integration_inserts_pass fuel s : (1000 <= fuel)%nat -> fresh_for_tests s ->
  draws (G := G) (integration_inserts fuel s) ok.
Proof.
  intros Hf (W & V & R). unfold integration_inserts.
  apply (inserts_loop (fun i => wrap_u 16 i)); [|by apply (bool_decide_unpack _)|done|].
  2:{ intros x _. by rewrite V, lookup_empty. }
  intros s1 i W1 V1 R1 Hx. eapply draws_bind; [by apply get_random_vec_of_byte_vec_ok|]. intros vs [Hl _].
  change (@length value vs = Z.to_nat i) in Hl.
  apply sizes_bound in Hx.
  destruct (insert_check s1 (wrap_u 16 i) vs fuel W1 V1) as (s2 & ids & found & E & W2 & Ec & P & Hfr);
    [eapply law_room; [exact R1|lia]|lia|].
  eapply draws_lift_bind; [exact E|]. eapply draws_lift_bind; [exact Ec|].
  eapply draws_lift_bind; [by apply compare_byte_vecs_perm|]. eapply draws_lift_bind; [done|]. by apply draws_ret.
Qed.

(** Without the container every insertion panics. *)
Lemma no_container_panics s : fresh_for_tests s -> forall g : G,
  (sm_no_container s g).2 = Panic /\ (integration_no_container s g).2 = Panic.
Proof.
  intros (W & V & _) g. assert (forall vs, vs <> [] -> insert_values s 1 vs = Panic) as Hp.
  { intros [|v vs] Hv; [done|]. rewrite law_insert_values. cbn [insert_each].
    rewrite law_insert_missing; [done|]. by rewrite V, lookup_empty. }
  unfold sm_no_container, integration_no_container, mbind, stm_bind. split.
  - destruct (gen_expected_ok 100 g) as (g' & vs & -> & Hl & _). rewrite Hp; [done|by intros ->].
  - destruct (get_random_vec_of_byte_vec_ok 100 50 100 ltac:(lia) g) as (g' & vs & -> & Hl & _). rewrite Hp; [done|by intros ->].
Qed.

(** ** Deletion and update *)

(** The state of the loops: the values and ids the test expects are those stored. *)
Definition in_step (k : nat) (P : list value -> Prop) (st : St * list value * list ValueId) : Prop :=
  let '(s, expected, val_ids) := st in
  exists l, stored s 1 l (S k) /\ l.*1 = val_ids /\ l.*2 = expected /\ P expected.

Lemma drawn_index (l : list (ValueId * value)) z : 0 <= z <= lenZ l.*2 - 1 ->
  exists id v, l !! Z.to_nat z = Some (id, v) /\ l.*1 !! Z.to_nat z = Some id.
Proof.
  intros Hz. unfold lenZ in Hz. rewrite length_fmap in Hz.
  destruct (lookup_lt_is_Some_2 l (Z.to_nat z)) as [[id v] E]; [lia|]. exists id, v. split; [done|].
  by rewrite list_lookup_fmap, E.
Qed.

Lemma elem_perm_ne (a b : list value) x : NoDup a -> a ≡ₚ x :: b -> compare_unordered a b = false.
Proof.
  intros Hnd P. apply not_true_iff_false. rewrite compare_unordered_spec. intros Hc.
  rewrite P in Hnd. apply NoDup_cons in Hnd as [Hni _]. apply Hni, Hc. rewrite P. by left.
Qed.

(** A value deleted from the store and from the expected values. *)
Lemma delete_check k s l z fuel : stored s 1 l (S k) -> 0 <= z <= lenZ l.*2 - 1 -> (length l <= fuel)%nat ->
  exists id v s' l' found, l.*1 !! Z.to_nat z = Some id /\ delete_value s id = (s', Ok tt) /\
    collect_values fuel s' 1 = Ok found /\ found ≡ₚ l'.*2 /\ l.*2 ≡ₚ v :: l'.*2 /\ stored s' 1 l' (S k) /\
    swap_remove l.*1 (Z.to_nat z) = Ok l'.*1 /\ swap_remove l.*2 (Z.to_nat z) = Ok l'.*2.
Proof.
  intros Hs Hz Hf. destruct (drawn_index l z Hz) as (id & v & Hi & Hid).
  destruct (stored_delete s 1 l (S k) _ id v Hs Hi) as (s' & l' & Ed & Er & P & Hs').
  destruct (collect_values_ok s' 1 l' k fuel Hs') as (found & Ec & Pf).
  { apply Permutation_length in P. cbn in P. lia. }
  exists id, v, s', l', found. split_and!; [done..| |done| |]; [by rewrite P|by apply swap_remove_fmap..].
Qed.

Lemma delete_turn_ok fuel k n st :
  in_step k (fun e => NoDup e /\ length e = S n /\ (S n <= fuel)%nat /\ (n < 1000)%nat) st ->
  draws (G := G) (delete_turn fuel st) (in_step k (fun e => NoDup e /\ length e = n)).
Proof.
  destruct st as [[s e] ids]. intros (l & Hs & <- & <- & Hnd & Hl & Hf & Hn). unfold delete_turn.
  assert (Hlen : lenZ l.*2 = Z.of_nat (S n)) by (unfold lenZ; by rewrite Hl).
  eapply draws_lift_bind; [apply arith_u_ok; rewrite Hlen; unfold in_u; lia|].
  eapply draws_bind; [apply gen_random_int_ok; lia|]. cbn beta. intros z Hz.
  rewrite length_fmap in Hl. destruct (delete_check k s l z fuel Hs Hz ltac:(lia)) as (id & v & s' & l' & found & Hid & Ed & Ec & Pf & P & Hs' & E1 & E2).
  eapply draws_lift_bind; [by rewrite Hid|]. rewrite Ed.
  eapply draws_lift_bind; [done|]. eapply draws_lift_bind; [exact Ec|].
  assert (Hne : compare_unordered l.*2 found = false) by (eapply elem_perm_ne; [done|by rewrite Pf]).
  eapply draws_lift_bind; [by rewrite Hne|]. eapply draws_lift_bind; [exact E2|]. eapply draws_lift_bind; [exact E1|].
  eapply draws_lift_bind; [by rewrite compare_unordered_perm|]. apply draws_ret. exists l'. split_and!; [done..| |].
  - rewrite P in Hnd. by apply NoDup_cons in Hnd as [_ ?].
  - apply Permutation_length in P. rewrite length_fmap in P. cbn in P. lia.
Qed.

Lemma integration_delete_turn_ok fuel k n st :
  in_step k (fun e => length e = S n /\ (S n <= fuel)%nat) st ->
  draws (G := G) (integration_delete_turn fuel st) (in_step k (fun e => length e = n)).
Proof.
  destruct st as [[s e] ids]. intros (l & Hs & <- & <- & Hl & Hf). unfold integration_delete_turn.
  assert (Hlen : lenZ l.*2 = Z.of_nat (S n)) by (unfold lenZ; by rewrite Hl).
  eapply draws_bind; [apply gen_range_of_ok; lia|]. cbn beta. intros z Hz.
  rewrite length_fmap in Hl. destruct (delete_check k s l z fuel Hs ltac:(lia) ltac:(lia)) as (id & v & s' & l' & found & Hid & Ed & Ec & Pf & P & Hs' & E1 & E2).
  eapply draws_lift_bind; [by rewrite Hid|]. rewrite Ed.
  eapply draws_lift_bind; [done|]. eapply draws_lift_bind; [exact Ec|].
  apply Permutation_length in P as Hp. cbn in Hp. rewrite !length_fmap in Hp.
  destruct (compare_unordered_decides l.*2 found) as ([] & Er & Hr).
  { destruct Hr as [Hr _]. assert (Hq : l.*2 ≡ₚ l'.*2) by (etrans; [by apply Hr|exact Pf]).
    rewrite P in Hq. apply Permutation_length in Hq. cbn in Hq. lia. }
  eapply draws_lift_bind; [exact Er|]. eapply draws_lift_bind; [done|].
  eapply draws_lift_bind; [exact E2|]. eapply draws_lift_bind; [exact E1|].
  eapply draws_lift_bind; [by apply compare_byte_vecs_perm|]. eapply draws_lift_bind; [done|].
  apply draws_ret. exists l'. split_and!; [done..|]. rewrite length_fmap. lia.
Qed.

(** One turn of the update test passes unless the vector it draws is stored already. *)
Lemma update_at_ok fuel k st z w :
  in_step (S k) (fun e => NoDup e /\ (length e <= fuel)%nat /\ 0 <= z <= lenZ e - 1 /\ w ∉ e) st ->
  exists st', update_at fuel st z w = Ok st' /\ in_step k (fun e => NoDup e /\ length e = length st.1.2) st'.
Proof.
  destruct st as [[s e] ids]. intros (l & Hs & <- & <- & Hnd & Hf & Hz & Hw). unfold update_at.
  destruct (drawn_index l z Hz) as (id & v & Hi & ->). cbn [unwrap_opt]. mstep. rewrite length_fmap in Hf.
  destruct (stored_update s 1 l (S k) _ id v w Hs Hi) as (s' & id' & -> & Hs'). cbn [unwrap]. mstep.
  destruct (collect_values_ok s' 1 _ k fuel Hs') as (found & -> & P); [by rewrite length_insert|]. mstep.
  rewrite list_fmap_insert in P. cbn [snd] in P.
  assert (Hlt : (Z.to_nat z < length l.*2)%nat) by (unfold lenZ in Hz; lia).
  assert (Hne : compare_unordered l.*2 found = false).
  { apply not_true_iff_false. rewrite compare_unordered_spec. intros Hc. apply Hw, Hc. rewrite P.
    apply list_elem_of_lookup. exists (Z.to_nat z). by rewrite list_lookup_insert_eq. }
  rewrite Hne, (compare_unordered_perm _ _ P). cbn [assert negb]. mstep. eexists. split; [done|].
  eexists. split; [exact Hs'|]. rewrite !list_fmap_insert. cbn [fst snd]. split_and!; [done|done| |by rewrite length_insert].
  apply NoDup_alt. intros i j x Hxi Hxj. destruct (decide (i = Z.to_nat z)) as [->|Hiz], (decide (j = Z.to_nat z)) as [->|Hjz]; [done|..];
    rewrite ?list_lookup_insert_ne, ?list_lookup_insert_eq in * by done; simplify_eq.
  - by destruct Hw; eapply list_elem_of_lookup_2.
  - by destruct Hw; eapply list_elem_of_lookup_2.
  - by eapply NoDup_lookup.
Qed.

Lemma update_turn_ok fuel k st (g : G) :
  in_step (S k) (fun e => NoDup e /\ (0 < length e <= 1000)%nat /\ (length e <= fuel)%nat) st ->
  exists g' w, length w = 15%nat /\ (w ∉ st.1.2 -> exists st', update_turn fuel st g = (g', Ok st') /\
    in_step k (fun e => NoDup e /\ length e = length st.1.2) st').
Proof.
  destruct st as [[s e] ids]. intros (l & Hs & E1 & E2 & Hnd & Hl & Hf). cbn [fst snd].
  unfold update_turn, lift, mbind, stm_bind. cbn [fst snd].
  rewrite arith_u_ok by (unfold in_u, lenZ; lia).
  destruct (gen_random_int_ok 0 (lenZ e - 1)) with (g := g) as (g1 & z & Ez & Hz); [unfold lenZ; lia|]. rewrite Ez.
  destruct (gen_random_byte_vec_ok 15 g1) as (g2 & w & Ew & Hw). rewrite Ew. exists g2, w. split; [done|]. intros Hn.
  destruct (update_at_ok fuel k (s, e, ids) z w) as (st' & -> & Hst'); [by exists l|]. by exists st'.
Qed.

Lemma insert_delete_pass fuel s vs : (100 <= fuel)%nat -> fresh_for_tests s -> NoDup vs -> length vs = 100%nat ->
  draws (G := G) (insert_delete_on fuel s vs) (fun _ => True).
Proof.
  intros Hf (W & V & R) Hnd Hl. unfold insert_delete_on.
  destruct (create_and_insert_ok s 1 vs 1 W) as (s' & ids & l & E & Hs & E1 & E2 & _);
    [by rewrite V, lookup_empty|eapply law_room; [apply R|lia]|].
  eapply draws_lift_bind; [exact E|]. cbn beta iota.
  eapply draws_bind; [apply (draws_foldS _ (fun k st => (k <= 10)%nat /\ in_step 0 (fun e => NoDup e /\ length e = 90 + k)%nat st))|].
  - intros k st _ [Hk Hst]. eapply draws_weaken; [apply (delete_turn_ok fuel 0 (90 + k))|by split; [lia|]].
    destruct st as [[??]?]. destruct Hst as (l' & ? & ? & ? & ? & ?). exists l'. split_and!; [done..|lia|lia|lia].
  - split; [done|]. exists l. by split_and!.
  - intros [[??]?] _. by apply draws_ret.
Qed.

Lemma integration_insert_delete_pass fuel s : (100 <= fuel)%nat -> fresh_for_tests s ->
  draws (G := G) (integration_insert_delete fuel s) (fun _ => True).
Proof.
  intros Hf (W & V & R). unfold integration_insert_delete.
  eapply draws_bind; [by apply get_random_vec_of_byte_vec_ok|]. intros vs [Hl _]. change (@length value vs = 100%nat) in Hl.
  destruct (create_and_insert_ok s 1 vs 1 W) as (s' & ids & l & E & Hs & E1 & E2 & _);
    [by rewrite V, lookup_empty|eapply law_room; [apply R|lia]|].
  eapply draws_lift_bind; [exact E|]. cbn beta iota.
  eapply draws_bind; [apply (draws_foldS _ (fun k st => (k <= 10)%nat /\ in_step 0 (fun e => length e = 90 + k)%nat st))|].
  - intros k st _ [Hk Hst]. eapply draws_weaken; [apply (integration_delete_turn_ok fuel 0 (90 + k))|by split; [lia|]].
    destruct st as [[??]?]. destruct Hst as (l' & ? & ? & ? & ?). exists l'. split_and!; [done..|lia|lia].
  - split; [done|]. exists l. by split_and!.
  - intros [[??]?] _. by apply draws_ret.
Qed.

(** A manager that keeps the laws of the interface passes the tests of the
    repository, whatever the generator draws: the insertions of both suites, the
    deletions of the later suite for distinct values and those of the earlier suite
    for any values, and the insertion without a container, which must panic. *)
Theorem conforming_manager_passes fuel s : (1000 <= fuel)%nat -> fresh_for_tests s ->
  draws (G := G) (sm_inserts fuel s) ok /\ draws (G := G) (integration_inserts fuel s) ok /\
  draws (G := G) (integration_insert_delete fuel s) (fun _ => True) /\
  (forall vs, NoDup vs -> length vs = 100%nat -> draws (G := G) (insert_delete_on fuel s vs) (fun _ => True)) /\
  (forall g : G, (sm_no_container s g).2 = Panic /\ (integration_no_container s g).2 = Panic).
Proof.
  intros Hf Hs. split_and!.
  - by apply sm_inserts_pass.
  - by apply integration_inserts_pass.
  - apply integration_insert_delete_pass; [lia|done].
  - intros vs. apply insert_delete_pass; [lia|done].
  - by apply no_container_panics.
Qed.

(** The shutdown test passes in a directory where the manager starts empty: what
    one manager stored, the next one finds. *)
Theorem shutdown_test_passes `{!LifecycleLaws (St := St) (It := It) (Dir := Dir)} fuel dir s :
  (100 <= fuel)%nat -> sm_new (Some dir) = Ok s -> fresh_for_tests s -> lasting s -> files dir = ∅ ->
  draws (G := G) (test_sm_shutdown fuel dir) (fun _ => True).
Proof.
  intros Hf En (W & V & R) HL Hd. unfold test_sm_shutdown. eapply draws_lift_bind; [exact En|].
  eapply draws_bind; [apply gen_expected_ok|]. intros vs [Hl _].
  destruct (create_and_insert_ok s 1 vs 2 W) as (s1 & ids & l & E & Hs & E1 & E2 & _);
    [by rewrite V, lookup_empty|eapply law_room; [apply R|lia]|].
  eapply draws_lift_bind; [exact E|]. cbn beta iota.
  destruct (law_restart s1 dir) as (dir' & s2 & Es & En2 & W2 & V2 & R2); [apply Hs|by eapply lasting_insert|rewrite Hd; set_solver|].
  eapply draws_lift_bind; [exact Es|]. eapply draws_lift_bind; [exact En2|].
  assert (Hs2 : stored s2 1 l 1).
  { destruct Hs as [? Hnd Hc Hv Hr]. split; [done..|by rewrite V2|by apply R2]. }
  destruct (collect_values_ok s2 1 l 0 fuel Hs2) as (found & Ec & P); [subst vs; rewrite length_fmap in Hl; lia|].
  eapply draws_lift_bind; [exact Ec|]. eapply draws_lift_bind; [rewrite compare_unordered_perm; [done|by rewrite <- E2]|].
  destruct (law_reset s2 W2) as (s3 & Er & _). rewrite Er. eapply draws_lift_bind; [done|]. by apply draws_ret.
Qed.
End Passes.

(** ** The in-memory manager *)

Lemma mem_fresh `{Profile} t : fresh_for_tests (Mem.new_sm t).
Proof.
  split; [apply new_sm_ok|]. split; [done|]. intros c. cbn. unfold mem_rooms, next_slot. cbn. rewrite lookup_empty. lia.
Qed.

(** The in-memory manager passes, in any directory without files. *)
Theorem memstore_passes_suite `{Profile, Mem.ContainerCodec, !Mem.ContainerCodecLaws} {G : Type} `{!ThreadRng G, !ThreadRngLaws (G := G)} :
  draws (G := G) (sm_inserts 1000 (Mem.new_sm true)) mem_ok /\
  draws (G := G) (integration_insert_delete 1000 (Mem.new_sm true)) (fun _ => True) /\
  draws (G := G) (test_sm_shutdown 100 (∅ : Mem.directory)) (fun _ => True).
Proof.
  destruct (conforming_manager_passes (G := G) 1000 _ ltac:(done) (mem_fresh true)) as (Hi & _ & Hd & _).
  split_and!; [exact Hi|exact Hd|]. eapply (shutdown_test_passes 100 ∅ (Mem.new_sm false)); [done| |apply mem_fresh|exact (eq_refl false)|].
  - cbn. unfold Mem.new. by rewrite map_to_list_empty.
  - apply dom_empty_L.
Qed.

(** A generator that draws equal vectors makes the deletion test of
    [storage_common.rs] fail on a manager that keeps all laws: deleting one copy
    does not change the set of values, and the test expects that it does. *)
Theorem equal_draws_fail_delete_test :
  (sm_insert_delete (H := true) (StorageTrait0 := MemStore_trait (H := true)) (G := unit) 100 (Mem.new_sm true) tt).2 = Panic.
Proof. vm_compute. reflexivity. Qed.
