(* ===== verification/SqlLogicTest.v ===== *)
(** * The SQL logic tests

    [src/e2e-tests/src/sqllogictest_utils.rs]: test files of expectations and
    commands, run by a client against a server.  Directories, files and the [csv]
    crate are parameters, and so is the debug format of a response, which only
    appears in messages. *)

From S2P Require Import Prelude Bytes Common Types Sql Expr Storage Stats Catalog Plan Planner OpIter LockManager.
From S2P Require Import Mutator MutatorTheorems Translate Commands Wire Database Conductor Server Client CsvCompare.

Open Scope Z_scope.

(** ** Text *)

(** [str::split_whitespace]: the words, and the word that is being read, backwards. *)
Fixpoint words_from (fuel : nat) (s word : string) : list string :=
  let done_ := if String.eqb word EmptyString then [] else [srev word] in
  match fuel, s with
  | S fuel', String x s' =>
      match strip_any white_space s with
      | Some s'' => done_ ++ words_from fuel' s'' EmptyString
      | None => words_from fuel' s' (String x word)
      end
  | _, _ => done_
  end.

Definition split_whitespace (s : string) : list string := words_from (String.length s) s EmptyString.

(** [Path::file_name]: the last component that is not [.], unless it is [..]. *)
Definition path_file_name (path : string) : option string :=
  name ← last (filter (fun c => c <> EmptyString /\ c <> ".") (split_on "/" path));
  if String.eqb name ".." then None else Some name.

(** [Path::extension]: what follows the last dot, unless the dot comes first. *)
Definition path_extension (path : string) : option string :=
  name ← path_file_name path;
  match reverse (split_on "." name) with
  | _ :: [] | [] => None
  | ext :: before => if String.eqb (String.concat "." (reverse before)) EmptyString then None else Some ext
  end.

Definition path_join (dir name : string) : string :=
  match strip_last "/" dir with
  | Some _ => dir +:+ name
  | None => if String.eqb dir EmptyString then name else dir +:+ "/" +:+ name
  end.

(** ** Test files *)

Inductive TestExpectation := TestOk | TestErr | ResultMatch (is_ordered : bool) (file_path : string).

Definition TestExpectation_display (e : TestExpectation) : string :=
  match e with
  | TestOk => "Ok"
  | TestErr => "Err"
  | ResultMatch is_ordered path =>
      "ResultMatch(" +:+ (if is_ordered then "true" else "false") +:+ ", " +:+ str_debug path +:+ ")"
  end.

Record SQLLogicTestEntry := mkEntry { expectation : TestExpectation; command : string }.

(** [Err] holds the text of the [io::Error]. *)
Definition parse_expectation (line : string) : outcome string TestExpectation :=
  let parts := split_whitespace line in
  match parts with
  | [] => Err "Invalid expectation type"
  | first :: rest =>
      if String.eqb first "statement" then
        match head rest with
        | Some second =>
            if String.eqb second "ok" then Ok TestOk
            else if String.eqb second "err" then Ok TestErr
            else Err "Invalid expectation type"
        | None => Err "Invalid expectation type"
        end
      else if String.eqb first "match" || String.eqb first "omatch" then
        path ← ok_or (head rest) "Missing path";
        if decide (path_extension path = Some "csv")
        then Ok (ResultMatch (String.eqb first "omatch") path) else Err "Path is not a CSV file"
      else Err "Invalid expectation type"
  end.

(** Lines that cannot be read ([None]) are skipped like empty lines and comments. *)
Definition kept_line (line : option string) : option string :=
  line ← line;
  if negb (String.eqb line EmptyString) && negb (starts_with "#" line) then Some line else None.

Fixpoint parse_lines (lines : list string) : outcome string (list SQLLogicTestEntry) :=
  match lines with
  | [] => Ok []
  | expectation_str :: lines =>
      expectation ← parse_expectation expectation_str;
      match lines with
      | [] => Err "Missing command"
      | command :: lines => entries ← parse_lines lines; Ok (mkEntry expectation command :: entries)
      end
  end.

Class TestFiles (Rd : Type) := {
  (** The lines of a file, or why it cannot be opened. *)
  file_lines : string -> string + list (option string);
  (** The entries of a directory: is it a directory, and its name. *)
  read_dir : string -> option (list (bool * string));
  (** [csv::ReaderBuilder::new().has_headers(false).from_path] *)
  csv_from_path : string -> string + Rd;
  (** Why a writer that wrote some records cannot write another one. *)
  csv_refuses : list (list string) -> list string -> option string;
  (** A reader over what a writer wrote. *)
  csv_written : list (list string) -> Rd;
  response_debug : Response -> string;
}.

Section Files.
Context `{TestFiles Rd}.

Definition parse_file (file_path : string) : outcome string (list SQLLogicTestEntry) :=
  match file_lines file_path with
  | inl e => Err e
  | inr lines => parse_lines (omap kept_line lines)
  end.

(** No file is excluded: the list in the source is empty. *)
Definition is_excluded (file_name : string) : bool := false.

(** Directories are skipped. *)
Definition test_paths (test_file_dir : string) (files : list (bool * string)) : list string :=
  omap (fun x => if (x.1 : bool) || is_excluded x.2 then None else Some (path_join test_file_dir x.2)) files.

Definition get_test_files (test_file_dir : string) : result (list string) :=
  match read_dir test_file_dir with Some files => Ok (test_paths test_file_dir files) | None => Panic end.

(** ** Running a test *)

Context `{Chrono, DefaultHasher, !CsvCrate Rd}.

Definition csv_err {A} (message : string) (m : string + A) : result A :=
  match m with inl e => Err (CrustyErr (message +:+ e)) | inr a => Ok a end.

Definition map_csv {A} (message : string) (m : csv_result A) : result A :=
  match m with Ok a => Ok a | Err e => Err (CrustyErr (message +:+ e)) | Panic => Panic end.

(** The fields of every tuple, as text, behind the records already written. *)
Fixpoint write_records (written : list (list string)) (tuples : list Tuple) : result (list (list string)) :=
  match tuples with
  | [] => Ok written
  | record :: tuples =>
      record_vec ← mapM_o Field_display (field_vals record);
      match csv_refuses written record_vec with
      | Some e => Err (CrustyErr ("Failed to write csv: " +:+ e))
      | None => write_records (written ++ [record_vec]) tuples
      end
  end.

(** Does the response meet the expectation? *)
Definition meets (fuel : nat) (e : TestExpectation) (response : Response) : result bool :=
  match e with
  | TestOk => Ok match response with ROk | SystemMsg _ | QuietOk | RQueryResult _ => true | _ => false end
  | TestErr => Ok match response with SystemErr _ | QuietErr | QueryExecutionError _ => true | _ => false end
  | ResultMatch is_ordered file_path =>
      match response with
      | RQueryResult qr =>
          expected ← csv_err "Failed to read csv: " (csv_from_path file_path);
          result ← ok_or (get_tuples qr) (c_err "Response is not a result of a select query");
          records ← write_records [] result;
          let result_reader := csv_written records in
          if is_ordered
          then map_csv "Ordered comparison failed: " (csvs_equal_ordered None fuel expected result_reader)
          else map_csv "Unordered comparison failed: " (csvs_equal_unordered None fuel expected result_reader)
      | _ => Err (CrustyErr ("Expected a query result, got " +:+ response_debug response))
      end
  end.

Section Run.
Context {St G : Type} (fuel : nat) (exchange : Command -> CM (World St G) Response).
Abbreviation M := (CM (World St G)).
Abbreviation send := (fun content => send_requests_from_buffer exchange (Some content)).

Definition entry_run (self : SQLLogicTestEntry) : M unit :=
  responses ← send (command self);
  match responses with
  | [response] =>
      success ← lift (meets fuel (expectation self) response);
      if (success : bool) then mret tt
      else throw (CrustyErr ("Test failed, expected " +:+ TestExpectation_display (expectation self) +:+ ", got " +:+
                             response_debug response))
  | _ => lift Panic
  end.

(** [.unwrap()] on the answer of a command; then [assert!(response[0].is_ok())]. *)
Definition must_succeed (content : string) : M unit := fun s =>
  match send content s with
  | (s, Ok responses) =>
      (s, response ← unwrap_opt (head responses); if response_is_ok response then Ok tt else Panic)
  | (s, _) => (s, Panic)
  end.

(** The entries in order, up to the first that fails. *)
Fixpoint run_entries (tests : list SQLLogicTestEntry) : M (option CrustyError) := fun s =>
  match tests with
  | [] => (s, Ok None)
  | test_entry :: tests =>
      match entry_run test_entry s with
      | (s, Ok _) => run_entries tests s
      | (s, Err e) => (s, Ok (Some e))
      | (s, Panic) => (s, Panic)
      end
  end.

(** One file, between the creation of its database and the reset. *)
Definition run_test_file (file_path : string) : M (string * bool) :=
  _ ← must_succeed "\r testdb";
  _ ← must_succeed "\c testdb";
  file_name ← lift (unwrap_opt (path_file_name file_path));
  tests ← lift match parse_file file_path with Ok tests => Ok tests | _ => Panic end;
  error ← run_entries tests;
  _ ← must_succeed "\reset";
  mret (file_name, match error with Some _ => false | None => true end).

Fixpoint run_test_files (files : list string) (succeeded failed : list string) : M (list string * list string) :=
  match files with
  | [] => mret (succeeded, failed)
  | file_path :: files =>
      '(file_name, passed) ← run_test_file file_path;
      if (passed : bool) then run_test_files files (succeeded ++ [file_name]) failed
      else run_test_files files succeeded (failed ++ [file_name])
  end.

(** The shutdown is answered by [Shutdown]. *)
Definition stop_server : M unit := fun s =>
  match send ("\shutdown" +:+ String nl EmptyString) s with
  | (s, Ok [RShutdown]) => (s, Ok tt)
  | (s, _) => (s, Panic)
  end.

(** A last connection wakes the accepting thread, which looks at the signal. *)
Definition connect_to_kill_server : M unit := fun '(w, weathers) =>
  ((match accept w with Some (w, _) => w | None => w end, weathers), Ok tt).

Definition run_sqllogictests_from_files (test_file_dir : string) : M (list string * list string) :=
  files ← lift (get_test_files test_file_dir);
  verdicts ← run_test_files files [] [];
  _ ← stop_server;
  _ ← connect_to_kill_server;
  mret verdicts.
End Run.
End Files.
