(* ===== verification/SqlLogicTestTheorems.v ===== *)
(** * The SQL logic tests: the theorems

    Test files are read as they are written, and test files that agree with the
    specification of SQL sessions pass. *)

From S2P Require Import Prelude Bytes Common Types Sql Expr Storage Stats Catalog Graph Plan Planner OpIter.
From S2P Require Import PlannerProofs PlanMerge LockManager OpIterTheorems TranslateSpec.
From S2P Require Import OptimizerTheorems PlannerTheorems MemStore MemStoreProofs MemStoreTheorems.
From S2P Require Import Mutator MutatorProofs MutatorTheorems Translate Commands Wire WireTheorems Database Conductor.
From S2P Require Import Server ServerTheorems Session SessionTheorems Client ClientTheorems EndToEnd CsvCompare SqlLogicTest.

Open Scope Z_scope.

(** ** Reading test files *)

Fixpoint no_space (s : string) : bool :=
  match s with
  | EmptyString => true
  | String _ s' => match strip_any white_space s with Some _ => false | None => no_space s' end
  end.

Lemma words_no_space s : forall fuel word, (String.length s <= fuel)%nat -> no_space s = true ->
  word +:+ s <> EmptyString -> words_from fuel s word = [srev_app word s].
Proof.
  induction s as [|x s IH]; intros fuel word Hf Hn Hw.
  - assert (words_from fuel EmptyString word = [srev word]) as ->; [|done].
    destruct word as [|y word]; [by destruct Hw|]. by destruct fuel.
  - cbn [String.length] in Hf. destruct fuel as [|fuel]; [lia|]. cbn [words_from no_space] in *.
    destruct (strip_any white_space (String x s)); [done|]. rewrite IH; [done|lia|done|done].
Qed.

Lemma word_step x s n word : strip_any white_space (String x s) = None ->
  words_from (S n) (String x s) word = words_from n s (String x word).
Proof. intros E. cbn [words_from]. by rewrite E. Qed.

Lemma word_end s n x word : words_from (S n) (String " " s) (String x word) = srev (String x word) :: words_from n s EmptyString.
Proof. done. Qed.

(** The two words of an expectation. *)
Lemma split_two kw path : kw = "match" \/ kw = "omatch" -> no_space path = true -> path <> EmptyString ->
  split_whitespace (kw +:+ " " +:+ path) = [kw; path].
Proof.
  intros [-> | ->] Hn He; unfold split_whitespace.
  - change (words_from (6 + String.length path)
      (String "m" (String "a" (String "t" (String "c" (String "h" (String " " path)))))) EmptyString = ["match"; path]).
    cbn [Nat.add]. rewrite !word_step, word_end by reflexivity. by rewrite words_no_space.
  - change (words_from (7 + String.length path)
      (String "o" (String "m" (String "a" (String "t" (String "c" (String "h" (String " " path))))))) EmptyString = ["omatch"; path]).
    cbn [Nat.add]. rewrite !word_step, word_end by reflexivity. by rewrite words_no_space.
Qed.

Definition print_expectation (e : TestExpectation) : string :=
  match e with
  | TestOk => "statement ok"
  | TestErr => "statement err"
  | ResultMatch is_ordered path => (if is_ordered then "omatch" else "match") +:+ " " +:+ path
  end.

Definition printable (e : SQLLogicTestEntry) : Prop :=
  kept_line (Some (command e)) = Some (command e) /\
  match expectation e with
  | ResultMatch _ path => no_space path = true /\ path_extension path = Some "csv"
  | _ => True
  end.

(** The lines of a file, with comments, empty and unreadable lines among them. *)
Inductive noisy : list string -> list (option string) -> Prop :=
| noisy_nil : noisy [] []
| noisy_skip line ls lines : kept_line line = None -> noisy ls lines -> noisy ls (line :: lines)
| noisy_line l ls lines : noisy ls lines -> noisy (l :: ls) (Some l :: lines).

Definition print_entries (es : list SQLLogicTestEntry) : list string :=
  es ≫= (fun e => [print_expectation (expectation e); command e]).

Lemma parse_print_expectation e c : printable (mkEntry e c) -> parse_expectation (print_expectation e) = Ok e.
Proof.
  intros [_ Hp]. destruct e as [| |is_ordered path]; [vm_compute; reflexivity..|]. cbn in Hp. destruct Hp as [Hn He].
  unfold parse_expectation, print_expectation. rewrite split_two; [|by destruct is_ordered; auto|done|by intros ->].
  destruct is_ordered; cbn; by rewrite decide_True.
Qed.

Lemma kept_expectation e : kept_line (Some (print_expectation e)) = Some (print_expectation e).
Proof. destruct e as [| |[] path]; reflexivity. Qed.

(** Test files are read as they are written: entries printed line by line, with
    comments, empty and unreadable lines anywhere between them, are parsed back. *)
Theorem parse_file_roundtrip `{TestFiles Rd} path lines es :
  file_lines path = inr lines -> noisy (print_entries es) lines -> Forall printable es -> parse_file path = Ok es.
Proof.
  intros Ef Hn Hp. unfold parse_file. rewrite Ef.
  assert (forall ls, noisy ls lines -> Forall (fun l => kept_line (Some l) = Some l) ls -> omap kept_line lines = ls) as Hk.
  { clear. induction 1 as [|line ls lines Hl Hn IH|l ls lines Hn IH]; intros HF; cbn [omap list_omap];
      [done|by rewrite Hl; apply IH|]. apply Forall_cons in HF as [-> HF]. f_equal. by apply IH. }
  rewrite (Hk _ Hn); [|].
  - clear -Hp. induction Hp as [|[e c] es Hp HF IH]; [done|]. cbn [parse_lines print_entries mbind list_bind app expectation command].
    rewrite (parse_print_expectation e c Hp). mstep. fold (print_entries es). by rewrite IH.
  - clear -Hp. induction Hp as [|[e c] es [Hc _] HF IH]; [constructor|]. constructor; [apply kept_expectation|]. by constructor.
Qed.

Lemma parse_file_roundtrip_witness :
  parse_file (H := Build_TestFiles (list (list string))
      (fun _ => inr [Some "# tests"; Some "statement err"; None; Some "select"; Some EmptyString; Some "omatch a/b.csv"; Some "q"])
      (fun _ => None) (fun _ => inl EmptyString) (fun _ _ => None) (fun l => l) (fun _ => EmptyString)) "f" =
    Ok [mkEntry TestErr "select"; mkEntry (ResultMatch true "a/b.csv") "q"].
Proof.
  eapply parse_file_roundtrip; [reflexivity|..].
  - repeat first [apply noisy_nil | apply noisy_skip; [vm_compute; reflexivity|] | apply noisy_line].
  - repeat constructor; vm_compute; reflexivity.
Defined.

(** ** Verdicts *)

Section Verdict.
Context `{Chrono, DefaultHasher, TestFiles Rd, !CsvCrate Rd}.

(** The writer takes the records one after the other. *)
Definition writable (records : list (list string)) : Prop :=
  forall before r after, records = before ++ r :: after -> csv_refuses before r = None.

Lemma write_records_ok tuples records : Forall2 (fun t r => mapM_o Field_display (field_vals t) = Ok r) tuples records ->
  forall written, writable (written ++ records) -> write_records written tuples = Ok (written ++ records).
Proof.
  induction 1 as [|t r tuples records Et HF IH]; intros written Hw; cbn [write_records]; [by rewrite app_nil_r|].
  rewrite Et. mstep. rewrite (Hw written r records eq_refl).
  rewrite IH by (by rewrite <- app_assoc). by rewrite <- app_assoc.
Qed.

(** A test with expected rows passes exactly when the printed rows are those of the
    expected file: in the same order for [omatch], in any order for [match] (as
    long as no hashes collide). *)
Lemma result_match_verdict path expected sc tuples paging l1 l2 fuel :
  csv_from_path path = inr expected -> csv_yields expected l1 ->
  Forall2 (fun t r => mapM_o Field_display (field_vals t) = Ok r) tuples l2 -> writable l2 ->
  csv_yields (csv_written l2) l2 -> (length l1 < fuel)%nat -> (length l2 < fuel)%nat ->
  meets fuel (ResultMatch true path) (RQueryResult (SelectResult sc tuples paging)) = Ok (bool_decide (l1 = l2)) /\
  exists same, meets fuel (ResultMatch false path) (RQueryResult (SelectResult sc tuples paging)) = Ok same /\
    (l1 ≡ₚ l2 -> same = true) /\ (collision_free l1 l2 -> same = true -> l1 ≡ₚ l2).
Proof.
  intros Ep Y1 HF Hw Y2 F1 F2. cbn [meets]. rewrite Ep. cbn [csv_err get_tuples ok_or]. mstep.
  rewrite (write_records_ok tuples l2 HF []) by done. mstep. cbn [app].
  rewrite (ordered_ok None expected l1 Y1 (csv_written l2) l2 fuel Y2 F1). cbn [map_csv first_fields].
  destruct (unordered_ok None expected (csv_written l2) l1 l2 fuel Y1 Y2 F1 F2) as (same & included & -> & _ & Hp & _ & Hc).
  cbn [map_csv first_fields] in *. rewrite !list_fmap_id in *. split; [done|]. exists same. split; [done|].
  split; [done|]. intros Hf. by apply Hc.
Qed.
End Verdict.

(** ** Running *)

Section Harness.
Context `{Profile, Chrono, Cbor, !CborLaws, SqlParser, DbHash, MapOrder, !MapOrderLaws, WireCodec, !WireLaws}.
Context {St It G Rd Re : Type} `{!StorageTrait St It, !StorageLaws (St := St) (It := It), !Rng G, !RngLaws}.
Context `{!CsvCrate Rd, !FileSystem Rd, !TestFiles Re, !CsvCrate Re, DefaultHasher}.
Abbreviation Wd := (World St G).
Abbreviation handles := (handle_request (It := It) (Rd := Rd)).
Abbreviation sends := (fun fuel => send_and_wait (It := It) (Rd := Rd) fuel).
Abbreviation texts fuel := (fun content => send_requests_from_buffer (sends fuel 1) (Some content)).

(** The client is alone, and every read finds what was written. *)
Definition still (weather : Weather) : Prop := others weather = [] /\ inward weather = [].

Definition short (c : Command) : Prop := forall bs, command_to_vec c = inl bs -> (length bs <= 1024)%nat.

(** The text is one command. *)
Definition reads_as (text : string) (c : Command) : Prop :=
  exists t, split_into_commands text = [t] /\ parse_command t = Ok (Some c).

Lemma text_answered fuel w w' weathers text c r : Forall still weathers -> reads_as text c -> short c -> fits r ->
  handles fuel w 1 c = Some (w', Some (1, r)) ->
  texts fuel text (w, weathers) = ((w', tail weathers), Ok [on_wire r]).
Proof.
  intros Hs (t & Et & Ep) Hc Hf E. unfold send_requests_from_buffer. rewrite Et. cbn [handle_commands].
  unfold client_handle_command. rewrite Ep.
  assert (calm (It := It) (Rd := Rd) fuel 1 (w, weathers) c /\
          call (It := It) (Rd := Rd) fuel 1 c (w, weathers) = ((w', tail weathers), Ok (on_wire r))) as [Hcalm Hcall].
  { unfold calm, call, arrives_whole. cbn [fst snd].
    assert (still (default (mkWeather [] [] []) (head weathers))) as [Ho Hi] by (destruct Hs; [by split|done]).
    rewrite Ho, Hi. cbn [foldl]. rewrite E. split; [|done].
    split; [|by intros ? ? ? [= <- <- <-]]. intros bs Hb. specialize (Hc bs Hb). cbn [head default]. lia. }
  unfold mbind, stm_bind. cbn [lift]. by rewrite exchange_is_call, Hcall.
Qed.

Lemma still_tail weathers : Forall still weathers -> Forall still (tail weathers).
Proof. by destruct 1. Qed.

(** What a test of statement [sql], answered within [P], has to look like. *)
Definition test_agrees (t : SQLLogicTestEntry) (sql : string) (P : QueryResult -> Prop) : Prop :=
  reads_as (command t) (DB (ExecuteSQL sql)) /\ short (DB (ExecuteSQL sql)) /\
  forall qr, P qr -> fits (RQueryResult qr) /\
    exists n, forall fuel, (n <= fuel)%nat -> meets fuel (expectation t) (on_wire (RQueryResult qr)) = Ok true.

Inductive tests_agree : list SQLLogicTestEntry -> list string -> list (QueryResult -> Prop) -> Prop :=
| agree_nil : tests_agree [] [] []
| agree_cons t ts sql sqls P Ps : test_agrees t sql P -> tests_agree ts sqls Ps ->
    tests_agree (t :: ts) (sql :: sqls) (P :: Ps).

Lemma run_entries_ok a sqls a' Ps k : script_spec a sqls a' Ps k -> forall tests N w,
  tests_agree tests sqls Ps -> hosted N 1 w a -> (k <= N)%nat ->
  exists n w', hosted (N - k) 1 w' a' /\
    forall fuel weathers, (n <= fuel)%nat -> Forall still weathers ->
      exists weathers', Forall still weathers' /\
        run_entries fuel (sends fuel 1) tests (w, weathers) = ((w', weathers'), Ok None).
Proof.
  induction 1 as [a|a sql st a1 P k sqls a2 Ps ks Ep Sp Ss IH]; intros tests N w Ht Hh Hk.
  - inversion Ht; subst. exists 0%nat, w. rewrite Nat.sub_0_r. split; [done|]. intros fuel ws _ Hw. by exists ws.
  - inversion Ht as [|t ts ? ? ? ? (Hr & Hsh & Hm) Hts]; subst.
    destruct (hosted_sql (It := It) (Rd := Rd) N 1 w a sql st a1 P k Hh Ep Sp) as (n1 & w1 & qr & HP & Hh1 & E1); [lia|].
    destruct (Hm qr HP) as [Hf [n3 Em]].
    destruct (IH ts (N - k)%nat w1 Hts Hh1) as (n2 & w2 & Hh2 & E2); [lia|].
    exists (n1 + n2 + n3)%nat, w2. split; [by rewrite Nat.sub_add_distr|]. intros fuel ws Hfu Hw.
    destruct (E2 fuel (tail ws)) as (ws' & Hw' & E2'); [lia|by apply still_tail|]. exists ws'. split; [done|].
    cbn [run_entries]. unfold entry_run.
    erewrite stm_bind_ok; [|apply (text_answered fuel w w1 ws _ _ _ Hw Hr Hsh Hf); apply E1; lia].
    cbn [lift]. rewrite (Em fuel) by lia. by erewrite stm_bind_ok by reflexivity.
Qed.

(** The commands of the harness and their answers can be sent. *)
Record harness_fits : Prop := {
  hf_short : Forall short [System (Create "testdb"); System (Connect "testdb"); System Reset; System Shutdown];
  hf_fits : Forall fits [SystemMsg "Created database testdb"; SystemMsg "Connected to database testdb";
                         SystemMsg "Reset server."; RShutdown];
}.

Lemma harness_reads : reads_as "\r testdb" (System (Create "testdb")) /\ reads_as "\c testdb" (System (Connect "testdb")) /\
  reads_as "\reset" (System Reset) /\ reads_as ("\shutdown" +:+ String nl EmptyString) (System Shutdown).
Proof. split_and!; eexists; split; vm_compute; reflexivity. Qed.

Lemma must_succeed_ok fuel w w' weathers text c r : Forall still weathers -> reads_as text c -> short c -> fits r ->
  response_is_ok (on_wire r) = true -> handles fuel w 1 c = Some (w', Some (1, r)) ->
  must_succeed (sends fuel 1) text (w, weathers) = ((w', tail weathers), Ok tt).
Proof.
  intros Hw Hr Hs Hf Ho E. unfold must_succeed. rewrite (text_answered fuel w w' weathers text c r) by done.
  cbn [head unwrap_opt]. mstep. by rewrite Ho.
Qed.

(** A test file that agrees with the specification and stores [k] rows and tables. *)
Definition file_agrees (path name : string) (k : nat) : Prop :=
  exists tests sqls a Ps, parse_file path = Ok tests /\ path_file_name path = Some name /\
    script_spec (mkA Catalog_new ∅) sqls a Ps k /\ tests_agree tests sqls Ps.

Lemma run_test_file_ok path name k N w : harness_fits -> file_agrees path name k -> vacant N 1 w -> (k <= N)%nat ->
  exists n w', vacant (N - k) 1 w' /\
    forall fuel weathers, (n <= fuel)%nat -> Forall still weathers ->
      exists weathers', Forall still weathers' /\
        run_test_file fuel (sends fuel 1) path (w, weathers) = ((w', weathers'), Ok (name, true)).
Proof.
  intros [Hs Hf] (tests & sqls & a & Ps & Ep & En & Sp & Ht) Hv Hk.
  repeat (apply Forall_cons in Hs as [? Hs]; apply Forall_cons in Hf as [? Hf]).
  destruct harness_reads as (R1 & R2 & R3 & _).
  destruct (created_and_connected (It := It) (Rd := Rd) N 1 w "testdb" Hv) as (w1 & w2 & Hh & E1 & E2).
  destruct (run_entries_ok _ _ _ _ _ Sp tests N w2 Ht Hh Hk) as (n & w3 & Hh3 & E3).
  destruct (reset_handled (It := It) (Rd := Rd) _ _ _ _ Hh3) as (w4 & Hv4 & E4). exists n, w4. split; [done|]. intros fuel ws Hfu Hw.
  pose proof (still_tail ws Hw) as Hw1. pose proof (still_tail _ Hw1) as Hw2.
  destruct (E3 fuel _ Hfu Hw2) as (ws3 & Hw3 & E3'). exists (tail ws3). split; [by apply still_tail|]. unfold run_test_file.
  erewrite stm_bind_ok; [|by apply (must_succeed_ok fuel w w1 ws _ _ (SystemMsg "Created database testdb") Hw R1)].
  erewrite stm_bind_ok; [|by apply (must_succeed_ok fuel w1 w2 _ _ _ (SystemMsg "Connected to database testdb") Hw1 R2)].
  rewrite En. cbn [lift]. erewrite stm_bind_ok by reflexivity.
  rewrite Ep. erewrite stm_bind_ok by reflexivity.
  erewrite stm_bind_ok; [|exact E3'].
  erewrite stm_bind_ok; [|by apply (must_succeed_ok fuel w3 w4 _ _ _ (SystemMsg "Reset server.") Hw3 R3)]. done.
Qed.

Lemma run_test_files_ok files names ks : harness_fits -> Forall3 file_agrees files names ks -> forall N w,
  vacant N 1 w -> (sum_list ks <= N)%nat ->
  exists n w', vacant (N - sum_list ks) 1 w' /\
    forall fuel weathers succeeded failed, (n <= fuel)%nat -> Forall still weathers ->
      exists weathers', Forall still weathers' /\
        run_test_files fuel (sends fuel 1) files succeeded failed (w, weathers) =
        ((w', weathers'), Ok (succeeded ++ names, failed)).
Proof.
  intros Hc. induction 1 as [|path name k files names ks Hp Ha IH]; intros N w Hv Hk.
  - exists 0%nat, w. cbn [sum_list_with]. rewrite Nat.sub_0_r. split; [done|]. intros fuel ws sc fl _ Hw. exists ws. split; [done|].
    by rewrite app_nil_r.
  - cbn [sum_list_with id] in *. destruct (run_test_file_ok path name k N w Hc Hp Hv) as (n1 & w1 & Hv1 & E1); [lia|].
    destruct (IH (N - k)%nat w1 Hv1) as (n2 & w2 & Hv2 & E2); [lia|].
    exists (n1 + n2)%nat, w2. split; [by rewrite Nat.sub_add_distr|]. intros fuel ws sc fl Hfu Hw.
    destruct (E1 fuel ws) as (ws1 & Hw1 & E1'); [lia|done|].
    destruct (E2 fuel ws1 (sc ++ [name]) fl) as (ws2 & Hw2 & E2'); [lia|done|]. exists ws2. split; [done|].
    cbn [run_test_files]. erewrite stm_bind_ok; [|exact E1']. cbv beta iota. rewrite E2'. by rewrite <- app_assoc.
Qed.

Lemma shutdown_handled N w : vacant N 1 w ->
  exists w', running w' = 1%nat /\ shutdown_signal (w_server w') = true /\ w_listening w' = true /\
    forall fuel, handles fuel w 1 (System Shutdown) = Some (w', Some (1, RShutdown)).
Proof.
  intros [V1 VL _ _ _ _ _]. eexists. split; [|split; [|split; [|intros fuel; unfold handle_request; rewrite V1, lookup_singleton_eq; reflexivity]]].
  - unfold running. cbn. by rewrite delete_singleton_eq, map_size_empty, VL.
  - done.
  - exact VL.
Qed.

(** C14: test files that agree with the specification pass, one after the other,
    and then the server stops.  The harness runs a directory of test files against
    a server that was just started over any storage manager that keeps the
    promises of the storage interface.  When the statements of every file form a
    script that the specification supports from an empty database, the files
    together store no more rows and tables than there is room for (65535 at most),
    every answer the specification allows meets the expectation written for it and
    can be held in memory, every command has at most 1024 bytes and is found by one
    read of the server, and no other client acts meanwhile, the
    harness ends, reports every file as succeeded in the order of the directory,
    and leaves a server in which no session and no accepting thread runs: tables
    of one file are gone before the next file starts. *)
Theorem sqllogictests_pass mg budget counter w dir files names ks :
  fresh mg budget -> Z.of_nat budget <= 65535 -> harness_fits ->
  accept (start_server mg counter) = Some (w, None) ->
  get_test_files dir = Ok files -> Forall3 file_agrees files names ks -> (sum_list ks <= budget)%nat ->
  exists n w', running w' = 0%nat /\
    forall fuel weathers, (n <= fuel)%nat -> Forall still weathers ->
      exists weathers', run_sqllogictests_from_files fuel (sends fuel 1) dir (w, weathers) =
        ((w', weathers'), Ok (names, [])).
Proof.
  intros F Hb Hc Ew Ed Ha Hk.
  destruct (run_test_files_ok files names ks Hc Ha budget w (accepted_vacant (It := It) (Rd := Rd) mg counter w budget Ew F Hb) Hk) as (n & w1 & Hv & E).
  destruct (shutdown_handled _ w1 Hv) as (w2 & Hr & Hs & Hl & E2). destruct Hc as [Hs' Hf].
  repeat (apply Forall_cons in Hs' as [? Hs']; apply Forall_cons in Hf as [? Hf]).
  destruct harness_reads as (_ & _ & _ & R4).
  exists n, (mkWorld (w_server w2) (w_sessions w2) (w_next w2) false). split.
  { unfold running in *. rewrite Hl in Hr. cbn. lia. }
  intros fuel ws Hfu Hw. destruct (E fuel ws [] [] Hfu Hw) as (ws1 & Hw1 & E1). exists (tail ws1).
  unfold run_sqllogictests_from_files. rewrite Ed. cbn [lift]. erewrite stm_bind_ok by reflexivity.
  erewrite stm_bind_ok; [|exact E1].
  erewrite stm_bind_ok; [|unfold stop_server; rewrite (text_answered fuel w1 w2 ws1 _ _ RShutdown Hw1 R4) by done; reflexivity].
  erewrite stm_bind_ok; [|unfold connect_to_kill_server, accept; rewrite Hl, Hs; reflexivity]. done.
Qed.
End Harness.

(** ** Witness *)

Definition demo_test_lines : list (option string) :=
  Some <$> ["# a table with one row"; "statement ok"; "create t"; EmptyString; "statement ok"; "insert t 7";
            "match  expected/t.csv"; "select t"].

Definition demo_files : TestFiles (list (list string)) := {|
  file_lines path := if String.eqb path "tests/none" then inl "not found" else inr demo_test_lines;
  read_dir _ := Some [(true, "expected"); (false, "first"); (false, "second")];
  csv_from_path _ := inr [["7"]];
  csv_refuses _ _ := None;
  csv_written l := l;
  response_debug _ := EmptyString;
|}.

Definition demo_tests : list SQLLogicTestEntry :=
  [mkEntry TestOk "create t"; mkEntry TestOk "insert t 7"; mkEntry (ResultMatch false "expected/t.csv") "select t"].

Ltac solve_test :=
  split; [eexists; split; vm_compute; reflexivity|];
  split; [intros ? [= <-]; vm_compute; lia|].

Lemma demo_file_agrees path name : path = "tests/first" /\ name = "first" \/ path = "tests/second" /\ name = "second" ->
  file_agrees (H := true) (H0 := no_calendar) (H3 := demo_parser) (H7 := bit_wire) (TestFiles0 := demo_files)
    (CsvCrate1 := list_csv) (H10 := injective_hasher) path name 2.
Proof.
  destruct demo_script as (Ps & Sp & ->). intros Hp. exists demo_tests. eexists _, _, _.
  split; [destruct Hp as [[-> ->]|[-> ->]]; vm_compute; reflexivity|].
  split; [destruct Hp as [[-> ->]|[-> ->]]; vm_compute; reflexivity|]. split; [exact Sp|].
  constructor; [|constructor; [|constructor; [|constructor]]]; solve_test.
  - intros qr ->. split; [intros bs [= <-]; vm_compute; reflexivity|]. by exists 0%nat.
  - intros qr ->. split; [intros bs [= <-]; vm_compute; reflexivity|]. by exists 0%nat.
  - intros qr (tab & sc & full & Hs & M & ->). destruct (demo_selected tab sc full Hs M) as [-> ->].
    split; [intros bs [= <-]; vm_compute; reflexivity|]. exists 2%nat. intros [|[|fuel]] Hf; [lia..|].
    vm_compute. reflexivity.
Qed.

Lemma sqllogictests_pass_witness :
  exists n w w', accept demo_start = Some (w, None) /\ running w' = 0%nat /\ forall fuel, (n <= fuel)%nat ->
    exists weathers', run_sqllogictests_from_files (H := demo_files) (H0 := no_calendar) (H1 := injective_hasher)
      (CsvCrate0 := list_csv) fuel
      (send_and_wait (H := true) (H0 := no_calendar) (H1 := bit_cbor) (H2 := demo_parser) (H3 := demo_hash) (H4 := demo_order)
         (H5 := bit_wire) (It := Mem.ValueIterator) (Rd := list (list string)) (StorageTrait0 := MemStore_trait (H := true))
         (Rng0 := zero_rng) (CsvCrate0 := list_csv) (FileSystem0 := no_files) fuel 1) "tests" (w, []) =
    ((w', weathers'), Ok (["first"; "second"], [])).
Proof.
  destruct (accept demo_start) as [[w o]|] eqn:Ew; [|discriminate Ew].
  assert (o = None) as -> by (by injection Ew as _ <-).
  destruct (@sqllogictests_pass true no_calendar bit_cbor bit_cbor_laws demo_parser demo_hash demo_order demo_order_laws
              bit_wire bit_wire_laws _ _ _ (list (list string)) (list (list string)) (MemStore_trait (H := true))
              (MemStore_laws (H := true)) zero_rng zero_rng_laws list_csv no_files demo_files list_csv injective_hasher
              demo_mg 9 1 w "tests" ["tests/first"; "tests/second"] ["first"; "second"] [2%nat; 2%nat]
              demo_fresh ltac:(lia)) as (n & w' & Hr & E).
  - split; repeat (constructor; [intros ? [= <-]; vm_compute; first [lia|reflexivity]|]); constructor.
  - exact Ew.
  - vm_compute. reflexivity.
  - constructor; [apply demo_file_agrees; by left|]. constructor; [apply demo_file_agrees; by right|constructor].
  - vm_compute. lia.
  - exists n, w, w'. split; [reflexivity|]. split; [exact Hr|]. intros fuel Hf. exact (E fuel [] Hf (Forall_nil_2 _)).
Defined.
