(* ===== verification/Minigrep.v ===== *)
(** * minigrep

    [src/src/minigrep/src]: the search for lines that contain a text.  Unicode
    lower case, the environment and the file system are parameters. *)

From S2P Require Import Prelude Common Types Commands.

Open Scope Z_scope.

(** [str::lines]: a carriage return before the line feed is no part of the line,
    and nothing follows the last line feed. *)
Fixpoint lines_of (pieces : list string) : list string :=
  match pieces with
  | [] => []
  | [last] => if String.eqb last EmptyString then [] else [last]
  | piece :: pieces => default piece (strip_last cr piece) :: lines_of pieces
  end.

Definition lines (contents : string) : list string := lines_of (split_on nl contents).

(** [str::contains] *)
Fixpoint contains (query line : string) : bool :=
  starts_with query line ||
  match line with EmptyString => false | String _ line' => contains query line' end.

Definition search (query contents : string) : list string :=
  filter (fun line => contains query line = true) (lines contents).

Section Search.
Context (to_lowercase : string -> string).

Fixpoint push_matching (query : string) (ls results : list string) : list string :=
  match ls with
  | [] => results
  | line :: ls => push_matching query ls (if contains query (to_lowercase line) then results ++ [line] else results)
  end.

Definition search_case_insensitive (query contents : string) : list string :=
  push_matching (to_lowercase query) (lines contents) [].

Record Config := mkConfig { query : string; file_path : string; ignore_case : bool }.

(** [ignore_case_set]: is the variable [IGNORE_CASE] set? *)
Definition Config_build (ignore_case_set : bool) (args : list string) : outcome string Config :=
  match tail args with
  | [] => Err "Didn't get a query string"
  | [_] => Err "Didn't get a file path"
  | query :: file_path :: _ => Ok (mkConfig query file_path ignore_case_set)
  end.

(** The lines that are printed; [read_to_string] fails with a message. *)
Definition run (read_to_string : string -> string + string) (config : Config) : outcome string (list string) :=
  match read_to_string (file_path config) with
  | inl e => Err e
  | inr contents =>
      Ok (if ignore_case config then search_case_insensitive (query config) contents else search (query config) contents)
  end.

(** ** What is printed *)

Lemma strip_prefix_Some p : forall s s', strip_prefix p s = Some s' <-> s = p +:+ s'.
Proof.
  induction p as [|a p IH]; intros s s'; cbn [strip_prefix].
  - split; [by intros [= ->]|by intros ->].
  - destruct s as [|b s]; [done|]. rewrite string_cons_app. destruct (Ascii.eqb_spec a b) as [->|Hne].
    + rewrite IH. split; [by intros ->|by intros [=]].
    + split; [done|]. intros [=]. congruence.
Qed.

Lemma contains_spec q l : contains q l = true <-> exists a b, l = a +:+ q +:+ b.
Proof.
  induction l as [|x l IH]; cbn [contains]; rewrite orb_true_iff; unfold starts_with; rewrite bool_decide_eq_true.
  - split.
    + intros [[s E%strip_prefix_Some]|]; [|done]. by exists EmptyString, s.
    + intros (a & b & E). left. destruct a as [|y a]; [|done]. exists b. by apply strip_prefix_Some.
  - rewrite IH. split.
    + intros [[s E%strip_prefix_Some]|(a & b & ->)]; [by exists EmptyString, s|by exists (String x a), b].
    + intros (a & b & E). destruct a as [|y a]; [left; exists b; by apply strip_prefix_Some|].
      right. exists a, b. by injection E.
Qed.

Lemma push_matching_filter q ls : forall results,
  push_matching q ls results = results ++ filter (fun line => contains q (to_lowercase line) = true) ls.
Proof.
  induction ls as [|l ls IH]; intros results; cbn [push_matching]; [by rewrite app_nil_r|].
  rewrite IH. destruct (contains q (to_lowercase l)) eqn:E.
  - rewrite filter_cons_True by done. by rewrite <- app_assoc.
  - rewrite filter_cons_False by congruence. done.
Qed.

(** What is printed are the lines of the file that contain the text, in order and
    as often as they occur; when case is ignored, the lines whose lower case
    contains the lower case of the text. *)
Lemma run_prints read config contents : read (file_path config) = inr contents ->
  run read config = Ok (filter (fun line =>
    (if ignore_case config then contains (to_lowercase (query config)) (to_lowercase line)
     else contains (query config) line) = true) (lines contents)).
Proof.
  intros E. unfold run. rewrite E. f_equal. destruct (ignore_case config) eqn:Ei.
  - unfold search_case_insensitive. rewrite push_matching_filter. by apply list_filter_ext_in.
  - by apply list_filter_ext_in.
Qed.
End Search.
